(* ===== verification/_CoqProject ===== *)
-Q . S2P
Prelude.v
FloatFacts.v
Model.v
SegUtil.v
Source.v
Ignition.v
Windows.v
Idling.v
RefuelDet.v
RechargeDet.v
SegRepo.v
Paging.v
Daily.v
Validate.v
SignalsRepo.v
Limits.v
Base64.v
Blobcrypt.v
LatestFold.v
LatestStore.v
Coverage.v
Coordinates.v
Decode.v
Blobs.v
Ingest.v
IngestInv.v
IngestLogic.v
IngestSafe.v
Sql.v
Backfill.v
LakeSource.v
LakeLatest.v
KvLatest.v
Rollup.v
RollupInv.v
RollupRuns.v
RawEvents.v
LakeFetch.v
SqlFilter.v
Aggregations.v
AggSpec.v
AggMeaning.v
Duration.v
GraphArgs.v
GraphLatest.v
Events.v
EventRollup.v
EventRuns.v
Retention.v
Poison.v
RunLoop.v
TypeRollup.v
PayloadBudget.v
FetchLookup.v
Auth.v
FetchScope.v
FetchRpc.v
Graph.v
