(* ===== verification/Prelude.v ===== *)
(** * DIMO dq: a verification library

    dq answers GraphQL and gRPC queries about vehicle telemetry kept in a
    DuckLake lake, and runs the materializer that decodes raw cloud events into
    that lake and mirrors the latest values into a NATS key-value bucket. This
    library models the parts of it that decide something in Go, and proves what
    makes them correct. Code outside the repository (DuckDB, NATS JetStream,
    AES-GCM, the time zone database) is a parameter: a class of
    operations, with a second class for the documented laws the proofs rely on,
    and an instance that shows the laws can hold.

    ** How the program fits together

    A query resolves in a [Repository] (internal/repositories), which validates
    the request, asks the backend for rows or for detected segments, and folds
    the answers. Segments come from a detector (internal/segments) that reads a
    [SignalSource]; daily activity is accounted from segments. Requests pass the
    limiters (internal/limits) first. On the write side the materializer decodes
    a batch of events, publishes its latest values to the bucket
    (internal/latestkv) and commits rows and cursor to the lake; a coverage record
    tells readers whether a missing key proves that there is no data. Blobs are
    sealed and opened with pkg/blobcrypt. Raw cloud events are read back through the
    fetch service of internal/service/duck, by the resolvers of internal/graph and by a
    gRPC port (internal/fetch), both of which authorize the subject against the
    caller's token and the identity service (internal/auth, internal/identity).

    ** Files

    - [Prelude]: instants, durations and machine integers as the Go code has
      them, IEEE double arithmetic on [SpecFloat], [sort.Search], stable sorting,
      the error monad [let*], the hint database [dq], tactics, list and string
      lemmas. [FloatFacts]: exactness and monotonicity of the float operations.
      [Model]: the data types of graph/model and qtypes.
    - [SegUtil], [Source], [Ignition], [Windows], [Idling], [RefuelDet],
      [RechargeDet]: internal/segments. [Source] is the interface (operations and
      laws) the detectors are proved against. The theorems say which segments each
      detector returns, that their ranges are ordered, disjoint and within the
      window, and that the two implementations of idling agree.
    - [SegRepo], [Paging], [Daily], [Validate], [SignalsRepo]:
      internal/repositories: segment queries with enrichment, location gap fill
      and cursor pagination; daily activity over time zones; validation; signal
      aggregation, summaries, events and snapshots.
    - [Limits]: internal/limits as step relations over any interleaving.
    - [Base64], [Blobcrypt]: pkg/blobcrypt over an authenticated cipher.
    - [LatestFold], [LatestStore], [Coverage]: internal/latestkv: the fold of a
      reading into an entry, the compare-and-swap publication by any number of
      writers, the merge from the rollup, and the coverage contract.
    - [Coordinates], [Decode]: internal/materializer, from a batch of raw events to
      decoded rows (decode.go, location.go, defaultmodule.go, registry.go). The
      coordinate store is proved to compute a greedy grouping of the readings;
      decoding is proved to lose no event but repeated ones, whatever a vendor
      module does.
    - [Blobs]: externalized payloads (pkg/eventrepo/s3_reader.go, resolveBlobs).
    - [Ingest]: the decode pass of ducklake.go ([RunOnce] and what it calls) in a
      state monad over the lake; each call takes the next event of the schedule,
      which says what other actors did before it and whether it fails or takes
      effect. [IngestInv], [IngestLogic], [IngestSafe]: the invariant, a program
      logic of triples, and the theorem that no schedule makes the cursor pass a
      retained row that is not handled, against the decoder's interface
      ([DecoderLaws], which [Decode.decodeEvents] implements) -- as long as the
      paging key tells rows apart, which it does not ([type_variant_lost]).
    - [Backfill]: the re-decoding of a time range ([backfill_repairs]). [Retention]:
      the deletion of old decoded rows ([prune_decoded_spec]).

    - [Sql]: what the statements over lake.signals share: the read deduplication,
      aggregates, orders, microseconds. A table is a list of rows in an order that
      means nothing. [LakeSource]: the statements of segments_source.go, which
      implement the [SignalSource] interface of [Source] ([lake_source_laws]).
      [LakeLatest]: latest values, summaries and point locations, from the scan,
      from the rollup table and from the union of both. [KvLatest]: the same
      answers from a cache entry and the choice between the three; that the choice
      does not matter is [dispatch_exact], from [kv_answers_scan] and
      [rollup_serves_scan], and where it does, [cache_and_lake_disagree].
    - [Rollup]: daily_rollup.go, the refresh of the rollup table, as programs over a
      catalog ([prog] of [Prelude]) that take the fate of each call from a list; the
      merge of a day into the table is proved to be the recompute
      ([fold_is_recompute]). [RollupInv]: a logic of triples with a postcondition for
      success and one for failure, the invariant, and a step relation of commits,
      refreshes, hand-offs and restarts. [RollupRuns]: the summaries of [LakeLatest]
      are exact along every disciplined run ([daily_rollup_exact]), a refresh whose
      calls succeed completes ([refresh_completes]), and what breaks without the
      discipline ([mismatch_wedges], [daily_rollup_gaps]).
    - [SqlFilter]: the value filters of queries.go, as text and bound arguments; read
      back by a small parser of that text they mean what the filter says
      ([filter_sql_means]). [Aggregations]: the two statements of aggregations.go,
      over the readings and aggregates of [Sql]; [AggSpec]: what they compute without
      join and grouping: rows are well typed ([aggregation_rows_typed]), the batch
      over segments is a query per segment ([batch_is_per_segment]). [AggMeaning]: what
      each aggregation makes of a list of readings and which readings a filter keeps,
      without the statement's text or the code's helpers. [Duration]:
      time.ParseDuration. [GraphArgs]: internal/graph from the collected fields of a
      query to its resolvers: each field of the signals query answers its own
      aggregate, as [AggMeaning] has it ([signals_query_exact]); [GraphLatest]: each field of signalsLatest
      shows the newest reading ([latest_query_exact]).
    - [Events]: events.go, the reads of events and their summaries
      ([event_reads_exact], [range_counts_exact]). [EventRollup]: the flush of the
      summary table events_latest and the marker read at boot, as [prog]rams;
      [EventRuns]: with the decode pass, the backfill and restarts it keeps the table
      exact or marked, as long as no restart comes between a pass and its flush
      ([event_rollup_exact]); what happens then ([event_rollup_gaps]). [RunLoop]: the loop around it all in materializer.go,
      what ends it and what each round does ([loop_contract]).
    - [Poison]: poison.go, when a broken catalog session ends the process
      ([recovery_exact]) and when it does not ([recovery_livelock]).
    - [RawEvents]: raw.go and the statement parts of lake_fetch.go over
      lake.raw_events: filters, the reduction to one row per identity, voiding.
      [LakeFetch]: the fetch service on it: searches, lookups by index, payloads,
      type summaries. [TypeRollup]: the type rollup answers as the scan
      ([type_rollup_exact]). [PayloadBudget]: the goroutines that resolve a list's
      payloads, as a step relation: what they hold at once is bounded
      ([payload_memory_bound]) and their interleaving does not matter
      ([payloads_any_schedule]). [FetchLookup]: batches of ids answer as lookups one by
      one ([batch_is_lookup]).
    - [FetchScope]: the interface [EventService] of pkg/eventrepo with its law
      ([ScopedEventService]: a search reads no subject it does not name), which the
      lake implements. [Auth]: claims, directives, the gRPC interceptor, the identity
      client, the authorization of subjects. [FetchRpc]: the handlers of
      internal/fetch/rpc, proved against the interface: what a caller is answered
      depends on its own subjects' events only ([rpc_noninterference]), nothing is
      answered without claims ([fetch_port_fails_closed]), a page sent back yields its
      events ([page_roundtrip]). [Graph]: the cloud event resolvers
      ([graph_noninterference]) and the privilege gates ([gates_hide_signals], and
      what they leave open: [summary_extent_ungated]).

    ** Conventions

    A Go [time.Time] is an instant in nanoseconds since the Unix epoch (the zero
    time is a particular instant), a [time.Duration] and an [int] are 64-bit and
    wrap. A pointer that may be nil is an [option]; dereferencing nil is the error
    [Panic]. Floats are IEEE doubles ([spec_float]). A Go map is a [gmap]; where
    the code ranges over one, the order of [map_to_list] stands for Go's
    unspecified order. Functions return errors as values of [result]. Metrics and
    logs are left out.

    Fuel: [sort.Search] is run with fuel for its width, which always suffices
    ([sort_Search_spec]); the detectors recurse on their data. The day loop of
    [Daily] takes fuel because it need not end: it is proved to end, with one
    round per day, in zones whose midnights are regular ([days_loop_tiles]), and
    never to end for a zone with a skipped civil day ([daily_never_ends]). A decode
    pass takes fuel for its windows and its chunks; fuel above the size of the
    backlog suffices whatever happens ([decode_pass_safe]).

    ** What is shown

    Functional correctness of each operation on its branches; order-independence
    and idempotence of the latest-value fold; no lost acknowledged update over all
    interleavings of writers, values included; a completed merge pass covers every row; a coverage
    proof means that no lost publish is unrepaired outside a list of windows, and each
    window is a real hole ([coverage_holes]); pagination returns each segment once; limiter counts
    are exact; sealing round trips; every bound of the validator; a decode pass
    keeps the cursor honest under any failures and interleavings; the three ways to
    answer a latest-value query give the same answer; the daily rollup they read is
    exact through failures and restarts within a stated discipline, and three runs outside
    it lose rows; so is the summary of events, but for the marks a restart forgets; a selected signal field answers what the lake holds, from
    the query text to the value shown; neither server answers a token with events of subjects it may not read.

    ** Not modelled

    The execution of SQL (each modelled statement is the relation it denotes, on
    finite values), schema set-up, the rollup of signals in mode off (it runs in tests
    only), gqlgen's generated code (what it collects is an argument; the generated
    resolvers and setters have one definition per kind of body), process wiring,
    configuration, metrics, HTTP and gRPC transport.
    Parameters: vendor decode modules, the cloudevent library (header and key), DID
    decoding, the JWT validator and the claims it yields, the identity service's
    answers, the object store and its presigner, the H3 library, DuckDB's average,
    median, mode, random numbers, distances and polygons. *)

From stdpp Require Export base numbers list gmap strings sorting.
From Stdlib Require Export ZArith Lia Bool.
From Stdlib Require Export SpecFloat.

#[global] Open Scope Z_scope.

Declare Scope dq_scope.
Delimit Scope dq_scope with dq.

(** ** Machine integers

    Go's [int], [int64] and [time.Duration] are 64-bit two's complement,
    [int32] is 32-bit; arithmetic wraps. *)

Definition min_int64 : Z := - 2 ^ 63.
Definition max_int64 : Z := 2 ^ 63 - 1.

Definition wrap64 (z : Z) : Z := (z + 2 ^ 63) mod 2 ^ 64 - 2 ^ 63.

Definition in_int64 (z : Z) : Prop := min_int64 <= z <= max_int64.

(** ** Instants and durations

    A [time.Time] is the instant it denotes, in nanoseconds since the Unix
    epoch (wall clock only: locations and monotonic readings do not change any
    comparison the modelled code makes); a [time.Duration] is an [int64] of
    nanoseconds. *)

(** January 1, year 1, 00:00 UTC: the zero value of [time.Time]. *)
Definition zero_time : Z := - 62135596800 * 10 ^ 9.

Definition is_zero (t : Z) : bool := t =? zero_time.

(** [t.After(u)], [t.Before(u)], [t.Equal(u)]. *)
Definition after (t u : Z) : bool := u <? t.
Definition before (t u : Z) : bool := t <? u.
Definition tequal (t u : Z) : bool := t =? u.

(** [t.Sub(u)] saturates at the bounds of [Duration]. *)
Definition time_sub (t u : Z) : Z := Z.max min_int64 (Z.min max_int64 (t - u)).

(** [t.Add(d)]. *)
Definition time_add (t d : Z) : Z := t + d.

(** [t.Truncate(d)] rounds down to a multiple of [d] since the zero time. *)
Definition time_truncate (t d : Z) : Z :=
  if d <=? 0 then t else t - (t - zero_time) mod d.

Definition Nanosecond : Z := 1.
Definition Microsecond : Z := 1000 * Nanosecond.
Definition Millisecond : Z := 1000 * Microsecond.
Definition Second : Z := 1000 * Millisecond.
Definition Minute : Z := 60 * Second.
Definition Hour : Z := 60 * Minute.

(** [time.Duration(n) * unit]. *)
Definition duration_of (n unit : Z) : Z := wrap64 (n * unit).

(** ** IEEE 754 binary64

    Go's [float64] as the executable specification of the format shipped with
    the kernel ([SpecFloat], precision 53, maximal exponent 1024, round to
    nearest even). *)

Abbreviation float64 := spec_float.

Definition f64_add : float64 -> float64 -> float64 := SFadd 53 1024.
Definition f64_sub : float64 -> float64 -> float64 := SFsub 53 1024.
Definition f64_mul : float64 -> float64 -> float64 := SFmul 53 1024.
Definition f64_div : float64 -> float64 -> float64 := SFdiv 53 1024.
Definition f64_eqb : float64 -> float64 -> bool := SFeqb.
Definition f64_ltb : float64 -> float64 -> bool := SFltb.
Definition f64_leb : float64 -> float64 -> bool := SFleb.

(** The conversion [float64(z)] of an integer, rounding to nearest even. *)
Definition f64_of_Z (z : Z) : float64 := binary_normalize 53 1024 z 0 false.

Definition f64_zero : float64 := S754_zero false.

(** The literal [n / d] of the source, correctly rounded. *)
Definition f64_ratio (n d : Z) : float64 := f64_div (f64_of_Z n) (f64_of_Z d).

Definition f64_is_nan (x : float64) : bool :=
  match x with S754_nan => true | _ => false end.

Definition f64_is_inf (x : float64) : bool :=
  match x with S754_infinity _ => true | _ => false end.

(** [int(x)] truncates toward zero. Out of range the result is
    implementation-defined in Go; amd64 yields the minimal [int64]. *)
Definition f64_trunc (x : float64) : Z :=
  match x with
  | S754_zero _ => 0
  | S754_finite s m e =>
      let t := Z.shiftl (Zpos m) e in
      let z := if s then - t else t in
      if (min_int64 <=? z) && (z <=? max_int64) then z else min_int64
  | _ => min_int64
  end.

(** [int32(x)] on amd64. *)
Definition f64_trunc32 (x : float64) : Z :=
  let z := f64_trunc x in
  if (- 2 ^ 31 <=? z) && (z <? 2 ^ 31) then z else - 2 ^ 31.

(** [d.Seconds()]: whole seconds plus the fraction, both as [float64]. *)
Definition duration_seconds (d : Z) : float64 :=
  f64_add (f64_of_Z (Z.quot d Second))
          (f64_div (f64_of_Z (Z.rem d Second)) (f64_of_Z Second)).

(** [int(d.Seconds())] and [int32(d.Seconds())]. *)
Definition seconds_int (d : Z) : Z := f64_trunc (duration_seconds d).
Definition seconds_int32 (d : Z) : Z := f64_trunc32 (duration_seconds d).

#[global] Arguments f64_add : simpl never.
#[global] Arguments f64_sub : simpl never.
#[global] Arguments f64_mul : simpl never.
#[global] Arguments f64_div : simpl never.
#[global] Arguments f64_of_Z : simpl never.
#[global] Arguments seconds_int : simpl never.
#[global] Arguments seconds_int32 : simpl never.

(** ** Binary search

    [sort.Search(n, f)]: the loop of the Go standard library, which halves
    [[i, j)]; [n] rounds are enough ([sort_Search_spec]). *)

Fixpoint search_loop (fuel : nat) (f : nat -> bool) (i j : nat) : nat :=
  match fuel with
  | O => i
  | S fuel' =>
      if (i <? j)%nat then
        let h := ((i + j) / 2)%nat in
        if f h then search_loop fuel' f i h else search_loop fuel' f (S h) j
      else i
  end.

Definition sort_Search (n : nat) (f : nat -> bool) : nat := search_loop n f 0 n.

(** ** Sorting

    [sort.Slice] and [slices.SortFunc] order by a key; up to twelve elements the
    library uses exactly this insertion sort, above that the order of elements
    with equal keys is unspecified and the theorems that depend on it say so. *)

Section insertion_sort.
Context {A : Type} (leb : A -> A -> bool).

Fixpoint insert_sorted (x : A) (l : list A) : list A :=
  match l with
  | [] => [x]
  | y :: l' => if leb x y then x :: y :: l' else y :: insert_sorted x l'
  end.

Fixpoint isort (l : list A) : list A :=
  match l with
  | [] => []
  | x :: l' => insert_sorted x (isort l')
  end.
End insertion_sort.

(** ** Chunks

    The loop that takes [n] elements of a slice at a time: every round takes at
    least one, so the length is enough fuel. *)

Fixpoint cut {A} (fuel n : nat) (l : list A) : list (list A) :=
  match fuel, l with
  | S fuel', _ :: _ => take n l :: cut fuel' n (drop n l)
  | _, _ => []
  end.

(** ** Bytes: [[]byte(s)] *)

Definition bytes_of (s : string) : list Z :=
  map (fun c => Z.of_N (Ascii.N_of_ascii c)) (String.list_ascii_of_string s).

(** ** Errors

    A call that returns a value and an [error] is a [result]; a dereference of a
    nil pointer (or an index out of range) is a [panic]. *)

Inductive result (E A : Type) : Type :=
  | Ok (a : A)
  | Err (e : E).
#[global] Arguments Ok {E A} a.
#[global] Arguments Err {E A} e.

Definition result_bind {E A B} (m : result E A) (k : A -> result E B) : result E B :=
  match m with
  | Ok a => k a
  | Err e => Err e
  end.

Notation "'let*' x := m 'in' k" := (result_bind m (fun x => k))
  (at level 10, x pattern, m at level 100, k at level 200) : dq_scope.
#[global] Open Scope dq_scope.

(** Code that acts on a state of type [S] and returns a value or an error. *)
Definition prog (S E A : Type) : Type := S -> result E A * S.

Section prog.
Context {S E : Type}.

Definition ret {A} (a : A) : prog S E A := fun w => (Ok a, w).
Definition fail_with {A} (e : E) : prog S E A := fun w => (Err e, w).
Definition bind {A B} (m : prog S E A) (k : A -> prog S E B) : prog S E B := fun w =>
  match m w with
  | (Ok a, w') => k a w'
  | (Err e, w') => (Err e, w')
  end.
(** Runs [m] and hands its outcome, error or value, to [k]. *)
Definition try_ {A B} (m : prog S E A) (k : result E A -> prog S E B) : prog S E B := fun w =>
  let '(r, w') := m w in k r w'.
End prog.

Notation "'do!' x <- m ; k" := (bind m (fun x => k))
  (at level 10, x pattern, m at level 100, k at level 200).

(** What holds after a program, of its outcome and of the state it leaves. *)
Definition triple {S E A} (Pre : S -> Prop) (m : prog S E A) (Post : result E A -> S -> Prop) : Prop :=
  forall w, Pre w -> Post (m w).1 (m w).2.

Section triples.
Context {S E : Type}.

Lemma triple_ret {A} (Pre : S -> Prop) (a : A) (Post : result E A -> S -> Prop) :
  (forall w, Pre w -> Post (Ok a) w) -> triple Pre (ret a) Post.
Proof. intros H w Hw. by apply H. Qed.

Lemma triple_fail {A} (Pre : S -> Prop) (e : E) (Post : result E A -> S -> Prop) :
  (forall w, Pre w -> Post (Err e) w) -> triple Pre (fail_with e) Post.
Proof. intros H w Hw. by apply H. Qed.

Lemma triple_bind {A B} (Pre : S -> Prop) (m : prog S E A) (k : A -> prog S E B) Mid Post :
  triple Pre m Mid -> (forall e w, Mid (Err e) w -> Post (Err e) w) ->
  (forall a, triple (Mid (Ok a)) (k a) Post) -> triple Pre (bind m k) Post.
Proof.
  intros Hm He Hk w Hw. unfold bind. specialize (Hm w Hw). destruct (m w) as [[a|e] w'].
  - by apply Hk.
  - by apply He.
Qed.

Lemma triple_try {A B} (Pre : S -> Prop) (m : prog S E A) (k : result E A -> prog S E B) Mid Post :
  triple Pre m Mid -> (forall r, triple (Mid r) (k r) Post) -> triple Pre (try_ m k) Post.
Proof. intros Hm Hk w Hw. unfold try_. specialize (Hm w Hw). destruct (m w) as [r w']. by apply Hk. Qed.

Lemma triple_conseq {A} (Pre Pre' : S -> Prop) (m : prog S E A) (Post Post' : result E A -> S -> Prop) :
  triple Pre m Post -> (forall w, Pre' w -> Pre w) -> (forall r w, Post r w -> Post' r w) ->
  triple Pre' m Post'.
Proof. intros H H1 H2 w Hw. by apply H2, H, H1. Qed.
End triples.

(** ** Lemmas *)

Lemma time_sub_le_iff t u d :
  in_int64 d -> d < max_int64 -> time_sub t u <= d <-> t - u <= d.
Proof. unfold in_int64, time_sub, min_int64, max_int64. lia. Qed.

Lemma time_sub_exact t u : in_int64 (t - u) -> time_sub t u = t - u.
Proof. unfold in_int64, time_sub. lia. Qed.

Lemma wrap64_id z : in_int64 z -> wrap64 z = z.
Proof.
  unfold in_int64, wrap64, min_int64, max_int64. intros H.
  rewrite Z.mod_small; lia.
Qed.

Lemma wrap64_range z : in_int64 (wrap64 z).
Proof.
  unfold in_int64, wrap64, min_int64, max_int64.
  pose proof (Z.mod_pos_bound (z + 2 ^ 63) (2 ^ 64)). lia.
Qed.

Section search_facts.
Context (f : nat -> bool).

Lemma search_loop_spec fuel i j :
  (j - i <= fuel)%nat -> (i <= j)%nat ->
  (forall k, (k < i)%nat -> f k = false) ->
  (forall k, (j <= k)%nat -> f k = true \/ f k = false) ->
  (forall a b, (a <= b)%nat -> f a = true -> (b < j)%nat -> f b = true) ->
  let k := search_loop fuel f i j in
  (i <= k <= j)%nat /\ (forall x, (x < k)%nat -> f x = false) /\
  (forall x, (k <= x < j)%nat -> f x = true).
Proof.
  revert i j; induction fuel as [|fuel IH]; intros i j Hf Hij Hlo Hhi Hmono; cbn [search_loop].
  { split; [lia|]. split; [exact Hlo|]. intros; lia. }
  destruct (Nat.ltb_spec i j) as [Hlt|Hge]; [|split; [lia|]; split; [exact Hlo|]; intros; lia].
  pose proof (Nat.div_mod_eq (i + j) 2) as Hdm.
  pose proof (Nat.mod_upper_bound (i + j) 2 ltac:(lia)) as Hmb.
  set (h := ((i + j) / 2)%nat) in *.
  destruct (f h) eqn:Eh.
  - destruct (IH i h) as (Hr & Hl & Hu); try lia; try assumption.
    { intros k _; destruct (f k); auto. }
    { intros a b Hab Ha Hb. apply (Hmono a b); auto; lia. }
    split; [lia|]. split; [exact Hl|].
    intros x Hx. destruct (decide (x < h)%nat); [apply Hu; lia|].
    apply (Hmono h x); auto; lia.
  - destruct (IH (S h) j) as (Hr & Hl & Hu); try lia; try assumption.
    { intros k Hk. destruct (f k) eqn:Ek; [|reflexivity].
      rewrite (Hmono k h) in Eh; try lia; congruence. }
    split; [lia|]. split; [exact Hl|]. intros x Hx; apply Hu; lia.
Qed.

(** For a predicate that, once true, stays true below [n], the search returns
    the least index at which it holds, [n] when there is none. *)
Lemma sort_Search_spec n :
  (forall a b, (a <= b < n)%nat -> f a = true -> f b = true) ->
  let k := sort_Search n f in
  (k <= n)%nat /\ (forall x, (x < k)%nat -> f x = false) /\
  (forall x, (k <= x < n)%nat -> f x = true).
Proof.
  intros Hmono. unfold sort_Search.
  destruct (search_loop_spec n 0 n) as (Hr & Hl & Hu); try lia.
  - intros k _; destruct (f k); auto.
  - intros a b Hab Ha Hb. apply (Hmono a b); auto; lia.
  - split; [lia|]. auto.
Qed.
End search_facts.

Section isort_facts.
Context {A : Type} (leb : A -> A -> bool).

Lemma insert_sorted_perm x l : insert_sorted leb x l ≡ₚ x :: l.
Proof.
  induction l as [|y l IH]; simpl; [done|].
  destruct (leb x y); [done|]. rewrite IH. apply Permutation_swap.
Qed.

Lemma isort_perm l : isort leb l ≡ₚ l.
Proof. induction l as [|x l IH]; simpl; [done|]. by rewrite insert_sorted_perm, IH. Qed.

Context (total : forall a b, leb a b = true \/ leb b a = true).
Context (trans : forall a b c, leb a b = true -> leb b c = true -> leb a c = true).

Lemma insert_sorted_sorted x l :
  StronglySorted (fun a b => leb a b = true) l ->
  StronglySorted (fun a b => leb a b = true) (insert_sorted leb x l).
Proof.
  induction 1 as [|y l Hs IH Hall]; simpl; [repeat constructor|].
  destruct (leb x y) eqn:E.
  - constructor; [by constructor|]. constructor; [done|].
    eapply Forall_impl; [exact Hall|]. eauto.
  - constructor; [done|]. rewrite insert_sorted_perm.
    constructor; [|done]. destruct (total x y); congruence.
Qed.

Lemma isort_sorted l : StronglySorted (fun a b => leb a b = true) (isort leb l).
Proof. induction l; simpl; [constructor|]. by apply insert_sorted_sorted. Qed.

(** A list already in order is left as it is. *)
Lemma isort_id l : StronglySorted (fun a b => leb a b = true) l -> isort leb l = l.
Proof.
  induction 1 as [|x l Hs IH Hall]; simpl; [done|]. rewrite IH.
  destruct l as [|y l]; simpl; [done|]. inversion Hall; subst. by rewrite H1.
Qed.
End isort_facts.

Lemma concat_cut {A} n : (0 < n)%nat -> forall fuel (l : list A), (length l <= fuel)%nat -> concat (cut fuel n l) = l.
Proof.
  intros Hn. induction fuel as [|fuel IH]; intros l Hl; [by destruct l; [|simpl in Hl; lia]|].
  destruct l as [|x l]; [done|]. cbn [cut concat]. rewrite IH; [apply take_drop|].
  rewrite length_drop. simpl in *. lia.
Qed.

Lemma lookup_lt_ex {A} (l : list A) (i : nat) : (i < length l)%nat -> exists x, l !! i = Some x.
Proof. intros H. apply lookup_lt_is_Some_2 in H as [x Hx]. eauto. Qed.

Create HintDb dq.
#[export] Hint Resolve wrap64_range isort_perm insert_sorted_perm : dq.

(** Reads the boolean comparisons of the code as arithmetic. *)
Ltac bools :=
  repeat match goal with
  | H : context [after _ _] |- _ => unfold after in H
  | H : context [before _ _] |- _ => unfold before in H
  | H : context [tequal _ _] |- _ => unfold tequal in H
  | H : context [is_zero _] |- _ => unfold is_zero in H
  | |- context [after _ _] => unfold after
  | |- context [before _ _] => unfold before
  | |- context [tequal _ _] => unfold tequal
  | |- context [is_zero _] => unfold is_zero
  | H : andb _ _ = true |- _ => apply andb_true_iff in H; destruct H
  | H : andb _ _ = false |- _ => apply andb_false_iff in H
  | H : orb _ _ = true |- _ => apply orb_true_iff in H
  | H : orb _ _ = false |- _ => apply orb_false_iff in H; destruct H
  | H : negb _ = true |- _ => apply negb_true_iff in H
  | H : negb _ = false |- _ => apply negb_false_iff in H
  | H : Z.ltb _ _ = true |- _ => apply Z.ltb_lt in H
  | H : Z.ltb _ _ = false |- _ => apply Z.ltb_ge in H
  | H : Z.leb _ _ = true |- _ => apply Z.leb_le in H
  | H : Z.leb _ _ = false |- _ => apply Z.leb_gt in H
  | H : Z.eqb _ _ = true |- _ => apply Z.eqb_eq in H
  | H : Z.eqb _ _ = false |- _ => apply Z.eqb_neq in H
  | |- Z.ltb _ _ = true => apply Z.ltb_lt
  | |- Z.ltb _ _ = false => apply Z.ltb_ge
  | |- Z.leb _ _ = true => apply Z.leb_le
  | |- Z.leb _ _ = false => apply Z.leb_gt
  | |- Z.eqb _ _ = true => apply Z.eqb_eq
  | |- Z.eqb _ _ = false => apply Z.eqb_neq
  end.

(** ** Filters of ordered lists *)

Section cut.
Context {A : Type} (P : A -> Prop) `{!forall x, Decision (P x)}.

Lemma filter_all (l : list A) : Forall P l -> filter P l = l.
Proof. induction 1; [done|]. rewrite filter_cons_True by done. by f_equal. Qed.

Lemma filter_none (l : list A) : Forall (fun x => ~ P x) l -> filter P l = [].
Proof. induction 1; [done|]. by rewrite filter_cons_False. Qed.

Lemma filter_prefix (l : list A) (k : nat) :
  (forall i x, l !! i = Some x -> (i < k)%nat -> P x) ->
  (forall i x, l !! i = Some x -> (k <= i)%nat -> ~ P x) ->
  filter P l = take k l.
Proof.
  intros H1 H2. rewrite <- (take_drop k l) at 1. rewrite filter_app.
  rewrite filter_all, filter_none, app_nil_r; [done| |].
  - apply Forall_lookup. intros i x Hx. rewrite lookup_drop in Hx. eapply H2; eauto. lia.
  - apply Forall_lookup. intros i x Hx.
    apply lookup_take_Some in Hx as [Hx Hi]. eauto.
Qed.

Lemma filter_suffix (l : list A) (k : nat) :
  (forall i x, l !! i = Some x -> (i < k)%nat -> ~ P x) ->
  (forall i x, l !! i = Some x -> (k <= i)%nat -> P x) ->
  filter P l = drop k l.
Proof.
  intros H1 H2. rewrite <- (take_drop k l) at 1. rewrite filter_app.
  rewrite (filter_none (take k l)), filter_all; [done| |].
  - apply Forall_lookup. intros i x Hx. rewrite lookup_drop in Hx. eapply H2; eauto. lia.
  - apply Forall_lookup. intros i x Hx.
    apply lookup_take_Some in Hx as [Hx Hi]. eauto.
Qed.
End cut.

Lemma sorted_lookup {A} (R : A -> A -> Prop) (l : list A) i j x y :
  StronglySorted R l -> l !! i = Some x -> l !! j = Some y -> (i < j)%nat -> R x y.
Proof.
  intros Hs. revert i j. induction Hs as [|a l Hs IH Hall]; intros i j Hi Hj Hlt; [done|].
  destruct i as [|i], j as [|j]; simpl in *; try lia.
  - simplify_eq. rewrite Forall_lookup in Hall. eauto.
  - eapply IH; eauto. lia.
Qed.

(** The list functions of the Standard Library, with boolean tests. *)

Lemma elem_of_list_filter {A} (f : A -> bool) (l : list A) x :
  x ∈ List.filter f l <-> x ∈ l /\ f x = true.
Proof. by rewrite !list_elem_of_In, filter_In. Qed.

Lemma list_filter_none {A} (f : A -> bool) (l : list A) :
  (forall a, a ∈ l -> f a = false) -> List.filter f l = [].
Proof.
  induction l as [|x l IH]; intros H; simpl; [done|]. rewrite (H x) by left.
  apply IH. intros a Ha. apply H. by right.
Qed.

Lemma list_filter_all {A} (f : A -> bool) (l : list A) :
  (forall a, a ∈ l -> f a = true) -> List.filter f l = l.
Proof.
  induction l as [|x l IH]; intros H; simpl; [done|]. rewrite (H x) by left. f_equal.
  apply IH. intros a Ha. apply H. by right.
Qed.

Lemma list_filter_sorted {A} (R : A -> A -> Prop) f l :
  StronglySorted R l -> StronglySorted R (List.filter f l).
Proof.
  induction 1 as [|x l Hs IH Hall]; simpl; [constructor|]. destruct (f x); [|done].
  constructor; [done|]. rewrite Forall_forall in *. intros y Hy. apply Hall.
  apply list_elem_of_In, filter_In in Hy as [Hy _]. by apply list_elem_of_In.
Qed.

Lemma list_filter_andb {A} (f g : A -> bool) (l : list A) :
  List.filter f (List.filter g l) = List.filter (fun a => g a && f a) l.
Proof.
  induction l as [|a l IH]; simpl; [done|]. destruct (g a); simpl; [|done].
  destruct (f a); by rewrite IH.
Qed.

Lemma list_filter_comm {A} (f g : A -> bool) (l : list A) :
  List.filter f (List.filter g l) = List.filter g (List.filter f l).
Proof. rewrite !list_filter_andb. apply List.filter_ext. intros a. apply andb_comm. Qed.

Lemma list_filter_length_mono {A} (f g : A -> bool) (l : list A) :
  (forall a, a ∈ l -> f a = true -> g a = true) ->
  (length (List.filter f l) <= length (List.filter g l))%nat.
Proof.
  induction l as [|a l IH]; intros H; simpl; [done|].
  assert (Hl : (length (List.filter f l) <= length (List.filter g l))%nat).
  { apply IH. intros b Hb. apply H. by apply elem_of_cons; right. }
  destruct (f a) eqn:E; [rewrite (H a); [simpl; lia|by apply elem_of_cons; left|done]|].
  destruct (g a); simpl; lia.
Qed.

Lemma list_filter_perm {A} (f : A -> bool) (l k : list A) :
  l ≡ₚ k -> List.filter f l ≡ₚ List.filter f k.
Proof.
  induction 1 as [|x l k _ IH|x y l|l1 l2 l3 _ IH1 _ IH2]; simpl; [done| | |by etrans].
  - by destruct (f x); [apply Permutation_skip|].
  - destruct (f x), (f y); try done. apply Permutation_swap.
Qed.

(** ** The bytewise order of strings: [a < b] in Go is [String.ltb a b]. *)

Lemma sltb_cons c1 s1 c2 s2 :
  String.ltb (String c1 s1) (String c2 s2) =
  (N.ltb (Ascii.N_of_ascii c1) (Ascii.N_of_ascii c2) ||
   (N.eqb (Ascii.N_of_ascii c1) (Ascii.N_of_ascii c2) && String.ltb s1 s2)).
Proof.
  unfold String.ltb. simpl. unfold Ascii.compare, N.ltb.
  rewrite (N.eqb_compare (Ascii.N_of_ascii c1)).
  by destruct (N.compare (Ascii.N_of_ascii c1) (Ascii.N_of_ascii c2)).
Qed.

Lemma sltb_irrefl s : String.ltb s s = false.
Proof.
  induction s as [|c s IH]; [done|]. rewrite sltb_cons, IH, N.ltb_irrefl. by rewrite andb_false_r.
Qed.

Lemma sltb_trans a b c : String.ltb a b = true -> String.ltb b c = true -> String.ltb a c = true.
Proof.
  revert b c; induction a as [|x a IH]; intros [|y b] [|z c]; try done.
  rewrite !sltb_cons, !orb_true_iff, !andb_true_iff, !N.ltb_lt, !N.eqb_eq.
  intros [H1|[H1 H1']] [H2|[H2 H2']]; [left; lia..|right]. split; [lia|by eapply IH].
Qed.

Lemma sltb_total a b : String.ltb a b = true \/ a = b \/ String.ltb b a = true.
Proof.
  revert b; induction a as [|x a IH]; intros [|y b]; try (by auto).
  rewrite !sltb_cons, !orb_true_iff, !andb_true_iff, !N.ltb_lt, !N.eqb_eq.
  destruct (N.lt_trichotomy (Ascii.N_of_ascii x) (Ascii.N_of_ascii y)) as [H|[H|H]]; [by auto| |by auto].
  destruct (IH b) as [Hb|[->|Hb]]; [by auto| |by auto]. right; left. f_equal.
  rewrite <- (Ascii.ascii_N_embedding x), <- (Ascii.ascii_N_embedding y). by rewrite H.
Qed.

Lemma sltb_asym a b : String.ltb a b = true -> String.ltb b a = false.
Proof.
  intros H. destruct (String.ltb b a) eqn:E; [|done].
  pose proof (sltb_trans _ _ _ H E) as Hc. by rewrite sltb_irrefl in Hc.
Qed.
