(* ===== verification/FloatFacts.v ===== *)
(** * Facts on binary64

    Rounding in [SpecFloat] is characterised by an error bound: the kernel's
    shift records [shr_record] are read as an integer quotient with its
    remainder's position ([rep]), which shifting preserves and from which the
    rounded mantissa is within half a unit. From it: conversions of small
    integers are exact, comparisons of converted integers are integer
    comparisons, and [int(d.Seconds())] is the number of whole seconds of [d]
    ([seconds_int_spec]). *)

From S2P Require Import Prelude.

(** ** Digits *)

Lemma digits2_log2 m : Zpos (digits2_pos m) = Z.log2 (Zpos m) + 1.
Proof.
  induction m as [m IH|m IH|]; simpl digits2_pos; [| |reflexivity].
  - rewrite Pos2Z.inj_succ, IH, (Pos2Z.inj_xI m), Z.log2_succ_double by lia. lia.
  - rewrite Pos2Z.inj_succ, IH, (Pos2Z.inj_xO m), Z.log2_double by lia. lia.
Qed.

Lemma digits_spec m :
  0 < m -> 2 ^ (Zdigits2 m - 1) <= m < 2 ^ Zdigits2 m /\ 0 < Zdigits2 m.
Proof.
  destruct m as [|m|m]; try lia. intros _. unfold Zdigits2.
  rewrite digits2_log2. pose proof (Z.log2_spec (Zpos m) ltac:(lia)) as [H1 H2].
  pose proof (Z.log2_nonneg (Zpos m)).
  replace (Z.log2 (Zpos m) + 1 - 1) with (Z.log2 (Zpos m)) by lia.
  rewrite <- Z.add_1_r in H2. lia.
Qed.

Lemma digits_unique m d : 0 < d -> 2 ^ (d - 1) <= m < 2 ^ d -> Zdigits2 m = d.
Proof.
  intros Hd [H1 H2].
  assert (0 < m) by (pose proof (Z.pow_pos_nonneg 2 (d - 1)); lia).
  destruct m as [|m|m]; try lia. unfold Zdigits2. rewrite digits2_log2.
  rewrite (Z.log2_unique (Zpos m) (d - 1)); [lia|lia|].
  replace (Z.succ (d - 1)) with d by lia. lia.
Qed.

(** ** Shift records as quotients *)

(** [mrs] is the integer part of [n / D] with the position of the rest. *)
Definition rep (mrs : shr_record) (n D : Z) : Prop :=
  0 < D /\ 0 <= shr_m mrs /\
  let f := n - shr_m mrs * D in
  match shr_r mrs, shr_s mrs with
  | false, false => f = 0
  | false, true => 0 < 2 * f < D
  | true, false => 2 * f = D
  | true, true => D < 2 * f < 2 * D
  end.

Lemma rep_quot mrs n D : rep mrs n D -> 0 <= n /\ shr_m mrs = n / D.
Proof.
  intros (HD & Hm & Hf).
  assert (shr_m mrs * D <= n < shr_m mrs * D + D).
  { destruct (shr_r mrs), (shr_s mrs); simpl in Hf; lia. }
  split; [nia|]. apply Z.div_unique with (n - shr_m mrs * D); lia.
Qed.

Lemma shr_1_rep mrs n D : rep mrs n D -> rep (shr_1 mrs) n (2 * D).
Proof.
  destruct mrs as [m r s]. intros (HD & Hm & Hf); simpl in Hm, Hf.
  destruct m as [|[p|p|]|p]; [| | | |lia];
    destruct r, s; unfold rep; simpl in *;
    repeat split; try lia;
    rewrite ?Pos2Z.inj_xI, ?Pos2Z.inj_xO in Hf; lia.
Qed.

Lemma iter_shr_rep p mrs n D :
  rep mrs n D -> rep (iter_pos shr_1 p mrs) n (2 ^ Zpos p * D).
Proof.
  revert mrs D; induction p as [p IH|p IH|]; intros mrs D H; simpl iter_pos.
  - apply shr_1_rep, IH, IH in H. revert H. rewrite (Pos2Z.inj_xI p).
    replace (2 ^ (2 * Zpos p + 1)) with (2 ^ Zpos p * 2 ^ Zpos p * 2); [|].
    + intros H. replace (2 ^ Zpos p * 2 ^ Zpos p * 2 * D)
        with (2 ^ Zpos p * (2 ^ Zpos p * (2 * D))) by ring. exact H.
    + replace (2 * Zpos p + 1) with (Zpos p + Zpos p + 1) by lia.
      rewrite !Z.pow_add_r by lia. reflexivity.
  - apply IH, IH in H. rewrite (Pos2Z.inj_xO p).
    replace (2 * Zpos p) with (Zpos p + Zpos p) by lia.
    rewrite Z.pow_add_r by lia.
    replace (2 ^ Zpos p * 2 ^ Zpos p * D) with (2 ^ Zpos p * (2 ^ Zpos p * D)) by ring.
    exact H.
  - apply shr_1_rep in H. exact H.
Qed.

Lemma shr_rep mrs e k n D :
  rep mrs n D ->
  let '(mrs', e') := shr mrs e k in
  e' = e + Z.max 0 k /\ rep mrs' n (2 ^ Z.max 0 k * D).
Proof.
  intros H. destruct k as [|p|p]; simpl shr.
  - rewrite Z.max_id, Z.mul_1_l. split; [lia|exact H].
  - rewrite Z.max_r by lia. split; [reflexivity|]. by apply iter_shr_rep.
  - rewrite Z.max_l by lia. rewrite Z.mul_1_l. split; [lia|exact H].
Qed.

(** Rounding to nearest is within half a unit. *)
Lemma round_nearest_bound mrs n D :
  rep mrs n D ->
  let M := round_nearest_even (shr_m mrs) (loc_of_shr_record mrs) in
  n / D <= M <= n / D + 1 /\ 2 * Z.abs (M * D - n) <= D.
Proof.
  intros H. pose proof (rep_quot _ _ _ H) as [Hn Hq].
  destruct H as (HD & Hm & Hf). rewrite <- Hq. destruct mrs as [m r s]; simpl in *.
  destruct r, s; simpl; try (destruct (Z.even m)); lia.
Qed.

(** ** Rounding a positive value *)

(** Canonical mantissas of normal numbers. *)
Definition norm (m : positive) : Prop := 2 ^ 52 <= Zpos m < 2 ^ 53.

Lemma fexp_normal x : - 1021 <= x -> fexp 53 1024 x = x - 53.
Proof. unfold fexp, emin. lia. Qed.

Lemma norm_digits m : norm m -> Zdigits2 (Zpos m) = 53.
Proof. intros H. apply digits_unique; [lia|]. unfold norm in H. simpl. lia. Qed.

Lemma rep_exact m : 0 <= m -> rep (shr_record_of_loc m loc_Exact) m 1.
Proof. intros H. unfold rep; simpl. lia. Qed.

(** The mantissa kept by a shift by [digits - 53] has 53 digits. *)
Lemma quot_digits n d :
  53 <= d -> 2 ^ (d - 1) <= n < 2 ^ d ->
  2 ^ 52 <= n / 2 ^ (d - 53) < 2 ^ 53.
Proof.
  intros Hd Hn.
  assert (0 < 2 ^ (d - 53)) by (apply Z.pow_pos_nonneg; lia).
  assert (2 ^ (d - 1) = 2 ^ 52 * 2 ^ (d - 53)).
  { rewrite <- Z.pow_add_r by lia. f_equal. lia. }
  assert (2 ^ d = 2 ^ 53 * 2 ^ (d - 53)).
  { rewrite <- Z.pow_add_r by lia. f_equal. lia. }
  split.
  - apply Z.div_le_lower_bound; lia.
  - apply Z.div_lt_upper_bound; lia.
Qed.

(** The second normalisation only renames [2 ^ 53] as [2 ^ 52 * 2]. *)
Lemma renormalise M e s :
  2 ^ 52 <= M <= 2 ^ 53 -> - 1074 <= e <= 900 ->
  exists m' e',
    (let '(mrs, e'') := shr_fexp 53 1024 M e loc_Exact in
     match shr_m mrs with
     | 0 => S754_zero s
     | Zpos m => if e'' <=? 1024 - 53 then S754_finite s m e'' else S754_infinity s
     | _ => S754_nan
     end) = S754_finite s m' e' /\
    norm m' /\ e <= e' <= e + 1 /\ Zpos m' * 2 ^ (e' - e) = M.
Proof.
  intros HM He. unfold shr_fexp.
  destruct (Z.eq_dec M (2 ^ 53)) as [->|Hne].
  - assert (Hd : Zdigits2 (2 ^ 53) = 54) by reflexivity.
    rewrite Hd. rewrite fexp_normal by lia.
    replace (54 + e - 53 - e) with 1 by lia. simpl.
    destruct (Z.leb_spec (e + 1) (1024 - 53)); [|lia].
    exists 4503599627370496%positive, (e + 1).
    split; [reflexivity|]. unfold norm. split; [lia|]. split; [lia|].
    replace (e + 1 - e) with 1 by lia. reflexivity.
  - assert (Hd : Zdigits2 M = 53) by (apply digits_unique; simpl; lia).
    rewrite Hd. unfold fexp, emin.
    replace (Z.max (53 + e - 53) (3 - 1024 - 53) - e) with 0 by lia.
    destruct M as [|M|M]; try lia. simpl.
    destruct (Z.leb_spec e (1024 - 53)); [|lia].
    exists M, e. split; [reflexivity|]. unfold norm. split; [lia|].
    split; [lia|]. rewrite Z.sub_diag. lia.
Qed.

Lemma round_aux_pos s m e l n D :
  53 <= Zdigits2 m -> 0 < m ->
  - 1021 <= Zdigits2 m + e <= 900 -> e <= 800 ->
  rep (shr_record_of_loc m l) n D ->
  let k := Zdigits2 m - 53 in
  exists m' e',
    binary_round_aux 53 1024 s m e l = S754_finite s m' e' /\ norm m' /\
    e + k <= e' <= e + k + 1 /\
    2 * Z.abs (Zpos m' * 2 ^ (e' - (e + k)) * (2 ^ k * D) - n) <= 2 ^ k * D.
Proof.
  intros Hd Hm He He' Hrep k.
  pose proof (digits_spec m Hm) as [Hdig _].
  unfold binary_round_aux. unfold shr_fexp at 1.
  rewrite fexp_normal by lia.
  replace (Zdigits2 m + e - 53 - e) with k by (unfold k; lia).
  pose proof (shr_rep _ e k _ _ Hrep) as Hs.
  destruct (shr (shr_record_of_loc m l) e k) as [mrs e1].
  destruct Hs as [-> Hr]. rewrite Z.max_r in * by (unfold k; lia).
  pose proof (round_nearest_bound _ _ _ Hr) as [HM Herr].
  set (M := round_nearest_even (shr_m mrs) (loc_of_shr_record mrs)) in *.
  assert (HD : 0 < D) by (destruct Hrep; lia).
  pose proof (rep_quot _ _ _ Hrep) as [Hn0 Hq].
  assert (Hq' : shr_m (shr_record_of_loc m l) = m) by (destruct l as [|[]]; reflexivity).
  rewrite Hq' in Hq.
  assert (Hquot : n / (2 ^ k * D) = m / 2 ^ k).
  { assert (0 < 2 ^ k) by (apply Z.pow_pos_nonneg; unfold k; lia).
    rewrite (Z.mul_comm (2 ^ k) D), <- Z.div_div by lia. by rewrite <- Hq. }
  pose proof (quot_digits m (Zdigits2 m) Hd Hdig) as HQ. fold k in HQ.
  rewrite Hquot in HM.
  destruct (renormalise M (e + k) s) as (m' & e' & Heq & Hnm & Hee & Hval); [lia|unfold k; lia|].
  exists m', e'. split; [|split; [exact Hnm|split; [lia|]]].
  - destruct (shr_fexp 53 1024 M (e + k) loc_Exact) as [mrs2 e2]. exact Heq.
  - rewrite Hval. exact Herr.
Qed.

(** [binary_round] first widens a short mantissa, so it is exact on one of at
    most 53 digits and within half a unit on a longer one. *)
Lemma shl_align_exact m e q :
  let '(mz, ez) := shl_align m e q in
  ez = Z.min e q /\ Zpos mz = Zpos m * 2 ^ (e - ez).
Proof.
  unfold shl_align. destruct (q - e) as [|d|d] eqn:E.
  - replace (Z.min e q) with e by lia. rewrite Z.sub_diag. lia.
  - replace (Z.min e q) with e by lia. rewrite Z.sub_diag. lia.
  - split; [lia|]. replace (e - q) with (Zpos d) by lia.
    clear E. revert m. induction d as [|d IH] using Pos.peano_ind; intros m; simpl.
    + rewrite Pos2Z.inj_xO. lia.
    + rewrite Pos.iter_succ, Pos2Z.inj_xO, IH, Pos2Z.inj_succ, Z.pow_succ_r by lia. lia.
Qed.

Lemma binary_round_pos s m e :
  let d := Zdigits2 (Zpos m) in
  let q := d + e - 53 in
  - 1021 <= d + e <= 800 -> e <= 700 ->
  exists m' e',
    binary_round 53 1024 s m e = S754_finite s m' e' /\ norm m' /\ q <= e' <= q + 1 /\
    (q <= e -> Zpos m' * 2 ^ (e' - q) = Zpos m * 2 ^ (e - q)) /\
    (e < q -> 2 * Z.abs (Zpos m' * 2 ^ (e' - e) - Zpos m) <= 2 ^ (q - e)).
Proof.
  intros d q Hd He. unfold binary_round.
  change (Zpos (digits2_pos m)) with d. rewrite fexp_normal by lia. fold q.
  pose proof (shl_align_exact m e q) as Ha.
  destruct (shl_align m e q) as [mz ez]. destruct Ha as [-> Hmz].
  pose proof (digits_spec (Zpos m) ltac:(lia)) as [Hdig Hd0]. fold d in Hdig, Hd0.
  assert (Hdz : Zdigits2 (Zpos mz) = d + (e - Z.min e q)).
  { apply digits_unique; [lia|]. rewrite Hmz.
    replace (d + (e - Z.min e q) - 1) with ((d - 1) + (e - Z.min e q)) by lia.
    rewrite !Z.pow_add_r by lia. pose proof (Z.pow_pos_nonneg 2 (e - Z.min e q)).
    split; [apply Z.mul_le_mono_nonneg_r|apply Z.mul_lt_mono_pos_r]; lia. }
  destruct (round_aux_pos s (Zpos mz) (Z.min e q) loc_Exact (Zpos mz) 1)
    as (m' & e' & Heq & Hn & Hee & Herr); try (unfold q in *; lia).
  { apply rep_exact; lia. }
  rewrite Hdz in *.
  exists m', e'. split; [exact Heq|]. split; [exact Hn|].
  destruct (Z.le_ge_cases q e) as [Hqe|Hqe].
  - rewrite Z.min_r in * by lia.
    replace (q + (d + (e - q) - 53)) with q in * by (unfold q; lia).
    replace (d + (e - q) - 53) with 0 in * by (unfold q; lia).
    split; [lia|]. split; [|lia]. intros _. rewrite <- Hmz. lia.
  - rewrite Z.min_l in * by lia. rewrite Z.sub_diag in Hmz.
    replace (e + (d + (e - e) - 53)) with q in * by (unfold q; lia).
    replace (d + (e - e) - 53) with (q - e) in * by (unfold q; lia).
    rewrite Z.mul_1_r in *. split; [lia|].
    assert (Hm : Zpos mz = Zpos m) by lia. rewrite Hm in *.
    assert (Hp : Zpos m' * 2 ^ (e' - e) = Zpos m' * 2 ^ (e' - q) * 2 ^ (q - e)).
    { rewrite <- Z.mul_assoc, <- Z.pow_add_r by lia. do 2 f_equal. lia. }
    split.
    + intros Hle. assert (q = e) by lia.
      replace (q - e) with 0 in * by lia. replace (e - q) with 0 by lia. lia.
    + intros _. rewrite Hp. lia.
Qed.

(** ** Positive values, scaled

    [Val x n]: [x] is a positive normal number of value [n / 2 ^ 200]. *)

Definition Val (x : float64) (n : Z) : Prop :=
  exists m e, x = S754_finite false m e /\ norm m /\ - 200 <= e <= 500 /\
              n = Zpos m * 2 ^ (e + 200).

Lemma Val_pos x n : Val x n -> 0 < n.
Proof.
  intros (m & e & _ & Hm & He & ->). pose proof (Z.pow_pos_nonneg 2 (e + 200)). lia.
Qed.

Lemma Val_of_Z z : 0 < z < 2 ^ 53 -> Val (f64_of_Z z) (z * 2 ^ 200).
Proof.
  intros Hz. destruct z as [|z|z]; try lia. unfold f64_of_Z, binary_normalize.
  pose proof (digits_spec (Zpos z) ltac:(lia)) as [[Hlo Hhi] Hd].
  assert (Hd53 : Zdigits2 (Zpos z) - 1 < 53).
  { apply (Z.pow_lt_mono_r_iff 2); lia. }
  destruct (binary_round_pos false z 0) as (m & e & -> & Hn & He & Hex & _); try lia.
  set (q := Zdigits2 (Zpos z) + 0 - 53) in *.
  assert (Hq : q <= 0) by lia. specialize (Hex Hq).
  exists m, e. split; [reflexivity|]. split; [exact Hn|]. split; [lia|].
  replace (2 ^ 200) with (2 ^ (0 - q) * 2 ^ (q + 200)).
  - rewrite Z.mul_assoc, <- Hex, <- Z.mul_assoc, <- Z.pow_add_r by lia.
    do 2 f_equal. lia.
  - rewrite <- Z.pow_add_r by lia. f_equal. lia.
Qed.

(** Canonical mantissas order by exponent first. *)
Lemma norm_scale_lt m1 e1 m2 e2 :
  norm m1 -> norm m2 -> - 200 <= e1 < e2 ->
  Zpos m1 * 2 ^ (e1 + 200) < Zpos m2 * 2 ^ (e2 + 200).
Proof.
  intros H1 H2 He.
  assert (Hp : 2 ^ (e2 + 200) = 2 ^ (e1 + 200) * 2 ^ (e2 - e1)).
  { rewrite <- Z.pow_add_r by lia. f_equal. lia. }
  assert (2 <= 2 ^ (e2 - e1)).
  { change 2 with (2 ^ 1) at 1. apply Z.pow_le_mono_r; lia. }
  pose proof (Z.pow_pos_nonneg 2 (e1 + 200)). unfold norm in *.
  rewrite Hp. nia.
Qed.

Lemma Val_compare x y a b :
  Val x a -> Val y b -> SFcompare x y = Some (Z.compare a b).
Proof.
  intros (m1 & e1 & -> & H1 & He1 & ->) (m2 & e2 & -> & H2 & He2 & ->); simpl.
  destruct (Z.compare_spec e1 e2) as [->|Hlt|Hgt]; f_equal; symmetry.
  - pose proof (Z.pow_pos_nonneg 2 (e2 + 200)).
    change (Pos.compare_cont Eq m1 m2) with (Pos.compare m1 m2).
    destruct (Pos.compare_spec m1 m2) as [->|Hlt|Hgt].
    + by apply Z.compare_eq_iff.
    + apply Z.compare_lt_iff. nia.
    + apply Z.compare_gt_iff. nia.
  - apply Z.compare_lt_iff. apply norm_scale_lt; [done|done|lia].
  - apply Z.compare_gt_iff. apply norm_scale_lt; [done|done|lia].
Qed.

Lemma Val_ltb x y a b : Val x a -> Val y b -> f64_ltb x y = (a <? b).
Proof.
  intros Hx Hy. unfold f64_ltb, SFltb, Z.ltb.
  rewrite (Val_compare _ _ _ _ Hx Hy). by destruct (a ?= b).
Qed.

Lemma Val_leb x y a b : Val x a -> Val y b -> f64_leb x y = (a <=? b).
Proof.
  intros Hx Hy. unfold f64_leb, SFleb, Z.leb.
  rewrite (Val_compare _ _ _ _ Hx Hy). by destruct (a ?= b).
Qed.

(** Rounding [S * 2 ^ ez]: within half a unit, which is [2 ^ (t - 53)] below
    [2 ^ t]. *)
Lemma Val_round S ez t :
  - 200 <= ez <= 500 -> t <= 400 ->
  2 ^ 52 <= Zpos S * 2 ^ (ez + 200) < 2 ^ (t + 200) ->
  exists c, Val (binary_round 53 1024 false S ez) c /\
            2 * Z.abs (c - Zpos S * 2 ^ (ez + 200)) <= 2 ^ (t + 147).
Proof.
  intros Hez Ht [HS52 Hsum].
  pose proof (digits_spec (Zpos S) ltac:(lia)) as [[Hlo Hhi] Hd].
  pose proof (Z.pow_pos_nonneg 2 (ez + 200) ltac:(lia) ltac:(lia)) as Hpz.
  assert (Ht0 : 0 <= t + 200).
  { destruct (Z.lt_ge_cases (t + 200) 0); [|done]. rewrite (Z.pow_neg_r 2 (t + 200)) in Hsum by lia; lia. }
  assert (Hd52 : 52 < Zdigits2 (Zpos S) + (ez + 200)).
  { apply (Z.pow_lt_mono_r_iff 2); [lia|lia|]. rewrite Z.pow_add_r by lia.
    apply Z.le_lt_trans with (Zpos S * 2 ^ (ez + 200)); [lia|].
    apply Z.mul_lt_mono_pos_r; lia. }
  assert (Hq : Zdigits2 (Zpos S) - 1 + (ez + 200) < t + 200).
  { apply (Z.pow_lt_mono_r_iff 2); [lia|lia|]. rewrite Z.pow_add_r by lia.
    apply Z.le_lt_trans with (Zpos S * 2 ^ (ez + 200)); [|lia].
    apply Z.mul_le_mono_nonneg_r; lia. }
  destruct (binary_round_pos false S ez) as (m & e & -> & Hn & He & Hex & Hap); try lia.
  set (q := Zdigits2 (Zpos S) + ez - 53) in *.
  exists (Zpos m * 2 ^ (e + 200)). split.
  { exists m, e. repeat split; try apply Hn; lia. }
  destruct (Z.le_gt_cases q ez) as [Hle|Hgt].
  - specialize (Hex Hle).
    replace (Zpos m * 2 ^ (e + 200)) with (Zpos m * 2 ^ (e - q) * 2 ^ (q + 200)).
    + rewrite Hex, <- Z.mul_assoc, <- Z.pow_add_r by lia.
      replace (ez - q + (q + 200)) with (ez + 200) by lia.
      rewrite Z.sub_diag. simpl. pose proof (Z.pow_nonneg 2 (t + 147)). lia.
    + rewrite <- Z.mul_assoc, <- Z.pow_add_r by lia. do 2 f_equal. lia.
  - specialize (Hap Hgt).
    replace (e + 200) with ((e - ez) + (ez + 200)) by lia.
    rewrite (Z.pow_add_r 2 (e - ez)) by lia.
    rewrite Z.mul_assoc, <- Z.mul_sub_distr_r, Z.abs_mul, (Z.abs_eq (2 ^ (ez + 200))) by lia.
    apply Z.le_trans with (2 ^ (q - ez) * 2 ^ (ez + 200)); [nia|].
    rewrite <- Z.pow_add_r by lia. apply Z.pow_le_mono_r; lia.
Qed.

(** Two values at their common exponent. *)
Lemma align_scale m1 e1 m2 e2 :
  - 200 <= e1 -> - 200 <= e2 ->
  let ez := Z.min e1 e2 in
  let p1 := Zpos (fst (shl_align m1 e1 ez)) in
  let p2 := Zpos (fst (shl_align m2 e2 ez)) in
  p1 * 2 ^ (ez + 200) = Zpos m1 * 2 ^ (e1 + 200) /\
  p2 * 2 ^ (ez + 200) = Zpos m2 * 2 ^ (e2 + 200).
Proof.
  intros H1 H2 ez.
  pose proof (shl_align_exact m1 e1 ez) as A1. destruct (shl_align m1 e1 ez) as [p1 z1].
  pose proof (shl_align_exact m2 e2 ez) as A2. destruct (shl_align m2 e2 ez) as [p2 z2].
  replace (Z.min e1 ez) with ez in A1 by lia. replace (Z.min e2 ez) with ez in A2 by lia.
  destruct A1 as [-> A1]. destruct A2 as [-> A2]. cbn [fst].
  rewrite A1, A2, <- !Z.mul_assoc, <- !Z.pow_add_r by lia.
  split; do 2 f_equal; lia.
Qed.

(** Addition and subtraction of positive values are within half a unit. *)
Lemma Val_add x y a b t :
  Val x a -> Val y b -> a + b < 2 ^ (t + 200) -> t <= 400 ->
  exists c, Val (f64_add x y) c /\ 2 * Z.abs (c - (a + b)) <= 2 ^ (t + 147).
Proof.
  intros (m1 & e1 & -> & H1 & He1 & ->) (m2 & e2 & -> & H2 & He2 & ->) Hsum Ht.
  unfold f64_add, SFadd, cond_Zopp.
  destruct (align_scale m1 e1 m2 e2) as [A1 A2]; try lia.
  set (ez := Z.min e1 e2) in *. set (p1 := fst (shl_align m1 e1 ez)) in *.
  set (p2 := fst (shl_align m2 e2 ez)) in *.
  rewrite <- Pos2Z.inj_add. unfold binary_normalize.
  rewrite <- A1, <- A2, <- Z.mul_add_distr_r, <- Pos2Z.inj_add in *.
  apply Val_round; try lia. split; [|lia].
  rewrite Pos2Z.inj_add, Z.mul_add_distr_r, A1, A2. unfold norm in *.
  pose proof (Z.pow_pos_nonneg 2 (e1 + 200)). pose proof (Z.pow_pos_nonneg 2 (e2 + 200)). nia.
Qed.

Lemma Val_sub x y a b t :
  Val x a -> Val y b -> 2 ^ 52 <= a - b < 2 ^ (t + 200) -> t <= 400 ->
  exists c, Val (f64_sub x y) c /\ 2 * Z.abs (c - (a - b)) <= 2 ^ (t + 147).
Proof.
  intros (m1 & e1 & -> & H1 & He1 & ->) (m2 & e2 & -> & H2 & He2 & ->) Hsum Ht.
  unfold f64_sub, SFsub, cond_Zopp.
  destruct (align_scale m1 e1 m2 e2) as [A1 A2]; try lia.
  set (ez := Z.min e1 e2) in *. set (p1 := fst (shl_align m1 e1 ez)) in *.
  set (p2 := fst (shl_align m2 e2 ez)) in *.
  rewrite <- A1, <- A2, <- Z.mul_sub_distr_r in *.
  pose proof (Z.pow_pos_nonneg 2 (ez + 200) ltac:(lia) ltac:(lia)).
  assert (0 < Zpos p1 - Zpos p2) by nia.
  destruct (Zpos p1 - Zpos p2) as [|S|S]; try lia. unfold binary_normalize.
  apply Val_round; lia.
Qed.

(** Truncation is the integer part. *)
Lemma Val_trunc x n : Val x n -> n < 2 ^ 262 -> f64_trunc x = n / 2 ^ 200.
Proof.
  intros (m & e & -> & Hm & He & ->) Hlt. unfold f64_trunc.
  assert (Hs : Z.shiftl (Zpos m) e = Zpos m * 2 ^ (e + 200) / 2 ^ 200).
  { destruct (Z.le_gt_cases 0 e).
    - rewrite Z.shiftl_mul_pow2, Z.pow_add_r, Z.mul_assoc, Z.div_mul by lia. reflexivity.
    - replace e with (- (- e)) at 1 by lia. rewrite <- Z.shiftr_opp_r, Z.opp_involutive.
      rewrite Z.shiftr_div_pow2 by lia.
      replace (2 ^ 200) with (2 ^ (- e) * 2 ^ (e + 200)).
      + rewrite Z.div_mul_cancel_r; try lia; apply Z.pow_nonzero; lia.
      + rewrite <- Z.pow_add_r by lia. f_equal. lia. }
  rewrite Hs.
  assert (0 <= Zpos m * 2 ^ (e + 200) / 2 ^ 200 < 2 ^ 62).
  { pose proof (Z.pow_pos_nonneg 2 (e + 200)).
    split; [apply Z.div_pos; lia|]. apply Z.div_lt_upper_bound; [lia|].
    rewrite <- Z.pow_add_r by lia. exact Hlt. }
  unfold min_int64, max_int64.
  destruct (Z.leb_spec (- 2 ^ 63) (Zpos m * 2 ^ (e + 200) / 2 ^ 200)); [|lia].
  destruct (Z.leb_spec (Zpos m * 2 ^ (e + 200) / 2 ^ 200) (2 ^ 63 - 1)); [reflexivity|lia].
Qed.

(** ** Seconds of a duration *)

Definition e9 : Z := 10 ^ 9.

Lemma f64_of_e9 : f64_of_Z e9 = S754_finite false 8388608000000000 (-23).
Proof. reflexivity. Qed.

Lemma rep_div a b q r :
  0 < b -> Z.even b = true -> 0 <= q -> a = b * q + r -> 0 <= r < b ->
  rep (shr_record_of_loc q (new_location b r)) a b.
Proof.
  intros Hb Hev Hq Ha Hr. unfold new_location. rewrite Hev. unfold new_location_even.
  destruct (Z.eqb_spec r 0) as [->|Hne]; [unfold rep; simpl; lia|].
  destruct (Z.compare_spec (2 * r) b); unfold rep; simpl; lia.
Qed.

(** The fraction [k / 10^9] is computed within [2 ^ -54]. *)
Lemma Val_nsec k :
  0 < k < e9 ->
  exists y, Val (f64_div (f64_of_Z k) (f64_of_Z e9)) y /\
            2 * Z.abs (e9 * y - k * 2 ^ 200) <= e9 * 2 ^ 147.
Proof.
  intros Hk. destruct (Val_of_Z k) as (m1 & e1 & Hx & Hm1 & He1 & Hv); [unfold e9 in *; lia|].
  rewrite Hx, f64_of_e9. unfold f64_div, SFdiv. cbn [xorb].
  unfold SFdiv_core_binary. rewrite (norm_digits _ Hm1).
  replace (Zdigits2 8388608000000000) with 53 by reflexivity.
  assert (He : - 53 <= e1 <= - 23).
  { unfold norm in Hm1. unfold e9 in Hk.
    assert (2 ^ 52 * 2 ^ (e1 + 200) < 2 ^ 30 * 2 ^ 200) by nia.
    assert (1 * 2 ^ 200 <= Zpos m1 * 2 ^ (e1 + 200)) by nia.
    assert (2 ^ 200 < 2 ^ (53 + (e1 + 200))).
    { rewrite Z.pow_add_r by lia. pose proof (Z.pow_pos_nonneg 2 (e1 + 200)). nia. }
    apply Z.pow_lt_mono_r_iff in H1; [|lia|lia].
    rewrite <- !Z.pow_add_r in H by lia. apply Z.pow_lt_mono_r_iff in H; lia. }
  rewrite fexp_normal by lia.
  replace (Z.min (53 + e1 - (53 + -23) - 53) (e1 - -23)) with (e1 - 30) by lia.
  replace (e1 - -23 - (e1 - 30)) with 53 by lia. cbn match.
  rewrite Z.shiftl_mul_pow2 by lia.
  pose proof (Z_div_mod (Zpos m1 * 2 ^ 53) 8388608000000000 ltac:(lia)) as Hdm.
  destruct (Z.div_eucl (Zpos m1 * 2 ^ 53) 8388608000000000) as [q r].
  destruct Hdm as [Heq Hr].
  assert (Hq : 2 ^ 52 <= q < 2 ^ 54) by (unfold norm in Hm1; lia).
  assert (Hdq : Zdigits2 q = 53 \/ Zdigits2 q = 54).
  { destruct (Z.lt_ge_cases q (2 ^ 53)); [left|right]; apply digits_unique; simpl; lia. }
  destruct (round_aux_pos false q (e1 - 30) (new_location 8388608000000000 r)
              (Zpos m1 * 2 ^ 53) 8388608000000000) as (m & e & -> & Hm & Hee & Herr); try lia.
  { apply rep_div; try lia; reflexivity. }
  set (k0 := Zdigits2 q - 53) in *. assert (0 <= k0 <= 1) by lia.
  exists (Zpos m * 2 ^ (e + 200)). split.
  { exists m, e. repeat split; try apply Hm; lia. }
  rewrite Hv.
  set (E := e1 - 30 + k0) in *.
  assert (HA : Zpos m * 2 ^ (e + 200) = Zpos m * 2 ^ (e - E) * 2 ^ (E + 200)).
  { rewrite <- Z.mul_assoc, <- Z.pow_add_r by lia. do 2 f_equal. lia. }
  assert (HB : 2 ^ (E + 200) = 2 ^ k0 * 2 ^ (e1 + 170)).
  { rewrite <- Z.pow_add_r by lia. f_equal. unfold E. lia. }
  assert (HC : 2 ^ (e1 + 200) = 2 ^ 30 * 2 ^ (e1 + 170)).
  { rewrite <- Z.pow_add_r by lia. f_equal. lia. }
  rewrite HA, HB, HC. set (P := 2 ^ (e1 + 170)) in *. set (K := 2 ^ k0) in *.
  set (W := Zpos m * 2 ^ (e - E)) in *.
  assert (HP : 0 < P <= 2 ^ 147).
  { unfold P. split; [apply Z.pow_pos_nonneg; lia|apply Z.pow_le_mono_r; lia]. }
  assert (HK : 1 <= K <= 2).
  { unfold K. assert (k0 = 0 \/ k0 = 1) as [-> | ->] by lia; simpl; lia. }
  change 8388608000000000 with (e9 * 2 ^ 23) in Herr.
  replace (e9 * (W * (K * P)) - Zpos m1 * (2 ^ 30 * P)) with ((e9 * (W * K) - Zpos m1 * 2 ^ 30) * P) by ring.
  rewrite Z.abs_mul, (Z.abs_eq P) by lia.
  assert (Herr' : 2 * Z.abs (e9 * (W * K) - Zpos m1 * 2 ^ 30) <= K * e9).
  { replace (W * (K * (e9 * 2 ^ 23)) - Zpos m1 * 2 ^ 53)
      with ((e9 * (W * K) - Zpos m1 * 2 ^ 30) * 2 ^ 23) in Herr by ring.
    rewrite Z.abs_mul, (Z.abs_eq (2 ^ 23)) in Herr by lia. nia. }
  assert (HP' : e1 = -23 \/ P <= 2 ^ 146).
  { destruct (Z.eq_dec e1 (-23)); [by left|right]. apply Z.pow_le_mono_r; lia. }
  destruct HP' as [->|HP']; [|unfold e9 in *; nia].
  (* for k >= 2 ^ 29 the quotient has 53 digits *)
  assert (K = 1); [|unfold e9 in *; nia].
  unfold K. replace k0 with 0; [reflexivity|].
  unfold k0. replace (Zdigits2 q) with 53; [lia|]. symmetry. apply digits_unique; [lia|].
  simpl. split; [lia|]. unfold e9 in *. change (2 ^ (-23 + 200)) with (2 ^ 177) in Hv. lia.
Qed.

Lemma f64_div_zero x m e : x = S754_finite false m e -> f64_div f64_zero x = f64_zero.
Proof. by intros ->. Qed.

Lemma Val_add_zero_l x n : Val x n -> f64_add f64_zero x = x.
Proof. by intros (m & e & -> & _). Qed.

Lemma Val_add_zero_r x n : Val x n -> f64_add x f64_zero = x.
Proof. by intros (m & e & -> & _). Qed.

(** The fraction of a second stays strictly between its neighbours. *)
Lemma nsec_bounds k y :
  0 < k < e9 -> 2 * Z.abs (e9 * y - k * 2 ^ 200) <= e9 * 2 ^ 147 ->
  2 ^ 169 < y /\ y + 2 ^ 169 < 2 ^ 200.
Proof. unfold e9. intros Hk Hy. lia. Qed.

Lemma seconds_int_parts s k :
  0 <= s < 2 ^ 23 -> 0 <= k < e9 ->
  f64_trunc (f64_add (f64_of_Z s) (f64_div (f64_of_Z k) (f64_of_Z e9))) = s.
Proof.
  intros Hs Hk.
  destruct (Z.eq_dec k 0) as [->|Hk0].
  - change (f64_of_Z 0) with f64_zero at 1.
    rewrite (f64_div_zero _ _ _ f64_of_e9).
    destruct (Z.eq_dec s 0) as [->|Hs0]; [reflexivity|].
    pose proof (Val_of_Z s ltac:(lia)) as HV.
    rewrite (Val_add_zero_r _ _ HV), (Val_trunc _ _ HV) by lia.
    apply Z.div_mul; lia.
  - destruct (Val_nsec k ltac:(lia)) as (y & Hy & Herr).
    destruct (nsec_bounds k y ltac:(lia) Herr) as [Hylo Hyhi].
    destruct (Z.eq_dec s 0) as [->|Hs0].
    + change (f64_of_Z 0) with f64_zero.
      rewrite (Val_add_zero_l _ _ Hy), (Val_trunc _ _ Hy) by lia.
      apply Z.div_small. lia.
    + pose proof (Val_of_Z s ltac:(lia)) as HV.
      destruct (Val_add _ _ _ _ 23 HV Hy) as (c & Hc & Hcerr); try lia.
      rewrite (Val_trunc _ _ Hc) by lia.
      symmetry. apply Z.div_unique with (c - s * 2 ^ 200); lia.
Qed.

(** Sums and differences lose at most one part in [2 ^ 53]. *)
Lemma log2_scale v : 2 ^ 52 <= v ->
  exists t, - 148 < t /\ 2 ^ (t + 199) <= v < 2 ^ (t + 200).
Proof.
  intros Hv. pose proof (Z.log2_spec v ltac:(lia)) as [H1 H2].
  assert (52 <= Z.log2 v) by (apply Z.log2_le_pow2; lia).
  exists (Z.log2 v - 199).
  replace (Z.log2 v - 199 + 199) with (Z.log2 v) by lia.
  replace (Z.log2 v - 199 + 200) with (Z.succ (Z.log2 v)) by lia. lia.
Qed.

Lemma rel_error c v t :
  - 148 < t -> 2 ^ (t + 199) <= v -> 2 * Z.abs (c - v) <= 2 ^ (t + 147) ->
  2 ^ 53 * Z.abs (c - v) <= v.
Proof.
  intros Ht Hv Hc.
  assert (2 ^ (t + 199) = 2 ^ 52 * 2 ^ (t + 147)) by (rewrite <- Z.pow_add_r by lia; f_equal; lia).
  lia.
Qed.

Lemma Val_add_rel x y a b :
  Val x a -> Val y b -> a + b < 2 ^ 600 ->
  exists c, Val (f64_add x y) c /\ 2 ^ 53 * Z.abs (c - (a + b)) <= a + b.
Proof.
  intros Hx Hy Hlt.
  assert (2 ^ 52 <= a + b).
  { destruct Hx as (m1 & e1 & _ & H1 & He1 & ->). pose proof (Val_pos _ _ Hy).
    unfold norm in H1. pose proof (Z.pow_pos_nonneg 2 (e1 + 200)). nia. }
  destruct (log2_scale (a + b)) as (t & Ht & Hlo & Hhi); [done|].
  assert (t + 199 < 600) by (apply (Z.pow_lt_mono_r_iff 2); lia).
  destruct (Val_add _ _ _ _ t Hx Hy) as (c & Hc & He); try lia.
  exists c. split; [done|]. by apply rel_error with t.
Qed.

Lemma Val_sub_rel x y a b :
  Val x a -> Val y b -> 2 ^ 52 <= a - b < 2 ^ 600 ->
  exists c, Val (f64_sub x y) c /\ 2 ^ 53 * Z.abs (c - (a - b)) <= a - b.
Proof.
  intros Hx Hy Hlt.
  destruct (log2_scale (a - b)) as (t & Ht & Hlo & Hhi); [lia|].
  assert (t + 199 < 600) by (apply (Z.pow_lt_mono_r_iff 2); lia).
  destruct (Val_sub _ _ _ _ t Hx Hy) as (c & Hc & He); try lia.
  exists c. split; [done|]. by apply rel_error with t.
Qed.

(** [int(d.Seconds())] is the number of whole seconds of [d], for every
    non-negative duration under [2 ^ 23] seconds (97 days). *)
Lemma seconds_int_spec d : 0 <= d < 2 ^ 23 * e9 -> seconds_int d = d / e9.
Proof.
  intros Hd. unfold seconds_int, duration_seconds.
  change Second with e9.
  rewrite Z.quot_div_nonneg, Z.rem_mod_nonneg by (unfold e9 in *; lia).
  apply seconds_int_parts.
  - unfold e9 in *. split; [apply Z.div_pos; lia|apply Z.div_lt_upper_bound; lia].
  - apply Z.mod_pos_bound. unfold e9. lia.
Qed.

Lemma seconds_int32_spec d : 0 <= d < 2 ^ 23 * e9 -> seconds_int32 d = d / e9.
Proof.
  intros Hd. pose proof (seconds_int_spec d Hd) as H. unfold seconds_int in H.
  unfold seconds_int32, f64_trunc32. rewrite H.
  assert (0 <= d / e9 < 2 ^ 23).
  { unfold e9 in *. split; [apply Z.div_pos; lia|apply Z.div_lt_upper_bound; lia]. }
  destruct (Z.leb_spec (- 2 ^ 31) (d / e9)); [|lia].
  by destruct (Z.ltb_spec (d / e9) (2 ^ 31)); [|lia].
Qed.

#[export] Hint Resolve seconds_int_spec seconds_int32_spec : dq.
