(* ===== verification/Model.v ===== *)
(** * Shared data types

    The result and argument types of internal/graph/model and
    internal/service/qtypes that several components exchange. A Go pointer that
    may be nil is an [option]; a [time.Time] is an instant (Prelude). *)

From S2P Require Import Prelude.

(** ** internal/graph/model *)

Record Location := mkLocation {
  Latitude : float64;
  Longitude : float64;
  Hdop : float64;
}.

Record SignalLocation := mkSignalLocation {
  sl_Timestamp : Z;
  sl_Value : option Location;
}.

Record SignalAggregationValue := mkSignalAggregationValue {
  sav_Name : string;
  sav_Agg : string;
  sav_Value : float64;
}.

Record EventCount := mkEventCount {
  ec_Name : string;
  ec_Count : Z;
}.

Record Segment := mkSegment {
  seg_Start : option SignalLocation;
  seg_End : option SignalLocation;
  seg_Duration : Z;
  seg_IsOngoing : bool;
  seg_StartedBeforeRange : bool;
  seg_Signals : list SignalAggregationValue;
  seg_EventCounts : list EventCount;
}.

Record SegmentConfig := mkSegmentConfig {
  MaxGapSeconds : option Z;
  MinSegmentDurationSeconds : option Z;
  SignalCountThreshold : option Z;
  MaxIdleRpm : option Z;
  MinIncreasePercent : option Z;
}.

Record DailyActivity := mkDailyActivity {
  da_Start : option SignalLocation;
  da_End : option SignalLocation;
  da_SegmentCount : Z;
  da_Duration : Z;
  da_Signals : list SignalAggregationValue;
  da_EventCounts : list EventCount;
}.

(** The enum is a string type; [MechOther] is any string that is none of the
    declared constants. *)
Inductive DetectionMechanism :=
  | IgnitionDetection
  | FrequencyAnalysis
  | ChangePointDetection
  | Idling
  | Refuel
  | Recharge
  | MechOther (s : string).

#[export] Instance DetectionMechanism_eq_dec : EqDecision DetectionMechanism.
Proof. solve_decision. Defined.

Record SegmentSignalRequest := mkSegmentSignalRequest {
  ssr_Name : string;
  ssr_Agg : string;
}.

(** Enum values of [FloatAggregation] the segment summaries use. *)
Definition AggMax : string := "MAX".
Definition AggFirst : string := "FIRST".
Definition AggLast : string := "LAST".

Inductive SignalFloatFilter := mkSignalFloatFilter {
  sff_Eq : option float64;
  sff_Neq : option float64;
  sff_Gt : option float64;
  sff_Lt : option float64;
  sff_Gte : option float64;
  sff_Lte : option float64;
  sff_NotIn : list float64;
  sff_In : list float64;
  sff_Or : list (option SignalFloatFilter);
}.

Record FloatSignalArgs := mkFloatSignalArgs {
  fsa_Name : string;
  fsa_Agg : string;
  fsa_Alias : string;
  fsa_Filter : option SignalFloatFilter;
}.

(** ** internal/service/qtypes *)

(** [vss.Location], the row type of model-garage. *)
Record vssLocation := mkVssLocation {
  vl_Latitude : float64;
  vl_Longitude : float64;
  vl_HDOP : float64;
  vl_Heading : float64;
}.

Inductive FieldType := FloatType | StringType | LocType | FieldOther (n : Z).

#[export] Instance FieldType_eq_dec : EqDecision FieldType.
Proof. solve_decision. Defined.

(** The [sql.Scanner] of [FieldType] on a driver value that is a [uint8]
    ([Some]) or of another type ([None]). *)
Definition FieldType_Scan (value : option Z) : result string FieldType :=
  match value with
  | None => Err "expected value of type uint8"%string
  | Some w =>
      if (w <? 1) || (3 <? w) then Err "invalid value for field type"%string
      else Ok (if w =? 1 then FloatType else if w =? 2 then StringType else LocType)
  end.

Record AggSignal := mkAggSignal {
  as_SignalType : FieldType;
  as_SignalIndex : Z;
  as_Timestamp : Z;
  as_ValueNumber : float64;
  as_ValueString : string;
  as_ValueLocation : vssLocation;
}.

Record AggSignalForRange := mkAggSignalForRange {
  asr_SegIndex : Z;
  asr_SignalType : FieldType;
  asr_SignalIndex : Z;
  asr_ValueNumber : float64;
  asr_ValueString : string;
  asr_ValueLocation : vssLocation;
}.

Record EventCountForRange := mkEventCountForRange {
  ecr_SegIndex : Z;
  ecr_Name : string;
  ecr_Count : Z;
}.

(** A half-open [[From, To)] interval. *)
Record TimeRange := mkTimeRange { From : Z; To : Z }.
