(* ===== verification/SegUtil.v ===== *)
(** * internal/segments: shared pipeline

    [util.go], [detector.go] and the data of [source.go]: sampled lookups by
    binary search, merging and clipping of time ranges, conversion to segments.
    The lookups are proved equal to filters of the sample list; the merge is
    proved to produce separated, clipped ranges that cover its input. *)

From S2P Require Import Prelude FloatFacts Model.

(** ** Data (source.go, util.go) *)

Record ActiveWindow := mkActiveWindow {
  WindowStart : Z;
  WindowEnd : Z;
  SignalCount : Z;
  DistinctSignalCount : Z;
}.

Record LevelSample := mkLevelSample { TS : Z; Value : float64 }.

Record StateChange := mkStateChange {
  sc_TS : Z;
  NewState : float64;
  PrevState : float64;
}.

Record timeRange := mkRange { start : Z; end_ : Z }.

(** ** detector.go *)

Definition defaultMaxGapSeconds : Z := 300.
Definition defaultMinSegmentDurationSeconds : Z := 240.

Definition newSegment (startTime : Z) (endTime : option Z) (durationSec : Z)
    (isOngoing startedBeforeRange : bool) : Segment :=
  mkSegment (Some (mkSignalLocation startTime None))
            (match endTime with
             | Some e => Some (mkSignalLocation e None)
             | None => None
             end)
            durationSec isOngoing startedBeforeRange [] [].

Record resolvedConfig := mkResolvedConfig { maxGapSeconds : Z; minDuration : Z }.

Definition resolveBaseConfig (config : option SegmentConfig) : resolvedConfig :=
  match config with
  | None => mkResolvedConfig defaultMaxGapSeconds defaultMinSegmentDurationSeconds
  | Some c =>
      mkResolvedConfig (default defaultMaxGapSeconds (MaxGapSeconds c))
                       (default defaultMinSegmentDurationSeconds (MinSegmentDurationSeconds c))
  end.

(** ** Lookups by binary search (util.go) *)

(** [samples[i].TS] compared by the closures given to [sort.Search]. *)
Definition ts_test (p : Z -> bool) (samples : list LevelSample) (i : nat) : bool :=
  match samples !! i with
  | Some s => p (TS s)
  | None => false
  end.

Definition sampleAtOrBefore (samples : list LevelSample) (t : Z) : float64 :=
  if decide (length samples = 0%nat) then f64_zero
  else
    let idx := sort_Search (length samples) (ts_test (fun ts => after ts t) samples) in
    match idx with
    | O => f64_zero
    | S j => match samples !! j with Some s => Value s | None => f64_zero end
    end.

(** [(first, last, ok)]; [None] is [ok = false]. *)
Definition levelFirstLastInRange (samples : list LevelSample) (segStart segEnd : Z)
  : option (float64 * float64) :=
  if decide (length samples = 0%nat) then None
  else
    let startIdx := sort_Search (length samples)
                      (ts_test (fun ts => negb (before ts segStart)) samples) in
    match samples !! startIdx with
    | None => None
    | Some s =>
        if after (TS s) segEnd then None
        else
          let endIdx := sort_Search (length samples)
                          (ts_test (fun ts => after ts segEnd) samples) in
          match endIdx with
          | O => None
          | S e =>
              match samples !! e with
              | None => None
              | Some s' =>
                  if before (TS s') segStart then None
                  else Some (Value s, Value s')
              end
          end
    end.

(** ** Merging and clipping (util.go) *)

Definition clipTimeRange (tr : timeRange) (from to minDur : Z) : option timeRange :=
  let originalDuration := seconds_int (time_sub (end_ tr) (start tr)) in
  let clippedStart := negb (is_zero from) && before (start tr) from in
  let st := if clippedStart then from else start tr in
  let en := if negb (is_zero to) && after (end_ tr) to then to else end_ tr in
  if negb (after en st) then None
  else
    let clippedDuration := seconds_int (time_sub en st) in
    if clippedDuration <? minDur then
      if negb clippedStart || (originalDuration <? minDur) then None
      else Some (mkRange st en)
    else Some (mkRange st en).

Definition emit (r : option timeRange) : list timeRange :=
  match r with Some tr => [tr] | None => [] end.

(** The loop of [mergeTimeRanges], [cur] being the range under construction. *)
Fixpoint merge_loop (maxGap minDur from to : Z)
    (shouldMerge : option (timeRange -> timeRange -> bool))
    (cur : timeRange) (ranges : list timeRange) : list timeRange :=
  match ranges with
  | [] => emit (clipTimeRange cur from to minDur)
  | next :: rest =>
      let gap := time_sub (start next) (end_ cur) in
      let doMerge :=
        (gap <=? maxGap) &&
        match shouldMerge with None => true | Some f => f cur next end in
      if doMerge then
        let cur' := if after (end_ next) (end_ cur)
                    then mkRange (start cur) (end_ next) else cur in
        merge_loop maxGap minDur from to shouldMerge cur' rest
      else
        emit (clipTimeRange cur from to minDur) ++
        merge_loop maxGap minDur from to shouldMerge next rest
  end.

(** The order [sort.Slice] sorts by: [ranges[i].start.Before(ranges[j].start)]. *)
Definition range_le (a b : timeRange) : bool := start a <=? start b.

Definition mergeTimeRanges (ranges : list timeRange) (maxGap minDur from to : Z)
    (shouldMerge : option (timeRange -> timeRange -> bool)) : list timeRange :=
  match isort range_le ranges with
  | [] => []
  | cur :: rest => merge_loop maxGap minDur from to shouldMerge cur rest
  end.

(** [tr.start.Equal(from) || tr.start.Before(from)]. *)
Definition startedBefore (t from : Z) : bool := tequal t from || before t from.

Definition timeRangesToSegments (ranges : list timeRange) (from : Z) : list Segment :=
  map (fun tr =>
         newSegment (start tr) (Some (end_ tr))
                    (seconds_int32 (time_sub (end_ tr) (start tr))) false
                    (startedBefore (start tr) from)) ranges.

(** The body of the loop over the merged ranges; [now] is [timeNow()]. *)
Definition window_segment (now from to maxGapDur minDur : Z) (isLast : bool)
    (tr : timeRange) : list Segment :=
  if isLast && (time_sub to (end_ tr) <=? maxGapDur) && (time_sub now to <=? maxGapDur) then
    let durSec := seconds_int32 (time_sub to (start tr)) in
    if minDur <=? durSec
    then [newSegment (start tr) None durSec true (startedBefore (start tr) from)]
    else []
  else
    [newSegment (start tr) (Some (end_ tr))
                (seconds_int32 (time_sub (end_ tr) (start tr))) false
                (startedBefore (start tr) from)].

Fixpoint windows_out (now from to maxGapDur minDur : Z) (merged : list timeRange)
  : list Segment :=
  match merged with
  | [] => []
  | [tr] => window_segment now from to maxGapDur minDur true tr
  | tr :: rest =>
      window_segment now from to maxGapDur minDur false tr ++
      windows_out now from to maxGapDur minDur rest
  end.

Definition window_range (to : Z) (w : ActiveWindow) : timeRange :=
  mkRange (WindowStart w) (if after (WindowEnd w) to then to else WindowEnd w).

Definition mergeWindowsIntoSegments (now : Z) (windows : list ActiveWindow)
    (from to maxGap minDur : Z) : list Segment :=
  let ranges := map (window_range to) windows in
  let maxGapDur := duration_of maxGap Second in
  windows_out now from to maxGapDur minDur
    (mergeTimeRanges ranges maxGapDur minDur from to None).

(** ** The lookups are filters *)

Definition sorted_samples (l : list LevelSample) : Prop :=
  StronglySorted (fun a b => TS a <= TS b) l.

Section lookups.
Context (samples : list LevelSample) (Hsorted : sorted_samples samples).

Lemma ts_sorted i j x y :
  samples !! i = Some x -> samples !! j = Some y -> (i <= j)%nat -> TS x <= TS y.
Proof.
  intros Hx Hy Hij. destruct (decide (i = j)) as [->|]; [simplify_eq; lia|].
  apply (sorted_lookup _ _ _ _ _ _ Hsorted Hx Hy). lia.
Qed.

(** What a search for a test that is monotone in the instant returns. *)
Lemma ts_search p :
  (forall a b, a <= b -> p a = true -> p b = true) ->
  let k := sort_Search (length samples) (ts_test p samples) in
  (k <= length samples)%nat /\
  (forall i x, samples !! i = Some x -> (i < k)%nat -> p (TS x) = false) /\
  (forall i x, samples !! i = Some x -> (k <= i)%nat -> p (TS x) = true).
Proof.
  intros Hp. destruct (sort_Search_spec (ts_test p samples) (length samples)) as (H1 & H2 & H3).
  { intros a b Hab Ha. unfold ts_test in *.
    destruct (samples !! a) as [x|] eqn:Ex; [|done].
    destruct (lookup_lt_ex samples b) as [y Ey]; [lia|]. rewrite Ey.
    eapply Hp; [|exact Ha]. eapply ts_sorted; eauto. lia. }
  split; [exact H1|]. split; intros i x Hx Hi.
  - specialize (H2 i Hi). unfold ts_test in H2. by rewrite Hx in H2.
  - apply lookup_lt_Some in Hx as Hlt. specialize (H3 i ltac:(lia)).
    unfold ts_test in H3. by rewrite Hx in H3.
Qed.

Lemma filter_upto t :
  let k := sort_Search (length samples) (ts_test (fun ts => after ts t) samples) in
  (k <= length samples)%nat /\ filter (fun s => TS s <= t) samples = take k samples.
Proof.
  destruct (ts_search (fun ts => after ts t)) as (Hk & Hlo & Hhi).
  { intros a b Hab Ha. bools. lia. }
  split; [exact Hk|]. apply filter_prefix; intros i x Hx Hi.
  - specialize (Hlo i x Hx Hi). bools. lia.
  - specialize (Hhi i x Hx Hi). bools. lia.
Qed.

Lemma filter_from t (l : list LevelSample) :
  let k := sort_Search (length samples) (ts_test (fun ts => negb (before ts t)) samples) in
  l `prefix_of` samples ->
  filter (fun s => t <= TS s) l = drop k l.
Proof.
  destruct (ts_search (fun ts => negb (before ts t))) as (Hk & Hlo & Hhi).
  { intros a b Hab Ha. bools. lia. }
  intros k Hpre. apply filter_suffix; intros i x Hx Hi;
    pose proof (prefix_lookup_Some _ _ _ _ Hx Hpre) as Hx'.
  - specialize (Hlo i x Hx' Hi). bools. lia.
  - specialize (Hhi i x Hx' Hi). bools. lia.
Qed.
End lookups.

Lemma sampleAtOrBefore_filter samples t :
  sorted_samples samples ->
  sampleAtOrBefore samples t =
  match last (filter (fun s => TS s <= t) samples) with
  | Some s => Value s
  | None => f64_zero
  end.
Proof.
  intros Hs. unfold sampleAtOrBefore.
  destruct (filter_upto samples Hs t) as [Hk ->].
  set (k := sort_Search _ _) in *. rewrite last_lookup, length_take.
  case_decide as Hl.
  { destruct samples; [by rewrite take_nil|done]. }
  destruct k as [|j]; [done|].
  replace (Nat.pred (S j `min` length samples)) with j by lia.
  by rewrite lookup_take_lt by lia.
Qed.

Lemma levelFirstLastInRange_filter samples a b :
  sorted_samples samples ->
  levelFirstLastInRange samples a b =
  match head (filter (fun s => a <= TS s /\ TS s <= b) samples),
        last (filter (fun s => a <= TS s /\ TS s <= b) samples) with
  | Some s, Some s' => Some (Value s, Value s')
  | _, _ => None
  end.
Proof.
  intros Hs. unfold levelFirstLastInRange.
  assert (Hf : filter (fun s => a <= TS s /\ TS s <= b) samples =
               filter (fun s => a <= TS s) (filter (fun s => TS s <= b) samples)).
  { by rewrite list_filter_filter. }
  rewrite Hf. destruct (filter_upto samples Hs b) as [He ->].
  set (e := sort_Search _ (ts_test (fun ts => after ts b) samples)) in *.
  rewrite (filter_from samples Hs a (take e samples)) by apply prefix_take.
  destruct (ts_search samples Hs (fun ts => negb (before ts a))) as (Hk & Hlo & Hhi).
  { intros x y Hxy Hx. bools. lia. }
  destruct (ts_search samples Hs (fun ts => after ts b)) as (_ & Hlo' & Hhi').
  { intros x y Hxy Hx. bools. lia. }
  set (s := sort_Search _ (ts_test (fun ts => negb (before ts a)) samples)) in *.
  fold e in Hlo', Hhi'.
  rewrite head_lookup, lookup_drop, Nat.add_0_r.
  rewrite last_lookup, length_drop, length_take, lookup_drop.
  case_decide as Hl.
  { destruct samples; [by rewrite take_nil|done]. }
  destruct (samples !! s) as [x|] eqn:Ex.
  2:{ apply lookup_ge_None in Ex. by rewrite (lookup_take_ge samples e s) by lia. }
  pose proof (lookup_lt_Some _ _ _ Ex) as Hslt.
  destruct (after (TS x) b) eqn:Eab.
  { assert (e <= s)%nat.
    { destruct (decide (e <= s)%nat); [done|]. rewrite (Hlo' s x Ex) in Eab by lia. done. }
    by rewrite (lookup_take_ge samples e s) by lia. }
  assert (s < e)%nat.
  { destruct (decide (s < e)%nat); [done|]. rewrite (Hhi' s x Ex) in Eab by lia. done. }
  rewrite lookup_take_lt by lia. rewrite Ex.
  destruct e as [|e']; [lia|].
  replace (s + Nat.pred (S e' `min` length samples - s))%nat with e' by lia.
  rewrite lookup_take_lt by lia.
  destruct (samples !! e') as [y|] eqn:Ey; [|done].
  specialize (Hhi e' y Ey ltac:(lia)). apply negb_true_iff in Hhi. by rewrite Hhi.
Qed.

(** ** Clipping *)

Definition valid_range (r : timeRange) : Prop := start r <= end_ r.

Lemma clip_bounds tr from to minDur r :
  clipTimeRange tr from to minDur = Some r ->
  start r < end_ r /\ start tr <= start r /\ end_ r <= end_ tr /\
  (from <> zero_time -> start r = Z.max (start tr) from) /\
  (to <> zero_time -> end_ r = Z.min (end_ tr) to).
Proof.
  unfold clipTimeRange. intros H.
  destruct (negb (is_zero from) && before (start tr) from) eqn:E1;
  destruct (negb (is_zero to) && after (end_ tr) to) eqn:E2;
  match type of H with context [after ?a ?b] => destruct (after a b) eqn:E3 end;
  simpl in H; try discriminate;
  repeat (match type of H with (if ?b then _ else _) = _ => destruct b end; simpl in H);
  simplify_eq; simpl; bools; lia.
Qed.

(** What survives clipping lasts [minDur] seconds unless its start was cut off. *)
Lemma clip_min tr from to minDur r :
  from <> zero_time -> to <> zero_time -> to - from < 2 ^ 23 * e9 ->
  clipTimeRange tr from to minDur = Some r ->
  start r = from \/ minDur * e9 <= end_ r - start r.
Proof.
  intros Hf Ht Hw H. pose proof (clip_bounds _ _ _ _ _ H) as (H1 & _ & _ & H2 & H3).
  specialize (H2 Hf). specialize (H3 Ht). unfold clipTimeRange in H.
  destruct (negb (is_zero from) && before (start tr) from) eqn:E1; [left; bools; lia|].
  right. destruct (negb (is_zero to) && after (end_ tr) to) eqn:E2; simpl in H;
    (match type of H with (if ?b then _ else _) = _ => destruct b; [discriminate|] end);
    (match type of H with (if ?b then _ else _) = _ => destruct b eqn:E3; [discriminate|] end);
    apply Z.ltb_ge in E3; simplify_eq; simpl in *;
    rewrite time_sub_exact in E3 by (unfold in_int64, min_int64, max_int64, e9 in *; lia);
    rewrite seconds_int_spec in E3 by lia;
    (etrans; [apply Z.mul_le_mono_nonneg_r; [unfold e9; lia|exact E3]|]);
    rewrite Z.mul_comm; apply Z.mul_div_le; unfold e9; lia.
Qed.

(** A range whose visible part lasts [minDur] seconds survives clipping. *)
Lemma clip_keeps tr from to minDur :
  from <> zero_time -> to <> zero_time -> 0 <= to - from < 2 ^ 23 * e9 ->
  Z.max (start tr) from < Z.min (end_ tr) to ->
  minDur * e9 <= Z.min (end_ tr) to - Z.max (start tr) from ->
  clipTimeRange tr from to minDur =
  Some (mkRange (Z.max (start tr) from) (Z.min (end_ tr) to)).
Proof.
  intros Hf Ht Hw Hlt Hmin. unfold clipTimeRange.
  assert (Hst : (if negb (is_zero from) && before (start tr) from then from else start tr)
                = Z.max (start tr) from).
  { destruct (negb (is_zero from) && before (start tr) from) eqn:E; bools; lia. }
  assert (Hen : (if negb (is_zero to) && after (end_ tr) to then to else end_ tr)
                = Z.min (end_ tr) to).
  { destruct (negb (is_zero to) && after (end_ tr) to) eqn:E; bools; lia. }
  rewrite Hst, Hen.
  replace (after (Z.min (end_ tr) to) (Z.max (start tr) from)) with true by (symmetry; bools; lia).
  simpl. assert (Hd : 0 <= Z.min (end_ tr) to - Z.max (start tr) from < 2 ^ 23 * e9) by lia.
  rewrite time_sub_exact by (unfold in_int64, min_int64, max_int64, e9 in *; lia).
  rewrite seconds_int_spec by exact Hd.
  destruct (Z.ltb_spec ((Z.min (end_ tr) to - Z.max (start tr) from) / e9) minDur) as [Hc|]; [|done].
  exfalso. apply Z.lt_nge in Hc. apply Hc. apply Z.div_le_lower_bound; unfold e9 in *; lia.
Qed.

Lemma omap_sorted {A} (R : A -> A -> Prop) (f : A -> option A) (l : list A) :
  (forall a a' b b', f a = Some a' -> f b = Some b' -> R a b -> R a' b') ->
  StronglySorted R l -> StronglySorted R (omap f l).
Proof.
  intros Hf. induction 1 as [|x l Hs IH Hall]; simpl; [constructor|].
  destruct (f x) as [x'|] eqn:Ex; [|done]. constructor; [done|].
  rewrite Forall_forall in *. intros y' Hy'.
  apply list_elem_of_omap in Hy' as (y & Hy & Ey). eauto.
Qed.

(** ** The merged runs before clipping *)

Section runs.
Context (maxGap : Z).

Fixpoint merge_runs (shouldMerge : option (timeRange -> timeRange -> bool))
    (cur : timeRange) (ranges : list timeRange) : list timeRange :=
  match ranges with
  | [] => [cur]
  | next :: rest =>
      if (time_sub (start next) (end_ cur) <=? maxGap) &&
         match shouldMerge with None => true | Some f => f cur next end
      then merge_runs shouldMerge
             (if after (end_ next) (end_ cur) then mkRange (start cur) (end_ next) else cur) rest
      else cur :: merge_runs shouldMerge next rest
  end.

Lemma merge_loop_runs minDur from to sm cur ranges :
  merge_loop maxGap minDur from to sm cur ranges =
  omap (fun tr => clipTimeRange tr from to minDur) (merge_runs sm cur ranges).
Proof.
  revert cur; induction ranges as [|next rest IH]; intros cur; simpl.
  - by destruct (clipTimeRange cur from to minDur).
  - destruct (_ && _); simpl; rewrite IH; [done|].
    by destruct (clipTimeRange cur from to minDur).
Qed.

Definition sorted_ranges (l : list timeRange) : Prop :=
  StronglySorted (fun a b => range_le a b = true) l.

Lemma extend_cur_valid cur next :
  valid_range cur -> valid_range next ->
  valid_range (if after (end_ next) (end_ cur) then mkRange (start cur) (end_ next) else cur).
Proof. unfold valid_range. destruct (after _ _) eqn:E; simpl; bools; lia. Qed.

Lemma extend_cur_sorted cur next rest :
  sorted_ranges (cur :: next :: rest) ->
  sorted_ranges ((if after (end_ next) (end_ cur) then mkRange (start cur) (end_ next) else cur)
                 :: rest).
Proof.
  intros Hs. inversion Hs as [|? ? Hs1 Hall]; subst. inversion Hs1 as [|? ? Hs2 Hall2]; subst.
  inversion Hall as [|? ? _ Hall']; subst. constructor; [done|].
  by destruct (after _ _); simpl.
Qed.

(** Every run starts at or after [cur]. *)
Lemma runs_start sm cur ranges :
  sorted_ranges (cur :: ranges) ->
  Forall (fun r => start cur <= start r) (merge_runs sm cur ranges).
Proof.
  revert cur; induction ranges as [|next rest IH]; intros cur Hs; simpl.
  { constructor; [lia|done]. }
  destruct (_ && _).
  - pose proof (IH _ (extend_cur_sorted _ _ _ Hs)) as HF.
    destruct (after _ _); simpl in HF; exact HF.
  - constructor; [lia|].
    inversion Hs as [|? ? Hs1 Hall]; subst. inversion Hall as [|? ? Hle _]; subst.
    eapply Forall_impl; [exact (IH _ Hs1)|]. unfold range_le in Hle.
    intros r Hr. bools. simpl in *. lia.
Qed.

(** Distinct runs are separated by more than the gap. *)
Lemma runs_separated cur ranges :
  in_int64 maxGap -> maxGap < max_int64 ->
  sorted_ranges (cur :: ranges) ->
  StronglySorted (fun a b => end_ a + maxGap < start b) (merge_runs None cur ranges).
Proof.
  intros Hg Hg'. revert cur; induction ranges as [|next rest IH]; intros cur Hs; simpl.
  { repeat constructor. }
  destruct (_ && _) eqn:E; [by apply IH, extend_cur_sorted|].
  rewrite andb_true_r in E. apply Z.leb_gt in E.
  inversion Hs as [|? ? Hs1 Hall]; subst.
  constructor; [by apply IH|].
  eapply Forall_impl; [exact (runs_start None _ _ Hs1)|]. intros r Hr; simpl in Hr.
  assert (~ (start next - end_ cur <= maxGap)); [|lia].
  rewrite <- (time_sub_le_iff _ _ _ Hg Hg'). lia.
Qed.

(** Every input range lies inside a run, and every run is delimited by inputs. *)
Lemma runs_cover sm cur ranges r :
  sorted_ranges (cur :: ranges) -> In r (cur :: ranges) ->
  exists o, In o (merge_runs sm cur ranges) /\ start o <= start r /\ end_ r <= end_ o.
Proof.
  revert cur r; induction ranges as [|next rest IH]; intros cur r Hs Hin; simpl.
  { destruct Hin as [->|[]]. exists r. simpl. split; [by left|lia]. }
  assert (Hle : start cur <= start next).
  { inversion Hs as [|? ? _ Hall]; subst. inversion Hall; subst. unfold range_le in *.
    bools. lia. }
  destruct (_ && _).
  - pose proof (fun x => IH _ x (extend_cur_sorted _ _ _ Hs)) as IH'; clear IH; rename IH' into IH.
    set (cur' := if after (end_ next) (end_ cur) then mkRange (start cur) (end_ next) else cur) in *.
    assert (Hc : start cur' = start cur /\ end_ cur <= end_ cur' /\ end_ next <= end_ cur').
    { unfold cur'. destruct (after _ _) eqn:Ea; simpl; bools; lia. }
    destruct Hin as [->|[->|Hin]].
    + destruct (IH cur') as (o & Ho & H1 & H2); [by left|]. exists o. split; [done|lia].
    + destruct (IH cur') as (o & Ho & H1 & H2); [by left|]. exists o. split; [done|lia].
    + apply IH. by right.
  - inversion Hs as [|? ? Hs1 _]; subst. destruct Hin as [->|Hin].
    + exists r. split; [by left|lia].
    + destruct (IH next r Hs1 Hin) as (o & Ho & H). exists o. split; [by right|done].
Qed.
(** A run starts where an input starts and ends where an input ends. *)
Lemma runs_delimited sm cur ranges o :
  In o (merge_runs sm cur ranges) ->
  (exists r, In r (cur :: ranges) /\ start r = start o) /\
  (exists r, In r (cur :: ranges) /\ end_ r = end_ o).
Proof.
  revert cur; induction ranges as [|next rest IH]; intros cur; simpl.
  { intros [->|[]]. split; exists o; auto. }
  destruct (_ && _).
  - intros H. destruct (IH _ H) as [(r1 & Hr1 & E1) (r2 & Hr2 & E2)].
    destruct (after (end_ next) (end_ cur)); split.
    + destruct Hr1 as [<-|Hr1]; [exists cur|exists r1]; auto.
    + destruct Hr2 as [<-|Hr2]; [exists next|exists r2]; auto.
    + destruct Hr1 as [<-|Hr1]; [exists cur|exists r1]; auto.
    + destruct Hr2 as [<-|Hr2]; [exists cur|exists r2]; auto.
  - intros [->|H]; [split; exists o; auto|].
    destruct (IH _ H) as [(r1 & Hr1 & E1) (r2 & Hr2 & E2)].
    split; [exists r1|exists r2]; auto.
Qed.

(** Inputs that do not overlap give runs that do not overlap. *)
Definition disjoint_ranges (l : list timeRange) : Prop :=
  StronglySorted (fun a b => end_ a <= start b) l /\ Forall valid_range l.

Lemma runs_disjoint sm cur ranges :
  disjoint_ranges (cur :: ranges) -> disjoint_ranges (merge_runs sm cur ranges).
Proof.
  revert cur; induction ranges as [|next rest IH]; intros cur [Hs Hv]; simpl; [done|].
  inversion Hs as [|? ? Hs1 Hall]; subst. inversion Hs1 as [|? ? Hs2 Hall2]; subst.
  inversion Hall as [|? ? Hcn Hall']; subst. inversion Hv as [|? ? Hvc Hv1]; subst.
  inversion Hv1 as [|? ? Hvn Hv2]; subst.
  destruct (_ && _).
  - apply IH. split; [|constructor; [by apply extend_cur_valid|done]].
    constructor; [done|]. by destruct (after _ _).
  - destruct (IH next) as [HS HV]; [by split|].
    split; [|by constructor]. constructor; [done|].
    apply Forall_forall. intros o Ho. apply list_elem_of_In in Ho.
    destruct (runs_delimited sm next rest o Ho) as [(r & Hr & <-) _].
    rewrite Forall_forall in Hall. apply Hall. by apply list_elem_of_In.
Qed.
End runs.

Lemma disjoint_sorted l : disjoint_ranges l -> sorted_ranges l.
Proof.
  intros [Hs Hv]. induction Hs as [|r l Hs IH Hall]; [constructor|].
  inversion Hv; subst. constructor; [by apply IH|].
  rewrite Forall_forall in *. intros x Hx. specialize (Hall x Hx).
  unfold range_le, valid_range in *. bools. lia.
Qed.

Lemma merge_disjoint_gen ranges maxGap minDur from to sm :
  disjoint_ranges ranges ->
  StronglySorted (fun a b => end_ a <= start b) (mergeTimeRanges ranges maxGap minDur from to sm).
Proof.
  intros Hd. unfold mergeTimeRanges.
  rewrite isort_id by (by apply disjoint_sorted).
  destruct ranges as [|cur rest]; [constructor|]. rewrite merge_loop_runs.
  apply omap_sorted; [|by apply runs_disjoint].
  intros a a' b b' Ha Hb HR. apply clip_bounds in Ha, Hb. lia.
Qed.

Lemma isort_ranges_sorted ranges : sorted_ranges (isort range_le ranges).
Proof.
  apply isort_sorted; unfold range_le; intros; bools; lia.
Qed.

Lemma mergeTimeRanges_runs ranges maxGap minDur from to sm :
  ranges <> [] ->
  exists cur rest,
    Permutation (cur :: rest) ranges /\ sorted_ranges (cur :: rest) /\
    mergeTimeRanges ranges maxGap minDur from to sm =
    omap (fun tr => clipTimeRange tr from to minDur) (merge_runs maxGap sm cur rest).
Proof.
  intros Hne. unfold mergeTimeRanges.
  pose proof (isort_perm range_le ranges) as Hp.
  pose proof (isort_ranges_sorted ranges) as Hs.
  destruct (isort range_le ranges) as [|cur rest].
  { symmetry in Hp. by apply Permutation_nil_r in Hp. }
  exists cur, rest. split; [done|]. split; [done|]. apply merge_loop_runs.
Qed.

Lemma merge_delimited_gen ranges maxGap minDur from to sm o :
  In o (mergeTimeRanges ranges maxGap minDur from to sm) ->
  exists tr, clipTimeRange tr from to minDur = Some o /\
    (exists r, In r ranges /\ start r = start tr) /\ (exists r, In r ranges /\ end_ r = end_ tr).
Proof.
  intros Ho. destruct (decide (ranges = [])) as [->|Hne]; [done|].
  destruct (mergeTimeRanges_runs ranges maxGap minDur from to sm Hne) as (cur & rest & Hp & _ & E).
  rewrite E in Ho. apply list_elem_of_In, list_elem_of_omap in Ho as (tr & Htr & Hc).
  exists tr. split; [done|]. apply list_elem_of_In in Htr.
  destruct (runs_delimited maxGap sm cur rest tr Htr) as [(r1 & Hr1 & E1) (r2 & Hr2 & E2)].
  split; [exists r1|exists r2]; (split; [eapply Permutation_in; [exact Hp|done]|done]).
Qed.

Lemma merge_separated_gen ranges maxGap minDur from to :
  in_int64 maxGap -> maxGap < max_int64 ->
  Forall (fun r => start r < end_ r /\
                   (from <> zero_time -> from <= start r) /\ (to <> zero_time -> end_ r <= to))
         (mergeTimeRanges ranges maxGap minDur from to None) /\
  StronglySorted (fun a b => end_ a + maxGap < start b)
                 (mergeTimeRanges ranges maxGap minDur from to None).
Proof.
  intros Hg Hg'. destruct (decide (ranges = [])) as [->|Hne]; [by repeat constructor|].
  destruct (mergeTimeRanges_runs ranges maxGap minDur from to None Hne)
    as (cur & rest & _ & Hs & ->).
  split.
  - rewrite Forall_forall. intros r Hr. apply list_elem_of_omap in Hr as (tr & _ & Hc).
    apply clip_bounds in Hc. intuition lia.
  - apply omap_sorted; [|by apply runs_separated].
    intros a a' b b' Ha Hb HR. apply clip_bounds in Ha, Hb. lia.
Qed.

Lemma merge_min_gen ranges maxGap minDur from to sm :
  from <> zero_time -> to <> zero_time -> to - from < 2 ^ 23 * e9 ->
  Forall (fun r => start r = from \/ minDur * e9 <= end_ r - start r)
         (mergeTimeRanges ranges maxGap minDur from to sm).
Proof.
  intros Hf Ht Hw. destruct (decide (ranges = [])) as [->|Hne]; [constructor|].
  destruct (mergeTimeRanges_runs ranges maxGap minDur from to sm Hne) as (cur & rest & _ & _ & ->).
  apply Forall_forall. intros r (tr & _ & Hr)%list_elem_of_omap. by eapply clip_min.
Qed.

Lemma merge_covers_gen ranges maxGap minDur from to sm r :
  from <> zero_time -> to <> zero_time -> 0 <= to - from < 2 ^ 23 * e9 ->
  In r ranges ->
  Z.max (start r) from < Z.min (end_ r) to ->
  minDur * e9 <= Z.min (end_ r) to - Z.max (start r) from ->
  exists o, In o (mergeTimeRanges ranges maxGap minDur from to sm) /\
            start o <= Z.max (start r) from /\ Z.min (end_ r) to <= end_ o.
Proof.
  intros Hf Ht Hw Hin Hvis Hmin.
  destruct (mergeTimeRanges_runs ranges maxGap minDur from to sm) as (cur & rest & Hp & Hs & ->).
  { by intros ->. }
  destruct (runs_cover maxGap sm cur rest r Hs) as (o & Ho & H1 & H2).
  { eapply Permutation_in; [symmetry; exact Hp|done]. }
  exists (mkRange (Z.max (start o) from) (Z.min (end_ o) to)). simpl.
  split; [|lia]. apply list_elem_of_In, list_elem_of_omap. exists o.
  split; [by apply list_elem_of_In|]. apply clip_keeps; try done; lia.
Qed.

(** ** Windows to segments *)

Definition seg_start (s : Segment) : option Z := sl_Timestamp <$> seg_Start s.
Definition seg_end (s : Segment) : option Z := sl_Timestamp <$> seg_End s.

(** [b] starts more than [gap] after the end of [a], which is therefore not open. *)
Definition seg_before (gap : Z) (a b : Segment) : Prop :=
  exists e s, seg_end a = Some e /\ seg_start b = Some s /\ e + gap < s.

(** What a detector promises of one segment of a query over [[from, to]]. *)
Definition seg_within (from to : Z) (s : Segment) : Prop :=
  exists t, seg_start s = Some t /\ from <= t < to /\
            seg_IsOngoing s = bool_decide (seg_end s = None) /\
            seg_StartedBeforeRange s = (t <=? from) /\
            (forall e, seg_end s = Some e -> t < e <= to /\
                       seg_Duration s = seconds_int32 (time_sub e t)).

Lemma startedBefore_le t from : startedBefore t from = (t <=? from).
Proof. unfold startedBefore. bools. lia. Qed.

Lemma in_windows_out now from to g minDur merged s :
  In s (windows_out now from to g minDur merged) ->
  exists tr isLast, In tr merged /\ In s (window_segment now from to g minDur isLast tr).
Proof.
  induction merged as [|tr rest IH]; [done|].
  destruct rest as [|tr' rest]; [by exists tr, true; split; [left|]|].
  set (l := tr' :: rest) in *.
  change (windows_out now from to g minDur (tr :: l))
    with (window_segment now from to g minDur false tr ++ windows_out now from to g minDur l).
  intros [H|H]%in_app_or.
  - exists tr, false. split; [by left|done].
  - destruct (IH H) as (tr0 & b & ? & ?). exists tr0, b. split; [by right|done].
Qed.

Lemma window_segment_within now from to g minDur isLast tr s :
  from <= start tr -> start tr < end_ tr -> end_ tr <= to ->
  In s (window_segment now from to g minDur isLast tr) ->
  seg_within from to s /\ seg_start s = Some (start tr) /\
  (isLast = false -> seg_end s = Some (end_ tr)).
Proof.
  intros H1 H2 H3. unfold window_segment.
  destruct (isLast && _ && _) eqn:E.
  - destruct (minDur <=? _); simpl; [|done]. intros [<-|[]].
    split; [|split; [done|]].
    + exists (start tr). rewrite startedBefore_le. repeat split; try done; lia.
    + intros ->. done.
  - simpl. intros [<-|[]]. split; [|split; done].
    exists (start tr). rewrite startedBefore_le. repeat split; try done; try lia.
    all: intros; unfold seg_end in *; simpl in *; simplify_eq; first [lia|reflexivity].
Qed.

Lemma windows_out_sorted now from to g minDur gap merged :
  Forall (fun r => from <= start r /\ start r < end_ r /\ end_ r <= to) merged ->
  StronglySorted (fun a b => end_ a + gap < start b) merged ->
  StronglySorted (seg_before gap) (windows_out now from to g minDur merged).
Proof.
  intros HF. induction 1 as [|tr rest Hs IH Hall]; [constructor|].
  inversion HF as [|? ? (H1 & H2 & H3) HF']; subst. specialize (IH HF').
  destruct rest as [|tr' rest'].
  { cbn [windows_out]. unfold window_segment.
    destruct (true && _ && _); [destruct (minDur <=? _)|]; repeat constructor. }
  set (l := tr' :: rest') in *.
  change (windows_out now from to g minDur (tr :: l))
    with (newSegment (start tr) (Some (end_ tr)) (seconds_int32 (time_sub (end_ tr) (start tr)))
            false (startedBefore (start tr) from) :: windows_out now from to g minDur l).
  constructor; [exact IH|]. apply Forall_forall. intros s Hs'.
  apply list_elem_of_In, in_windows_out in Hs' as (tr0 & b & Hin & Hw).
  rewrite Forall_forall in Hall, HF'. apply list_elem_of_In in Hin.
  destruct (HF' _ Hin) as (A1 & A2 & A3).
  apply window_segment_within in Hw as (_ & Hst & _); try done.
  exists (end_ tr), (start tr0). repeat split; try done. by apply Hall.
Qed.

(** [mergeTimeRanges] (no merge predicate): for any input, the ranges it
    returns are non-empty, clipped to the query window, in ascending order and
    more than [maxGap] apart; each lasts [minDuration] seconds unless it starts
    where the window does; and every input range whose visible part lasts at
    least [minDuration] seconds is covered by one of them. *)
Theorem mergeTimeRanges_spec ranges maxGap minDur from to :
  in_int64 maxGap -> maxGap < max_int64 ->
  from <> zero_time -> to <> zero_time -> 0 <= to - from < 2 ^ 23 * e9 ->
  let out := mergeTimeRanges ranges maxGap minDur from to None in
  Forall (fun r => from <= start r /\ start r < end_ r /\ end_ r <= to) out /\
  StronglySorted (fun a b => end_ a + maxGap < start b) out /\
  Forall (fun r => start r = from \/ minDur * e9 <= end_ r - start r) out /\
  (forall r, In r ranges ->
     Z.max (start r) from < Z.min (end_ r) to ->
     minDur * e9 <= Z.min (end_ r) to - Z.max (start r) from ->
     exists o, In o out /\ start o <= Z.max (start r) from /\ Z.min (end_ r) to <= end_ o).
Proof.
  intros Hg Hg' Hf Ht Hw out.
  destruct (merge_separated_gen ranges maxGap minDur from to Hg Hg') as [HF HS].
  split; [|split; [exact HS|split; [apply merge_min_gen; try done; lia|]]].
  - eapply Forall_impl; [exact HF|]. intros r (H1 & H2 & H3). auto.
  - intros r. by apply merge_covers_gen.
Qed.

Example mergeTimeRanges_spec_witness :
  let s n := n * Second in
  let rs := [mkRange (s 500) (s 900); mkRange (s 100) (s 400); mkRange (s 2000) (s 2010)] in
  mergeTimeRanges rs (s 300) 240 (s 200) (s 3000) None = [mkRange (s 200) (s 900)] /\
  Forall (fun r => s 200 <= start r /\ start r < end_ r /\ end_ r <= s 3000)
         (mergeTimeRanges rs (s 300) 240 (s 200) (s 3000) None).
Proof.
  split; [vm_compute; reflexivity|].
  apply (mergeTimeRanges_spec _ (300 * Second) 240 (200 * Second) (3000 * Second));
    vm_compute; intuition discriminate.
Defined.

(** [mergeWindowsIntoSegments] (frequency and change-point detectors): all
    segments start inside the query window, each is more than [maxGap] after the
    previous one's end, so that only the last may be ongoing; [IsOngoing] holds
    exactly when [End] is absent, [StartedBeforeRange] exactly when the start is
    the window's, and a closed segment ends inside the window with its duration
    in whole seconds. *)
Theorem mergeWindowsIntoSegments_spec now ws from to maxGap minDur :
  0 <= maxGap < 2 ^ 33 -> from <> zero_time -> to <> zero_time ->
  let out := mergeWindowsIntoSegments now ws from to maxGap minDur in
  StronglySorted (seg_before (maxGap * Second)) out /\ Forall (seg_within from to) out.
Proof.
  intros Hg Hf Ht out. unfold out, mergeWindowsIntoSegments.
  assert (Hd : duration_of maxGap Second = maxGap * Second).
  { apply wrap64_id. unfold in_int64, min_int64, max_int64, Second, Millisecond, Microsecond, Nanosecond. lia. }
  rewrite Hd.
  destruct (merge_separated_gen (map (window_range to) ws) (maxGap * Second) minDur from to)
    as [HF HS].
  1,2: unfold in_int64, min_int64, max_int64, Second, Millisecond, Microsecond, Nanosecond; lia.
  set (merged := mergeTimeRanges _ _ _ _ _ _) in *.
  assert (HF' : Forall (fun r => from <= start r /\ start r < end_ r /\ end_ r <= to) merged).
  { eapply Forall_impl; [exact HF|]. intros r (H1 & H2 & H3). auto. }
  split; [by apply windows_out_sorted|].
  apply Forall_forall. intros s Hs.
  apply list_elem_of_In, in_windows_out in Hs as (tr & b & Hin & Hw).
  apply list_elem_of_In in Hin. rewrite Forall_forall in HF'.
  destruct (HF' _ Hin) as (A1 & A2 & A3).
  by apply window_segment_within in Hw as (Hres & _ & _).
Qed.

Example mergeWindowsIntoSegments_spec_witness :
  let s n := n * Second in
  let ws := [mkActiveWindow (s 60) (s 120) 20 3; mkActiveWindow (s 120) (s 180) 20 3;
             mkActiveWindow (s 180) (s 480) 20 3; mkActiveWindow (s 5000) (s 5400) 9 3] in
  map seg_IsOngoing (mergeWindowsIntoSegments (s 5401) ws (s 100) (s 5400) 300 240)
    = [false; true] /\
  Forall (seg_within (s 100) (s 5400))
         (mergeWindowsIntoSegments (s 5401) ws (s 100) (s 5400) 300 240).
Proof.
  split; [vm_compute; reflexivity|].
  apply (mergeWindowsIntoSegments_spec (5401 * Second) _ (100 * Second) (5400 * Second) 300 240);
    vm_compute; intuition discriminate.
Defined.

(** On samples ordered by time, the two binary-search lookups are the
    declarative filters: the last sample at or before [t] (0 when there is none),
    and the first and last sample inside [[segStart, segEnd]]. *)
Theorem sample_lookups_spec samples :
  sorted_samples samples ->
  (forall t, sampleAtOrBefore samples t =
     match last (filter (fun s => TS s <= t) samples) with
     | Some s => Value s | None => f64_zero end) /\
  (forall a b, levelFirstLastInRange samples a b =
     match head (filter (fun s => a <= TS s /\ TS s <= b) samples),
           last (filter (fun s => a <= TS s /\ TS s <= b) samples) with
     | Some s, Some s' => Some (Value s, Value s')
     | _, _ => None
     end).
Proof.
  intros Hs. split; intros.
  - by apply sampleAtOrBefore_filter.
  - by apply levelFirstLastInRange_filter.
Qed.

Example sample_lookups_spec_witness :
  let l := [mkLevelSample 10 (f64_of_Z 1); mkLevelSample 20 (f64_of_Z 2);
            mkLevelSample 20 (f64_of_Z 3); mkLevelSample 30 (f64_of_Z 4)] in
  sampleAtOrBefore l 25 = f64_of_Z 3 /\
  levelFirstLastInRange l 15 30 = Some (f64_of_Z 2, f64_of_Z 4).
Proof.
  set (l := [mkLevelSample 10 (f64_of_Z 1); mkLevelSample 20 (f64_of_Z 2);
             mkLevelSample 20 (f64_of_Z 3); mkLevelSample 30 (f64_of_Z 4)]).
  destruct (sample_lookups_spec l) as [H1 H2].
  { repeat constructor; vm_compute; discriminate. }
  split; [rewrite (H1 25)|rewrite (H2 15 30)]; vm_compute; reflexivity.
Defined.
