(* ===== verification/Source.v ===== *)
(** * internal/segments: the data-access seam

    [SignalSource] (source.go) as an interface: the operations a storage backend
    supplies to the detectors, with the laws its doc comments state. The
    detectors' theorems are proved against the laws; [MemSource] is an in-memory
    backend that satisfies them. *)

From S2P Require Import Prelude Model SegUtil.

Class SignalSource := {
  WindowedSignalCounts :
    string -> Z -> Z -> Z -> Z -> Z -> result string (list ActiveWindow);
  LevelSamples : string -> string -> Z -> Z -> result string (list LevelSample);
  IgnitionStateChanges : string -> Z -> Z -> result string (list StateChange);
  (** The optional capability [IdleRunSource]; [None] when the backend lacks it. *)
  IdleRuns : option (string -> string -> Z -> Z -> Z -> Z -> result string (list timeRange));
}.

(** source.go, the doc comments of the three methods; a backend may read [from]
    in the lake's unit, microseconds, rounded down. *)
Class SignalSourceLaws (src : SignalSource) : Prop := {
  windows_law subject from to w st dt ws :
    WindowedSignalCounts subject from to w st dt = Ok ws ->
    Forall (fun x => st <= SignalCount x /\ dt <= DistinctSignalCount x) ws /\
    StronglySorted (fun a b => WindowStart a < WindowStart b) ws;
  samples_law subject name from to l :
    LevelSamples subject name from to = Ok l ->
    sorted_samples l /\ Forall (fun s => time_truncate from Microsecond <= TS s < to) l;
  changes_law subject from to l :
    IgnitionStateChanges subject from to = Ok l ->
    StronglySorted (fun a b => sc_TS a <= sc_TS b) l;
}.

(** ** An in-memory backend *)

Lemma time_truncate_le t d : time_truncate t d <= t.
Proof.
  unfold time_truncate. destruct (Z.leb_spec d 0); [lia|].
  pose proof (Z.mod_pos_bound (t - zero_time) d). lia.
Qed.

Section mem.
Context (windows : list ActiveWindow) (samples : string -> list LevelSample)
        (changes : list StateChange).

Definition mem_source : SignalSource := {|
  WindowedSignalCounts _ from to _ st dt :=
    Ok (filter (fun w => (from <= WindowStart w /\ WindowStart w < to) /\
                         st <= SignalCount w /\ dt <= DistinctSignalCount w) windows);
  LevelSamples _ name from to :=
    Ok (filter (fun s => from <= TS s /\ TS s < to) (samples name));
  IgnitionStateChanges _ from to :=
    Ok (filter (fun c => sc_TS c < to) changes);
  IdleRuns := None;
|}.

Lemma filter_sorted {A} (R : A -> A -> Prop) (P : A -> Prop) `{!forall x, Decision (P x)} l :
  StronglySorted R l -> StronglySorted R (filter P l).
Proof.
  induction 1 as [|x l Hs IH Hall]; [constructor|]. rewrite filter_cons.
  case_decide; [|done]. constructor; [done|].
  rewrite Forall_forall in *. intros y [_ Hy]%list_elem_of_filter. auto.
Qed.

Lemma mem_source_laws :
  StronglySorted (fun a b => WindowStart a < WindowStart b) windows ->
  (forall n, sorted_samples (samples n)) ->
  StronglySorted (fun a b => sc_TS a <= sc_TS b) changes ->
  SignalSourceLaws mem_source.
Proof.
  intros Hw Hs Hc. split; simpl; intros; simplify_eq.
  - split; [|by apply filter_sorted].
    apply Forall_forall. intros x [Hx _]%list_elem_of_filter. tauto.
  - split; [by apply filter_sorted, Hs|].
    apply Forall_forall. intros x [Hx _]%list_elem_of_filter.
    pose proof (time_truncate_le from Microsecond). lia.
  - by apply filter_sorted.
Qed.
End mem.
