(* ===== verification/Ignition.v ===== *)
(** * internal/segments/ignition.go

    Segments from ignition transitions: a noise filter drops an OFF that is
    followed by an ON within [minIdle] seconds, then ON/OFF pairs become
    segments. *)

From S2P Require Import Prelude FloatFacts Model SegUtil Source.

Definition f64_one : float64 := f64_of_Z 1.

(** [sc.NewState == 1], [sc.NewState == 0]. *)
Definition is_on (sc : StateChange) : bool := f64_eqb (NewState sc) f64_one.
Definition is_off (sc : StateChange) : bool := f64_eqb (NewState sc) f64_zero.

(** The reverse scan that fills [nextON]: the index of the first ON at or after
    each position, -1 when there is none. *)
Fixpoint nextON (i : nat) (l : list StateChange) : list Z :=
  match l with
  | [] => []
  | sc :: rest =>
      let tl := nextON (S i) rest in
      let lastON := match tl with [] => -1 | j :: _ => j end in
      (if is_on sc then Z.of_nat i else lastON) :: tl
  end.

Fixpoint noise_loop (stateChanges : list StateChange) (minIdleDuration : Z) (i : nat)
    (rest : list (StateChange * Z)) : list StateChange :=
  match rest with
  | [] => []
  | (sc, j) :: rest' =>
      (if is_on sc then [sc]
       else if is_off sc then
         let keep :=
           if Z.of_nat i <? j then
             match stateChanges !! Z.to_nat j with
             | Some nx => negb (time_sub (sc_TS nx) (sc_TS sc) <? minIdleDuration)
             | None => true
             end
           else true in
         if keep then [sc] else []
       else []) ++
      noise_loop stateChanges minIdleDuration (S i) rest'
  end.

Definition filterNoise (stateChanges : list StateChange) (minIdle : Z) : list StateChange :=
  noise_loop stateChanges (duration_of minIdle Second) 0
    (zip stateChanges (nextON 0 stateChanges)).

(** The second pass; [cur] is [currentSegmentStart]. *)
Fixpoint build_loop (from to minDur : Z) (cur : option Z) (filtered : list StateChange)
  : list Segment :=
  match filtered with
  | [] =>
      match cur with
      | Some st =>
          let duration := seconds_int32 (time_sub to st) in
          if minDur <=? duration then [newSegment st None duration true (before st from)] else []
      | None => []
      end
  | sc :: rest =>
      if is_on sc then
        let cur' := match cur with
                    | None => if negb (f64_eqb (PrevState sc) f64_one) then Some (sc_TS sc) else None
                    | Some _ => cur
                    end in
        build_loop from to minDur cur' rest
      else
        match is_off sc, cur with
        | true, Some st =>
            let segmentEnd := sc_TS sc in
            let duration := seconds_int32 (time_sub segmentEnd st) in
            (if minDur <=? duration
             then [newSegment st (Some segmentEnd) duration false (before st from)] else []) ++
            build_loop from to minDur None rest
        | _, _ => build_loop from to minDur cur rest
        end
  end.

Definition buildSegmentsWithDebouncing (stateChanges : list StateChange)
    (from to minIdle minDur : Z) : list Segment :=
  match stateChanges with
  | [] => []
  | _ => build_loop from to minDur None (filterNoise stateChanges minIdle)
  end.

Definition IgnitionDetector_DetectSegments {src : SignalSource} (subject : string)
    (from to : Z) (config : option SegmentConfig) : result string (list Segment) :=
  let rc := resolveBaseConfig config in
  match IgnitionStateChanges subject from to with
  | Err e => Err ("failed to query state changes: " +:+ e)%string
  | Ok stateChanges =>
      Ok (buildSegmentsWithDebouncing stateChanges from to (maxGapSeconds rc) (minDuration rc))
  end.

(** ** The noise filter is its quadratic definition *)

(** Keep every ON, and an OFF unless the next ON comes within [d]. *)
Fixpoint noise_spec (d : Z) (l : list StateChange) : list StateChange :=
  match l with
  | [] => []
  | sc :: rest =>
      (if is_on sc then [sc]
       else if is_off sc then
         match List.find is_on rest with
         | Some nx => if time_sub (sc_TS nx) (sc_TS sc) <? d then [] else [sc]
         | None => [sc]
         end
       else []) ++ noise_spec d rest
  end.

(** [nextON] points at what [find] returns. *)
Lemma nextON_find i l :
  match nextON i l with
  | [] => l = []
  | j :: _ =>
      match List.find is_on l with
      | Some nx => Z.of_nat i <= j /\ l !! Z.to_nat (j - Z.of_nat i) = Some nx
      | None => j = -1
      end
  end.
Proof.
  revert i; induction l as [|sc rest IH]; intros i; simpl; [done|].
  destruct (is_on sc) eqn:E.
  - split; [lia|]. by rewrite Z.sub_diag.
  - specialize (IH (S i)). destruct (nextON (S i) rest) as [|j tl] eqn:En.
    + by subst rest.
    + destruct (List.find is_on rest) as [nx|]; [|done].
      destruct IH as [Hle Hl]. split; [lia|].
      replace (Z.to_nat (j - Z.of_nat i)) with (S (Z.to_nat (j - Z.of_nat (S i)))) by lia.
      done.
Qed.

Lemma noise_loop_spec all d i rest :
  drop i all = rest ->
  noise_loop all d i (zip rest (nextON i rest)) = noise_spec d rest.
Proof.
  revert i; induction rest as [|sc rest IH]; intros i Hd; [done|].
  assert (Hd' : drop (S i) all = rest).
  { change (S i) with (1 + i)%nat. rewrite Nat.add_comm, <- drop_drop, Hd. done. }
  cbn [nextON zip zip_with noise_loop noise_spec]. fold (zip rest (nextON (S i) rest)).
  rewrite IH by done. f_equal. destruct (is_on sc) eqn:Eon; [done|].
  destruct (is_off sc); [|done].
  pose proof (nextON_find (S i) rest) as Hn.
  destruct (nextON (S i) rest) as [|j tl].
  { subst rest. rewrite Hn. simpl. by destruct (Z.ltb_spec (Z.of_nat i) (-1)); [lia|]. }
  destruct (List.find is_on rest) as [nx|].
  - destruct Hn as [Hle Hl]. destruct (Z.ltb_spec (Z.of_nat i) j); [|lia].
    rewrite <- Hd', lookup_drop in Hl.
    replace (S i + Z.to_nat (j - Z.of_nat (S i)))%nat with (Z.to_nat j) in Hl by lia.
    rewrite Hl. by destruct (_ <? d).
  - subst j. by destruct (Z.ltb_spec (Z.of_nat i) (-1)); [lia|].
Qed.

Lemma filterNoise_eq l minIdle :
  filterNoise l minIdle = noise_spec (duration_of minIdle Second) l.
Proof. apply noise_loop_spec. by rewrite drop_0. Qed.

Lemma noise_spec_sub d l sc : In sc (noise_spec d l) -> In sc l.
Proof.
  induction l as [|x l IH]; simpl; [done|].
  intros [H|H]%in_app_or; [left|right; auto].
  destruct (is_on x); [by destruct H as [->|[]]|].
  destruct (is_off x); [|done].
  destruct (List.find is_on l) as [nx|]; [destruct (_ <? d)|]; simpl in H; tauto.
Qed.

Definition ts_le (a b : StateChange) : Prop := sc_TS a <= sc_TS b.

(** After filtering, an ON that follows an OFF is at least [d] later. *)
Definition debounced (d : Z) (a b : StateChange) : Prop :=
  ts_le a b /\ (is_on a = false -> is_on b = true -> sc_TS a + d <= sc_TS b).

Lemma find_first_on l nx b :
  StronglySorted ts_le l -> List.find is_on l = Some nx -> In b l -> is_on b = true ->
  sc_TS nx <= sc_TS b.
Proof.
  induction 1 as [|x l Hs IH Hall]; simpl; [done|].
  destruct (is_on x) eqn:E.
  - intros ? [->|Hb] ?; simplify_eq; [lia|].
    rewrite Forall_forall in Hall. apply Hall. by apply list_elem_of_In.
  - intros Hf [->|Hb] Hon; [congruence|]. auto.
Qed.

Lemma noise_spec_debounced d l :
  in_int64 d -> min_int64 < d -> StronglySorted ts_le l ->
  StronglySorted (debounced d) (noise_spec d l).
Proof.
  intros Hd Hd'. induction 1 as [|x l Hs IH Hall]; simpl; [constructor|].
  rewrite Forall_forall in Hall.
  assert (Hts : Forall (fun b => ts_le x b) (noise_spec d l)).
  { apply Forall_forall. intros b Hb. apply Hall, list_elem_of_In, (noise_spec_sub d).
    by apply list_elem_of_In. }
  destruct (is_on x) eqn:Eon.
  { simpl. constructor; [done|]. eapply Forall_impl; [exact Hts|].
    intros b Hb. split; [done|]. congruence. }
  destruct (is_off x); [|done].
  destruct (List.find is_on l) as [nx|] eqn:Ef.
  - destruct (Z.ltb_spec (time_sub (sc_TS nx) (sc_TS x)) d) as [|Hge]; [done|].
    simpl. constructor; [done|]. apply Forall_forall. intros b Hb. split.
    + rewrite Forall_forall in Hts. auto.
    + intros _ Hon. apply list_elem_of_In in Hb.
      pose proof (find_first_on l nx b Hs Ef (noise_spec_sub d l b Hb) Hon).
      unfold time_sub, in_int64, min_int64, max_int64 in *. lia.
  - simpl. constructor; [done|]. apply Forall_forall. intros b Hb. split.
    + rewrite Forall_forall in Hts. auto.
    + intros _ Hon. apply list_elem_of_In, noise_spec_sub in Hb.
      eapply find_none in Ef; [|exact Hb]. congruence.
Qed.

(** ** The segments built *)

(** [s] is an ON/OFF pair of the state changes [l], or an ON left open. *)
Definition ignition_segment (l : list StateChange) (from to minDur : Z) (s : Segment) : Prop :=
  exists st, seg_start s = Some st /\
    (exists sc, In sc l /\ is_on sc = true /\ sc_TS sc = st /\
                f64_eqb (PrevState sc) f64_one = false) /\
    minDur <= seg_Duration s /\ seg_StartedBeforeRange s = before st from /\
    match seg_end s with
    | Some e => seg_IsOngoing s = false /\ st <= e /\
                seg_Duration s = seconds_int32 (time_sub e st) /\
                (exists sc, In sc l /\ is_off sc = true /\ sc_TS sc = e)
    | None => seg_IsOngoing s = true /\ seg_Duration s = seconds_int32 (time_sub to st)
    end.

(** [b] starts at least [gap] after the end of [a], which is therefore not open. *)
Definition seg_apart (gap : Z) (a b : Segment) : Prop :=
  exists e s, seg_end a = Some e /\ seg_start b = Some s /\ e + gap <= s.

Section build.
Context (l : list StateChange) (from to minDur d : Z).

(** What is known of an open start while the changes [rest] remain. *)
Definition open_ok (cur : option Z) (rest : list StateChange) : Prop :=
  match cur with
  | None => True
  | Some st =>
      (exists sc, In sc l /\ is_on sc = true /\ sc_TS sc = st /\
                  f64_eqb (PrevState sc) f64_one = false) /\
      Forall (fun b => st <= sc_TS b) rest
  end.

Lemma open_ok_tail cur x rest : open_ok cur (x :: rest) -> open_ok cur rest.
Proof. destruct cur; simpl; [|done]. intros [? H]. inversion H; subst. auto. Qed.

(** The open start is the start of the first segment; others start at an ON. *)
Lemma build_starts rest cur lo :
  Forall (fun b => is_on b = true -> lo <= sc_TS b) rest ->
  match cur with Some st => lo <= st | None => True end ->
  Forall (fun s => exists st, seg_start s = Some st /\ lo <= st)
         (build_loop from to minDur cur rest).
Proof.
  revert cur; induction rest as [|sc rest IH]; intros cur Hall Hcur; simpl.
  - destruct cur as [st|]; [|constructor]. destruct (minDur <=? _); constructor; [|done].
    by exists st.
  - inversion Hall as [|? ? Hsc Hall']; subst.
    destruct (is_on sc) eqn:Eon.
    + apply IH; [done|]. destruct cur; [done|].
      destruct (negb _); [auto|done].
    + destruct (is_off sc), cur as [st|]; try by apply IH.
      apply Forall_app. split; [|by apply IH].
      destruct (minDur <=? _); constructor; [|done]. by exists st.
Qed.

Lemma build_segments rest cur :
  StronglySorted (debounced d) rest -> (forall x, In x rest -> In x l) ->
  open_ok cur rest ->
  Forall (ignition_segment l from to minDur) (build_loop from to minDur cur rest) /\
  StronglySorted (seg_apart d) (build_loop from to minDur cur rest).
Proof.
  intros Hs. revert cur. induction Hs as [|sc rest Hs IH Hall]; intros cur Hin Hcur; simpl.
  - destruct cur as [st|]; [|by repeat constructor].
    destruct (Z.leb_spec minDur (seconds_int32 (time_sub to st))); [|by repeat constructor].
    split; repeat constructor. exists st. destruct Hcur as [Hon _].
    by repeat split.
  - assert (Hin' : forall x, In x rest -> In x l) by (intros; apply Hin; by right).
    assert (Hts : Forall (fun b => sc_TS sc <= sc_TS b) rest).
    { eapply Forall_impl; [exact Hall|]. by intros b [? _]. }
    destruct (is_on sc) eqn:Eon.
    + apply IH; [done|]. destruct cur as [st|]; [by apply open_ok_tail in Hcur|].
      destruct (f64_eqb (PrevState sc) f64_one) eqn:Ep; simpl; [done|].
      split; [|done]. exists sc. repeat split; auto. apply Hin; by left.
    + destruct (is_off sc) eqn:Eoff, cur as [st|];
        try (apply IH; [done|]; by apply open_ok_tail in Hcur).
      destruct (IH None Hin' I) as [HF HS].
      destruct (Z.leb_spec minDur (seconds_int32 (time_sub (sc_TS sc) st))) as [Hle|]; [|done].
      simpl. destruct Hcur as [Hon Hst]. inversion Hst as [|? ? Hst1 _]; subst.
      split.
      * constructor; [|done]. exists st. repeat split; try done.
        exists sc. repeat split; auto. apply Hin; by left.
      * constructor; [done|]. eapply Forall_impl.
        { apply (build_starts rest None (sc_TS sc + d)); [|done].
          eapply Forall_impl; [exact Hall|]. intros b [_ Hb]. auto. }
        intros s (st' & Hst' & Hge). exists (sc_TS sc), st'. done.
Qed.
End build.

Lemma duration_of_seconds n : 0 <= n < 2 ^ 33 -> duration_of n Second = n * Second.
Proof.
  intros. apply wrap64_id.
  unfold in_int64, min_int64, max_int64, Second, Millisecond, Microsecond, Nanosecond. lia.
Qed.

(** The linear-time noise filter (reverse scan of next-ON indexes) keeps
    exactly the ONs, and the OFFs whose next ON is absent or at least [minIdle]
    seconds later. *)
Theorem filterNoise_spec l minIdle :
  filterNoise l minIdle = noise_spec (duration_of minIdle Second) l.
Proof. apply filterNoise_eq. Qed.

(** Ignition segments: on time-ordered state changes every segment starts at
    an OFF-to-ON change and ends at an OFF (or is the open one, ongoing), lasts
    at least [minDuration] seconds, and starts at least [minIdle] seconds after
    the end of the one before it, so only the last can be ongoing. *)
Theorem buildSegmentsWithDebouncing_spec l from to minIdle minDur :
  0 <= minIdle < 2 ^ 33 -> StronglySorted ts_le l ->
  let out := buildSegmentsWithDebouncing l from to minIdle minDur in
  Forall (ignition_segment l from to minDur) out /\
  StronglySorted (seg_apart (minIdle * Second)) out.
Proof.
  intros Hm Hs out. unfold out, buildSegmentsWithDebouncing.
  destruct l as [|x l]; [by repeat constructor|].
  rewrite filterNoise_eq, duration_of_seconds by done.
  apply build_segments; [| |done].
  - apply noise_spec_debounced; try done;
      unfold in_int64, min_int64, max_int64, Second, Millisecond, Microsecond, Nanosecond; lia.
  - intros y Hy. by eapply noise_spec_sub.
Qed.

Example buildSegmentsWithDebouncing_spec_witness :
  let s n := n * Second in
  let l := [mkStateChange (s 0) f64_one f64_zero; mkStateChange (s 400) f64_zero f64_one;
            mkStateChange (s 500) f64_one f64_zero; mkStateChange (s 900) f64_zero f64_one;
            mkStateChange (s 2000) f64_one f64_zero] in
  map seg_Duration (buildSegmentsWithDebouncing l (s 0) (s 3000) 300 240) = [900; 1000] /\
  StronglySorted (seg_apart (s 300)) (buildSegmentsWithDebouncing l (s 0) (s 3000) 300 240).
Proof.
  split; [vm_compute; reflexivity|].
  apply (buildSegmentsWithDebouncing_spec
           [mkStateChange (0 * Second) f64_one f64_zero; mkStateChange (400 * Second) f64_zero f64_one;
            mkStateChange (500 * Second) f64_one f64_zero; mkStateChange (900 * Second) f64_zero f64_one;
            mkStateChange (2000 * Second) f64_one f64_zero] (0 * Second) (3000 * Second) 300 240);
    [lia|repeat constructor; vm_compute; discriminate].
Defined.
