(* ===== verification/Windows.v ===== *)
(** * internal/segments/frequency.go and changepoint.go

    Both detectors fetch per-minute activity windows and merge them; the
    change-point detector first filters them by a CUSUM statistic. Proved here:
    on the windows its own query asks for (at least ten signals each) the CUSUM
    filter keeps everything, so the change-point detector returns what the
    frequency detector returns at its default threshold. *)

From S2P Require Import Prelude FloatFacts Model SegUtil Source.

Definition defaultWindowSizeSeconds : Z := 60.
Definition defaultSignalCountThreshold : Z := 10.
Definition defaultDistinctSignalCountThreshold : Z := 2.

(** [from.Add(-time.Duration(maxGap) * time.Second)]. *)
Definition lookback (from maxGap : Z) : Z := time_add from (wrap64 (wrap64 (- maxGap) * Second)).

(** ** frequency.go; [now] is what [timeNow()] returns. *)

Definition FrequencyDetector_DetectSegments {src : SignalSource} (now : Z) (subject : string)
    (from to : Z) (config : option SegmentConfig) : result string (list Segment) :=
  let rc := resolveBaseConfig config in
  let maxGap := maxGapSeconds rc in
  let signalThreshold :=
    match config with
    | Some c => default defaultSignalCountThreshold (SignalCountThreshold c)
    | None => defaultSignalCountThreshold
    end in
  let lookbackFrom := lookback from maxGap in
  match WindowedSignalCounts subject lookbackFrom to defaultWindowSizeSeconds
          signalThreshold defaultDistinctSignalCountThreshold with
  | Err e => Err ("failed to query active windows: " +:+ e)%string
  | Ok [] => Ok []
  | Ok windows => Ok (mergeWindowsIntoSegments now windows from to maxGap (minDuration rc))
  end.

(** ** changepoint.go *)

Definition defaultCUSUMWindowSeconds : Z := 60.
Definition defaultCUSUMThreshold : float64 := f64_of_Z 5.
Definition defaultCUSUMDrift : float64 := f64_ratio 1 2.
Definition defaultCUSUMBaselineSignalCount : float64 := f64_of_Z 1.
Definition defaultCUSUMSignalCountThreshold : Z := 10.
Definition defaultCUSUMDistinctSignalCountThreshold : Z := 2.

(** The builtin [max] on floats: NaN if either is, [+0] over [-0]. *)
Definition f64_max (x y : float64) : float64 :=
  match x, y with
  | S754_nan, _ | _, S754_nan => S754_nan
  | S754_zero s1, S754_zero s2 => S754_zero (s1 && s2)
  | _, _ => if f64_ltb x y then y else x
  end.

(** One round of the loop: [deviation] and the next [cusumStat]. *)
Definition cusum_next (cusumStat : float64) (w : ActiveWindow) : float64 :=
  let deviation :=
    f64_sub (f64_sub (f64_of_Z (SignalCount w)) defaultCUSUMBaselineSignalCount)
            defaultCUSUMDrift in
  f64_max f64_zero (f64_add cusumStat deviation).

Fixpoint cusum_loop (cusumStat : float64) (windows : list ActiveWindow) : list ActiveWindow :=
  match windows with
  | [] => []
  | w :: rest =>
      let cusumStat' := cusum_next cusumStat w in
      (if f64_ltb defaultCUSUMThreshold cusumStat' then [w] else []) ++
      cusum_loop cusumStat' rest
  end.

Definition applyCUSUM (windows : list ActiveWindow) : list ActiveWindow :=
  cusum_loop f64_zero windows.

Definition ChangePointDetector_DetectSegments {src : SignalSource} (now : Z) (subject : string)
    (from to : Z) (config : option SegmentConfig) : result string (list Segment) :=
  let rc := resolveBaseConfig config in
  let maxGap := maxGapSeconds rc in
  let lookbackFrom := lookback from maxGap in
  match WindowedSignalCounts subject lookbackFrom to defaultCUSUMWindowSeconds
          defaultCUSUMSignalCountThreshold defaultCUSUMDistinctSignalCountThreshold with
  | Err e => Err ("failed to query window signal counts: " +:+ e)%string
  | Ok [] => Ok []
  | Ok windows =>
      match applyCUSUM windows with
      | [] => Ok []
      | activeWindows =>
          Ok (mergeWindowsIntoSegments now activeWindows from to maxGap (minDuration rc))
      end
  end.

(** ** The CUSUM statistic on busy windows *)

Definition U : Z := 2 ^ 200.

Lemma Val_const_1 : Val defaultCUSUMBaselineSignalCount (1 * U).
Proof. apply (Val_of_Z 1). lia. Qed.

Lemma Val_const_half : Val defaultCUSUMDrift (2 ^ 199).
Proof. exists 4503599627370496%positive, (-53). repeat split; lia. Qed.

Lemma Val_const_5 : Val defaultCUSUMThreshold (5 * U).
Proof. apply (Val_of_Z 5). lia. Qed.

(** The deviation of a window with at least ten signals. *)
Lemma deviation_val c :
  10 <= c < 2 ^ 53 ->
  exists d, Val (f64_sub (f64_sub (f64_of_Z c) defaultCUSUMBaselineSignalCount)
                         defaultCUSUMDrift) d /\ 8 * U <= d <= 2 ^ 54 * U.
Proof.
  intros Hc. pose proof (Val_of_Z c ltac:(lia)) as HV.
  destruct (Val_sub_rel _ _ _ _ HV Val_const_1) as (a & Ha & Hea); [unfold U; lia|].
  destruct (Val_sub_rel _ _ _ _ Ha Val_const_half) as (d & Hd & Hed); [unfold U in *; lia|].
  exists d. split; [done|]. unfold U in *. lia.
Qed.

(** The statistic before round [n]: zero at first, then at least 8. *)
Definition stat_ok (n : Z) (x : float64) : Prop :=
  x = f64_zero \/ exists a, Val x a /\ 8 * U <= a <= n * (2 ^ 56 * U).

Lemma f64_max_pos x a : Val x a -> f64_max f64_zero x = x.
Proof. by intros (m & e & -> & _). Qed.

Lemma cusum_next_busy n x w :
  0 <= n < 2 ^ 50 -> stat_ok n x -> 10 <= SignalCount w < 2 ^ 53 ->
  exists a, Val (cusum_next x w) a /\ 8 * U <= a <= (n + 1) * (2 ^ 56 * U).
Proof.
  intros Hn Hx Hw. destruct (deviation_val _ Hw) as (d & Hd & Hdb).
  unfold cusum_next. destruct Hx as [->|(a & Ha & Hab)].
  - rewrite (Val_add_zero_l _ _ Hd), (f64_max_pos _ _ Hd).
    exists d. split; [done|]. unfold U in *. lia.
  - destruct (Val_add_rel _ _ _ _ Ha Hd) as (c & Hc & Hec); [unfold U in *; lia|].
    rewrite (f64_max_pos _ _ Hc). exists c. split; [done|]. unfold U in *. lia.
Qed.

Definition busy (w : ActiveWindow) : Prop := 10 <= SignalCount w < 2 ^ 53.

Lemma cusum_loop_busy ws x n :
  0 <= n -> n + Z.of_nat (length ws) < 2 ^ 50 -> stat_ok n x -> Forall busy ws ->
  cusum_loop x ws = ws.
Proof.
  intros Hn. revert x n Hn. induction ws as [|w ws IH]; intros x n Hn Hlen Hx Hall; [done|].
  inversion Hall as [|? ? Hw Hall']; subst. cbn [cusum_loop length] in *.
  destruct (cusum_next_busy n x w) as (a & Ha & Hb); [lia|done..|].
  rewrite (Val_ltb _ _ _ _ Val_const_5 Ha).
  replace (5 * U <? a) with true by (symmetry; apply Z.ltb_lt; unfold U in *; lia).
  rewrite (IH _ (n + 1)); [done|lia|lia| |done]. right. eauto.
Qed.

Lemma applyCUSUM_busy ws :
  Z.of_nat (length ws) < 2 ^ 50 -> Forall busy ws -> applyCUSUM ws = ws.
Proof. intros. apply (cusum_loop_busy ws f64_zero 0); try done; try lia. by left. Qed.

(** The frequency detector's configuration with the signal threshold left out. *)
Definition without_threshold (config : option SegmentConfig) : option SegmentConfig :=
  match config with
  | Some c => Some (mkSegmentConfig (MaxGapSeconds c) (MinSegmentDurationSeconds c) None
                      (MaxIdleRpm c) (MinIncreasePercent c))
  | None => None
  end.

(** The change-point detector is the frequency detector at its default
    threshold: its query keeps only windows of at least ten signals, and on
    those the CUSUM statistic (baseline 1, drift 0.5, threshold 5) always
    exceeds its threshold, so the filter drops nothing. Whatever the backend
    returns, both succeed with the same segments. *)
Theorem change_point_is_frequency {src : SignalSource} (laws : SignalSourceLaws src)
    now subject from to config segs :
  (forall ws, WindowedSignalCounts subject
                (lookback from (maxGapSeconds (resolveBaseConfig config))) to 60 10 2 = Ok ws ->
     Z.of_nat (length ws) < 2 ^ 50 /\ Forall (fun w => SignalCount w < 2 ^ 53) ws) ->
  ChangePointDetector_DetectSegments now subject from to config = Ok segs <->
  FrequencyDetector_DetectSegments now subject from to (without_threshold config) = Ok segs.
Proof.
  intros Hb. unfold ChangePointDetector_DetectSegments, FrequencyDetector_DetectSegments.
  assert (Hrc : resolveBaseConfig (without_threshold config) = resolveBaseConfig config)
    by (by destruct config).
  assert (Hth : match without_threshold config with
                | Some c => default defaultSignalCountThreshold (SignalCountThreshold c)
                | None => defaultSignalCountThreshold
                end = 10) by (by destruct config).
  rewrite Hrc, Hth.
  change defaultCUSUMWindowSeconds with 60. change defaultWindowSizeSeconds with 60.
  change defaultCUSUMSignalCountThreshold with 10.
  change defaultCUSUMDistinctSignalCountThreshold with 2.
  change defaultDistinctSignalCountThreshold with 2.
  destruct (WindowedSignalCounts _ _ _ _ _ _) as [ws|e] eqn:E; [|by split].
  destruct ws as [|w ws]; [done|].
  destruct (Hb _ eq_refl) as [Hlen Hmax].
  destruct (windows_law _ _ _ _ _ _ _ E) as [Hmin _].
  rewrite applyCUSUM_busy; [done|done|].
  rewrite Forall_forall in *. intros x Hx. split; [apply Hmin|apply Hmax]; done.
Qed.

Example change_point_is_frequency_witness :
  let s n := n * Second in
  let ws := [mkActiveWindow (s 60) (s 120) 10 2; mkActiveWindow (s 120) (s 180) 10 2;
             mkActiveWindow (s 360) (s 420) 11 2] in
  let src := mem_source ws (fun _ => []) [] in
  exists segs,
    @ChangePointDetector_DetectSegments src (s 9999) "did" (s 0) (s 3000) None = Ok segs /\
    map seg_Duration segs = [360].
Proof.
  eexists. split.
  - apply (@change_point_is_frequency
            (mem_source [mkActiveWindow (60 * Second) (120 * Second) 10 2;
                         mkActiveWindow (120 * Second) (180 * Second) 10 2;
                         mkActiveWindow (360 * Second) (420 * Second) 11 2] (fun _ => []) [])).
    + apply mem_source_laws.
      * repeat constructor; vm_compute; reflexivity.
      * intros; constructor.
      * constructor.
    + simpl. intros ws Hws. vm_compute in Hws. simplify_eq. split; [reflexivity|].
      repeat constructor.
    + vm_compute. reflexivity.
  - vm_compute. reflexivity.
Defined.
