(* ===== verification/Idling.v ===== *)
(** * internal/segments/idling.go

    Runs of idle RPM samples. A backend may compute the runs in the store
    ([IdleRunSource]); otherwise the detector streams the samples and finds the
    runs itself. The two paths are proved to return the same segments. *)

From S2P Require Import Prelude FloatFacts Model SegUtil Source Windows.

Definition defaultMaxIdleRpm : Z := 1000.
Definition minRunningRpm : Z := 0.

(** [vss.FieldPowertrainCombustionEngineSpeed]. *)
Definition FieldPowertrainCombustionEngineSpeed : string := "powertrainCombustionEngineSpeed".

Definition isIdle (maxIdleRpm : Z) (s : LevelSample) : bool :=
  f64_ltb (f64_of_Z minRunningRpm) (Value s) && f64_leb (Value s) (f64_of_Z maxIdleRpm).

(** What [appendIdleRange] appends. *)
Definition appendIdleRange (runStart runEnd minDur from to : Z) : list timeRange :=
  emit (clipTimeRange (mkRange runStart runEnd) from to minDur).

(** The loop of [findIdleRpmRanges]; [run] is [(runStart, runEnd)] while [inRun]. *)
Fixpoint idle_loop (maxIdleRpm maxGapDur minDur from to : Z) (run : option (Z * Z))
    (samples : list LevelSample) : list timeRange :=
  match samples with
  | [] =>
      match run with
      | Some (rs, re) => appendIdleRange rs re minDur from to
      | None => []
      end
  | s :: rest =>
      if isIdle maxIdleRpm s then
        match run with
        | None => idle_loop maxIdleRpm maxGapDur minDur from to (Some (TS s, TS s)) rest
        | Some (rs, re) =>
            if maxGapDur <? time_sub (TS s) re then
              appendIdleRange rs re minDur from to ++
              idle_loop maxIdleRpm maxGapDur minDur from to (Some (TS s, TS s)) rest
            else idle_loop maxIdleRpm maxGapDur minDur from to (Some (rs, TS s)) rest
        end
      else
        match run with
        | Some (rs, re) =>
            appendIdleRange rs re minDur from to ++
            idle_loop maxIdleRpm maxGapDur minDur from to None rest
        | None => idle_loop maxIdleRpm maxGapDur minDur from to None rest
        end
  end.

Definition findIdleRpmRanges (samples : list LevelSample)
    (maxIdleRpm maxGap minDur from to : Z) : list timeRange :=
  idle_loop maxIdleRpm (duration_of maxGap Second) minDur from to None samples.

Definition IdlingDetector_DetectSegments {src : SignalSource} (subject : string)
    (from to : Z) (config : option SegmentConfig) : result string (list Segment) :=
  let rc := resolveBaseConfig config in
  let maxGap := maxGapSeconds rc in
  let minDur := minDuration rc in
  let maxIdleRpm :=
    match config with
    | Some c => default defaultMaxIdleRpm (MaxIdleRpm c)
    | None => defaultMaxIdleRpm
    end in
  let lookbackFrom := lookback from maxGap in
  match IdleRuns with
  | Some idleRuns =>
      match idleRuns subject FieldPowertrainCombustionEngineSpeed lookbackFrom to maxIdleRpm maxGap with
      | Err e => Err ("failed to query idle runs: " +:+ e)%string
      | Ok runs =>
          let ranges := flat_map (fun r => appendIdleRange (start r) (end_ r) minDur from to) runs in
          Ok (timeRangesToSegments ranges from)
      end
  | None =>
      match LevelSamples subject FieldPowertrainCombustionEngineSpeed lookbackFrom to with
      | Err e => Err ("failed to query RPM samples: " +:+ e)%string
      | Ok [] => Ok []
      | Ok samples =>
          Ok (timeRangesToSegments (findIdleRpmRanges samples maxIdleRpm maxGap minDur from to) from)
      end
  end.

(** ** The runs, declaratively *)

(** The longest prefix of idle samples whose consecutive gaps are at most
    [gap], [last] being the sample before; the rest follows. *)
Fixpoint idle_prefix (maxIdleRpm gap : Z) (last : Z) (samples : list LevelSample)
  : Z * list LevelSample :=
  match samples with
  | s :: rest =>
      if isIdle maxIdleRpm s && negb (gap <? time_sub (TS s) last)
      then idle_prefix maxIdleRpm gap (TS s) rest
      else (last, samples)
  | [] => (last, [])
  end.

(** Every raw run: a maximal chain of idle samples at most [gap] apart. *)
Fixpoint idle_runs (fuel : nat) (maxIdleRpm gap : Z) (samples : list LevelSample)
  : list timeRange :=
  match fuel, samples with
  | S fuel', s :: rest =>
      if isIdle maxIdleRpm s then
        let '(re, rest') := idle_prefix maxIdleRpm gap (TS s) rest in
        mkRange (TS s) re :: idle_runs fuel' maxIdleRpm gap rest'
      else idle_runs fuel' maxIdleRpm gap rest
  | _, _ => []
  end.

Lemma idle_prefix_length m g last l : (length (idle_prefix m g last l).2 <= length l)%nat.
Proof.
  revert last; induction l as [|s l IH]; intros last; simpl; [lia|].
  destruct (_ && _); simpl; [|lia]. specialize (IH (TS s)). lia.
Qed.

(** The loop clips the runs one by one; [length samples] is enough fuel. *)
Lemma idle_loop_runs m g minDur from to fuel samples :
  (length samples <= fuel)%nat ->
  idle_loop m g minDur from to None samples =
    omap (fun r => clipTimeRange r from to minDur) (idle_runs fuel m g samples) /\
  forall rs last,
    idle_loop m g minDur from to (Some (rs, last)) samples =
    let '(re, rest) := idle_prefix m g last samples in
    emit (clipTimeRange (mkRange rs re) from to minDur) ++
    omap (fun r => clipTimeRange r from to minDur) (idle_runs fuel m g rest).
Proof.
  revert fuel; induction samples as [|s rest IH]; intros fuel Hf.
  { split; [by destruct fuel|]. intros rs last. simpl. unfold appendIdleRange.
    destruct fuel; simpl; by rewrite app_nil_r. }
  destruct fuel as [|fuel]; simpl in Hf; [lia|].
  destruct (IH fuel) as [IHn IHs]; [lia|].
  assert (Hrun : forall fuel', (length rest <= fuel')%nat ->
            idle_loop m g minDur from to (Some (TS s, TS s)) rest =
            (let '(re, rest') := idle_prefix m g (TS s) rest in
             emit (clipTimeRange (mkRange (TS s) re) from to minDur) ++
             omap (fun r => clipTimeRange r from to minDur) (idle_runs fuel' m g rest'))).
  { intros fuel' Hf'. destruct (IH fuel' Hf') as [_ H]. apply H. }
  split.
  - cbn [idle_loop idle_runs]. destruct (isIdle m s); [|exact IHn].
    rewrite (Hrun fuel) by lia. destruct (idle_prefix m g (TS s) rest) as [re rest'].
    simpl. by destruct (clipTimeRange _ from to minDur).
  - intros rs last. cbn [idle_loop idle_prefix].
    destruct (isIdle m s) eqn:Ei; simpl andb.
    + destruct (g <? time_sub (TS s) last) eqn:Eg; simpl negb.
      * unfold appendIdleRange. f_equal. cbn [idle_runs]. rewrite Ei.
        rewrite (Hrun fuel) by lia. destruct (idle_prefix m g (TS s) rest) as [re rest'].
        simpl. by destruct (clipTimeRange (mkRange (TS s) re) from to minDur).
      * cbn [idle_runs]. destruct (IH (S fuel)) as [_ H]; [lia|]. apply H.
    + unfold appendIdleRange. f_equal. cbn [idle_runs]. rewrite Ei. exact IHn.
Qed.

Definition raw_idle_runs (m g : Z) (samples : list LevelSample) : list timeRange :=
  idle_runs (length samples) m g samples.

Lemma findIdleRpmRanges_eq samples m maxGap minDur from to :
  findIdleRpmRanges samples m maxGap minDur from to =
  omap (fun r => clipTimeRange r from to minDur)
       (raw_idle_runs m (duration_of maxGap Second) samples).
Proof. by apply idle_loop_runs. Qed.

Lemma flat_map_emit {A} (f : A -> option timeRange) (l : list A) :
  flat_map (fun r => emit (f r)) l = omap f l.
Proof. induction l as [|x l IH]; simpl; [done|]. rewrite IH. by destruct (f x). Qed.

(** Idle runs: what the in-process loop of [findIdleRpmRanges] returns is the
    clipping of the raw runs (maximal chains of idle samples at most [maxGap]
    apart), for any samples; so the in-store path and the streaming fallback of
    [DetectSegments] return the same segments whenever the store's [IdleRuns]
    returns the raw runs of the samples [LevelSamples] returns. *)
Theorem idling_paths_agree (store stream : SignalSource) idleRuns subject from to config samples :
  let rc := resolveBaseConfig config in
  let lb := lookback from (maxGapSeconds rc) in
  let rpm := match config with Some c => default defaultMaxIdleRpm (MaxIdleRpm c)
                             | None => defaultMaxIdleRpm end in
  @IdleRuns store = Some idleRuns -> @IdleRuns stream = None ->
  @LevelSamples stream subject FieldPowertrainCombustionEngineSpeed lb to = Ok samples ->
  idleRuns subject FieldPowertrainCombustionEngineSpeed lb to rpm (maxGapSeconds rc) =
    Ok (raw_idle_runs rpm (duration_of (maxGapSeconds rc) Second) samples) ->
  @IdlingDetector_DetectSegments store subject from to config =
  @IdlingDetector_DetectSegments stream subject from to config.
Proof.
  intros rc lb rpm Hs Hn Hl Hr. unfold IdlingDetector_DetectSegments.
  rewrite Hs, Hn. fold rc lb rpm. rewrite Hl, Hr.
  unfold appendIdleRange.
  rewrite (flat_map_emit (fun r => clipTimeRange (mkRange (start r) (end_ r)) from to (minDuration rc))).
  destruct samples as [|s samples]; [done|]. rewrite findIdleRpmRanges_eq.
  reflexivity.
Qed.

Definition idle_demo : list LevelSample :=
  map (fun p => mkLevelSample (fst p * Second) (f64_of_Z (snd p)))
      [(0, 700); (100, 800); (200, 3000); (300, 900); (900, 900); (1000, 0)].

Example idling_paths_agree_witness :
  let stream := mem_source [] (fun _ => idle_demo) [] in
  let store : SignalSource := {|
    WindowedSignalCounts := @WindowedSignalCounts stream;
    LevelSamples := @LevelSamples stream;
    IgnitionStateChanges := @IgnitionStateChanges stream;
    IdleRuns := Some (fun _ _ from to rpm gap =>
      Ok (raw_idle_runs rpm (duration_of gap Second)
            (filter (fun s => from <= TS s /\ TS s < to) idle_demo))) |} in
  let cfg := Some (mkSegmentConfig (Some 900) (Some 60) None None None) in
  @IdlingDetector_DetectSegments store "did" (50 * Second) (2000 * Second) cfg =
  @IdlingDetector_DetectSegments stream "did" (50 * Second) (2000 * Second) cfg /\
  match @IdlingDetector_DetectSegments stream "did" (50 * Second) (2000 * Second) cfg with
  | Ok l => map seg_Duration l = [50; 600]
  | Err _ => False
  end.
Proof.
  split; [|vm_compute; reflexivity].
  eapply idling_paths_agree; reflexivity.
Defined.
