(* ===== verification/RefuelDet.v ===== *)
(** * internal/segments/refuel.go

    Refuel segments: five-minute windows over which the fuel level rises by more
    than the configured share, each widened from the trough before the rise to
    the stabilised peak after it, then merged. *)

From S2P Require Import Prelude FloatFacts Model SegUtil Source.

Definition refuelWindowMinutes : Z := 5.
Definition refuelMinRisePercent : Z := 30.
Definition refuelMinFuelEpsilon : float64 := f64_ratio 1 1000000.
Definition refuelMinAbsoluteRisePct : float64 := f64_of_Z 20.
Definition refuelPeakSearchMaxMin : Z := 30.
Definition refuelPeakStabilizationDrop : float64 := f64_of_Z 1.

Definition FieldPowertrainFuelSystemRelativeLevel : string :=
  "powertrainFuelSystemRelativeLevel".

(** The backward walk from [i]: stops at the local minimum nearest the rise. *)
Fixpoint trough_walk (samples : list LevelSample) (i : nat) (troughIdx : option nat)
    (troughVal : float64) : option nat :=
  match samples !! i with
  | None => troughIdx
  | Some s =>
      if bool_decide (troughIdx = None) || f64_ltb (Value s) troughVal then
        match i with
        | O => Some O
        | S i' => trough_walk samples i' (Some i) (Value s)
        end
      else troughIdx
  end.

(** The forward walk over [rest], the samples from index [i] on. *)
Fixpoint peak_walk (peakDeadline : Z) (i : nat) (peakIdx : option nat) (peakVal : float64)
    (rest : list LevelSample) : option nat :=
  match rest with
  | [] => peakIdx
  | s :: rest' =>
      if after (TS s) peakDeadline then peakIdx
      else
        let upd := bool_decide (peakIdx = None) || f64_leb peakVal (Value s) in
        let peakIdx' := if upd then Some i else peakIdx in
        let peakVal' := if upd then Value s else peakVal in
        let stabilised :=
          match rest' with
          | s2 :: _ =>
              negb (after (TS s2) peakDeadline) &&
              f64_ltb (Value s2) (f64_sub (Value s) refuelPeakStabilizationDrop)
          | [] => false
          end in
        if stabilised then Some i
        else peak_walk peakDeadline (S i) peakIdx' peakVal' rest'
  end.

(** [(trough, peak, absRise)]; zero times when either walk finds nothing. *)
Definition findRefuelTroughAndPeak (samples : list LevelSample) (riseStart riseEnd : Z)
  : Z * Z * float64 :=
  let peakDeadline := time_add riseEnd (duration_of refuelPeakSearchMaxMin Minute) in
  let startIdx0 := sort_Search (length samples) (ts_test (fun ts => after ts riseStart) samples) in
  let startIdx := match startIdx0 with O => O | S k => k end in
  let troughIdx := trough_walk samples startIdx None f64_zero in
  let peakStart := sort_Search (length samples)
                     (ts_test (fun ts => negb (before ts riseEnd)) samples) in
  let peakIdx := peak_walk peakDeadline peakStart None f64_zero (drop peakStart samples) in
  match troughIdx, peakIdx with
  | Some ti, Some pi =>
      match samples !! ti, samples !! pi with
      | Some tr, Some pk => (TS tr, TS pk, f64_sub (Value pk) (Value tr))
      | _, _ => (zero_time, zero_time, f64_zero)
      end
  | _, _ => (zero_time, zero_time, f64_zero)
  end.

(** The body of the scan at window start [t]: the range appended to [raw]. *)
Definition refuel_window (samples : list LevelSample) (minRise minDur from to t : Z)
  : list timeRange :=
  let windowEnd := time_add t (duration_of refuelWindowMinutes Minute) in
  let fuelStart := sampleAtOrBefore samples t in
  let fuelEnd := sampleAtOrBefore samples windowEnd in
  if f64_leb refuelMinFuelEpsilon fuelStart then
    let risePct := f64_mul (f64_div (f64_sub fuelEnd fuelStart) fuelStart) (f64_of_Z 100) in
    if f64_ltb (f64_of_Z minRise) risePct then
      let '(troughTime, peakTime, absRise) := findRefuelTroughAndPeak samples t windowEnd in
      if negb (is_zero troughTime) && negb (is_zero peakTime) && after peakTime troughTime &&
         f64_leb refuelMinAbsoluteRisePct absRise then
        let troughTime' := if before troughTime from then from else troughTime in
        let peakTime' := if after peakTime to then to else peakTime in
        if minDur <=? seconds_int (time_sub peakTime' troughTime')
        then [mkRange troughTime' peakTime'] else []
      else []
    else []
  else [].

(** The scan loop, one round per minute. *)
Fixpoint refuel_scan (fuel : nat) (samples : list LevelSample)
    (minRise minDur from to t : Z) : list timeRange :=
  match fuel with
  | O => []
  | S fuel' =>
      if negb (after (time_add t (duration_of refuelWindowMinutes Minute)) to) then
        refuel_window samples minRise minDur from to t ++
        refuel_scan fuel' samples minRise minDur from to (time_add t Minute)
      else []
  end.

(** Minutes between two instants, rounded up: enough rounds for the scan. *)
Definition scan_rounds (t to : Z) : nat := Z.to_nat ((to - t) / Minute + 1).

Definition scan_start (from : Z) : Z :=
  let t := time_truncate from Minute in
  if before t from then time_add t Minute else t.

Definition RefuelDetector_DetectSegments {src : SignalSource} (subject : string)
    (from to : Z) (config : option SegmentConfig) : result string (list Segment) :=
  let rc := resolveBaseConfig config in
  let minDur := minDuration rc in
  let minRise :=
    match config with
    | Some c => match MinIncreasePercent c with
                | Some p => if 0 <? p then p else refuelMinRisePercent
                | None => refuelMinRisePercent
                end
    | None => refuelMinRisePercent
    end in
  let windowDur := duration_of refuelWindowMinutes Minute in
  let fuelFrom := time_add from (wrap64 (- windowDur)) in
  let fuelTo := time_add to (duration_of refuelPeakSearchMaxMin Minute) in
  match LevelSamples subject FieldPowertrainFuelSystemRelativeLevel fuelFrom fuelTo with
  | Err e => Err ("failed to query fuel samples: " +:+ e)%string
  | Ok samples =>
      if (length samples <? 2)%nat then Ok []
      else
        let raw := refuel_scan (scan_rounds (scan_start from) to) samples minRise minDur from to
                     (scan_start from) in
        let merged := mergeTimeRanges raw 0 minDur from to None in
        Ok (timeRangesToSegments merged from)
  end.

(** ** The scan terminates *)

Lemma refuel_scan_fuel f1 f2 samples minRise minDur from to t :
  (scan_rounds t to <= f1)%nat -> (scan_rounds t to <= f2)%nat ->
  refuel_scan f1 samples minRise minDur from to t =
  refuel_scan f2 samples minRise minDur from to t.
Proof.
  assert (Hw : duration_of refuelWindowMinutes Minute = 5 * Minute) by reflexivity.
  assert (Hstop : forall f s, to < s + 5 * Minute -> refuel_scan f samples minRise minDur from to s = []).
  { intros [|f] s Hs; [done|]. cbn [refuel_scan]. rewrite Hw. unfold time_add.
    replace (after (s + 5 * Minute) to) with true by (symmetry; bools; lia). done. }
  revert f2 t; induction f1 as [|f1 IH]; intros f2 t H1 H2.
  - rewrite !Hstop; [done| |];
      unfold scan_rounds in *;
      pose proof (Z.mul_div_le (to - t) Minute ltac:(vm_compute; done));
      pose proof (Z.mod_pos_bound (to - t) Minute ltac:(vm_compute; done));
      pose proof (Z.div_mod (to - t) Minute ltac:(vm_compute; done));
      unfold Minute, Second, Millisecond, Microsecond, Nanosecond in *; lia.
  - destruct (decide (to < t + 5 * Minute)) as [Hs|Hs]; [by rewrite !Hstop|].
    destruct f2 as [|f2].
    { exfalso. unfold scan_rounds in *.
      pose proof (Z.div_mod (to - t) Minute ltac:(vm_compute; done)).
      pose proof (Z.mod_pos_bound (to - t) Minute ltac:(vm_compute; done)).
      unfold Minute, Second, Millisecond, Microsecond, Nanosecond in *; lia. }
    cbn [refuel_scan]. destruct (negb _); [|done]. f_equal. apply IH; unfold scan_rounds, time_add in *;
      replace (to - (t + Minute)) with (to - t + (-1) * Minute) by lia;
      rewrite Z.div_add by (vm_compute; done); lia.
Qed.

(** ** Where the ranges come from *)

(** [r] runs from a sample to one at least 20 points higher, clipped. *)
Definition refuel_rise (samples : list LevelSample) (from to minDur : Z) (r : timeRange) : Prop :=
  exists tr pk, In tr samples /\ In pk samples /\ TS tr < TS pk /\
    f64_leb refuelMinAbsoluteRisePct (f64_sub (Value pk) (Value tr)) = true /\
    start r = Z.max (TS tr) from /\ end_ r = Z.min (TS pk) to /\
    minDur <= seconds_int (time_sub (end_ r) (start r)).

Lemma refuel_window_rise samples minRise minDur from to t r :
  In r (refuel_window samples minRise minDur from to t) ->
  refuel_rise samples from to minDur r.
Proof.
  unfold refuel_window. destruct (f64_leb _ _); [|done]. destruct (f64_ltb _ _); [|done].
  destruct (findRefuelTroughAndPeak _ _ _) as [[trough peak] rise] eqn:E.
  destruct (_ && _) eqn:G; [|done].
  destruct (Z.leb_spec minDur
    (seconds_int (time_sub (if after peak to then to else peak)
                           (if before trough from then from else trough)))) as [Hd|]; [|done].
  intros [<-|[]].
  assert (Hp : exists tr pk, In tr samples /\ In pk samples /\ TS tr = trough /\ TS pk = peak /\
             rise = f64_sub (Value pk) (Value tr)).
  { revert E. unfold findRefuelTroughAndPeak.
    destruct (trough_walk _ _ _ _) as [ti|]; [|intros [= <- <- _]; vm_compute in G; discriminate G].
    destruct (peak_walk _ _ _ _ _) as [pi|]; [|intros [= <- <- _]; vm_compute in G; discriminate G].
    destruct (samples !! ti) as [tr|] eqn:Et; [|intros [= <- <- _]; vm_compute in G; discriminate G].
    destruct (samples !! pi) as [pk|] eqn:Ep; [|intros [= <- <- _]; vm_compute in G; discriminate G].
    intros [= <- <- <-]. exists tr, pk.
    repeat split; try done; apply list_elem_of_In; by eapply list_elem_of_lookup_2. }
  destruct Hp as (tr & pk & Htr & Hpk & <- & <- & ->). exists tr, pk.
  apply andb_true_iff in G as [G G4]. apply andb_true_iff in G as [G G3].
  repeat split; try done; simpl; bools; try lia.
  - destruct (TS tr <? from) eqn:Eb; bools; lia.
  - destruct (to <? TS pk) eqn:Eb; bools; lia.
Qed.

Lemma refuel_scan_rise fuel samples minRise minDur from to t r :
  In r (refuel_scan fuel samples minRise minDur from to t) ->
  refuel_rise samples from to minDur r.
Proof.
  revert t; induction fuel as [|fuel IH]; intros t; simpl; [done|].
  destruct (negb _); [|done]. intros [H|H]%in_app_or; [|by eapply IH].
  by eapply refuel_window_rise.
Qed.

Lemma timeRangesToSegments_within from to l :
  Forall (fun r => from <= start r /\ start r < end_ r /\ end_ r <= to) l ->
  Forall (seg_within from to) (timeRangesToSegments l from).
Proof.
  intros HF. apply Forall_forall. intros s Hs. apply list_elem_of_In, in_map_iff in Hs as (r & <- & Hr).
  rewrite Forall_forall in HF. destruct (HF r) as (H1 & H2 & H3); [by apply list_elem_of_In|].
  exists (start r). rewrite startedBefore_le. repeat split; try done; try lia.
  all: intros; unfold seg_end in *; simpl in *; simplify_eq; first [lia|reflexivity].
Qed.

(** Refuel segments: whenever the backend answers, the detector returns
    segments inside the query window, and each one starts at the (clipped) time
    of a fuel sample from which the level later rises by at least 20 points. The
    minute-by-minute scan always terminates: more rounds than there are minutes
    in the window change nothing. *)
Theorem refuel_detector_spec {src : SignalSource} subject from to config samples :
  from <> zero_time -> to <> zero_time ->
  LevelSamples subject FieldPowertrainFuelSystemRelativeLevel
    (time_add from (wrap64 (- duration_of refuelWindowMinutes Minute)))
    (time_add to (duration_of refuelPeakSearchMaxMin Minute)) = Ok samples ->
  exists segs,
    RefuelDetector_DetectSegments subject from to config = Ok segs /\
    Forall (seg_within from to) segs /\
    Forall (fun s => exists tr pk, In tr samples /\ In pk samples /\ TS tr < TS pk /\
              f64_leb refuelMinAbsoluteRisePct (f64_sub (Value pk) (Value tr)) = true /\
              seg_start s = Some (Z.max (TS tr) from)) segs /\
    (forall fuel minRise minDur, (scan_rounds (scan_start from) to <= fuel)%nat ->
       refuel_scan fuel samples minRise minDur from to (scan_start from) =
       refuel_scan (scan_rounds (scan_start from) to) samples minRise minDur from to (scan_start from)).
Proof.
  intros Hf Ht Hl. unfold RefuelDetector_DetectSegments. rewrite Hl.
  assert (Hfuel : forall fuel minRise minDur, (scan_rounds (scan_start from) to <= fuel)%nat ->
       refuel_scan fuel samples minRise minDur from to (scan_start from) =
       refuel_scan (scan_rounds (scan_start from) to) samples minRise minDur from to (scan_start from)).
  { intros. apply refuel_scan_fuel; lia. }
  destruct (length samples <? 2)%nat; [exists []; by repeat split|].
  eexists. split; [reflexivity|].
  set (minDur := minDuration (resolveBaseConfig config)).
  set (raw := refuel_scan _ _ _ _ _ _ _).
  destruct (merge_separated_gen raw 0 minDur from to) as [HF _];
    [unfold in_int64, min_int64, max_int64; lia|unfold max_int64; lia|].
  split; [|split; [|exact Hfuel]].
  - apply timeRangesToSegments_within. eapply Forall_impl; [exact HF|].
    intros r (H1 & H2 & H3). auto.
  - apply Forall_forall. intros s Hs. apply list_elem_of_In, in_map_iff in Hs as (o & <- & Ho).
    destruct (merge_delimited_gen _ _ _ _ _ _ _ Ho) as (tr0 & Hc & (r & Hr & Er) & _).
    apply refuel_scan_rise in Hr as (tr & pk & Htr & Hpk & Hlt & Hrise & Hst & _).
    exists tr, pk. repeat split; try done. unfold seg_start; simpl. f_equal.
    apply clip_bounds in Hc as (_ & _ & _ & Hc & _). specialize (Hc Hf). lia.
Qed.

Definition refuel_demo : list LevelSample :=
  map (fun p => mkLevelSample (fst p * Minute) (f64_of_Z (snd p)))
      [(10, 25); (20, 20); (24, 60); (26, 90); (30, 91); (40, 80)].

Example refuel_detector_spec_witness :
  let src := mem_source [] (fun _ => refuel_demo) [] in
  exists segs,
    @RefuelDetector_DetectSegments src "did" (5 * Minute) (60 * Minute) None = Ok segs /\
    Forall (seg_within (5 * Minute) (60 * Minute)) segs /\
    map (fun s => (seg_start s, seg_Duration s)) segs = [(Some (10 * Minute), 1200)].
Proof.
  destruct (@refuel_detector_spec (mem_source [] (fun _ => refuel_demo) [])
              "did" (5 * Minute) (60 * Minute) None refuel_demo) as (segs & E & HF & _);
    [vm_compute; discriminate|vm_compute; discriminate|vm_compute; reflexivity|].
  exists segs. split; [exact E|]. split; [exact HF|].
  vm_compute in E. injection E as <-. vm_compute. reflexivity.
Defined.
