(* ===== verification/RechargeDet.v ===== *)
(** * internal/segments/recharge.go and registry.go

    Recharge segments: the state-of-charge samples are smoothed, every rise from
    a local trough to a local peak is a candidate, candidates during which the
    vehicle drove are dropped and sessions less than two hours apart with an
    unchanged odometer are merged. [NewDetector] dispatches on the mechanism. *)

From S2P Require Import Prelude FloatFacts Model SegUtil Source.
From S2P Require Import Ignition Windows Idling RefuelDet.

Definition rechargeDefaultMinDurationSeconds : Z := 60.
Definition rechargeSessionGapMax : Z := 2 * Hour.
Definition rechargeOdometerEpsilonKm : float64 := f64_ratio 1 2.
Definition rechargeSmoothWindow : nat := 11.
Definition rechargeMinRisePct : float64 := f64_of_Z 1.

Definition FieldPowertrainTractionBatteryStateOfChargeCurrent : string :=
  "powertrainTractionBatteryStateOfChargeCurrent".
Definition FieldPowertrainTransmissionTravelledDistance : string :=
  "powertrainTransmissionTravelledDistance".

(** The inner loop: [sum += samples[j].Value] for [j] from [i-half] to [i+half]. *)
Definition smooth_sum (samples : list LevelSample) (half i : nat) : float64 :=
  fold_left (fun sum j => match samples !! j with
                          | Some s => f64_add sum (Value s)
                          | None => sum
                          end) (seq (i - half) (2 * half + 1)) f64_zero.

Definition smoothSamples (samples : list LevelSample) (window : nat) : list LevelSample :=
  if (window <=? 1)%nat || (length samples <=? window)%nat then samples
  else
    let half := (window / 2)%nat in
    let denom := f64_of_Z (Z.of_nat (2 * half + 1)) in
    omap (fun i => match samples !! i with
                   | Some s => Some (mkLevelSample (TS s) (f64_div (smooth_sum samples half i) denom))
                   | None => None
                   end) (seq half (length samples - half - half)).

Inductive direction := dirNone | dirRising | dirFalling.

(** What [appendTroughToPeak] appends. *)
Definition appendTroughToPeak (samples : list LevelSample) (troughIdx peakIdx : nat)
    (minRisePct : float64) (minDur : Z) : list timeRange :=
  match samples !! peakIdx, samples !! troughIdx with
  | Some p, Some t =>
      if f64_ltb (f64_sub (Value p) (Value t)) minRisePct then []
      else if seconds_int (time_sub (TS p) (TS t)) <? minDur then []
      else [mkRange (TS t) (TS p)]
  | _, _ => []
  end.

(** The loop at index [i], [prev] being [samples[i-1]] and [rest] [samples[i:]]. *)
Fixpoint trough_loop (samples : list LevelSample) (minRisePct : float64) (minDur : Z)
    (i : nat) (dir : direction) (troughIdx peakIdx : nat) (prev : LevelSample)
    (rest : list LevelSample) : list timeRange :=
  match rest with
  | [] =>
      match dir with
      | dirRising => appendTroughToPeak samples troughIdx peakIdx minRisePct minDur
      | _ => []
      end
  | s :: rest' =>
      let diff := f64_sub (Value s) (Value prev) in
      if f64_ltb f64_zero diff then
        let troughIdx' := match dir with dirFalling => (i - 1)%nat | _ => troughIdx end in
        trough_loop samples minRisePct minDur (S i) dirRising troughIdx' i s rest'
      else if f64_ltb diff f64_zero then
        (match dir with
         | dirRising => appendTroughToPeak samples troughIdx peakIdx minRisePct minDur
         | _ => []
         end) ++
        trough_loop samples minRisePct minDur (S i) dirFalling troughIdx peakIdx s rest'
      else trough_loop samples minRisePct minDur (S i) dir troughIdx peakIdx s rest'
  end.

Definition findTroughToPeakRanges (samples : list LevelSample) (minRisePct : float64)
    (minDur : Z) : list timeRange :=
  match samples with
  | s :: ((_ :: _) as rest) => trough_loop samples minRisePct minDur 1 dirNone 0 0 s rest
  | _ => []
  end.

(** The test of the loop body of [filterRangesBySocAndOdo]. *)
Definition soc_and_odo_ok (socSamples odoSamples : list LevelSample) (tr : timeRange) : bool :=
  match levelFirstLastInRange socSamples (start tr) (end_ tr) with
  | None => false
  | Some (socFirst, socLast) =>
      if f64_leb socLast socFirst then false
      else
        match levelFirstLastInRange odoSamples (start tr) (end_ tr) with
        | Some (odoFirst, odoLast) =>
            negb (f64_ltb rechargeOdometerEpsilonKm (f64_sub odoLast odoFirst))
        | None => true
        end
  end.

Definition filterRangesBySocAndOdo (ranges : list timeRange)
    (socSamples odoSamples : list LevelSample) : list timeRange :=
  List.filter (soc_and_odo_ok socSamples odoSamples) ranges.

Definition recharge_shouldMerge (odoSamples : list LevelSample) (a b : timeRange) : bool :=
  match levelFirstLastInRange odoSamples (start a) (end_ a),
        levelFirstLastInRange odoSamples (start b) (end_ b) with
  | Some (_, odoCurEnd), Some (odoNextStart, _) =>
      f64_leb (SFabs (f64_sub odoNextStart odoCurEnd)) rechargeOdometerEpsilonKm
  | _, _ => false
  end.

Definition detectRechargeSegments {src : SignalSource} (subject : string) (from to minDur : Z)
    (minRisePct : float64) : result string (list Segment) :=
  match LevelSamples subject FieldPowertrainTractionBatteryStateOfChargeCurrent from to with
  | Err e => Err ("failed to query SoC samples: " +:+ e)%string
  | Ok socSamples =>
      if (length socSamples <? rechargeSmoothWindow + 2)%nat then Ok []
      else
        match LevelSamples subject FieldPowertrainTransmissionTravelledDistance from to with
        | Err e => Err ("failed to query odometer samples: " +:+ e)%string
        | Ok odoSamples =>
            let smoothed := smoothSamples socSamples rechargeSmoothWindow in
            let candidates := findTroughToPeakRanges smoothed minRisePct minDur in
            let filtered := filterRangesBySocAndOdo candidates socSamples odoSamples in
            let merged := mergeTimeRanges filtered rechargeSessionGapMax minDur
                            zero_time zero_time (Some (recharge_shouldMerge odoSamples)) in
            Ok (timeRangesToSegments merged from)
        end
  end.

(** [config == nil || config.MinSegmentDurationSeconds == nil] *)
Definition recharge_minDuration (config : option SegmentConfig) : Z :=
  match config with
  | Some c => default rechargeDefaultMinDurationSeconds (MinSegmentDurationSeconds c)
  | None => rechargeDefaultMinDurationSeconds
  end.

Definition recharge_minRisePct (config : option SegmentConfig) : float64 :=
  match config with
  | Some c => match MinIncreasePercent c with
              | Some p => if 0 <? p then f64_of_Z p else rechargeMinRisePct
              | None => rechargeMinRisePct
              end
  | None => rechargeMinRisePct
  end.

Definition RechargeDetector_DetectSegments {src : SignalSource} (subject : string)
    (from to : Z) (config : option SegmentConfig) : result string (list Segment) :=
  detectRechargeSegments subject from to (recharge_minDuration config)
    (recharge_minRisePct config).

(** ** registry.go: a detector is its [DetectSegments] method. *)

Definition NewDetector {src : SignalSource} (now : Z) (mechanism : DetectionMechanism)
  : result string (string -> Z -> Z -> option SegmentConfig -> result string (list Segment)) :=
  match mechanism with
  | IgnitionDetection => Ok IgnitionDetector_DetectSegments
  | FrequencyAnalysis => Ok (FrequencyDetector_DetectSegments now)
  | ChangePointDetection => Ok (ChangePointDetector_DetectSegments now)
  | Idling => Ok IdlingDetector_DetectSegments
  | Refuel => Ok RefuelDetector_DetectSegments
  | Recharge => Ok RechargeDetector_DetectSegments
  | MechOther m => Err ("unknown detection mechanism: " +:+ m)%string
  end.

(** ** Smoothing *)

Lemma smooth_seq samples half n i0 :
  omap (fun i => match samples !! i with
                 | Some s => Some (mkLevelSample (TS s) (f64_div (smooth_sum samples half i)
                                    (f64_of_Z (Z.of_nat (2 * half + 1)))))
                 | None => None
                 end) (seq i0 n) =
  imap (fun i s => mkLevelSample (TS s) (f64_div (smooth_sum samples half (i0 + i))
                                    (f64_of_Z (Z.of_nat (2 * half + 1)))))
       (take n (drop i0 samples)).
Proof.
  revert i0; induction n as [|n IH]; intros i0; [by rewrite take_0|].
  cbn [seq omap list_omap]. rewrite IH.
  destruct (samples !! i0) as [s|] eqn:E.
  - rewrite (drop_S _ _ _ E). cbn [take imap]. rewrite Nat.add_0_r. f_equal.
    apply imap_ext. intros j x _. unfold compose.
    by replace (S i0 + j)%nat with (i0 + S j)%nat by lia.
  - apply lookup_ge_None in E. rewrite !drop_ge by lia. by rewrite !take_nil.
Qed.

Lemma sorted_samples_sub P l :
  sorted_samples l -> sorted_samples (take P l) /\ sorted_samples (drop P l).
Proof.
  intros Hs. rewrite <- (take_drop P l) in Hs. unfold sorted_samples in *.
  apply StronglySorted_app in Hs. tauto.
Qed.

Lemma imap_sorted_TS (f : nat -> LevelSample -> LevelSample) l :
  (forall i s, TS (f i s) = TS s) -> sorted_samples l -> sorted_samples (imap f l).
Proof.
  intros Hf Hs. revert f Hf; induction Hs as [|s l Hs IH Hall]; intros f Hf; [constructor|].
  cbn [imap]. constructor; [apply IH; intros; apply Hf|].
  apply Forall_forall. intros x Hx. apply elem_of_lookup_imap in Hx as (j & y & -> & Hy).
  simpl. rewrite !Hf. rewrite Forall_forall in Hall. apply Hall. by eapply list_elem_of_lookup_2.
Qed.

(** Smoothing keeps instants: the smoothed samples are in order, at instants of
    the input. *)
Lemma smoothSamples_TS samples window :
  sorted_samples samples ->
  sorted_samples (smoothSamples samples window) /\
  Forall (fun s => exists s0, In s0 samples /\ TS s = TS s0) (smoothSamples samples window).
Proof.
  intros Hs. unfold smoothSamples. destruct (_ || _).
  { split; [done|]. apply Forall_forall. intros s H. exists s. split; [by apply list_elem_of_In|done]. }
  cbv zeta. rewrite smooth_seq. split.
  - apply imap_sorted_TS; [done|]. by apply sorted_samples_sub, sorted_samples_sub.
  - apply Forall_forall. intros x Hx. apply elem_of_lookup_imap in Hx as (j & y & -> & Hy).
    exists y. split; [|done]. apply list_elem_of_In.
    apply lookup_take_Some in Hy as [Hy _]. rewrite lookup_drop in Hy. by eapply list_elem_of_lookup_2.
Qed.

(** ** Trough to peak *)

Lemma f64_pos_not_neg d : f64_ltb f64_zero d = true -> f64_ltb d f64_zero = false.
Proof. by destruct d as [[]|[]| |[] m e]. Qed.

(** The step into index [k] does not fall. *)
Definition no_fall (samples : list LevelSample) (k : nat) : Prop :=
  forall x y, samples !! (k - 1)%nat = Some x -> samples !! k = Some y ->
    f64_ltb (f64_sub (Value y) (Value x)) f64_zero = false.

Lemma no_fall_snoc samples t i :
  (forall k, (t < k < i)%nat -> no_fall samples k) -> no_fall samples i ->
  forall k, (t < k < S i)%nat -> no_fall samples k.
Proof. intros H Hi k Hk. destruct (decide (k = i)) as [->|]; [done|]. apply H. lia. Qed.

(** [r] goes from a sample to a later one, never falling in between, and rises
    by at least [minRise] over at least [minDur] seconds. *)
Definition soc_rise (samples : list LevelSample) (minRise : float64) (minDur : Z)
    (r : timeRange) : Prop :=
  exists a b x y, samples !! a = Some x /\ samples !! b = Some y /\ (a < b)%nat /\
    r = mkRange (TS x) (TS y) /\
    f64_ltb (f64_sub (Value y) (Value x)) minRise = false /\
    minDur <= seconds_int (time_sub (TS y) (TS x)) /\
    (forall k, (a < k <= b)%nat -> no_fall samples k).

Section trough.
Context (samples : list LevelSample) (minRise : float64) (minDur : Z).
Context (Hsorted : sorted_samples samples).

Lemma append_rise t p r :
  (t < p)%nat -> (forall k, (t < k <= p)%nat -> no_fall samples k) ->
  In r (appendTroughToPeak samples t p minRise minDur) ->
  soc_rise samples minRise minDur r /\
  (forall x, samples !! t = Some x -> start r = TS x) /\
  (forall y, samples !! p = Some y -> end_ r = TS y).
Proof.
  intros Hlt Hnf. unfold appendTroughToPeak.
  destruct (samples !! p) as [y|] eqn:Ey; [|done].
  destruct (samples !! t) as [x|] eqn:Ex; [|done].
  destruct (f64_ltb _ minRise) eqn:Er; [done|].
  destruct (Z.ltb_spec (seconds_int (time_sub (TS y) (TS x))) minDur); [done|].
  intros [<-|[]]. split; [|split; intros; simplify_eq; done].
  exists t, p, x, y. done.
Qed.

(** The loop's state before index [i]: rising from the trough through the
    peak, or not rising with everything so far behind [samples[i-1]]. *)
Definition trough_inv (i : nat) (dir : direction) (t p : nat) (lo : Z) : Prop :=
  match dir with
  | dirRising =>
      (t < p < i)%nat /\ (forall k, (t < k < i)%nat -> no_fall samples k) /\
      (forall x, samples !! t = Some x -> lo <= TS x)
  | dirFalling => forall x, samples !! (i - 1)%nat = Some x -> lo <= TS x
  | dirNone =>
      t = 0%nat /\ (forall k, (0 < k < i)%nat -> no_fall samples k) /\
      (forall x, samples !! 0%nat = Some x -> lo <= TS x)
  end.

Definition ranges_from (lo : Z) (l : list timeRange) : Prop :=
  Forall (fun r => lo <= start r) l /\
  Forall (soc_rise samples minRise minDur) l /\ disjoint_ranges l.

Lemma soc_rise_valid r : soc_rise samples minRise minDur r -> valid_range r.
Proof.
  intros (a & b & x & y & Hx & Hy & Hab & -> & _). unfold valid_range; simpl.
  eapply (ts_sorted samples Hsorted); eauto. lia.
Qed.

Lemma ranges_from_mono lo lo' l : lo <= lo' -> ranges_from lo' l -> ranges_from lo l.
Proof.
  intros Hle (H1 & H2). split; [|done]. eapply Forall_impl; [exact H1|]. simpl. lia.
Qed.

Lemma ranges_from_append lo t p lo' l :
  (t < p)%nat -> (forall k, (t < k <= p)%nat -> no_fall samples k) ->
  (forall x, samples !! t = Some x -> lo <= TS x) ->
  (forall y, samples !! p = Some y -> TS y <= lo') -> lo <= lo' ->
  ranges_from lo' l ->
  ranges_from lo (appendTroughToPeak samples t p minRise minDur ++ l).
Proof.
  intros Hlt Hnf Hlo Hlo' Hll Hl. pose proof (append_rise t p) as HA.
  unfold appendTroughToPeak in *.
  destruct (samples !! p) as [y|] eqn:Ey; [|by eapply ranges_from_mono].
  destruct (samples !! t) as [x|] eqn:Ex; [|by eapply ranges_from_mono].
  destruct (f64_ltb _ minRise) eqn:Er; [by eapply ranges_from_mono|].
  destruct (_ <? minDur); [by eapply ranges_from_mono|].
  destruct (HA (mkRange (TS x) (TS y)) Hlt Hnf) as (Hr & _ & _); [by left|].
  specialize (Hlo x eq_refl). specialize (Hlo' y eq_refl).
  destruct Hl as (H1 & H2 & H3 & H4). simpl. split; [|split].
  - constructor; [done|]. eapply Forall_impl; [exact H1|]. simpl; lia.
  - by constructor.
  - split; constructor; try done; [|by apply soc_rise_valid].
    eapply Forall_impl; [exact H1|]. simpl; lia.
Qed.

Lemma trough_loop_ok rest i dir t p prev lo :
  (1 <= i)%nat -> drop i samples = rest -> samples !! (i - 1)%nat = Some prev ->
  trough_inv i dir t p lo ->
  ranges_from lo (trough_loop samples minRise minDur i dir t p prev rest).
Proof.
  revert i dir t p prev lo; induction rest as [|s rest IH]; intros i dir t p prev lo Hi Hd Hp Hinv.
  - cbn [trough_loop]. destruct dir; [by repeat constructor| |by repeat constructor].
    destruct Hinv as (Hlt & Hnf & Hlo).
    rewrite <- (app_nil_r (appendTroughToPeak _ _ _ _ _)).
    destruct (lookup_lt_ex samples p) as [y Hy]; [apply lookup_lt_Some in Hp; lia|].
    destruct (lookup_lt_ex samples t) as [x Hx]; [apply lookup_lt_Some in Hp; lia|].
    apply (ranges_from_append lo t p (TS y)); try done; try lia.
    + intros k Hk. apply Hnf. lia.
    + intros; simplify_eq; lia.
    + specialize (Hlo x Hx). pose proof (ts_sorted samples Hsorted t p x y Hx Hy). lia.
    + by repeat constructor.
  - assert (Hs : samples !! i = Some s).
    { rewrite <- (Nat.add_0_r i), <- lookup_drop, Hd. done. }
    assert (Hd' : drop (S i) samples = rest).
    { rewrite (drop_S _ _ _ Hs) in Hd. by simplify_eq. }
    assert (Hps : TS prev <= TS s) by (eapply (ts_sorted samples Hsorted); eauto; lia).
    assert (Hi1 : (S i - 1)%nat = i) by lia.
    assert (HIH : forall dir t p lo, trough_inv (S i) dir t p lo ->
      ranges_from lo (trough_loop samples minRise minDur (S i) dir t p s rest)).
    { intros. apply IH; try done; try lia. by rewrite Hi1. }
    cbn [trough_loop].
    destruct (f64_ltb f64_zero _) eqn:Eup; [|destruct (f64_ltb _ f64_zero) eqn:Edn].
    + (* rising *)
      assert (Hnfi : no_fall samples i).
      { intros x y Hx Hy. simplify_eq. by apply f64_pos_not_neg. }
      apply HIH. destruct dir; simpl in *.
      * destruct Hinv as (-> & Hnf & Hlo). split; [lia|]. split; [|done].
        by apply no_fall_snoc.
      * destruct Hinv as (Hlt & Hnf & Hlo). split; [lia|]. split; [|done].
        by apply no_fall_snoc.
      * split; [lia|]. split; [|done].
        intros k Hk. replace k with i by lia. done.
    + (* falling *)
      assert (Hfall : lo <= TS prev -> ranges_from (TS prev)
        (trough_loop samples minRise minDur (S i) dirFalling t p s rest)).
      { intros _. apply HIH. intros x Hx. rewrite Hi1 in Hx. simplify_eq. lia. }
      destruct dir; simpl in Hinv.
      * destruct Hinv as (-> & Hnf & Hlo). apply (ranges_from_mono lo (TS prev)).
        { destruct (lookup_lt_ex samples 0) as [x Hx]; [apply lookup_lt_Some in Hs; lia|].
          pose proof (ts_sorted samples Hsorted _ _ x prev Hx Hp). specialize (Hlo x Hx). lia. }
        apply HIH. intros x Hx. rewrite Hi1 in Hx. simplify_eq. lia.
      * destruct Hinv as (Hlt & Hnf & Hlo).
        destruct (lookup_lt_ex samples t) as [x Hx]; [apply lookup_lt_Some in Hp; lia|].
        pose proof (ts_sorted samples Hsorted _ _ x prev Hx Hp ltac:(lia)).
        specialize (Hlo x Hx) as Hlox.
        apply (ranges_from_append lo t p (TS prev)); try done; try lia.
        -- intros k Hk. apply Hnf. lia.
        -- intros y Hy. eapply (ts_sorted samples Hsorted); eauto. lia.
        -- apply Hfall. lia.
      * apply (ranges_from_mono lo (TS prev)); [by apply Hinv|]. apply Hfall. by apply Hinv.
    + (* level *)
      assert (Hnfi : no_fall samples i) by (intros x y Hx Hy; by simplify_eq).
      apply HIH. destruct dir; simpl in *.
      * destruct Hinv as (-> & Hnf & Hlo). split; [done|]. split; [|done].
        by apply no_fall_snoc.
      * destruct Hinv as (Hlt & Hnf & Hlo). split; [lia|]. split; [|done].
        by apply no_fall_snoc.
      * intros x Hx. rewrite Nat.sub_0_r in Hx. simplify_eq.
        specialize (Hinv prev Hp). lia.
Qed.
End trough.

Lemma findTroughToPeakRanges_ok samples minRise minDur :
  sorted_samples samples ->
  Forall (soc_rise samples minRise minDur) (findTroughToPeakRanges samples minRise minDur) /\
  disjoint_ranges (findTroughToPeakRanges samples minRise minDur).
Proof.
  intros Hs. destruct samples as [|s [|s2 rest]]; [by repeat constructor..|].
  set (samples := s :: s2 :: rest) in *.
  change (findTroughToPeakRanges samples minRise minDur)
    with (trough_loop samples minRise minDur 1 dirNone 0 0 s (s2 :: rest)).
  destruct (trough_loop_ok samples minRise minDur Hs (s2 :: rest) 1 dirNone 0 0 s (TS s))
    as (_ & H); [lia|done..| |exact H].
  split; [done|]. split; [lia|]. intros x Hx. injection Hx as <-. lia.
Qed.

(** ** The detector *)

Lemma clip_zero tr minDur r :
  clipTimeRange tr zero_time zero_time minDur = Some r -> r = tr /\ start r < end_ r.
Proof.
  destruct tr as [st en]. unfold clipTimeRange. cbn [start end_].
  change (is_zero zero_time) with true. cbn [negb andb orb].
  destruct (after en st) eqn:Ea; cbn [negb]; [|done].
  destruct (_ <? minDur); [done|]. intros [= <-]. bools. done.
Qed.

Lemma filterRanges_disjoint ranges soc odo :
  disjoint_ranges ranges -> disjoint_ranges (filterRangesBySocAndOdo ranges soc odo).
Proof.
  intros [H1 H2]. split; [by apply list_filter_sorted|].
  apply Forall_forall. intros r Hr. rewrite Forall_forall in H2. apply H2.
  apply list_elem_of_In, filter_In in Hr as [Hr _]. by apply list_elem_of_In.
Qed.

Lemma segments_chronological from l :
  StronglySorted (fun a b => end_ a <= start b) l ->
  StronglySorted (seg_before (-1)) (timeRangesToSegments l from).
Proof.
  induction 1 as [|r l Hs IH Hall]; simpl; [constructor|]. constructor; [done|].
  apply Forall_forall. intros s Hs'. apply list_elem_of_In, in_map_iff in Hs' as (r' & <- & Hr').
  rewrite Forall_forall in Hall. specialize (Hall r' ltac:(by apply list_elem_of_In)).
  exists (end_ r), (start r'). repeat split; lia.
Qed.

(** [seg_within] with a lower bound of its own. *)
Definition seg_inside (lo from to : Z) (s : Segment) : Prop :=
  exists t, seg_start s = Some t /\ lo <= t < to /\
            seg_IsOngoing s = bool_decide (seg_end s = None) /\
            seg_StartedBeforeRange s = (t <=? from) /\
            (forall e, seg_end s = Some e -> t < e <= to /\
                       seg_Duration s = seconds_int32 (time_sub e t)).

Lemma timeRangesToSegments_inside lo from to l :
  Forall (fun r => lo <= start r /\ start r < end_ r /\ end_ r <= to) l ->
  Forall (seg_inside lo from to) (timeRangesToSegments l from).
Proof.
  intros HF. apply Forall_forall. intros s Hs. apply list_elem_of_In, in_map_iff in Hs as (r & <- & Hr).
  rewrite Forall_forall in HF. destruct (HF r) as (H1 & H2 & H3); [by apply list_elem_of_In|].
  exists (start r). rewrite startedBefore_le. repeat split; try done; try lia.
  all: intros; unfold seg_end in *; simpl in *; simplify_eq; first [lia|reflexivity].
Qed.

(** Recharge segments: against any backend that obeys the interface's laws,
    whenever both queries answer, the detector returns closed segments in
    chronological order that do not overlap and lie inside the query window, its
    start read to the microsecond below.
    Each one starts with a charging session: a stretch of the smoothed
    state-of-charge curve that never falls, rises by at least the configured
    percentage, lasts at least the minimum duration, over which the raw state of
    charge increases and the odometer moves by at most half a kilometre. *)
Theorem recharge_detector_spec {src : SignalSource} (laws : SignalSourceLaws src)
    subject from to config soc odo :
  LevelSamples subject FieldPowertrainTractionBatteryStateOfChargeCurrent from to = Ok soc ->
  LevelSamples subject FieldPowertrainTransmissionTravelledDistance from to = Ok odo ->
  exists segs,
    RechargeDetector_DetectSegments subject from to config = Ok segs /\
    Forall (seg_inside (time_truncate from Microsecond) from to) segs /\
    StronglySorted (seg_before (-1)) segs /\
    Forall (fun s => exists r, seg_start s = Some (start r) /\
              soc_rise (smoothSamples soc rechargeSmoothWindow)
                (recharge_minRisePct config) (recharge_minDuration config) r /\
              soc_and_odo_ok soc odo r = true) segs.
Proof.
  intros Hsoc Hodo. unfold RechargeDetector_DetectSegments, detectRechargeSegments.
  set (lo := time_truncate from Microsecond).
  rewrite Hsoc, Hodo. destruct (samples_law _ _ _ _ _ Hsoc) as [Hsrt Hin].
  destruct (length soc <? _)%nat; [exists []; by repeat constructor|].
  destruct (smoothSamples_TS soc rechargeSmoothWindow Hsrt) as [Hsm Hts].
  set (sm := smoothSamples soc rechargeSmoothWindow) in *.
  set (minDur := recharge_minDuration config). set (minRise := recharge_minRisePct config).
  destruct (findTroughToPeakRanges_ok sm minRise minDur Hsm) as [Hrise Hdis].
  set (cands := findTroughToPeakRanges sm minRise minDur) in *.
  pose proof (merge_disjoint_gen _ rechargeSessionGapMax minDur zero_time zero_time
    (Some (recharge_shouldMerge odo)) (filterRanges_disjoint cands soc odo Hdis)) as Hmd.
  assert (Hcand : forall r, In r (filterRangesBySocAndOdo cands soc odo) ->
            soc_rise sm minRise minDur r /\ soc_and_odo_ok soc odo r = true /\
            lo <= start r /\ end_ r <= to).
  { intros r [Hr Hok]%filter_In. rewrite Forall_forall in Hrise. rewrite Forall_forall in Hin, Hts.
    pose proof (Hrise r ltac:(by apply list_elem_of_In)) as Hr'.
    split; [done|]. split; [done|].
    destruct Hr' as (a & b & x & y & Hx & Hy & _ & -> & _); simpl.
    destruct (Hts x) as (x0 & Hx0 & ->); [by eapply list_elem_of_lookup_2|].
    destruct (Hts y) as (y0 & Hy0 & ->); [by eapply list_elem_of_lookup_2|].
    pose proof (Hin x0 ltac:(by apply list_elem_of_In)).
    pose proof (Hin y0 ltac:(by apply list_elem_of_In)). lia. }
  assert (Hmerged : forall o, In o (mergeTimeRanges (filterRangesBySocAndOdo cands soc odo)
            rechargeSessionGapMax minDur zero_time zero_time (Some (recharge_shouldMerge odo))) ->
            lo <= start o /\ start o < end_ o /\ end_ o <= to /\
            exists r, In r (filterRangesBySocAndOdo cands soc odo) /\ start r = start o).
  { intros o Ho. apply merge_delimited_gen in Ho as (tr & Hc & (r1 & Hr1 & E1) & (r2 & Hr2 & E2)).
    apply clip_zero in Hc as [-> Hlt].
    apply Hcand in Hr1 as H1. apply Hcand in Hr2 as H2.
    split; [lia|]. split; [lia|]. split; [lia|]. by exists r1. }
  eexists. split; [reflexivity|]. split; [|split].
  - apply timeRangesToSegments_inside. apply Forall_forall. intros o Ho.
    apply list_elem_of_In in Ho. by destruct (Hmerged o Ho) as (? & ? & ? & _).
  - by apply segments_chronological.
  - apply Forall_forall. intros s Hs. apply list_elem_of_In, in_map_iff in Hs as (o & <- & Ho).
    destruct (Hmerged o Ho) as (_ & _ & _ & r & Hr & E). exists r.
    destruct (Hcand r Hr) as (H1 & H2 & _). split; [by rewrite E|]. done.
Qed.

Definition recharge_demo_soc : list LevelSample :=
  map (fun i => mkLevelSample (Z.of_nat i * Minute)
         (f64_of_Z (if (i <? 10)%nat then 40 - Z.of_nat i
                    else if (i <? 40)%nat then 30 + (Z.of_nat i - 10) else 60)))
      (seq 0 60).

Definition recharge_demo_odo : list LevelSample :=
  [mkLevelSample (1 * Minute) (f64_of_Z 1000); mkLevelSample (12 * Minute) (f64_of_Z 1010);
   mkLevelSample (50 * Minute) (f64_of_Z 1010)].

Definition recharge_demo_store (name : string) : list LevelSample :=
  if decide (name = FieldPowertrainTransmissionTravelledDistance) then recharge_demo_odo
  else if decide (name = FieldPowertrainTractionBatteryStateOfChargeCurrent)
       then recharge_demo_soc else [].

Example recharge_detector_spec_witness :
  exists segs,
    @RechargeDetector_DetectSegments (mem_source [] recharge_demo_store []) "did"
      0 (60 * Minute) None = Ok segs /\
    Forall (seg_inside 0 0 (60 * Minute)) segs /\
    map (fun s => (seg_start s, seg_Duration s)) segs = [(Some (10 * Minute), 2100)].
Proof.
  assert (Hs : forall n, sorted_samples (recharge_demo_store n)).
  { intros n. unfold recharge_demo_store. case_decide; [|case_decide; [|constructor]].
    - repeat constructor; vm_compute; discriminate.
    - repeat constructor; vm_compute; discriminate. }
  destruct (@recharge_detector_spec (mem_source [] recharge_demo_store [])
              ltac:(apply mem_source_laws; [constructor|exact Hs|constructor])
              "did" 0 (60 * Minute) None recharge_demo_soc recharge_demo_odo)
    as (segs & E & HF & _); [vm_compute; reflexivity|vm_compute; reflexivity|].
  exists segs. split; [exact E|]. split; [exact HF|].
  vm_compute in E. injection E as <-. vm_compute. reflexivity.
Defined.
