(* ===== verification/SegRepo.v ===== *)
(** * internal/repositories/segments.go: segment queries

    Validation, the default summary signals, the batched summary fetch, location
    gap-fill, cursor pagination and [GetSegments] itself, over an abstract query
    backend ([QueryService], backend.go and signals.go). *)

From stdpp Require Import pretty fin_maps.
From S2P Require Import Prelude Model SegUtil.

(** ** Errors (signals.go) *)

(** What the code tells apart in a backend error: whether it wraps
    [context.DeadlineExceeded] or [context.Canceled]. *)
Record db_error := mkDbError { db_ctx_done : bool; db_msg : string }.

Inductive api_error :=
  | BadRequest (msg : string)
  | ServiceUnavailable (msg : string)
  | InternalError (msg : string)
  | PlainError (msg : string)
  | Panic
  (** The call does not return (a loop that outlasts the fuel given to it). *)
  | Diverges.

Definition handleDBError (err : db_error) : api_error :=
  if db_ctx_done err
  then ServiceUnavailable "request exceeded or is estimated to exceed the maximum execution time"
  else InternalError "failed to query db".

Definition map_err {E E' A} (f : E -> E') (m : result E A) : result E' A :=
  match m with Ok a => Ok a | Err e => Err (f e) end.

(** A dereference of a pointer that may be nil. *)
Definition deref {A} (p : option A) : result api_error A :=
  match p with Some a => Ok a | None => Err Panic end.

(** ** The backend (Backend, SegmentsBackend, BatchLocationAtSource) *)

Record LocationSignalArgs := mkLocationSignalArgs {
  lsa_Name : string;
  lsa_Agg : string;
  lsa_Alias : string;
}.

(** The fields of [model.AggregatedSignalArgs] this file sets. *)
Record SummaryArgs := mkSummaryArgs {
  sa_Subject : string;
  sa_FromTS : Z;
  sa_ToTS : Z;
  sa_Interval : Z;
  sa_FloatArgs : list FloatSignalArgs;
  sa_LocationArgs : list LocationSignalArgs;
}.

Class QueryService := {
  qs_GetSegments :
    string -> Z -> Z -> DetectionMechanism -> option SegmentConfig ->
    result db_error (list Segment);
  qs_GetAggregatedSignals : string -> SummaryArgs -> result db_error (list AggSignal);
  qs_GetAggregatedSignalsForRanges :
    string -> list TimeRange -> Z -> Z -> list FloatSignalArgs -> list LocationSignalArgs ->
    result db_error (list AggSignalForRange);
  qs_GetEventCounts : string -> Z -> Z -> list string -> result db_error (list EventCount);
  qs_GetEventCountsForRanges :
    string -> list TimeRange -> list string -> result db_error (list EventCountForRange);
  (** The optional [BatchLocationAtSource]. *)
  qs_LocationsAt : option (string -> list Z -> result db_error (list (option Location)));
}.

(** ** Validation *)

Definition maxDateRangeDays : Z := 32.
Definition maxDateRangeDuration : Z := maxDateRangeDays * 24 * Hour + Second.
Definition maxSegmentLimit : Z := 200.

Definition validateSegmentDateRange (from to : Z) : option string :=
  if maxDateRangeDuration <? time_sub to from
  then Some ("date range exceeds maximum of " +:+ pretty maxDateRangeDays +:+ " days")%string
  else None.

Definition validateSegmentArgs (did : string) (from to : Z) : option string :=
  if String.eqb did "" then Some "subject is required"%string
  else if after from to then Some "from time must be before to time"%string
  else if tequal from to then Some "from and to times cannot be equal"%string
  else validateSegmentDateRange from to.

Definition checkRange (name : string) (v : option Z) (lo hi : Z) : option string :=
  match v with
  | Some v =>
      if (v <? lo) || (hi <? v)
      then Some (name +:+ " must be between " +:+ pretty lo +:+ " and " +:+ pretty hi)%string
      else None
  | None => None
  end.

(** [if err := e1; err != nil { return err }; e2]. *)
Definition or_else (e1 e2 : option string) : option string :=
  match e1 with Some e => Some e | None => e2 end.

Definition is_refuel_or_recharge (m : DetectionMechanism) : bool :=
  bool_decide (m = Refuel) || bool_decide (m = Recharge).

Definition validateSegmentConfig (config : option SegmentConfig) (mechanism : DetectionMechanism)
  : option string :=
  match config with
  | None => None
  | Some c =>
      or_else (checkRange "maxGapSeconds" (MaxGapSeconds c) 60 3600)
      (or_else (checkRange "minSegmentDurationSeconds" (MinSegmentDurationSeconds c) 60 3600)
      (or_else (checkRange "signalCountThreshold" (SignalCountThreshold c) 1 3600)
      (or_else (if bool_decide (mechanism = Idling)
                then checkRange "maxIdleRpm" (MaxIdleRpm c) 300 3000 else None)
               (if is_refuel_or_recharge mechanism
                then checkRange "minIncreasePercent" (MinIncreasePercent c) 1 100 else None))))
  end.

Definition validateSegmentLimit (limit : option Z) : option string :=
  match limit with
  | None => None
  | Some l =>
      if (l <? 1) || (maxSegmentLimit <? l)
      then Some ("limit must be between 1 and " +:+ pretty maxSegmentLimit)%string else None
  end.

(** ** Summary signals *)

Definition FieldSpeed : string := "speed".
Definition FieldFuel : string := "powertrainFuelSystemRelativeLevel".
Definition FieldSoC : string := "powertrainTractionBatteryStateOfChargeCurrent".
Definition FieldOdo : string := "powertrainTransmissionTravelledDistance".
Definition FieldCurrentLocationCoordinates : string := "currentLocationCoordinates".

Definition sigSpeed := mkSegmentSignalRequest FieldSpeed AggMax.
Definition sigFuelFirst := mkSegmentSignalRequest FieldFuel AggFirst.
Definition sigFuelLast := mkSegmentSignalRequest FieldFuel AggLast.
Definition sigSoCFirst := mkSegmentSignalRequest FieldSoC AggFirst.
Definition sigSoCLast := mkSegmentSignalRequest FieldSoC AggLast.
Definition sigOdoFirst := mkSegmentSignalRequest FieldOdo AggFirst.
Definition sigOdoLast := mkSegmentSignalRequest FieldOdo AggLast.

Definition baseSignalSet : list SegmentSignalRequest :=
  [sigSpeed; sigFuelFirst; sigFuelLast; sigSoCFirst; sigSoCLast; sigOdoFirst; sigOdoLast].

Definition mechanismSignalSets (m : DetectionMechanism) : option (list SegmentSignalRequest) :=
  match m with
  | Idling => Some [sigSpeed; sigFuelFirst; sigFuelLast; sigOdoFirst; sigOdoLast]
  | Refuel => Some [sigSpeed; sigFuelFirst; sigFuelLast; sigOdoFirst; sigOdoLast]
  | Recharge => Some [sigSpeed; sigSoCFirst; sigSoCLast; sigOdoFirst; sigOdoLast]
  | _ => None
  end.

Definition defaultSegmentSignalSet (mechanism : DetectionMechanism) : list SegmentSignalRequest :=
  match mechanismSignalSets mechanism with
  | Some set => set
  | None => baseSignalSet
  end.

Definition buildAggArgs (signalReqs : list SegmentSignalRequest)
  : list FloatSignalArgs * list LocationSignalArgs :=
  (map (fun req => mkFloatSignalArgs (ssr_Name req) (ssr_Agg req)
                     (ssr_Name req +:+ "_" +:+ ssr_Agg req)%string None) signalReqs,
   [mkLocationSignalArgs FieldCurrentLocationCoordinates "FIRST" "startLoc";
    mkLocationSignalArgs FieldCurrentLocationCoordinates "LAST" "endLoc"]).

Definition request_key (r : SegmentSignalRequest) : string :=
  (ssr_Name r +:+ ":" +:+ ssr_Agg r)%string.

Fixpoint merge_requests (seen : gset string) (l : list (option SegmentSignalRequest))
  : list SegmentSignalRequest :=
  match l with
  | [] => []
  | None :: rest => merge_requests seen rest
  | Some r :: rest =>
      if decide (request_key r ∈ seen) then merge_requests seen rest
      else r :: merge_requests ({[request_key r]} ∪ seen) rest
  end.

Definition mergeSegmentSignalRequests (defaultSet clientRequests : list (option SegmentSignalRequest))
  : list SegmentSignalRequest :=
  merge_requests ∅ (defaultSet ++ clientRequests).

(** The order of [sortSegmentSignals]; Go compares strings bytewise. *)
Definition signal_lt (a b : SignalAggregationValue) : bool :=
  if negb (String.eqb (sav_Name a) (sav_Name b)) then String.ltb (sav_Name a) (sav_Name b)
  else String.ltb (sav_Agg a) (sav_Agg b).

Definition sortSegmentSignals (signals : list SignalAggregationValue) : list SignalAggregationValue :=
  isort (fun a b => negb (signal_lt b a)) signals.

(** ** Location gap-fill *)

Definition noDataLocation : Location := mkLocation f64_zero f64_zero f64_zero.

(** [nil] is the empty list: the caller only indexes below its length. *)
Definition batchLocationsAt {qs : QueryService} (subject : string) (tss : list Z)
  : list (option Location) :=
  match tss with
  | [] => []
  | _ =>
      match qs_LocationsAt with
      | None => []
      | Some f => match f subject tss with Ok locs => locs | Err _ => [] end
      end
  end.

Definition fillBoundaryLocations {qs : QueryService} (subject : string)
    (boundaries : list SignalLocation) : list SignalLocation :=
  let locs := batchLocationsAt subject (map sl_Timestamp boundaries) in
  imap (fun i b =>
          let got := match locs !! i with Some (Some l) => l | _ => noDataLocation end in
          mkSignalLocation (sl_Timestamp b) (Some got)) boundaries.

(** A boundary is collected when the pointer is set and its [Value] is nil. *)
Definition missing (b : option SignalLocation) : list SignalLocation :=
  match b with
  | Some l => match sl_Value l with None => [l] | Some _ => [] end
  | None => []
  end.

(** Writes the filled boundaries back through the pointers they were collected from. *)
Definition write_back (b : option SignalLocation) (filled : list SignalLocation)
  : option SignalLocation * list SignalLocation :=
  match missing b, filled with
  | _ :: _, l :: rest => (Some l, rest)
  | _, _ => (b, filled)
  end.

Definition set_ends (s : Segment) (st en : option SignalLocation) : Segment :=
  mkSegment st en (seg_Duration s) (seg_IsOngoing s) (seg_StartedBeforeRange s)
            (seg_Signals s) (seg_EventCounts s).

Fixpoint write_segments (segments : list Segment) (filled : list SignalLocation) : list Segment :=
  match segments with
  | [] => []
  | s :: rest =>
      let '(st, f1) := write_back (seg_Start s) filled in
      let '(en, f2) := write_back (seg_End s) f1 in
      set_ends s st en :: write_segments rest f2
  end.

Definition gapFillSegmentLocations {qs : QueryService} (subject : string)
    (segments : list Segment) : list Segment :=
  let boundaries := flat_map (fun s => missing (seg_Start s) ++ missing (seg_End s)) segments in
  write_segments segments (fillBoundaryLocations subject boundaries).

(** ** Pagination *)

Definition segmentsStartingAfter (segments : list Segment) (after_ : Z) : list Segment :=
  List.filter (fun s => match seg_Start s with
                   | Some l => after (sl_Timestamp l) after_
                   | None => false
                   end) segments.

Definition truncateToLimit (segments : list Segment) (limit : option Z) : list Segment :=
  match limit with
  | Some l => if l <? Z.of_nat (length segments) then take (Z.to_nat l) segments else segments
  | None => segments
  end.

Definition idlingEnrichCandidateCap : Z := 8 * maxSegmentLimit.

Definition capIdlingCandidates (segments : list Segment) : list Segment :=
  if idlingEnrichCandidateCap <? Z.of_nat (length segments)
  then take (Z.to_nat idlingEnrichCandidateCap) segments else segments.

(** ** Ranges of the batched summary *)

Definition summaryEndBuffer : Z := 2 * Minute.

Definition seg_to (to : Z) (s : Segment) : Z :=
  match seg_End s with Some e => sl_Timestamp e | None => to end.

(** [summaryTo] of the loop body, [next] being [segments[i+1]] if there is one. *)
Definition summary_to (to : Z) (extendSummaryEnd : bool) (s : Segment) (next : option Segment) : Z :=
  let segTo := seg_to to s in
  if extendSummaryEnd then
    let summaryTo := time_add segTo summaryEndBuffer in
    match next with
    | Some n =>
        match seg_Start n with
        | Some st => if after summaryTo (sl_Timestamp st) then sl_Timestamp st else summaryTo
        | None => summaryTo
        end
    | None => summaryTo
    end
  else segTo.

(** The loop; [glob] is [(globalFrom, globalTo)] once [i > 0]. *)
Fixpoint ranges_loop (to : Z) (extend : bool) (glob : option (Z * Z)) (segments : list Segment)
  : result api_error (list TimeRange * list TimeRange * (Z * Z)) :=
  match segments with
  | [] => Ok ([], [], default (zero_time, zero_time) glob)
  | s :: rest =>
      let* st := deref (seg_Start s) in
      let segFrom := sl_Timestamp st in
      let summaryTo := summary_to to extend s (head rest) in
      let glob' :=
        match glob with
        | None => (segFrom, summaryTo)
        | Some (gf, gt) =>
            (if before segFrom gf then segFrom else gf, if after summaryTo gt then summaryTo else gt)
        end in
      let* r := ranges_loop to extend (Some glob') rest in
      let '(ranges, aggRanges, g) := r in
      Ok (mkTimeRange segFrom (seg_to to s) :: ranges,
          mkTimeRange segFrom summaryTo :: aggRanges, g)
  end.

Definition buildSegmentRanges (segments : list Segment) (to : Z) (extendSummaryEnd : bool)
  : result api_error (list TimeRange * list TimeRange * (Z * Z)) :=
  ranges_loop to extendSummaryEnd None segments.

(** ** Summaries *)

Definition segmentMaxSpeed (signals : list SignalAggregationValue) : float64 :=
  match List.find (fun s => String.eqb (sav_Name s) FieldSpeed && String.eqb (sav_Agg s) AggMax)
          signals with
  | Some s => sav_Value s
  | None => f64_of_Z (-1)
  end.

Definition filterIdlingSegmentsBySpeed (segments : list Segment) (maxSpeedKph : float64)
  : list Segment :=
  List.filter (fun seg => let maxSpeed := segmentMaxSpeed (seg_Signals seg) in
                          f64_ltb maxSpeed f64_zero || f64_leb maxSpeed maxSpeedKph) segments.

Record segmentSummaryResult := mkSummary {
  sum_Signals : list SignalAggregationValue;
  sum_StartLocation : option Location;
  sum_EndLocation : option Location;
  sum_EventCounts : list EventCount;
}.

(** The loop of [buildSummaryFromAggs]. *)
Fixpoint summary_loop (floatArgs : list FloatSignalArgs) (startLoc endLoc : option Location)
    (aggs : list AggSignal) : list SignalAggregationValue * option Location * option Location :=
  match aggs with
  | [] => ([], startLoc, endLoc)
  | a :: rest =>
      let here :=
        if bool_decide (as_SignalType a = FloatType) then
          match floatArgs !! Z.to_nat (as_SignalIndex a) with
          | Some arg => [mkSignalAggregationValue (fsa_Name arg) (fsa_Agg arg) (as_ValueNumber a)]
          | None => []
          end
        else [] in
      let v := as_ValueLocation a in
      let isLoc := bool_decide (as_SignalType a = LocType) &&
                   (negb (f64_eqb (vl_Latitude v) f64_zero) ||
                    negb (f64_eqb (vl_Longitude v) f64_zero)) in
      let loc := mkLocation (vl_Latitude v) (vl_Longitude v) (vl_HDOP v) in
      let startLoc' := if isLoc && (as_SignalIndex a =? 0) then Some loc else startLoc in
      let endLoc' := if isLoc && negb (as_SignalIndex a =? 0) then Some loc else endLoc in
      let '(signals, st, en) := summary_loop floatArgs startLoc' endLoc' rest in
      (here ++ signals, st, en)
  end.

Definition buildSummaryFromAggs (aggs : list AggSignal) (floatArgs : list FloatSignalArgs)
  : list SignalAggregationValue * option Location * option Location :=
  let '(signals, st, en) := summary_loop floatArgs None None aggs in
  (sortSegmentSignals signals, st, en).

(** Ranging over a Go map has no order of its own; [map_to_list] fixes one. *)
Definition counts_of (m : gmap string Z) : list EventCount :=
  map (fun p => mkEventCount p.1 p.2) (map_to_list m).

Definition buildEventSummary (eventCountMap : gmap string Z) (eventNames : list string)
  : list EventCount :=
  match eventNames with
  | [] => counts_of eventCountMap
  | _ => map (fun name => mkEventCount name (default 0 (eventCountMap !! name))) eventNames
  end.

Definition eventCountsToMap (counts : list EventCount) : gmap string Z :=
  fold_left (fun m ec => <[ec_Name ec := ec_Count ec]> m) counts ∅.

Definition segmentSummary {qs : QueryService} (did : string) (seg : Segment) (queryTo : Z)
    (signalReqs : list SegmentSignalRequest) (eventNames : list string)
    (preFetchedEventCounts : option (list EventCount)) (preFetchedAggs : option (list AggSignal))
  : result api_error segmentSummaryResult :=
  let* st := deref (seg_Start seg) in
  let segFrom := sl_Timestamp st in
  let segTo := seg_to queryTo seg in
  let micros := Z.quot (time_sub segTo segFrom) Microsecond in
  let intervalMicro := if micros <=? 0 then 1 else micros in
  let '(floatArgs, locationArgs) := buildAggArgs signalReqs in
  let* aggs :=
    match preFetchedAggs with
    | Some aggs => Ok aggs
    | None => map_err handleDBError
                (qs_GetAggregatedSignals did
                   (mkSummaryArgs did segFrom segTo intervalMicro floatArgs locationArgs))
    end in
  let '(signalSummary, startLoc, endLoc) := buildSummaryFromAggs aggs floatArgs in
  let* eventCountMap :=
    match preFetchedEventCounts with
    | Some counts => Ok (eventCountsToMap counts)
    | None =>
        let* counts := map_err handleDBError (qs_GetEventCounts did segFrom segTo eventNames) in
        Ok (eventCountsToMap counts)
    end in
  Ok (mkSummary signalSummary startLoc endLoc (buildEventSummary eventCountMap eventNames)).

Definition set_value (b : option SignalLocation) (v : option Location) : option SignalLocation :=
  match b, v with
  | Some l, Some _ => Some (mkSignalLocation (sl_Timestamp l) v)
  | _, _ => b
  end.

Definition enrichSegment {qs : QueryService} (did : string) (seg : Segment) (to : Z)
    (wantSummary : bool) (signalReqs : list SegmentSignalRequest) (eventNames : list string)
    (eventCounts : option (list EventCount)) (preFetchedAggs : option (list AggSignal))
  : result api_error Segment :=
  if wantSummary then
    let* summary := segmentSummary did seg to signalReqs eventNames eventCounts preFetchedAggs in
    Ok (mkSegment (set_value (seg_Start seg) (sum_StartLocation summary))
                  (set_value (seg_End seg) (sum_EndLocation summary))
                  (seg_Duration seg) (seg_IsOngoing seg) (seg_StartedBeforeRange seg)
                  (sum_Signals summary) (sum_EventCounts summary))
  else Ok seg.

(** ** Scattering the batched results *)

Definition scatterAggsByIndex (aggs : list AggSignalForRange) : gmap Z (list AggSignal) :=
  fold_left (fun out a =>
    <[asr_SegIndex a :=
        default [] (out !! asr_SegIndex a) ++
        [mkAggSignal (asr_SignalType a) (asr_SignalIndex a) zero_time
                     (asr_ValueNumber a) (asr_ValueString a) (asr_ValueLocation a)]]> out) aggs ∅.

Definition scatterEventCountsByIndex (counts : list EventCountForRange) : gmap Z (gmap string Z) :=
  fold_left (fun out ec =>
    <[ecr_SegIndex ec :=
        <[ecr_Name ec := ecr_Count ec]> (default ∅ (out !! ecr_SegIndex ec))]> out) counts ∅.

Record SegmentEventRequest := mkSegmentEventRequest { ser_Name : string }.

Definition eventNamesOf (eventRequests : list SegmentEventRequest) : list string :=
  map ser_Name eventRequests.

(** ** GetSegments *)

(** [errgroup]: both calls run; [fst_err] says whose error comes first when both fail. *)
Definition group2 {E A B} (fst_err : bool) (a : result E A) (b : result E B) : result E (A * B) :=
  match a, b with
  | Ok x, Ok y => Ok (x, y)
  | Err e, Ok _ => Err e
  | Ok _, Err e => Err e
  | Err e1, Err e2 => Err (if fst_err then e1 else e2)
  end.

(** The enrichment loop; the maps are [Some] when the batch was fetched. *)
Fixpoint enrich_loop {qs : QueryService} (did : string) (to : Z) (wantSummary : bool)
    (signalReqs : list SegmentSignalRequest) (eventNames : list string)
    (eventCountsBySeg : option (gmap Z (gmap string Z)))
    (aggsBySeg : option (gmap Z (list AggSignal))) (i : Z) (segments : list Segment)
  : result api_error (list Segment) :=
  match segments with
  | [] => Ok []
  | seg :: rest =>
      let eventCounts :=
        if wantSummary then
          match eventCountsBySeg with
          | Some m => Some (counts_of (default ∅ (m !! i)))
          | None => None
          end
        else None in
      let preFetchedAggs :=
        if wantSummary then
          match aggsBySeg with
          | Some m => Some (default [] (m !! i))
          | None => None
          end
        else None in
      let* seg' := enrichSegment did seg to wantSummary signalReqs eventNames
                     eventCounts preFetchedAggs in
      let* rest' := enrich_loop did to wantSummary signalReqs eventNames
                      eventCountsBySeg aggsBySeg (i + 1) rest in
      Ok (seg' :: rest')
  end.

Definition bad_request (e : option string) : result api_error unit :=
  match e with Some m => Err (BadRequest m) | None => Ok tt end.

(** [segments] after cursor and limit, before enrichment. *)
Definition select_page (segments : list Segment) (mechanism : DetectionMechanism)
    (limit after_ : option Z) : list Segment :=
  let segments1 := match after_ with
                   | Some a => segmentsStartingAfter segments a
                   | None => segments
                   end in
  if bool_decide (mechanism = Idling) then capIdlingCandidates segments1
  else truncateToLimit segments1 limit.

Definition GetSegments {qs : QueryService} (fst_err : bool) (now : Z) (did : string) (from to0 : Z)
    (mechanism : DetectionMechanism) (config : option SegmentConfig)
    (signalRequests : list (option SegmentSignalRequest))
    (eventRequests : list SegmentEventRequest) (limit after_ : option Z)
  : result api_error (list Segment) :=
  let to := if after to0 now then now else to0 in
  let* _ := bad_request (validateSegmentArgs did from to) in
  let* _ := bad_request (validateSegmentConfig config mechanism) in
  let* _ := bad_request (validateSegmentLimit limit) in
  let* found := map_err handleDBError (qs_GetSegments did from to mechanism config) in
  let segments := select_page found mechanism limit after_ in
  let signalReqs := mergeSegmentSignalRequests (map Some (defaultSegmentSignalSet mechanism))
                      signalRequests in
  let wantSummary := negb (length signalReqs =? 0)%nat || negb (length eventRequests =? 0)%nat in
  let eventNames := eventNamesOf eventRequests in
  let extendSummaryEnd := is_refuel_or_recharge mechanism in
  let* maps :=
    if wantSummary && negb (length segments =? 0)%nat then
      let* r := buildSegmentRanges segments to extendSummaryEnd in
      let '(ranges, aggRanges, (globalFrom, globalTo)) := r in
      let '(floatArgs, locationArgs) := buildAggArgs signalReqs in
      let* b := map_err handleDBError
                  (group2 fst_err
                     (qs_GetEventCountsForRanges did ranges eventNames)
                     (qs_GetAggregatedSignalsForRanges did aggRanges globalFrom globalTo
                        floatArgs locationArgs)) in
      Ok (Some (scatterEventCountsByIndex b.1), Some (scatterAggsByIndex b.2))
    else Ok (None, None) in
  let* enriched := enrich_loop did to wantSummary signalReqs eventNames maps.1 maps.2 0 segments in
  let filled := gapFillSegmentLocations did enriched in
  Ok (if bool_decide (mechanism = Idling)
      then truncateToLimit (filterIdlingSegmentsBySpeed filled f64_zero) limit
      else filled).

(** ** Merging the signal requests *)

Definition requests_in (l : list (option SegmentSignalRequest)) : list SegmentSignalRequest :=
  omap id l.

Lemma merge_requests_facts seen l :
  NoDup (map request_key (merge_requests seen l)) /\
  (forall r, r ∈ merge_requests seen l -> r ∈ requests_in l /\ request_key r ∉ seen) /\
  (forall r, r ∈ requests_in l ->
     request_key r ∈ seen \/ request_key r ∈ map request_key (merge_requests seen l)).
Proof.
  revert seen; induction l as [|[r|] l IH]; intros seen; cbn [merge_requests].
  - split; [constructor|]. split; intros r Hr; by apply elem_of_nil in Hr.
  - unfold requests_in in *; cbn [omap list_omap id].
    destruct (decide (request_key r ∈ seen)) as [Hin|Hni].
    + destruct (IH seen) as (H1 & H2 & H3). split; [done|]. split.
      * intros r' Hr'. destruct (H2 r' Hr'). split; [by right|done].
      * intros r' [->|Hr']%elem_of_cons; [by left|by apply H3].
    + destruct (IH ({[request_key r]} ∪ seen)) as (H1 & H2 & H3). split; [|split].
      * cbn [map]. constructor; [|done]. intros (r' & E & Hr')%list_elem_of_fmap.
        destruct (H2 r' Hr') as [_ Hn]. apply Hn. rewrite <- E. set_solver.
      * intros r' [->|Hr']%elem_of_cons; [split; [by left|done]|].
        destruct (H2 r' Hr'). split; [by right|set_solver].
      * intros r' [->|Hr']%elem_of_cons; [right; by left|].
        destruct (H3 r' Hr') as [Hs|Hm]; [|by right; right].
        apply elem_of_union in Hs as [Hs|Hs]; [|by left].
        apply elem_of_singleton in Hs. rewrite Hs. right. by left.
  - apply IH.
Qed.

(** Requests whose keys are all known add nothing; requests already merged are
    kept as they are. *)
Lemma merge_requests_known seen l :
  (forall r, r ∈ requests_in l -> request_key r ∈ seen) -> merge_requests seen l = [].
Proof.
  revert seen; induction l as [|[r|] l IH]; intros seen Hl; cbn [merge_requests]; [done| |].
  - rewrite decide_True by (apply Hl; by left). apply IH. intros r' Hr'. apply Hl. by right.
  - by apply IH.
Qed.

Lemma merge_requests_app seen l1 l2 :
  merge_requests seen (l1 ++ l2) =
  merge_requests seen l1 ++
  merge_requests (list_to_set (map request_key (requests_in l1)) ∪ seen) l2.
Proof.
  revert seen; induction l1 as [|[r|] l1 IH]; intros seen; cbn [app merge_requests].
  - unfold requests_in; simpl. by rewrite union_empty_l_L.
  - cbn [requests_in omap list_omap id map list_to_set].
    destruct (decide (request_key r ∈ seen)) as [Hin|Hni].
    + rewrite IH. f_equal. f_equal. clear IH. unfold requests_in. simpl. set_solver.
    + rewrite IH. simpl. f_equal. f_equal. f_equal. clear IH. unfold requests_in. simpl. set_solver.
  - apply IH.
Qed.

Lemma requests_in_Some l : requests_in (map Some l) = l.
Proof. induction l as [|r l IH]; [done|]. unfold requests_in; simpl. f_equal. exact IH. Qed.

Lemma merge_requests_id seen l :
  NoDup (map request_key l) -> (forall r, r ∈ l -> request_key r ∉ seen) ->
  merge_requests seen (map Some l) = l.
Proof.
  revert seen; induction l as [|r l IH]; intros seen Hnd Hs; [done|].
  apply NoDup_cons in Hnd as [Hni Hnd]. cbn [map merge_requests].
  rewrite decide_False by (apply Hs; by left). f_equal. apply IH; [done|].
  intros r' Hr' [Hk%elem_of_singleton|Hk]%elem_of_union; [|by eapply Hs; [right|]].
  apply Hni. rewrite <- Hk. by apply list_elem_of_fmap_2.
Qed.

(** Merging a client's signal requests with the default set: no two requests
    of the result have the same name and aggregation, the result contains only
    requests that were asked for, every one of them is represented, and merging
    the merged list with the defaults again changes nothing, as
    [GetDailyActivity] does when it hands its merged list to [GetSegments]. *)
Theorem mergeSegmentSignalRequests_spec mechanism client :
  let def := map Some (defaultSegmentSignalSet mechanism) in
  let out := mergeSegmentSignalRequests def client in
  NoDup (map request_key out) /\
  (forall r, r ∈ out -> r ∈ defaultSegmentSignalSet mechanism \/ r ∈ requests_in client) /\
  (forall r, r ∈ defaultSegmentSignalSet mechanism \/ r ∈ requests_in client ->
     request_key r ∈ map request_key out) /\
  mergeSegmentSignalRequests def (map Some out) = out.
Proof.
  intros def out. destruct (merge_requests_facts ∅ (def ++ client)) as (H1 & H2 & H3).
  assert (Happ : requests_in (def ++ client) = defaultSegmentSignalSet mechanism ++ requests_in client).
  { unfold requests_in. rewrite omap_app. f_equal. apply requests_in_Some. }
  rewrite Happ in H2, H3.
  split; [exact H1|]. split; [|split].
  - intros r Hr. destruct (H2 r Hr) as [Hin _]. by apply elem_of_app in Hin.
  - intros r Hr. destruct (H3 r) as [Hs|Hm]; [by apply elem_of_app| |exact Hm].
    by apply elem_of_empty in Hs.
  - assert (Hd : merge_requests ∅ def = defaultSegmentSignalSet mechanism).
    { apply merge_requests_id; [|set_solver].
      apply (bool_decide_unpack _). by destruct mechanism; vm_compute. }
    assert (HD : requests_in def = defaultSegmentSignalSet mechanism) by apply requests_in_Some.
    set (D := defaultSegmentSignalSet mechanism) in *.
    set (ks := (list_to_set (map request_key D) : gset string) ∪ ∅).
    set (C := merge_requests ks client).
    assert (Hout : out = D ++ C).
    { unfold out, mergeSegmentSignalRequests. rewrite merge_requests_app, Hd, HD. done. }
    assert (Hks : forall r, r ∈ D -> request_key r ∈ ks).
    { intros r Hr. apply elem_of_union_l, elem_of_list_to_set. by apply list_elem_of_fmap_2. }
    unfold mergeSegmentSignalRequests. rewrite merge_requests_app, Hd, HD. fold ks.
    rewrite Hout. f_equal. rewrite map_app, merge_requests_app, requests_in_Some.
    rewrite (merge_requests_known ks (map Some D)) by (by rewrite requests_in_Some).
    destruct (merge_requests_facts ks client) as (K1 & K2 & _). fold C in K1, K2.
    apply merge_requests_id; [exact K1|]. intros r Hr.
    destruct (K2 r Hr) as [_ Hn]. intros [Hk|Hk]%elem_of_union; [|done].
    apply Hn. by apply elem_of_union_l.
Qed.

(** ** Gap-fill, one boundary at a time *)

(** What the fallback chain gives one boundary: its own fix, the nearest prior
    fix [g], (0,0). *)
Definition fill_boundary (g : Z -> option Location) (b : option SignalLocation)
  : option SignalLocation :=
  match b with
  | Some l =>
      match sl_Value l with
      | Some _ => Some l
      | None => Some (mkSignalLocation (sl_Timestamp l)
                        (Some (default noDataLocation (g (sl_Timestamp l)))))
      end
  | None => None
  end.

Definition fill_segment (g : Z -> option Location) (s : Segment) : Segment :=
  set_ends s (fill_boundary g (seg_Start s)) (fill_boundary g (seg_End s)).

Definition fill_location (g : Z -> option Location) (l : SignalLocation) : SignalLocation :=
  mkSignalLocation (sl_Timestamp l) (Some (default noDataLocation (g (sl_Timestamp l)))).

Lemma write_back_fill g b rest :
  write_back b (map (fill_location g) (missing b) ++ rest) = (fill_boundary g b, rest).
Proof. destruct b as [[ts [v|]]|]; done. Qed.

Lemma write_segments_fill g segments rest :
  write_segments segments
    (map (fill_location g) (flat_map (fun s => missing (seg_Start s) ++ missing (seg_End s)) segments)
     ++ rest) =
  map (fill_segment g) segments.
Proof.
  revert rest; induction segments as [|s segs IH]; intros rest; [done|].
  cbn [flat_map write_segments map]. rewrite !map_app, <- !app_assoc.
  rewrite write_back_fill, write_back_fill. by rewrite IH.
Qed.

(** Any index-aligned answer is pointwise for some lookup only when equal
    instants get equal answers; shape needs no such thing. *)
Definition located (b : option SignalLocation) : Prop :=
  forall l, b = Some l -> sl_Value l <> None.

Definition seg_bounds (s : Segment) : option Z * option Z * Z * bool * bool :=
  (seg_start s, seg_end s, seg_Duration s, seg_IsOngoing s, seg_StartedBeforeRange s).

Definition fills (l f : SignalLocation) : Prop :=
  sl_Timestamp f = sl_Timestamp l /\ sl_Value f <> None.

Lemma write_back_shape b filled l2 :
  Forall2 fills (missing b ++ l2) filled ->
  exists b' f', write_back b filled = (b', f') /\ Forall2 fills l2 f' /\ located b' /\
    sl_Timestamp <$> b' = sl_Timestamp <$> b.
Proof.
  destruct b as [[ts [v|]]|]; simpl; intros H.
  - eexists _, _. split; [reflexivity|]. split; [done|]. split; [|done].
    intros l [= <-]. done.
  - inversion H as [|? f ? f' [E Hv] Hrest]; subst. eexists _, _. split; [reflexivity|].
    split; [done|]. split; [intros l [= <-]; done|]. simpl. by rewrite E.
  - eexists _, _. split; [reflexivity|]. split; [done|]. split; [|done]. intros l [=].
Qed.

Lemma write_segments_shape segments filled :
  Forall2 fills (flat_map (fun s => missing (seg_Start s) ++ missing (seg_End s)) segments) filled ->
  map seg_bounds (write_segments segments filled) = map seg_bounds segments /\
  Forall (fun s => located (seg_Start s) /\ located (seg_End s)) (write_segments segments filled).
Proof.
  revert filled; induction segments as [|s segs IH]; intros filled H; [by split|].
  cbn [flat_map write_segments map] in *. rewrite <- app_assoc in H.
  apply write_back_shape in H as (st & f1 & -> & H & Hst & Est).
  apply write_back_shape in H as (en & f2 & -> & H & Hen & Een).
  destruct (IH f2 H) as [IH1 IH2]. split; [|by constructor]. simpl. f_equal; [|done].
  unfold seg_bounds, seg_start, seg_end, set_ends; simpl. by rewrite Est, Een.
Qed.

Lemma fillBoundary_fills {qs : QueryService} subject bs :
  Forall2 fills bs (fillBoundaryLocations subject bs).
Proof.
  unfold fillBoundaryLocations. generalize (batchLocationsAt subject (map sl_Timestamp bs)).
  intros locs. apply Forall2_same_length_lookup. split; [by rewrite length_imap|].
  intros i x y Hx Hy. rewrite list_lookup_imap, Hx in Hy. simpl in Hy. by simplify_eq.
Qed.

Lemma gapFill_shape {qs : QueryService} subject segments :
  map seg_bounds (gapFillSegmentLocations subject segments) = map seg_bounds segments /\
  Forall (fun s => located (seg_Start s) /\ located (seg_End s))
         (gapFillSegmentLocations subject segments).
Proof. apply write_segments_shape, fillBoundary_fills. Qed.

(** The batched gap-fill is the per-boundary fallback chain it replaced: when
    the backend's single as-of query answers each instant by the nearest prior
    fix [g] (in order), every segment boundary keeps its own fix if it has one,
    takes [g] of its instant otherwise, and (0,0) if there is none. A backend
    that fails or lacks the query leaves (0,0) everywhere. *)
Theorem gapFill_pointwise {qs : QueryService} subject g segments :
  (match qs_LocationsAt with
   | None => g = fun _ => None
   | Some f => (forall tss, f subject tss = Ok (map g tss)) \/
               ((forall tss, exists e, f subject tss = Err e) /\ g = fun _ => None)
   end) ->
  gapFillSegmentLocations subject segments = map (fill_segment g) segments.
Proof.
  intros H. unfold gapFillSegmentLocations.
  assert (Hfill : forall bs, fillBoundaryLocations subject bs = map (fill_location g) bs).
  { intros bs. unfold fillBoundaryLocations.
    assert (Hempty : g = (fun _ => None) ->
              imap (fun i b => mkSignalLocation (sl_Timestamp b)
                 (Some (match ([] : list (option Location)) !! i with
                        | Some (Some l) => l | _ => noDataLocation end))) bs =
              map (fill_location g) bs).
    { intros ->. rewrite (imap_const (fill_location (fun _ => None))). done. }
    destruct bs as [|b0 bs0]; [done|]. set (bs := b0 :: bs0) in *.
    change (batchLocationsAt subject (map sl_Timestamp bs)) with
      (match qs_LocationsAt with
       | None => []
       | Some f => match f subject (map sl_Timestamp bs) with Ok locs => locs | Err _ => [] end
       end).
    destruct qs_LocationsAt as [f|]; [|by apply Hempty].
    destruct H as [Hok|[Herr Hg]].
    - rewrite Hok, map_map. apply list_eq. intros i. rewrite list_lookup_imap.
      rewrite !list_lookup_fmap. destruct (bs !! i) as [b|]; [|done]. simpl.
      unfold fill_location. by destruct (g (sl_Timestamp b)).
    - destruct (Herr (map sl_Timestamp bs)) as [e ->]. by apply Hempty. }
  rewrite Hfill. rewrite <- (app_nil_r (map _ _)). apply write_segments_fill.
Qed.

Definition silent_backend (found : list Segment) (locs : option (Z -> option Location)) : QueryService := {|
  qs_GetSegments _ _ _ _ _ := Ok found;
  qs_GetAggregatedSignals _ _ := Ok [];
  qs_GetAggregatedSignalsForRanges _ _ _ _ _ _ := Ok [];
  qs_GetEventCounts _ _ _ _ := Ok [];
  qs_GetEventCountsForRanges _ _ _ := Ok [];
  qs_LocationsAt := match locs with
                    | Some g => Some (fun _ tss => Ok (map g tss))
                    | None => None
                    end;
|}.

Example gapFill_pointwise_witness :
  let home := mkLocation (f64_of_Z 52) (f64_of_Z 13) (f64_of_Z 1) in
  let g := fun t => if 100 <=? t then Some home else None in
  let segs := [newSegment 50 (Some 90) 40 false false; newSegment 200 None 40 true false] in
  map (fun s => (sl_Value <$> seg_Start s, sl_Value <$> seg_End s))
      (@gapFillSegmentLocations (silent_backend [] (Some g)) "did" segs) =
  [(Some (Some noDataLocation), Some (Some noDataLocation)); (Some (Some home), None)].
Proof.
  intros home g segs.
  rewrite (@gapFill_pointwise (silent_backend [] (Some g)) "did" g);
    [vm_compute; reflexivity|]. left. intros tss. reflexivity.
Defined.

(** ** Enrichment keeps the boundaries *)

Lemma set_value_ts b v : sl_Timestamp <$> set_value b v = sl_Timestamp <$> b.
Proof. by destruct b, v. Qed.

Lemma enrichSegment_bounds {qs : QueryService} did s to w reqs names ec ag s' :
  enrichSegment did s to w reqs names ec ag = Ok s' -> seg_bounds s' = seg_bounds s.
Proof.
  unfold enrichSegment. destruct w; [|by intros [= ->]].
  destruct (segmentSummary _ _ _ _ _ _ _) as [sm|e]; simpl; [|done]. intros [= <-].
  unfold seg_bounds, seg_start, seg_end; simpl. by rewrite !set_value_ts.
Qed.

Lemma enrich_loop_bounds {qs : QueryService} did to w reqs names ec ag i segs out :
  enrich_loop did to w reqs names ec ag i segs = Ok out ->
  map seg_bounds out = map seg_bounds segs.
Proof.
  revert i out; induction segs as [|s segs IH]; intros i out; cbn [enrich_loop];
    [by intros [= <-]|].
  destruct (enrichSegment _ _ _ _ _ _ _ _) as [s'|] eqn:E; cbn [result_bind]; [|done].
  destruct (enrich_loop _ _ _ _ _ _ _ _ _) as [r|] eqn:E'; cbn [result_bind]; [|done].
  intros [= <-]. simpl. f_equal; [by eapply enrichSegment_bounds|by eapply IH].
Qed.

(** The instant [GetSegments] clamps the end of the query to. *)
Definition clamp_now (now to : Z) : Z := if after to now then now else to.

Lemma GetSegments_shape {qs : QueryService} fe now did from to mech cfg sr er limit aft out :
  GetSegments fe now did from to mech cfg sr er limit aft = Ok out ->
  validateSegmentLimit limit = None /\
  exists found filled,
    qs_GetSegments did from (clamp_now now to) mech cfg = Ok found /\
    map seg_bounds filled = map seg_bounds (select_page found mech limit aft) /\
    Forall (fun s => located (seg_Start s) /\ located (seg_End s)) filled /\
    out = (if bool_decide (mech = Idling)
           then truncateToLimit (filterIdlingSegmentsBySpeed filled f64_zero) limit else filled).
Proof.
  unfold GetSegments. fold (clamp_now now to). set (to' := clamp_now now to).
  destruct (validateSegmentArgs did from to'); [done|]. cbn [bad_request result_bind].
  destruct (validateSegmentConfig cfg mech); [done|]. cbn [bad_request result_bind].
  destruct (validateSegmentLimit limit); [done|]. cbn [bad_request result_bind].
  destruct (qs_GetSegments did from to' mech cfg) as [found|]; [|done]. cbn [map_err result_bind].
  match goal with |- result_bind ?m _ = _ -> _ => destruct m as [maps|] end; [|done].
  cbn [result_bind].
  destruct (enrich_loop _ _ _ _ _ _ _ _ _) as [enriched|] eqn:E; [|done]. cbn [result_bind].
  intros [= <-]. split; [done|]. exists found, (gapFillSegmentLocations did enriched).
  destruct (gapFill_shape did enriched) as [Hb Hl]. split; [done|].
  split; [|by split]. rewrite Hb. by eapply enrich_loop_bounds.
Qed.
