(* ===== verification/Paging.v ===== *)
(** * Cursor pagination and batched ranges of GetSegments

    A client walks the pages with the start of the last segment it received as
    the cursor; the walk is proved to return every segment exactly once, in
    order, and to end. The ranges of the batched summary are proved disjoint and
    inside their envelope. *)

From S2P Require Import Prelude Model SegUtil SegRepo.

(** ** The walk *)

Section walk.
Context {E : Type} (fetch : option Z -> result E (list Segment)).

(** Asks for the page after [cur] until a page is empty. *)
Fixpoint walk (fuel : nat) (cur : option Z) : result E (list (list Segment)) :=
  match fuel with
  | O => Ok []
  | S fuel' =>
      let* page := fetch cur in
      match last page with
      | None => Ok []
      | Some s =>
          let* rest := walk fuel' (seg_start s) in
          Ok (page :: rest)
      end
  end.
End walk.

(** Segments with a start, strictly increasing. *)
Definition start_lt (a b : Segment) : Prop :=
  exists x y, seg_start a = Some x /\ seg_start b = Some y /\ x < y.

Definition starts_ordered (l : list Segment) : Prop :=
  Forall (fun s => is_Some (seg_start s)) l /\ StronglySorted start_lt l.

Lemma starts_ordered_app l1 l2 :
  starts_ordered (l1 ++ l2) ->
  starts_ordered l1 /\ starts_ordered l2 /\ (forall a b, a ∈ l1 -> b ∈ l2 -> start_lt a b).
Proof.
  intros [HF HS]. apply Forall_app in HF as [F1 F2]. apply StronglySorted_app in HS as (H & S1 & S2).
  repeat split; auto.
Qed.

Definition starts_after (c : Z) (s : Segment) : bool :=
  match seg_Start s with Some l => after (sl_Timestamp l) c | None => false end.

Lemma starts_after_spec c s x : seg_start s = Some x -> starts_after c s = after x c.
Proof. unfold starts_after, seg_start. destruct (seg_Start s); simpl; [by intros [= ->]|done]. Qed.

(** The cursor at the last segment of [l1] selects exactly what follows it. *)
Lemma segmentsStartingAfter_split l1 s l2 c :
  starts_ordered (l1 ++ s :: l2) -> seg_start s = Some c ->
  segmentsStartingAfter (l1 ++ s :: l2) c = l2.
Proof.
  intros Ho Hc. unfold segmentsStartingAfter. change (fun s0 => _) with (starts_after c).
  rewrite List.filter_app. cbn [List.filter]. rewrite (starts_after_spec _ _ _ Hc).
  replace (after c c) with false by (symmetry; bools; lia).
  apply starts_ordered_app in Ho as (O1 & O2 & H12).
  assert (Hnone : List.filter (starts_after c) l1 = []).
  { apply list_filter_none. intros a Ha. destruct (H12 a s) as (x & y & Hx & Hy & Hlt);
      [done|by left|]. rewrite (starts_after_spec _ _ _ Hx). simplify_eq. bools; lia. }
  assert (Hall : List.filter (starts_after c) l2 = l2).
  { apply list_filter_all. intros b Hb. destruct O2 as [_ HS].
    inversion HS as [|? ? _ Hall]; subst. rewrite Forall_forall in Hall.
    destruct (Hall b Hb) as (x & y & Hx & Hy & Hlt).
    rewrite (starts_after_spec _ _ _ Hy). simplify_eq. bools; lia. }
  by rewrite Hnone, Hall.
Qed.

Lemma truncate_take l segs : 0 <= l -> truncateToLimit segs (Some l) = take (Z.to_nat l) segs.
Proof.
  intros Hl. unfold truncateToLimit. destruct (Z.ltb_spec l (Z.of_nat (length segs))); [done|].
  by rewrite take_ge by lia.
Qed.

(** Where the walk stands: [d] received, the cursor at its last segment. *)
Definition cursor_at (d : list Segment) (cur : option Z) : Prop :=
  match last d with
  | None => cur = None
  | Some s => cur = seg_start s
  end.

Lemma select_page_suffix mech l d rest cur :
  mech <> Idling -> 0 <= l -> starts_ordered (d ++ rest) -> cursor_at d cur ->
  select_page (d ++ rest) mech (Some l) cur = take (Z.to_nat l) rest.
Proof.
  intros Hm Hl Ho Hc. unfold select_page. rewrite bool_decide_false by done.
  rewrite truncate_take by done. f_equal. unfold cursor_at in Hc.
  destruct (last d) as [s|] eqn:E.
  - apply last_Some in E as [d' ->]. rewrite <- app_assoc in *. simpl in *.
    destruct Ho as [HF HS]. pose proof HF as HF'.
    rewrite Forall_app in HF'. destruct HF' as [_ HF']. inversion HF' as [|? ? [c Hs] _]; subst.
    rewrite Hs. by eapply segmentsStartingAfter_split.
  - apply last_None in E as ->. by subst cur.
Qed.

Lemma last_bounds l1 l2 :
  map seg_bounds l1 = map seg_bounds l2 ->
  (seg_start <$> last l1) = (seg_start <$> last l2).
Proof.
  intros H. apply (f_equal last) in H. rewrite !fmap_last in H.
  destruct (last l1) as [a|], (last l2) as [b|]; simpl in *; try done.
  injection H as H. unfold seg_bounds in H. by simplify_eq/=; f_equal.
Qed.

(** The cursors a client can send: none, or the start of a segment. *)
Definition cursor_of (found : list Segment) (a : option Z) : Prop :=
  a = None \/ exists s, s ∈ found /\ a = seg_start s.

Lemma cursor_at_of d rest cur : cursor_at d cur -> cursor_of (d ++ rest) cur.
Proof.
  unfold cursor_at. destruct (last d) as [s|] eqn:E; [|by left].
  intros ->. right. exists s. split; [|done]. apply last_Some_elem_of in E.
  apply elem_of_app. by left.
Qed.

Lemma walk_pages {E} (fetch : option Z -> result E (list Segment)) mech l found :
  mech <> Idling -> 1 <= l -> starts_ordered found ->
  (forall a, cursor_of found a -> exists out, fetch a = Ok out /\
     map seg_bounds out = map seg_bounds (select_page found mech (Some l) a)) ->
  forall fuel d rest cur,
    found = d ++ rest -> cursor_at d cur -> (length rest < fuel)%nat ->
    exists pages, walk fetch fuel cur = Ok pages /\
      map seg_bounds (concat pages) = map seg_bounds rest /\
      Forall (fun p => 1 <= Z.of_nat (length p) <= l) pages.
Proof.
  intros Hm Hl Ho Hfetch. induction fuel as [|fuel IH]; intros d rest cur Hfd Hcur Hlen; [lia|].
  cbn [walk]. destruct (Hfetch cur) as (out & -> & Hb); [subst found; by apply cursor_at_of|].
  cbn [result_bind]. subst found. rewrite (select_page_suffix mech l d rest cur) in Hb by (done || lia).
  assert (Hlo : length out = length (take (Z.to_nat l) rest)).
  { apply (f_equal length) in Hb. by rewrite !length_map in Hb. }
  rewrite length_take in Hlo. pose proof (last_bounds _ _ Hb) as Hlast.
  destruct (last out) as [s|] eqn:Es.
  2:{ apply last_None in Es as ->. exists []. split; [done|]. simpl in *.
      destruct rest as [|r rest]; [done|]. simpl in Hlo. lia. }
  assert (Hne : rest <> []).
  { intros ->. destruct out; [done|simpl in Hlo; lia]. }
  destruct (last (take (Z.to_nat l) rest)) as [s'|] eqn:Es'; [|done].
  simpl in Hlast. injection Hlast as Hss.
  destruct (IH (d ++ take (Z.to_nat l) rest) (drop (Z.to_nat l) rest) (seg_start s))
    as (pages & -> & Hpb & Hpl).
  - by rewrite <- app_assoc, take_drop.
  - unfold cursor_at. rewrite last_app, Es'. done.
  - rewrite length_drop. destruct rest; [done|]. simpl in *. lia.
  - exists (out :: pages). split; [done|]. cbn [concat]. split.
    + rewrite map_app, Hpb, Hb, <- map_app, take_drop. done.
    + constructor; [|done]. destruct rest; [done|]. simpl in Hlo. lia.
Qed.

(** C28. Cursor pagination: for every mechanism but idling, a client that asks for
    pages of at most [limit] segments and passes the start of the last one as
    the next cursor receives every detected segment exactly once and in order,
    in non-empty pages of at most [limit] segments, and reaches an empty page
    after finitely many requests. It holds for a backend that gives the same
    detection to each request, with strictly increasing starts, and whose
    requests do not fail. *)
Theorem pagination_complete {qs : QueryService} fe now did from to mech cfg sr er limit found :
  mech <> Idling ->
  qs_GetSegments did from (clamp_now now to) mech cfg = Ok found ->
  starts_ordered found ->
  (forall a, cursor_of found a ->
     exists out, GetSegments fe now did from to mech cfg sr er (Some limit) a = Ok out) ->
  forall fuel, (length found < fuel)%nat ->
    exists pages,
      walk (fun a => GetSegments fe now did from to mech cfg sr er (Some limit) a) fuel None
        = Ok pages /\
      map seg_bounds (concat pages) = map seg_bounds found /\
      Forall (fun p => 1 <= Z.of_nat (length p) <= limit) pages.
Proof.
  intros Hm Hfound Ho Hok fuel Hfuel.
  assert (Hl : 1 <= limit).
  { destruct (Hok None) as [out Hout]; [by left|]. apply GetSegments_shape in Hout as [Hv _].
    unfold validateSegmentLimit in Hv. destruct (_ || _) eqn:E; [done|]. bools. lia. }
  eapply (walk_pages _ mech limit found Hm Hl Ho) with (d := []); [|done|done|done].
  intros a Ha. destruct (Hok a Ha) as [out Hout]. exists out. split; [done|].
  apply GetSegments_shape in Hout as (_ & f' & filled & Hf' & Hb & _ & ->).
  rewrite bool_decide_false by done. rewrite Hfound in Hf'. by simplify_eq.
Qed.

Definition paging_demo : list Segment :=
  map (fun n => newSegment (n * Minute) (Some (n * Minute + 30 * Second)) 30 false false)
      [10; 20; 30; 40; 50].

Example pagination_complete_witness :
  exists pages,
    walk (fun a => @GetSegments (silent_backend paging_demo None) true (100 * Minute) "did"
                     0 (60 * Minute) IgnitionDetection None [] [] (Some 2) a) 6 None = Ok pages /\
    map (map seg_start) pages =
      [[Some (10 * Minute); Some (20 * Minute)]; [Some (30 * Minute); Some (40 * Minute)];
       [Some (50 * Minute)]].
Proof.
  destruct (@pagination_complete (silent_backend paging_demo None) true (100 * Minute) "did"
              0 (60 * Minute) IgnitionDetection None [] [] 2 paging_demo)
    with (fuel := 6%nat) as (pages & E & _ & _);
    [discriminate|vm_compute; reflexivity| | |vm_compute; lia|].
  - split; cbn [paging_demo map].
    + repeat (apply Forall_cons; split; [by eexists|]). apply Forall_nil. done.
    + repeat (apply SSorted_cons;
        [|repeat (apply Forall_cons; split;
                  [eexists _, _; split; [reflexivity|split; [reflexivity|vm_compute; reflexivity]]|]);
          by apply Forall_nil]).
      apply SSorted_nil.
  - intros a [->|(s & Hs & ->)]; [eexists; vm_compute; reflexivity|].
    unfold paging_demo in Hs. simpl map in Hs.
    repeat (apply elem_of_cons in Hs as [->|Hs]; [eexists; vm_compute; reflexivity|]).
    by apply elem_of_nil in Hs.
  - exists pages. split; [exact E|]. vm_compute in E. injection E as <-. vm_compute. reflexivity.
Defined.

(** ** The ranges of the batched summary *)

Definition range_of (to : Z) (extend : bool) (s : Segment) (next : option Segment)
    (r a : TimeRange) : Prop :=
  seg_start s = Some (From r) /\ To r = seg_to to s /\
  From a = From r /\ To a = summary_to to extend s next.

Inductive ranges_of (to : Z) (extend : bool)
  : list Segment -> list TimeRange -> list TimeRange -> Prop :=
  | ro_nil : ranges_of to extend [] [] []
  | ro_cons s rest r a rs aggs :
      range_of to extend s (head rest) r a -> ranges_of to extend rest rs aggs ->
      ranges_of to extend (s :: rest) (r :: rs) (a :: aggs).

Definition inside (g : Z * Z) (r : TimeRange) : Prop := g.1 <= From r /\ To r <= g.2.

Lemma ranges_loop_ok to extend glob segs :
  Forall (fun s => is_Some (seg_start s)) segs ->
  exists rs aggs g, ranges_loop to extend glob segs = Ok (rs, aggs, g) /\
    ranges_of to extend segs rs aggs /\ Forall (inside g) aggs /\
    (forall g0, glob = Some g0 -> g.1 <= g0.1 /\ g0.2 <= g.2).
Proof.
  intros HF; revert glob; induction HF as [|s segs [x Hx] HF IH]; intros glob.
  { eexists [], [], _. split; [reflexivity|]. split; [constructor|]. split; [constructor|].
    intros g0 ->. simpl. lia. }
  cbn [ranges_loop]. unfold seg_start in Hx. destruct (seg_Start s) as [st|] eqn:Est; [|done].
  simpl in Hx. injection Hx as Hx. cbn [deref result_bind].
  set (glob' := match glob with None => _ | Some _ => _ end).
  destruct (IH (Some glob')) as (rs & aggs & g & -> & Hr & Hin & Hg). cbn [result_bind].
  eexists _, _, g. split; [reflexivity|].
  destruct (Hg glob' eq_refl) as [G1 G2].
  assert (Hglob : (forall g0, glob = Some g0 -> glob'.1 <= g0.1 /\ g0.2 <= glob'.2) /\
                  glob'.1 <= sl_Timestamp st /\ summary_to to extend s (head segs) <= glob'.2).
  { unfold glob'. generalize (summary_to to extend s (head segs)) as u. intros u.
    destruct glob as [[gf gt]|]; simpl; [|split; [done|lia]]. unfold before, after.
    destruct (Z.ltb_spec (sl_Timestamp st) gf), (Z.ltb_spec gt u); simpl;
      (split; [intros g0 [= <-]; simpl; lia|lia]). }
  destruct Hglob as (H0 & H1 & H2). split; [|split].
  - constructor; [|done]. unfold range_of, seg_start. rewrite Est. simpl. done.
  - constructor; [|done]. unfold inside; simpl. lia.
  - intros g0 E. destruct (H0 g0 E). lia.
Qed.

Lemma ranges_of_from to extend segs rs aggs x :
  ranges_of to extend segs rs aggs ->
  Forall (fun s => exists y, seg_start s = Some y /\ x <= y) segs ->
  Forall (fun a => x <= From a) aggs.
Proof.
  induction 1 as [|s rest r a rs aggs (H1 & _ & H3 & _) _ IH]; intros HF; [constructor|].
  inversion HF as [|? ? (y & Hy & Hle) HF']; subst. constructor; [|by apply IH].
  rewrite H1 in Hy. injection Hy as <-. lia.
Qed.

Lemma summary_to_bounds to extend s rest :
  Forall (fun n => exists y, seg_start n = Some y /\ seg_to to s <= y) rest ->
  seg_to to s <= summary_to to extend s (head rest) <= seg_to to s + summaryEndBuffer /\
  (forall n y, head rest = Some n -> seg_start n = Some y ->
     summary_to to extend s (head rest) <= y).
Proof.
  intros HF. unfold summary_to, time_add. assert (0 < summaryEndBuffer) by reflexivity.
  destruct extend.
  2:{ split; [lia|]. intros n y Hn Hy. destruct rest as [|n' rest]; [done|]. simpl in Hn.
      injection Hn as ->. inversion HF as [|? ? (z & Hz & Hle) _]; subst. simplify_eq. lia. }
  destruct rest as [|n rest]; simpl; [split; [lia|done]|].
  inversion HF as [|? ? (y & Hy & Hle) _]; subst. unfold seg_start in Hy.
  destruct (seg_Start n) as [st|] eqn:Est; [|done]. simpl in Hy. injection Hy as <-.
  destruct (after _ _) eqn:E; bools; (split; [lia|]); intros n' z [= <-] Hz;
    unfold seg_start in Hz; rewrite Est in Hz; simpl in Hz; simplify_eq; lia.
Qed.

(** The ranges of the batched summary: for segments in order that do not
    overlap, as the detectors return them, the call cannot panic; the count
    range of each segment is its own extent (the end of the query standing in
    for an open end); its aggregate range starts with it and ends at most two
    minutes after it, exactly with it unless the mechanism is refuel or
    recharge; no aggregate range reaches into a later one, so each row belongs
    to one segment; and all of them lie inside the global envelope. *)
Theorem buildSegmentRanges_spec segments to extend :
  starts_ordered segments -> StronglySorted (seg_before (-1)) segments ->
  exists ranges aggs g,
    buildSegmentRanges segments to extend = Ok (ranges, aggs, g) /\
    Forall2 (fun s r => seg_start s = Some (From r) /\ To r = seg_to to s) segments ranges /\
    Forall2 (fun s a => seg_start s = Some (From a) /\
               seg_to to s <= To a <= seg_to to s + summaryEndBuffer /\
               (extend = false -> To a = seg_to to s)) segments aggs /\
    StronglySorted (fun a b => To a <= From b) aggs /\
    Forall (inside g) aggs.
Proof.
  intros [HF HS] HB.
  destruct (ranges_loop_ok to extend None segments HF) as (rs & aggs & g & E & Hr & Hin & _).
  exists rs, aggs, g. split; [exact E|].
  cut (Forall2 (fun s r => seg_start s = Some (From r) /\ To r = seg_to to s) segments rs /\
       Forall2 (fun s a => seg_start s = Some (From a) /\
               seg_to to s <= To a <= seg_to to s + summaryEndBuffer /\
               (extend = false -> To a = seg_to to s)) segments aggs /\
       StronglySorted (fun a b => To a <= From b) aggs); [tauto|].
  clear E Hin. induction Hr as [|s rest r a rs aggs (H1 & H2 & H3 & H4) Hr IH].
  { repeat split; constructor. }
  inversion HF as [|? ? _ HF']; subst. inversion HS as [|? ? HS' HSa]; subst.
  inversion HB as [|? ? HB' HBa]; subst.
  destruct (IH HF' HS' HB') as (I1 & I2 & I3).
  assert (Hnext : Forall (fun n => exists y, seg_start n = Some y /\ seg_to to s <= y) rest).
  { eapply Forall_impl; [exact HBa|]. intros n (e & y & He & Hy & Hle). exists y.
    split; [done|]. unfold seg_to, seg_end in *. destruct (seg_End s); simpl in *; [|done].
    simplify_eq. lia. }
  destruct (summary_to_bounds to extend s rest Hnext) as [Hb Hn].
  split; [|split].
  - constructor; [by split|done].
  - constructor; [|done]. rewrite H3. split; [done|]. rewrite H4. split; [done|].
    intros ->. done.
  - constructor; [done|].
    destruct rest as [|n rest']; [inversion Hr; subst; constructor|].
    inversion HF' as [|? ? [y Hy] _]; subst. specialize (Hn n y eq_refl Hy). rewrite H4.
    eapply Forall_impl; [apply (ranges_of_from _ _ _ _ _ y Hr)|intros b Hb'; simpl in Hb'; lia].
    constructor; [exists y; split; [done|lia]|].
    inversion HS' as [|? ? _ HSa']; subst. eapply Forall_impl; [exact HSa'|].
    intros m (x' & z & Hx' & Hz & Hlt). exists z. simplify_eq. split; [done|lia].
Qed.

Example buildSegmentRanges_spec_witness :
  exists ranges aggs g, buildSegmentRanges
    [newSegment (10 * Minute) (Some (20 * Minute)) 600 false false;
     newSegment (21 * Minute) (Some (30 * Minute)) 540 false false] (60 * Minute) true
      = Ok (ranges, aggs, g) /\
    map (fun a => (From a, To a)) aggs =
      [(10 * Minute, 21 * Minute); (21 * Minute, 32 * Minute)] /\
    g = (10 * Minute, 32 * Minute).
Proof.
  destruct (buildSegmentRanges_spec
    [newSegment (10 * Minute) (Some (20 * Minute)) 600 false false;
     newSegment (21 * Minute) (Some (30 * Minute)) 540 false false] (60 * Minute) true)
    as (ranges & aggs & g & E & _).
  - split.
    + repeat (apply Forall_cons; split; [by eexists|]). by apply Forall_nil.
    + repeat constructor. eexists _, _. split; [reflexivity|]. split; [reflexivity|]. reflexivity.
  - repeat constructor. eexists _, _. split; [reflexivity|]. split; [reflexivity|]. reflexivity.
  - exists ranges, aggs, g. split; [exact E|]. vm_compute in E. injection E as <- <- <-.
    split; vm_compute; reflexivity.
Defined.
