(* ===== verification/Daily.v ===== *)
(** * internal/repositories/segments.go: daily activity

    [GetDailyActivity] splits a range of calendar days in a time zone and accounts
    the detected segments to each. The civil-time arithmetic of Go's [time]
    package (zone lookup, [time.Date], [AddDate]) is modelled on day numbers, so
    days of 23 and 25 hours are there. Proved: with regular midnights there is
    exactly one window per calendar day and the windows tile the range; where
    midnight does not exist on some day the loop can lose a day or never end. *)

From stdpp Require Import pretty fin_maps.
From S2P Require Import Prelude FloatFacts Model SegUtil SegRepo.

(** ** time.Location, time.Date, Time.AddDate *)

(** Offsets in seconds east of UTC: [zone_first] before the first transition,
    then each transition's from its instant (Unix seconds) on. *)
Record Zone := mkZone { zone_first : Z; zone_transitions : list (Z * Z) }.

Definition UTC : Zone := mkZone 0 [].

(** [l.lookup(sec)]: the offset in force and the instants it is in force between
    ([None] is unbounded). *)
Fixpoint lookup_from (off : Z) (since : option Z) (txs : list (Z * Z)) (sec : Z)
  : Z * option Z * option Z :=
  match txs with
  | [] => (off, since, None)
  | (at_, off') :: rest =>
      if sec <? at_ then (off, since, Some at_)
      else lookup_from off' (Some at_) rest sec
  end.

Definition zone_lookup (z : Zone) (sec : Z) : Z * option Z * option Z :=
  lookup_from (zone_first z) None (zone_transitions z) sec.

Definition offset_at (z : Zone) (sec : Z) : Z := (zone_lookup z sec).1.1.

Definition daySec : Z := 86400.

(** Local seconds of an instant, counted as if UTC. *)
Definition local_sec (z : Zone) (t : Z) : Z := let sec := t / Second in sec + offset_at z sec.

Definition day_of (z : Zone) (t : Z) : Z := local_sec z t / daySec.
Definition clock_of (z : Zone) (t : Z) : Z := local_sec z t mod daySec.

(** [time.Date] on a day number and seconds and nanoseconds of the day: the local
    reading is looked up as if it were UTC, and again when the offset found is
    not in force at the instant it leads to. *)
Definition date_in (z : Zone) (day clock nsec : Z) : Z :=
  let unix := day * daySec + clock in
  let '(offset, st, en) := zone_lookup z unix in
  let unix' :=
    if offset =? 0 then unix
    else
      let utc := unix - offset in
      let invalid := match st with Some s => utc <? s | None => false end ||
                     match en with Some e => e <=? utc | None => false end in
      unix - (if invalid then offset_at z utc else offset) in
  unix' * Second + nsec.

(** [t.AddDate(0, 0, 1)]. *)
Definition AddDate1 (z : Zone) (t : Z) : Z :=
  date_in z (day_of z t + 1) (clock_of z t) (t mod Second).

Definition midnight (z : Zone) (day : Z) : Z := date_in z day 0 0.

(** ** The day windows *)

Record dayWindow := mkDayWindow { dw_start : Z; dw_end : Z }.

(** [for d := fromDate; !d.After(toDate); d = d.AddDate(0, 0, 1)]; [None] when
    the loop has not ended after [fuel] rounds. *)
Fixpoint days_loop (fuel : nat) (z : Zone) (d toDate : Z) : option (list dayWindow) :=
  match fuel with
  | O => None
  | S fuel' =>
      if after d toDate then Some []
      else
        match days_loop fuel' z (AddDate1 z d) toDate with
        | Some rest => Some (mkDayWindow d (AddDate1 z d) :: rest)
        | None => None
        end
  end.

(** ** Segments of a day *)

(** The loop body's [segEnd] and the condition it continues on, negated. *)
Definition day_seg_end (dayEnd : Z) (s : Segment) : Z :=
  match seg_End s with
  | Some e => if before (sl_Timestamp e) dayEnd then sl_Timestamp e else dayEnd
  | None => dayEnd
  end.

Definition touches (dayStart dayEnd : Z) (st : Z) (s : Segment) : bool :=
  negb (after st dayEnd || before (day_seg_end dayEnd s) dayStart ||
        negb (after (day_seg_end dayEnd s) st)).

Definition overlap_seconds (dayStart dayEnd st : Z) (s : Segment) : Z :=
  let overlapStart := if before st dayStart then dayStart else st in
  let segEnd := day_seg_end dayEnd s in
  let overlapEnd := if after segEnd dayEnd then dayEnd else segEnd in
  seconds_int (time_sub overlapEnd overlapStart).

Fixpoint day_stats_loop (dayStart dayEnd : Z) (count activeSeconds : Z)
    (first_ last_ : option Segment) (segments : list Segment)
  : result api_error (Z * Z * option Segment * option Segment) :=
  match segments with
  | [] => Ok (count, activeSeconds, first_, last_)
  | s :: rest =>
      let* st := deref (seg_Start s) in
      if touches dayStart dayEnd (sl_Timestamp st) s then
        day_stats_loop dayStart dayEnd (count + 1)
          (wrap64 (activeSeconds + overlap_seconds dayStart dayEnd (sl_Timestamp st) s))
          (match first_ with None => Some s | Some _ => first_ end) (Some s) rest
      else day_stats_loop dayStart dayEnd count activeSeconds first_ last_ rest
  end.

Definition daySegmentStats (segments : list Segment) (dayStart dayEnd : Z)
  : result api_error (Z * Z * option Segment * option Segment) :=
  day_stats_loop dayStart dayEnd 0 0 None None segments.

(** ** Batched summaries of the days *)

Definition batchDaySummaries {qs : QueryService} (fst_err : bool) (did : string)
    (days : list dayWindow) (floatArgs : list FloatSignalArgs)
    (locationArgs : list LocationSignalArgs) (eventNames : list string)
  : result api_error (gmap Z (list AggSignal) * gmap Z (gmap string Z)) :=
  match head days, last days with
  | Some d0, Some dn =>
      let ranges := map (fun w => mkTimeRange (dw_start w) (dw_end w)) days in
      let* b := map_err handleDBError
                  (group2 fst_err
                     (qs_GetAggregatedSignalsForRanges did ranges (dw_start d0) (dw_end dn)
                        floatArgs locationArgs)
                     (qs_GetEventCountsForRanges did ranges eventNames)) in
      Ok (scatterAggsByIndex b.1, scatterEventCountsByIndex b.2)
  | _, _ => Ok (∅, ∅)
  end.

Fixpoint write_days (days : list DailyActivity) (filled : list SignalLocation)
  : list DailyActivity :=
  match days with
  | [] => []
  | d :: rest =>
      let '(st, f1) := write_back (da_Start d) filled in
      let '(en, f2) := write_back (da_End d) f1 in
      mkDailyActivity st en (da_SegmentCount d) (da_Duration d) (da_Signals d) (da_EventCounts d)
        :: write_days rest f2
  end.

Definition gapFillDailyLocations {qs : QueryService} (subject : string)
    (days : list DailyActivity) : list DailyActivity :=
  write_days days
    (fillBoundaryLocations subject
       (flat_map (fun d => missing (da_Start d) ++ missing (da_End d)) days)).

(** ** GetDailyActivity *)

(** [if seg != nil && seg.X != nil && seg.X.Value != nil { loc = seg.X.Value }]. *)
Definition seg_value (b : option SignalLocation) : option Location :=
  match b with Some l => sl_Value l | None => None end.

Definition prefer (a b : option Location) : option Location :=
  match a with Some _ => a | None => b end.

Definition day_record (segments : list Segment) (floatArgs : list FloatSignalArgs)
    (eventNames : list string) (aggs : list AggSignal) (counts : gmap string Z) (w : dayWindow)
  : result api_error DailyActivity :=
  let* st := daySegmentStats segments (dw_start w) (dw_end w) in
  let '(segmentCount, totalActiveSeconds, firstSeg, lastSeg) := st in
  let '(signalSummary, startLoc, endLoc) := buildSummaryFromAggs aggs floatArgs in
  Ok (mkDailyActivity
        (Some (mkSignalLocation (dw_start w) (prefer (firstSeg ≫= fun s => seg_value (seg_Start s)) startLoc)))
        (Some (mkSignalLocation (dw_end w) (prefer (lastSeg ≫= fun s => seg_value (seg_End s)) endLoc)))
        segmentCount totalActiveSeconds signalSummary (buildEventSummary counts eventNames)).

Fixpoint day_records (segments : list Segment) (floatArgs : list FloatSignalArgs)
    (eventNames : list string) (aggsByDay : gmap Z (list AggSignal))
    (countsByDay : gmap Z (gmap string Z)) (i : Z) (days : list dayWindow)
  : result api_error (list DailyActivity) :=
  match days with
  | [] => Ok []
  | w :: rest =>
      let* d := day_record segments floatArgs eventNames (default [] (aggsByDay !! i))
                  (default ∅ (countsByDay !! i)) w in
      let* r := day_records segments floatArgs eventNames aggsByDay countsByDay (i + 1) rest in
      Ok (d :: r)
  end.

Definition mechanism_string (m : DetectionMechanism) : string :=
  match m with
  | IgnitionDetection => "IGNITION_DETECTION"
  | FrequencyAnalysis => "FREQUENCY_ANALYSIS"
  | ChangePointDetection => "CHANGE_POINT_DETECTION"
  | Idling => "IDLING"
  | Refuel => "REFUEL"
  | Recharge => "RECHARGE"
  | MechOther s => s
  end.

Section daily.
Context {qs : QueryService}.
(** [time.LoadLocation] (the zone database) and the [%q] verb of [fmt]. *)
Context (LoadLocation : string -> result string Zone) (quote : string -> string).

Definition daily_zone (timezone : option string) : result api_error Zone :=
  match timezone with
  | None => Ok UTC
  | Some tz =>
      if String.eqb tz "" then Ok UTC
      else map_err (fun e => BadRequest ("invalid timezone " +:+ quote tz +:+ ": " +:+ e)%string)
                   (LoadLocation tz)
  end.

(** The checks up to [validateSegmentDateRange]: [(fromDate, toDate)]. *)
Definition daily_dates (z : Zone) (now from to : Z) : result api_error (Z * Z) :=
  let fromDate := midnight z (day_of z from) in
  let toDate := midnight z (day_of z to) in
  if after fromDate toDate then Err (BadRequest "from date must be before to date")
  else if after toDate now then Err (BadRequest "to date cannot be in the future")
  else
    let* _ := bad_request (validateSegmentDateRange fromDate toDate) in
    Ok (fromDate, toDate).

Definition GetDailyActivity (fuel : nat) (fe1 fe2 : bool) (now : Z) (did : string) (from to : Z)
    (mechanism : DetectionMechanism) (config : option SegmentConfig)
    (signalRequests : list (option SegmentSignalRequest))
    (eventRequests : list SegmentEventRequest) (timezone : option string)
  : result api_error (list DailyActivity) :=
  if bool_decide (mechanism = Idling) || is_refuel_or_recharge mechanism then
    Err (BadRequest ("dailyActivity does not accept mechanism " +:+ mechanism_string mechanism +:+
           "; use IGNITION_DETECTION, FREQUENCY_ANALYSIS, or CHANGE_POINT_DETECTION")%string)
  else
    let* z := daily_zone timezone in
    let* dates := daily_dates z now from to in
    let '(fromDate, toDate) := dates in
    let rangeStart := fromDate in
    let rangeEnd := AddDate1 z toDate in
    let signalReqs := mergeSegmentSignalRequests
                        (map Some (defaultSegmentSignalSet mechanism)) signalRequests in
    let eventNames := eventNamesOf eventRequests in
    let* segments := GetSegments fe1 now did rangeStart rangeEnd mechanism config
                       (map Some signalReqs) eventRequests None None in
    let '(floatArgs, locationArgs) := buildAggArgs signalReqs in
    match days_loop fuel z fromDate toDate with
    | None => Err Diverges
    | Some days =>
        let* b := batchDaySummaries fe2 did days floatArgs locationArgs eventNames in
        let* out := day_records segments floatArgs eventNames b.1 b.2 0 days in
        Ok (gapFillDailyLocations did out)
    end.
End daily.

(** ** One window per calendar day *)

(** On each of the days [k0 .. k0 + n], midnight exists, reads 00:00 of that day,
    and comes before the next one. *)
Definition regular_days (z : Zone) (k0 n : Z) : Prop :=
  forall k, k0 <= k <= k0 + n ->
    local_sec z (midnight z k) = k * daySec /\ midnight z k < midnight z (k + 1).

Definition day_window (z : Zone) (k : Z) : dayWindow :=
  mkDayWindow (midnight z k) (midnight z (k + 1)).

Lemma midnight_second z k : midnight z k mod Second = 0.
Proof.
  unfold midnight, date_in. destruct (zone_lookup z _) as [[off st] en].
  rewrite Z.add_0_r. by rewrite Z.mod_mul.
Qed.

Lemma AddDate1_midnight z k :
  local_sec z (midnight z k) = k * daySec -> AddDate1 z (midnight z k) = midnight z (k + 1).
Proof.
  intros H. unfold AddDate1, day_of, clock_of. rewrite H, midnight_second.
  rewrite Z.div_mul, Z.mod_mul by done. done.
Qed.

Lemma regular_increasing z k0 n k j :
  regular_days z k0 n -> k0 <= k -> 0 <= j -> k + j <= k0 + n + 1 ->
  midnight z k + (if j =? 0 then 0 else 1) <= midnight z (k + j).
Proof.
  intros Hr Hk Hj. revert j Hj. apply (natlike_ind (fun j => k + j <= k0 + n + 1 ->
    midnight z k + (if j =? 0 then 0 else 1) <= midnight z (k + j))).
  - intros _. rewrite (Z.add_0_r k). change (0 =? 0) with true. cbv iota. lia.
  - intros j Hj IH Hb. replace (Z.succ j =? 0) with false by (symmetry; apply Z.eqb_neq; lia).
    specialize (IH ltac:(lia)). destruct (Hr (k + j)) as [_ Hlt]; [lia|].
    replace (k + Z.succ j) with (k + j + 1) by lia. destruct (j =? 0); lia.
Qed.

Lemma days_loop_regular z k0 n fuel m k :
  0 <= n -> regular_days z k0 n -> k0 <= k -> k + Z.of_nat m = k0 + n + 1 -> (m < fuel)%nat ->
  days_loop fuel z (midnight z k) (midnight z (k0 + n)) =
  Some (map (day_window z) (seqZ k (Z.of_nat m))).
Proof.
  intros Hn Hr. revert fuel k; induction m as [|m IH]; intros fuel k Hk Hm Hf;
    (destruct fuel as [|fuel]; [lia|]); cbn [days_loop].
  - replace (after (midnight z k) (midnight z (k0 + n))) with true; [done|].
    symmetry. bools. replace k with (k0 + n + 1) by lia. apply Hr. lia.
  - replace (after (midnight z k) (midnight z (k0 + n))) with false.
    2:{ symmetry. bools. pose proof (regular_increasing z k0 n k (k0 + n - k) Hr Hk) as Hi.
        replace (k + (k0 + n - k)) with (k0 + n) in Hi by lia.
        destruct (k0 + n - k =? 0); lia. }
    rewrite AddDate1_midnight by (apply Hr; lia).
    rewrite (IH fuel (k + 1)) by lia.
    rewrite (seqZ_cons k) by lia. cbn [map]. unfold day_window at 2.
    by replace (Z.pred (Z.of_nat (S m))) with (Z.of_nat m) by lia.
Qed.

(** The calendar days of a request: in a zone where every midnight of the
    range exists (and on the day after it), the day loop ends, with one window
    per calendar day from the first date to the last, each from its midnight to
    the next one, however long the day is; so the windows tile the range that
    the segments are detected over. *)
Theorem days_loop_tiles z k0 n fuel :
  0 <= n -> regular_days z k0 n -> (Z.to_nat n + 1 < fuel)%nat ->
  days_loop fuel z (midnight z k0) (midnight z (k0 + n)) =
    Some (map (day_window z) (seqZ k0 (n + 1))) /\
  AddDate1 z (midnight z (k0 + n)) = midnight z (k0 + n + 1) /\
  (forall k, k0 <= k <= k0 + n -> day_of z (midnight z k) = k /\ clock_of z (midnight z k) = 0).
Proof.
  intros Hn Hr Hf. split; [|split].
  - rewrite (days_loop_regular z k0 n fuel (Z.to_nat (n + 1)) k0) by (done || lia).
    by rewrite Z2Nat.id by lia.
  - apply AddDate1_midnight. apply Hr. lia.
  - intros k Hk. destruct (Hr k Hk) as [E _]. unfold day_of, clock_of. rewrite E.
    rewrite Z.div_mul, Z.mod_mul; done.
Qed.

(** New York, 2026: -5h until March 8 07:00 UTC, then -4h until November 1. *)
Definition new_york : Zone := mkZone (-18000) [(1772953200, -14400); (1793512800, -18000)].

Lemma regular_days_dec z k0 n :
  forallb (fun k => (local_sec z (midnight z k) =? k * daySec) &&
                    (midnight z k <? midnight z (k + 1))) (seqZ k0 (n + 1)) = true ->
  regular_days z k0 n.
Proof.
  intros H k Hk. rewrite forallb_forall in H.
  specialize (H k). destruct (andb_prop _ _ (H ltac:(apply list_elem_of_In, elem_of_seqZ; lia))).
  bools. done.
Qed.

Example days_loop_tiles_witness :
  days_loop 10 new_york (midnight new_york 20519) (midnight new_york 20521) =
    Some (map (day_window new_york) [20519; 20520; 20521]) /\
  map (fun w => (dw_end w - dw_start w) / Hour) (map (day_window new_york) [20519; 20520; 20521])
    = [24; 23; 24].
Proof.
  destruct (days_loop_tiles new_york 20519 2 10) as [H _];
    [lia|by apply regular_days_dec; vm_compute|vm_compute; lia|].
  split; [exact H|vm_compute; reflexivity].
Defined.

(** ** Days whose midnight does not exist *)

(** Samoa skipped December 30, 2011: offset -10h until 10:00 UTC that day, +14h after. *)
Definition apia : Zone := mkZone (-36000) [(1325239200, 50400)].

Lemma apia_stuck : AddDate1 apia (midnight apia 15337) = midnight apia 15337.
Proof. vm_compute. reflexivity. Qed.

Lemma days_loop_stuck fuel z d toDate :
  AddDate1 z d = d -> d <= toDate -> days_loop fuel z d toDate = None.
Proof.
  intros Hd Hle. induction fuel as [|fuel IH]; cbn [days_loop]; [done|].
  replace (after d toDate) with false by (symmetry; bools; lia). by rewrite Hd, IH.
Qed.

(** The day loop need not end: for the zone Pacific/Apia, whose calendar has
    no December 30, 2011, [AddDate] leads from the midnight of December 29 back
    to itself, so a request from that day to January 2, 2012 never finishes,
    whatever the number of rounds. *)
Theorem daily_never_ends fuel :
  @GetDailyActivity (silent_backend [] None)
    (fun tz => if String.eqb tz "Pacific/Apia" then Ok apia else Err "unknown time zone"%string)
    (fun s => s) fuel true true (15400 * daySec * Second) "did"
    (1325188800 * Second) (1325419200 * Second) IgnitionDetection None [] [] (Some "Pacific/Apia"%string)
  = Err Diverges.
Proof.
  assert (Hd : daily_dates apia (15400 * daySec * Second) (1325188800 * Second) (1325419200 * Second)
               = Ok (midnight apia 15337, midnight apia 15341)) by (vm_compute; reflexivity).
  unfold GetDailyActivity. cbn [bool_decide decide_rel]. change (bool_decide _ || _) with false.
  change (daily_zone _ _ _) with (Ok apia : result api_error Zone). cbn [result_bind].
  rewrite Hd. cbn [result_bind].
  match goal with |- context [GetSegments ?a ?b ?c ?d ?e ?f ?g ?h ?i ?j ?k] =>
    replace (GetSegments a b c d e f g h i j k) with (Ok [] : result api_error (list Segment))
      by (vm_compute; reflexivity) end.
  cbn [result_bind buildAggArgs].
  rewrite days_loop_stuck; [done|exact apia_stuck|vm_compute; discriminate].
Qed.

(** Beirut, 2026: clocks go from 00:00 to 01:00 on March 29. *)
Definition beirut : Zone := mkZone 7200 [(1774735200, 10800)].

(** The day loop can lose the last day: in Beirut the midnight of March 29,
    2026 is skipped, [AddDate] drifts to 01:00 and stays there, so a request for
    the three days March 28 to 30 returns two records and none for March 30. *)
Theorem daily_loses_a_day :
  exists out,
    @GetDailyActivity (silent_backend [] None)
      (fun tz => if String.eqb tz "Asia/Beirut" then Ok beirut else Err "unknown time zone"%string)
      (fun s => s) 10 true true (20600 * daySec * Second) "did"
      ((20540 * daySec + 43200) * Second) ((20542 * daySec + 43200) * Second)
      IgnitionDetection None [] [] (Some "Asia/Beirut"%string) = Ok out /\
    day_of beirut ((20542 * daySec + 43200) * Second) -
      day_of beirut ((20540 * daySec + 43200) * Second) + 1 = 3 /\
    map (fun d => sl_Timestamp <$> da_Start d) out =
      [Some (midnight beirut 20540); Some (midnight beirut 20541)].
Proof. eexists. split; [vm_compute; reflexivity|]. split; vm_compute; reflexivity. Qed.

(** ** Accounting a day *)

Definition seg_touches (dayStart dayEnd : Z) (s : Segment) : bool :=
  match seg_Start s with
  | Some st => touches dayStart dayEnd (sl_Timestamp st) s
  | None => false
  end.

Definition seg_overlap (dayStart dayEnd : Z) (s : Segment) : Z :=
  match seg_Start s with
  | Some st => overlap_seconds dayStart dayEnd (sl_Timestamp st) s
  | None => 0
  end.

(** Seconds of all the segments of [l], wrapping as the code's sum does. *)
Definition total_overlap (dayStart dayEnd : Z) (acc : Z) (l : list Segment) : Z :=
  fold_left (fun a s => wrap64 (a + seg_overlap dayStart dayEnd s)) l acc.

Lemma day_stats_loop_spec dayStart dayEnd segs count active f l :
  Forall (fun s => is_Some (seg_start s)) segs ->
  let hit := List.filter (seg_touches dayStart dayEnd) segs in
  day_stats_loop dayStart dayEnd count active f l segs =
  Ok (count + Z.of_nat (length hit), total_overlap dayStart dayEnd active hit,
      match f with Some _ => f | None => head hit end,
      match last hit with Some s => Some s | None => l end).
Proof.
  intros HF; revert count active f l; induction HF as [|s segs [x Hx] HF IH];
    intros count active f l; cbn [day_stats_loop List.filter].
  { rewrite Z.add_0_r. by destruct f. }
  unfold seg_start in Hx. destruct (seg_Start s) as [st|] eqn:Est; [|done].
  assert (Ht : seg_touches dayStart dayEnd s = touches dayStart dayEnd (sl_Timestamp st) s)
    by (unfold seg_touches; by rewrite Est).
  assert (Ho : seg_overlap dayStart dayEnd s = overlap_seconds dayStart dayEnd (sl_Timestamp st) s)
    by (unfold seg_overlap; by rewrite Est).
  cbn [deref result_bind]. rewrite Ht.
  destruct (touches dayStart dayEnd (sl_Timestamp st) s); [|apply IH].
  rewrite IH. cbn [length]. f_equal. f_equal; [f_equal; [f_equal; [lia|]|]|].
  - unfold total_overlap. cbn [fold_left]. by rewrite Ho.
  - by destruct f.
  - rewrite last_cons. by destruct (last _).
Qed.

(** What is left of the day from [lo] on, in whole seconds. *)
Definition room (dayEnd lo : Z) : Z := Z.max 0 (dayEnd - lo) / e9.

Lemma div_split a b c : 0 <= a -> 0 <= b -> a + b <= c -> a / e9 + b / e9 <= c / e9.
Proof.
  intros Ha Hb Hc. assert (He : 0 < e9) by done.
  pose proof (Z.mul_div_le a e9 He). pose proof (Z.mul_div_le b e9 He).
  apply Z.div_le_lower_bound; lia.
Qed.

Lemma overlap_exact dayStart dayEnd s st :
  seg_Start s = Some st -> seg_touches dayStart dayEnd s = true ->
  dayStart <= dayEnd < dayStart + 2 ^ 23 * e9 ->
  seg_overlap dayStart dayEnd s =
    (day_seg_end dayEnd s - Z.max dayStart (sl_Timestamp st)) / e9 /\
  Z.max dayStart (sl_Timestamp st) <= day_seg_end dayEnd s <= dayEnd.
Proof.
  intros Hs Ht Hd. unfold seg_touches, seg_overlap in *. rewrite Hs in *.
  unfold touches, overlap_seconds in *. set (e := day_seg_end dayEnd s) in *.
  assert (He : e <= dayEnd).
  { clear Ht. unfold e, day_seg_end. destruct (seg_End s) as [sl|]; [|lia].
    unfold before. destruct (Z.ltb_spec (sl_Timestamp sl) dayEnd); lia. }
  apply negb_true_iff in Ht. apply orb_false_iff in Ht as [Ht H3].
  apply orb_false_iff in Ht as [H1 H2]. bools.
  replace (if dayEnd <? e then dayEnd else e) with e by (destruct (Z.ltb_spec dayEnd e); lia).
  replace (if sl_Timestamp st <? dayStart then dayStart else sl_Timestamp st)
    with (Z.max dayStart (sl_Timestamp st)) by (destruct (Z.ltb_spec (sl_Timestamp st) dayStart); lia).
  assert (Hb : 0 <= e - Z.max dayStart (sl_Timestamp st) < 2 ^ 23 * e9) by lia.
  rewrite time_sub_exact by (unfold in_int64, min_int64, max_int64, e9 in *; lia).
  rewrite seconds_int_spec by exact Hb. split; [done|lia].
Qed.

(** Segments that do not overlap fill at most the day. *)
Lemma total_overlap_room dayStart dayEnd lo segs acc :
  dayStart <= dayEnd < dayStart + 2 ^ 23 * e9 -> dayStart <= lo ->
  Forall (fun s => exists x, seg_start s = Some x) segs ->
  Forall (fun s => match seg_start s with Some x => lo <= Z.max dayStart x | None => False end) segs ->
  StronglySorted (seg_before (-1)) segs ->
  0 <= acc -> acc + room dayEnd lo < 2 ^ 62 ->
  acc <= total_overlap dayStart dayEnd acc (List.filter (seg_touches dayStart dayEnd) segs)
      <= acc + room dayEnd lo.
Proof.
  intros Hd. revert lo acc; induction segs as [|s segs IH]; intros lo acc Hlo HF Hge HS Ha Hbig.
  { cbn. pose proof (Z.div_pos (Z.max 0 (dayEnd - lo)) e9 ltac:(lia) ltac:(done)).
    unfold room. lia. }
  inversion HF as [|? ? [x Hx] HF']; subst. inversion Hge as [|? ? Hx1 Hge']; subst.
  inversion HS as [|? ? HS' HSa]; subst. rewrite Hx in Hx1. cbn [List.filter].
  destruct (seg_touches dayStart dayEnd s) eqn:Et; [|by apply IH].
  unfold seg_start in Hx. destruct (seg_Start s) as [st|] eqn:Est; [|done].
  simpl in Hx. injection Hx as <-.
  destruct (overlap_exact dayStart dayEnd s st Est Et Hd) as [Eo He].
  change (total_overlap dayStart dayEnd acc (s :: ?h))
    with (total_overlap dayStart dayEnd (wrap64 (acc + seg_overlap dayStart dayEnd s)) h).
  rewrite Eo.
  set (e := day_seg_end dayEnd s) in *. set (b := Z.max dayStart (sl_Timestamp st)) in *.
  assert (Hroom : (e - b) / e9 + room dayEnd e <= room dayEnd lo).
  { unfold room. apply div_split; lia. }
  assert (H0 : 0 <= (e - b) / e9) by (apply Z.div_pos; [lia|done]).
  assert (H1 : 0 <= room dayEnd e) by (unfold room; apply Z.div_pos; [lia|done]).
  rewrite wrap64_id by (unfold in_int64, min_int64, max_int64; lia).
  destruct segs as [|s2 segs2].
  { unfold total_overlap. cbn [List.filter fold_left]. lia. }
  assert (HIH : acc + (e - b) / e9 <=
    total_overlap dayStart dayEnd (acc + (e - b) / e9)
      (List.filter (seg_touches dayStart dayEnd) (s2 :: segs2))
    <= acc + (e - b) / e9 + room dayEnd e); [|lia].
  apply IH; try done; try lia.
  rewrite Forall_forall in *. intros s' Hs'. destruct (HSa s' Hs') as (en & y & Hen & Hy & Hle).
  rewrite Hy. unfold e, day_seg_end. unfold seg_end in Hen.
  destruct (seg_End s) as [sl|]; [|done]. simpl in Hen. injection Hen as Hen. rewrite Hen.
  unfold before. destruct (Z.ltb_spec en dayEnd); lia.
Qed.

(** Accounting a day: for segments in order that do not overlap, the day's
    count is the number of segments that touch it, the first and last of those
    supply its boundary fixes, the call cannot panic, and the active seconds
    never exceed the length of the day. A segment touches the day when it starts
    before the day's end and ends at its start or later. *)
Theorem daySegmentStats_spec segs dayStart dayEnd :
  dayStart <= dayEnd < dayStart + 2 ^ 23 * e9 ->
  Forall (fun s => is_Some (seg_start s)) segs -> StronglySorted (seg_before (-1)) segs ->
  let hit := List.filter (seg_touches dayStart dayEnd) segs in
  exists active,
    daySegmentStats segs dayStart dayEnd = Ok (Z.of_nat (length hit), active, head hit, last hit) /\
    0 <= active <= (dayEnd - dayStart) / e9 /\
    (forall s st en, s ∈ segs -> seg_start s = Some st -> seg_end s = Some en -> st < en ->
       (s ∈ hit <-> st < dayEnd /\ dayStart <= en)).
Proof.
  intros Hd HF HS hit. exists (total_overlap dayStart dayEnd 0 hit). split; [|split].
  - unfold daySegmentStats. rewrite day_stats_loop_spec by done. fold hit.
    by destruct (last hit).
  - pose proof (total_overlap_room dayStart dayEnd dayStart segs 0 Hd ltac:(lia)) as H.
    assert (Hr : room dayEnd dayStart = (dayEnd - dayStart) / e9)
      by (unfold room; by rewrite Z.max_r by lia).
    rewrite Hr in H. apply H; try done; try lia.
    + eapply Forall_impl; [exact HF|]. intros s [x Hx]. rewrite Hx. lia.
    + assert ((dayEnd - dayStart) / e9 < 2 ^ 23); [|lia].
      apply Z.div_lt_upper_bound; [done|]. lia.
  - intros s st en Hs Hst Hen Hlt. unfold hit. rewrite list_elem_of_In, filter_In, <- list_elem_of_In.
    unfold seg_touches, seg_start, seg_end in *.
    destruct (seg_Start s) as [sl|]; [|done]. simpl in Hst. injection Hst as Hst.
    unfold touches, day_seg_end. destruct (seg_End s) as [el|]; [|done]. simpl in Hen.
    injection Hen as Hen. rewrite Hst, Hen.
    destruct (before en dayEnd) eqn:Eb; rewrite negb_true_iff, !orb_false_iff; bools;
      rewrite negb_false_iff, !Z.ltb_ge, Z.ltb_lt; split; intros; lia || (split; [done|lia]).
Qed.

(** A trip that ends exactly at midnight is counted on the next day too. *)
Example daySegmentStats_spec_witness :
  let day := 86400 * Second in
  let trips := [newSegment (day - 600 * Second) (Some day) 600 false false;
                newSegment (day + 60 * Second) (Some (day + 120 * Second)) 60 false false] in
  exists active,
    daySegmentStats trips day (2 * day) = Ok (2, active, head trips, last trips) /\
    0 <= active <= 86400 /\ active = 60.
Proof.
  intros day trips.
  destruct (daySegmentStats_spec trips day (2 * day)) as (active & E & Hb & _).
  - vm_compute. split; [discriminate|reflexivity].
  - repeat (apply Forall_cons; split; [by eexists|]). by apply Forall_nil.
  - repeat constructor. eexists _, _. split; [reflexivity|]. split; reflexivity.
  - exists active. split; [exact E|]. split; [exact Hb|].
    vm_compute in E. by injection E as <-.
Defined.

(** ** The records *)

Definition day_shape (a b : DailyActivity) : Prop :=
  sl_Timestamp <$> da_Start b = sl_Timestamp <$> da_Start a /\
  sl_Timestamp <$> da_End b = sl_Timestamp <$> da_End a /\
  da_SegmentCount b = da_SegmentCount a /\ da_Duration b = da_Duration a /\
  located (da_Start b) /\ located (da_End b).

Lemma write_days_shape days filled :
  Forall2 fills (flat_map (fun d => missing (da_Start d) ++ missing (da_End d)) days) filled ->
  Forall2 day_shape days (write_days days filled).
Proof.
  revert filled; induction days as [|d days IH]; intros filled H; [constructor|].
  cbn [flat_map write_days] in *. rewrite <- app_assoc in H.
  apply write_back_shape in H as (st & f1 & -> & H & Hst & Est).
  apply write_back_shape in H as (en & f2 & -> & H & Hen & Een).
  constructor; [|by apply IH]. unfold day_shape; simpl. done.
Qed.

Lemma gapFillDaily_shape {qs : QueryService} did days :
  Forall2 day_shape days (gapFillDailyLocations did days).
Proof. apply write_days_shape, fillBoundary_fills. Qed.

(** A record accounts for its window. *)
Definition day_accounts (segs : list Segment) (w : dayWindow) (d : DailyActivity) : Prop :=
  sl_Timestamp <$> da_Start d = Some (dw_start w) /\
  sl_Timestamp <$> da_End d = Some (dw_end w) /\
  exists f l, daySegmentStats segs (dw_start w) (dw_end w) =
              Ok (da_SegmentCount d, da_Duration d, f, l).

Lemma day_records_account segs fa names ag ec i days out :
  day_records segs fa names ag ec i days = Ok out -> Forall2 (day_accounts segs) days out.
Proof.
  revert i out; induction days as [|w days IH]; intros i out; cbn [day_records];
    [intros [= <-]; constructor|].
  destruct (day_record _ _ _ _ _ _) as [d|] eqn:E; cbn [result_bind]; [|done].
  destruct (day_records _ _ _ _ _ _ _) as [r|] eqn:E'; cbn [result_bind]; [|done].
  intros [= <-]. constructor; [|by eapply IH]. clear E' IH. revert E. unfold day_record.
  destruct (daySegmentStats _ _ _) as [[[[c a] f] l]|] eqn:Es; cbn [result_bind]; [|done].
  destruct (buildSummaryFromAggs _ _) as [[sg st] en]. intros [= <-].
  split; [done|]. split; [done|]. by exists f, l.
Qed.

(** Daily activity: in a zone with regular midnights, a successful request
    returns exactly one record per calendar day, in order; each runs from its
    midnight to the next, carries the segment count and active seconds that the
    day's accounting gives for the segments detected over the whole range, and
    has a location at both ends. *)
Theorem GetDailyActivity_spec {qs : QueryService} LoadLocation quote fuel fe1 fe2 now did from to
    mech cfg sr er tz z out :
  let k0 := day_of z from in
  let n := day_of z to - day_of z from in
  daily_zone LoadLocation quote tz = Ok z ->
  0 <= n -> regular_days z k0 n -> (Z.to_nat n + 1 < fuel)%nat ->
  GetDailyActivity LoadLocation quote fuel fe1 fe2 now did from to mech cfg sr er tz = Ok out ->
  exists segs,
    GetSegments fe1 now did (midnight z k0) (midnight z (k0 + n + 1)) mech cfg
      (map Some (mergeSegmentSignalRequests (map Some (defaultSegmentSignalSet mech)) sr))
      er None None = Ok segs /\
    Forall2 (fun k d => day_accounts segs (day_window z k) d /\
                        located (da_Start d) /\ located (da_End d))
            (seqZ k0 (n + 1)) out.
Proof.
  intros k0 n Hz Hn Hr Hf. unfold GetDailyActivity.
  destruct (bool_decide _ || _); [done|]. rewrite Hz. cbn [result_bind].
  unfold daily_dates. destruct (after (midnight z (day_of z from)) _); [done|].
  destruct (after _ now); [done|].
  destruct (validateSegmentDateRange _ _); [done|]. cbn [bad_request result_bind].
  replace (day_of z to) with (k0 + n) by (unfold n, k0; lia). fold k0.
  destruct (days_loop_tiles z k0 n fuel Hn Hr Hf) as (Hdays & Hend & _). rewrite Hend, Hdays.
  destruct (GetSegments _ _ _ _ _ _ _ _ _ _ _) as [segs|] eqn:Es; [|done]. cbn [result_bind].
  destruct (buildAggArgs _) as [fa la].
  destruct (batchDaySummaries _ _ _ _ _ _) as [b|]; [|done]. cbn [result_bind].
  destruct (day_records _ _ _ _ _ _ _) as [rec|] eqn:Ed; [|done]. cbn [result_bind].
  intros [= <-]. exists segs. split; [done|].
  apply day_records_account in Ed. rewrite Forall2_fmap_l in Ed.
  pose proof (gapFillDaily_shape did rec) as Hs. revert Ed Hs.
  generalize (gapFillDailyLocations did rec). generalize (seqZ k0 (n + 1)). clear.
  intros ks out HA. revert out. induction HA as [|k d ks rec (H1 & H2 & f & l & H3) HA IH];
    intros out HS; inversion HS as [|? d' ? out' (S1 & S2 & S3 & S4 & S5 & S6) HS']; subst;
    constructor; [|by apply IH].
  split; [|done]. split; [by rewrite S1|]. split; [by rewrite S2|].
  exists f, l. by rewrite S3, S4.
Qed.

Definition daily_demo : list Segment :=
  [newSegment (20519 * daySec * Second + 10 * Hour) (Some (20519 * daySec * Second + 11 * Hour))
     3600 false false].

Example GetDailyActivity_spec_witness :
  exists out,
    @GetDailyActivity (silent_backend daily_demo None) (fun _ => Ok new_york) (fun s => s) 10
      true true (20600 * daySec * Second) "did" (20519 * daySec * Second + 12 * Hour)
      (20521 * daySec * Second + 12 * Hour) IgnitionDetection None [] []
      (Some "America/New_York"%string) = Ok out /\
    map (fun d => (da_SegmentCount d, da_Duration d)) out = [(1, 3600); (0, 0); (0, 0)] /\
    length (seqZ 20519 3) = length out.
Proof.
  eexists. split; [vm_compute; reflexivity|]. split; [vm_compute; reflexivity|].
  match goal with |- _ = length ?o =>
    destruct (@GetDailyActivity_spec (silent_backend daily_demo None) (fun _ => Ok new_york)
      (fun s => s) 10 true true (20600 * daySec * Second) "did"
      (20519 * daySec * Second + 12 * Hour) (20521 * daySec * Second + 12 * Hour)
      IgnitionDetection None [] [] (Some "America/New_York"%string) new_york o)
      as (segs & _ & HF) end.
  - reflexivity.
  - vm_compute. discriminate.
  - apply regular_days_dec. vm_compute. reflexivity.
  - vm_compute. lia.
  - vm_compute. reflexivity.
  - apply Forall2_length in HF. exact HF.
Defined.

(** ** A day's boundary fix

    The segments handed to [GetDailyActivity] have been gap-filled already, so a
    segment without any fix carries (0,0), which then takes precedence over a
    fix the day's own aggregate found. *)

Definition one_fix_backend (found : list Segment) : QueryService := {|
  qs_GetSegments _ _ _ _ _ := Ok found;
  qs_GetAggregatedSignals _ _ := Ok [];
  qs_GetAggregatedSignalsForRanges _ ranges _ _ _ _ :=
    (* a fix outside the segment: only day-wide ranges see it *)
    Ok (if bool_decide (Forall (fun r => Hour < To r - From r) ranges)
        then [mkAggSignalForRange 0 LocType 0 f64_zero ""
                (mkVssLocation (f64_of_Z 52) (f64_of_Z 13) f64_zero f64_zero)]
        else []);
  qs_GetEventCounts _ _ _ _ := Ok [];
  qs_GetEventCountsForRanges _ _ _ := Ok [];
  qs_LocationsAt := None;
|}.

(** A day's own fix can be lost: when the first segment of a day has no fix,
    it comes out of [GetSegments] pinned to (0,0), and the day's start location
    is then (0,0) although the aggregate over the day returned a real one. *)
Theorem daily_fix_overridden :
  exists d,
    @GetDailyActivity (one_fix_backend daily_demo) (fun _ => Ok UTC) (fun s => s) 10
      true true (20600 * daySec * Second) "did" (20519 * daySec * Second)
      (20519 * daySec * Second) IgnitionDetection None [] [] None = Ok [d] /\
    (da_Start d ≫= sl_Value) = Some noDataLocation /\
    (buildSummaryFromAggs
       [mkAggSignal LocType 0 zero_time f64_zero ""
          (mkVssLocation (f64_of_Z 52) (f64_of_Z 13) f64_zero f64_zero)] []).1.2 =
      Some (mkLocation (f64_of_Z 52) (f64_of_Z 13) f64_zero).
Proof. eexists. split; [vm_compute; reflexivity|]. split; vm_compute; reflexivity. Qed.
