(* ===== verification/Validate.v ===== *)
(** * internal/repositories/validate.go

    Argument validation of the signal and event queries. The event-name patterns
    are given as regular expressions and matched by derivatives; they are proved
    to accept exactly the dotted names their comments describe. *)

From Stdlib Require Import Ascii.
From S2P Require Import Prelude FloatFacts Model SegRepo.

(** ** Regular expressions

    The fragment of [regexp] the patterns use: a character class, sequence,
    option, star. [MatchString] of an anchored pattern is a full match. *)

Inductive regex :=
  | RNone
  | REps
  | RClass (p : ascii -> bool)
  | RSeq (r1 r2 : regex)
  | RAlt (r1 r2 : regex)
  | RStar (r : regex).

Fixpoint nullable (r : regex) : bool :=
  match r with
  | RNone | RClass _ => false
  | REps | RStar _ => true
  | RSeq r1 r2 => nullable r1 && nullable r2
  | RAlt r1 r2 => nullable r1 || nullable r2
  end.

Fixpoint deriv (c : ascii) (r : regex) : regex :=
  match r with
  | RNone | REps => RNone
  | RClass p => if p c then REps else RNone
  | RSeq r1 r2 =>
      if nullable r1 then RAlt (RSeq (deriv c r1) r2) (deriv c r2) else RSeq (deriv c r1) r2
  | RAlt r1 r2 => RAlt (deriv c r1) (deriv c r2)
  | RStar r1 => RSeq (deriv c r1) (RStar r1)
  end.

Fixpoint MatchString (r : regex) (s : string) : bool :=
  match s with
  | EmptyString => nullable r
  | String c s' => MatchString (deriv c r) s'
  end.

Definition in_range (lo hi c : ascii) : bool :=
  (N_of_ascii lo <=? N_of_ascii c)%N && (N_of_ascii c <=? N_of_ascii hi)%N.

(** [[a-zA-Z]], [[a-zA-Z0-9]], [\.] *)
Definition is_alpha (c : ascii) : bool := in_range "a" "z" c || in_range "A" "Z" c.
Definition is_alnum (c : ascii) : bool := is_alpha c || in_range "0" "9" c.
Definition is_dot (c : ascii) : bool := Ascii.eqb c ".".

Definition r_ident : regex := RSeq (RClass is_alpha) (RStar (RClass is_alnum)).

Definition eventNamePattern : regex := RSeq r_ident (RSeq (RClass is_dot) r_ident).
Definition eventNamePrefixPattern : regex :=
  RSeq r_ident (RSeq (RClass is_dot) (RAlt r_ident REps)).

(** ** Arguments (graph/model) *)

Record FilterLocation := mkFilterLocation { fl_Latitude : float64; fl_Longitude : float64 }.

Record InCircleFilter := mkInCircleFilter {
  icf_Center : option FilterLocation;
  icf_Radius : float64;
}.

Record SignalLocationFilter := mkSignalLocationFilter {
  slf_InPolygon : list (option FilterLocation);
  slf_InCircle : option InCircleFilter;
}.

Record StringSignalArgs := mkStringSignalArgs {
  stsa_Name : string;
  stsa_Agg : string;
  stsa_Alias : string;
}.

(** [Source] of a [SignalFilter]. *)
Record SignalFilter := mkSignalFilter { sf_Source : option string }.

Record SignalArgs := mkSignalArgs {
  sia_Filter : option SignalFilter;
  sia_Subject : string;
}.

Record LatestSignalsArgs := mkLatestArgs {
  la_SignalArgs : SignalArgs;
  la_SignalNames : gset string;
  la_LocationSignalNames : gset string;
  la_IncludeLastSeen : bool;
}.

Record AggregatedSignalArgs := mkAggregatedSignalArgs {
  aa_SignalArgs : SignalArgs;
  aa_FromTS : Z;
  aa_ToTS : Z;
  aa_Interval : Z;
  aa_FloatArgs : list FloatSignalArgs;
  aa_StringArgs : list StringSignalArgs;
  aa_LocationArgs : list (LocationSignalArgs * option SignalLocationFilter);
}.

Inductive StringValueFilter := mkStringValueFilter {
  svf_Eq : option string;
  svf_Neq : option string;
  svf_NotIn : list string;
  svf_In : list string;
  svf_StartsWith : option string;
  svf_Or : list (option StringValueFilter);
}.

Inductive StringArrayFilter := mkStringArrayFilter {
  saf_ContainsAny : list string;
  saf_ContainsAll : list string;
  saf_NotContainsAny : list string;
  saf_NotContainsAll : list string;
  saf_Or : list (option StringArrayFilter);
}.

Record EventFilter := mkEventFilter {
  ef_Name : option StringValueFilter;
  ef_Source : option StringValueFilter;
  ef_Tags : option StringArrayFilter;
}.

(** ** The checks; [None] is a nil error *)

Definition maxAggBuckets : Z := 100000.
Definition maxUint16 : Z := 65535.

Definition f64_leZ (z : Z) (x : float64) : bool := f64_leb (f64_of_Z z) x.

Definition isFilterLocationValid (loc : option FilterLocation) : bool :=
  match loc with
  | None => false
  | Some l =>
      f64_leb (f64_of_Z (-90)) (fl_Latitude l) && f64_leb (fl_Latitude l) (f64_of_Z 90) &&
      f64_leb (f64_of_Z (-180)) (fl_Longitude l) && f64_leb (fl_Longitude l) (f64_of_Z 180)
  end.

(** The first error of a loop [for _, x := range l { if bad { return err } }]. *)
Fixpoint first_error {A} (f : A -> option string) (l : list A) : option string :=
  match l with
  | [] => None
  | x :: rest => or_else (f x) (first_error f rest)
  end.

Definition validateLocFilter (fil : option SignalLocationFilter) : option string :=
  match fil with
  | None => None
  | Some fil =>
      if negb (length (slf_InPolygon fil) =? 0)%nat && (length (slf_InPolygon fil) <? 3)%nat
      then Some "not enough points in geofence filter"%string
      else
        or_else
          (first_error (fun pt => if isFilterLocationValid pt then None
                                  else Some "invalid geofence polygon vertex"%string)
                       (slf_InPolygon fil))
          (match slf_InCircle fil with
           | None => None
           | Some c =>
               if negb (isFilterLocationValid (icf_Center c))
               then Some "invalid circle filter location"%string
               else if f64_is_nan (icf_Radius c) || f64_is_inf (icf_Radius c) ||
                       f64_ltb (icf_Radius c) f64_zero
               then Some "invalid circle filter radius"%string
               else None
           end)
  end.

Section validate.
(** [cloudevent.DecodeEthrDID] succeeds (a third-party decoder). *)
Context (DecodeEthrDID : string -> bool).

Definition validateFilter (filter : option SignalFilter) : option string :=
  match filter with
  | None => None
  | Some f =>
      match sf_Source f with
      | None => None
      | Some src => if DecodeEthrDID src then None
                    else Some ("source '" +:+ src +:+ "' is not a valid ethr DID")%string
      end
  end.

Definition validateSignalArgs (args : SignalArgs) : option string :=
  if String.eqb (sia_Subject args) "" then Some "subject is required"%string
  else validateFilter (sia_Filter args).

Definition validateLatestSigArgs (args : option LatestSignalsArgs) : option string :=
  match args with
  | None => Some "latest signal args not provided"%string
  | Some a => validateSignalArgs (la_SignalArgs a)
  end.

(** The bucket bound: [windowMicros > 0 && args.Interval < windowMicros/maxAggBuckets]. *)
Definition too_many_buckets (from to interval : Z) : bool :=
  let windowMicros := Z.quot (time_sub to from) Microsecond in
  (0 <? windowMicros) && (interval <? Z.quot windowMicros maxAggBuckets).

Definition validateAggSigArgs (args : option AggregatedSignalArgs) : option string :=
  match args with
  | None => Some "aggregated signal args not provided"%string
  | Some a =>
      if is_zero (aa_FromTS a) then Some "from timestamp is zero"%string
      else if is_zero (aa_ToTS a) then Some "to timestamp is zero"%string
      else if after (aa_FromTS a) (aa_ToTS a)
      then Some "from timestamp is after to timestamp"%string
      else if aa_Interval a <? 1 then Some "interval is not a positive integer"%string
      else if too_many_buckets (aa_FromTS a) (aa_ToTS a) (aa_Interval a)
      then Some "interval too small for the requested window (exceeds the aggregation bucket limit)"%string
      else if maxUint16 <? Z.of_nat (length (aa_FloatArgs a))
      then Some "too many float aggregations"%string
      else if maxUint16 <? Z.of_nat (length (aa_StringArgs a))
      then Some "too many string aggregations"%string
      else if maxUint16 <? Z.of_nat (length (aa_LocationArgs a))
      then Some "too many location aggregations"%string
      else or_else (first_error (fun la => validateLocFilter la.2) (aa_LocationArgs a))
                   (validateSignalArgs (aa_SignalArgs a))
  end.
End validate.

Definition name_error (name : string) : string :=
  ("event name '" +:+ name +:+
   "' does not match namespace pattern (e.g. 'behavior.harshBraking')")%string.

Fixpoint validateEventNameFilter' (filter : StringValueFilter) : option string :=
  or_else (match svf_Eq filter with
           | Some n => if MatchString eventNamePattern n then None else Some (name_error n)
           | None => None
           end)
  (or_else (first_error (fun n => if MatchString eventNamePattern n then None
                                  else Some (name_error n)) (svf_In filter))
  (or_else (match svf_StartsWith filter with
            | Some n =>
                if MatchString eventNamePrefixPattern n then None
                else Some ("event name prefix '" +:+ n +:+
                  "' does not match namespace pattern (e.g. 'behavior.' or 'behavior.harsh')")%string
            | None => None
            end)
  ((fix go (l : list (option StringValueFilter)) : option string :=
      match l with
      | [] => None
      | None :: rest => go rest
      | Some f :: rest => or_else (validateEventNameFilter' f) (go rest)
      end) (svf_Or filter)))).

(** A nil filter passes. *)
Definition validateEventNameFilter (filter : option StringValueFilter) : option string :=
  match filter with None => None | Some f => validateEventNameFilter' f end.

Definition validateEventArgs (did : string) (from to : Z)
    (filter : option EventFilter) : option string :=
  if String.eqb did "" then Some "subject is required"%string
  else if is_zero from then Some "from timestamp is zero"%string
  else if is_zero to then Some "to timestamp is zero"%string
  else if after from to then Some "from timestamp is after to timestamp"%string
  else match filter with
       | Some f => validateEventNameFilter (ef_Name f)
       | None => None
       end.

(** ** The patterns, as languages *)

Fixpoint lang (r : regex) (s : string) : Prop :=
  match r with
  | RNone => False
  | REps => s = ""%string
  | RClass p => exists c, s = String c "" /\ p c = true
  | RSeq r1 r2 => exists a b, s = (a +:+ b)%string /\ lang r1 a /\ lang r2 b
  | RAlt r1 r2 => lang r1 s \/ lang r2 s
  | RStar r1 => exists l, s = String.concat "" l /\ Forall (fun x => lang r1 x /\ x <> ""%string) l
  end.

Lemma sapp_nil b : ("" +:+ b)%string = b.
Proof. reflexivity. Qed.

Lemma sapp_cons c a b : (String c a +:+ b)%string = String c (a +:+ b)%string.
Proof. reflexivity. Qed.

Lemma concat_cons x l : String.concat "" (x :: l) = (x +:+ String.concat "" l)%string.
Proof.
  destruct l as [|y l]; [|done]. induction x as [|c x IH]; [done|].
  change (String c x = String c (x +:+ String.concat "" [])%string). f_equal. exact IH.
Qed.

Lemma nullable_lang r : nullable r = true <-> lang r "".
Proof.
  induction r as [| |p|r1 IH1 r2 IH2|r1 IH1 r2 IH2|r1 IH1]; simpl; try done.
  - split; [done|]. by intros (c & ? & _).
  - rewrite andb_true_iff, IH1, IH2. split.
    + intros [H1 H2]. by exists ""%string, ""%string.
    + intros ([|] & [|] & E & H1 & H2); done.
  - by rewrite orb_true_iff, IH1, IH2.
  - split; [|done]. intros _. by exists [].
Qed.

Lemma deriv_lang c r s : lang (deriv c r) s <-> lang r (String c s).
Proof.
  revert s; induction r as [| |p|r1 IH1 r2 IH2|r1 IH1 r2 IH2|r1 IH1]; intros s; simpl; try done.
  - destruct (p c) eqn:E; simpl.
    + split; [intros ->; by exists c|]. by intros (c' & Ec & _); injection Ec.
    + split; [done|]. intros (c' & Ec & ?). injection Ec as -> _. congruence.
  - assert (Hseq : (exists a b, s = (a +:+ b)%string /\ lang (deriv c r1) a /\ lang r2 b) <->
                   (exists a b, String c s = (String c a +:+ b)%string /\ lang r1 (String c a) /\ lang r2 b)).
    { split; intros (a & b & E & H1 & H2); exists a, b.
      - rewrite <- IH1. by subst.
      - rewrite IH1. rewrite sapp_cons in E. injection E as ->. done. }
    destruct (nullable r1) eqn:En; simpl; rewrite Hseq; split.
    + intros [(a & b & E & H1 & H2)|H].
      * by exists (String c a), b.
      * exists ""%string, (String c s). split; [done|]. split; [by apply nullable_lang|by apply IH2].
    + intros ([|c' a] & b & E & H1 & H2).
      * right. apply IH2. rewrite sapp_nil in E. by subst.
      * left. rewrite sapp_cons in E. injection E as <- ->. by exists a, b.
    + intros (a & b & E & H1 & H2). by exists (String c a), b.
    + intros ([|c' a] & b & E & H1 & H2).
      * apply nullable_lang in H1. congruence.
      * rewrite sapp_cons in E. injection E as <- ->. by exists a, b.
  - by rewrite IH1, IH2.
  - split.
    + intros (a & b & -> & H1 & (l & -> & Hl)). exists (String c a :: l).
      split; [by rewrite concat_cons|]. constructor; [|done]. split; [by apply IH1|done].
    + intros (l & E & Hl). destruct l as [|[|c' x] l]; [done|by inversion Hl as [|? ? [_ ?]]|].
      inversion Hl as [|? ? [Hx _] Hl']; subst. rewrite concat_cons, sapp_cons in E.
      injection E as <- ->. exists x, (String.concat "" l). split; [done|].
      split; [by apply IH1|by exists l].
Qed.

Lemma MatchString_lang r s : MatchString r s = true <-> lang r s.
Proof.
  revert r; induction s as [|c s IH]; intros r; simpl; [apply nullable_lang|].
  rewrite IH. apply deriv_lang.
Qed.

Fixpoint all_chars (p : ascii -> bool) (s : string) : bool :=
  match s with EmptyString => true | String c s' => p c && all_chars p s' end.

(** A letter followed by letters and digits. *)
Definition ident (s : string) : Prop :=
  exists c rest, s = String c rest /\ is_alpha c = true /\ all_chars is_alnum rest = true.

Lemma star_class_lang p s : lang (RStar (RClass p)) s <-> all_chars p s = true.
Proof.
  split.
  - intros (l & -> & Hl). induction Hl as [|x l [(c & -> & Hc) _] Hl IH]; [done|].
    rewrite concat_cons, sapp_cons, sapp_nil. simpl. by rewrite Hc, IH.
  - induction s as [|c s IH]; intros H; [by exists []|]. simpl in H.
    apply andb_true_iff in H as [Hc Hs]. destruct (IH Hs) as (l & -> & Hl).
    exists (String c "" :: l). rewrite concat_cons. split; [done|]. constructor; [|done].
    split; [by exists c|done].
Qed.

Lemma r_ident_lang s : lang r_ident s <-> ident s.
Proof.
  unfold r_ident, ident. cbn [lang]. split.
  - intros (a & b & -> & (c & -> & Hc) & Hb). exists c, b. split; [done|]. split; [done|].
    by apply star_class_lang.
  - intros (c & rest & -> & Hc & Hr). exists (String c ""), rest. split; [done|].
    split; [by exists c|by apply star_class_lang].
Qed.

(** The event-name patterns accept exactly what their comments say: two
    identifiers (a letter, then letters and digits) separated by one dot, and,
    for a prefix, an identifier and a dot optionally followed by an identifier. *)
Theorem event_patterns_spec s :
  (MatchString eventNamePattern s = true <->
   exists a b, s = (a +:+ "." +:+ b)%string /\ ident a /\ ident b) /\
  (MatchString eventNamePrefixPattern s = true <->
   exists a b, s = (a +:+ "." +:+ b)%string /\ ident a /\ (b = ""%string \/ ident b)).
Proof.
  assert (Hdot : forall c, is_dot c = true <-> c = "."%char).
  { intros c. unfold is_dot. apply Ascii.eqb_eq. }
  split; rewrite MatchString_lang; unfold eventNamePattern, eventNamePrefixPattern;
    cbn [lang]; split.
  - intros (a & b & -> & Ha & (d & b' & -> & (c & -> & Hc%Hdot) & Hb)). subst c.
    exists a, b'. rewrite <- !r_ident_lang. done.
  - intros (a & b & -> & Ha & Hb). exists a, ("." +:+ b)%string. rewrite r_ident_lang.
    split; [done|]. split; [done|]. exists "."%string, b. split; [done|].
    split; [by exists "."%char|by apply r_ident_lang].
  - intros (a & b & -> & Ha & (d & b' & -> & (c & -> & Hc%Hdot) & Hb)). subst c.
    exists a, b'. rewrite <- !r_ident_lang. split; [done|]. split; [done|].
    destruct Hb as [Hb|Hb]; [by right|by left].
  - intros (a & b & -> & Ha & Hb). exists a, ("." +:+ b)%string. rewrite r_ident_lang.
    split; [done|]. split; [done|]. exists "."%string, b. split; [done|].
    split; [by exists "."%char|]. destruct Hb as [Hb|Hb]; [by right|left; by apply r_ident_lang].
Qed.

(** ** What an accepted aggregation request satisfies *)

Definition finite_in (lo hi : Z) (x : float64) : Prop :=
  f64_is_nan x = false /\ f64_is_inf x = false /\
  f64_leb (f64_of_Z lo) x = true /\ f64_leb x (f64_of_Z hi) = true.

Definition point_ok (pt : option FilterLocation) : Prop :=
  exists l, pt = Some l /\ finite_in (-90) 90 (fl_Latitude l) /\ finite_in (-180) 180 (fl_Longitude l).

Definition filter_ok (fil : SignalLocationFilter) : Prop :=
  (slf_InPolygon fil = [] \/ (3 <= length (slf_InPolygon fil))%nat) /\
  Forall point_ok (slf_InPolygon fil) /\
  (forall c, slf_InCircle fil = Some c ->
     point_ok (icf_Center c) /\ f64_is_nan (icf_Radius c) = false /\
     f64_is_inf (icf_Radius c) = false /\ f64_ltb (icf_Radius c) f64_zero = false).

Lemma finite_between lo hi x :
  f64_is_inf (f64_of_Z lo) = false -> f64_is_inf (f64_of_Z hi) = false ->
  f64_leb (f64_of_Z lo) x = true -> f64_leb x (f64_of_Z hi) = true -> finite_in lo hi x.
Proof.
  intros Hlo Hhi H1 H2. repeat split; try done.
  - by destruct x.
  - destruct x as [s|s| |s m e]; try done. exfalso.
    destruct s; [by destruct (f64_of_Z lo) as [[]| [] | | [] ? ?]|
                 by destruct (f64_of_Z hi) as [[]| [] | | [] ? ?]].
Qed.

Lemma isFilterLocationValid_ok pt : isFilterLocationValid pt = true -> point_ok pt.
Proof.
  destruct pt as [l|]; [|done]. unfold isFilterLocationValid.
  rewrite !andb_true_iff. intros (((H1 & H2) & H3) & H4). exists l. split; [done|].
  split; by apply finite_between.
Qed.

Lemma or_else_None e1 e2 : or_else e1 e2 = None <-> e1 = None /\ e2 = None.
Proof. destruct e1; simpl; [|tauto]. split; [done|]. by intros [? _]. Qed.

Lemma first_error_None {A} (f : A -> option string) l :
  first_error f l = None <-> Forall (fun x => f x = None) l.
Proof.
  induction l as [|x l IH]; simpl; [done|]. by rewrite or_else_None, IH, Forall_cons.
Qed.

Lemma validateLocFilter_ok fil : validateLocFilter (Some fil) = None -> filter_ok fil.
Proof.
  unfold validateLocFilter. destruct (_ && _) eqn:Hlen; [done|].
  rewrite or_else_None, first_error_None. intros [Hp Hc]. split; [|split].
  - destruct (slf_InPolygon fil) as [|p l]; [by left|]. right. apply andb_false_iff in Hlen.
    destruct Hlen as [Hl|Hl]; [done|]. apply Nat.ltb_ge in Hl. done.
  - eapply Forall_impl; [exact Hp|]. simpl. intros pt H. apply isFilterLocationValid_ok.
    by destruct (isFilterLocationValid pt).
  - intros c Ec. rewrite Ec in Hc. destruct (isFilterLocationValid (icf_Center c)) eqn:E; [|done].
    simpl in Hc. destruct (_ || _) eqn:Hr; [done|]. rewrite !orb_false_iff in Hr.
    split; [by apply isFilterLocationValid_ok|]. tauto.
Qed.

(** What the server relies on after validating an aggregation request: the
    window is set and ordered, the interval positive, and the number of whole
    buckets in the window less than twice the limit of 100,000 (the quotient the
    check compares with is rounded down); every geofence has no polygon or one
    of at least three vertices, all coordinates finite and in range, and a
    finite non-negative radius; and the subject is present. *)
Theorem validateAggSigArgs_spec dec a :
  validateAggSigArgs dec (Some a) = None ->
  aa_FromTS a <> zero_time /\ aa_ToTS a <> zero_time /\ aa_FromTS a <= aa_ToTS a /\
  1 <= aa_Interval a /\
  (aa_ToTS a - aa_FromTS a <= max_int64 ->
   (aa_ToTS a - aa_FromTS a) / Microsecond < maxAggBuckets * (aa_Interval a + 1) /\
   (aa_ToTS a - aa_FromTS a) / Microsecond / aa_Interval a < 2 * maxAggBuckets) /\
  (forall la fil, (la, Some fil) ∈ aa_LocationArgs a -> filter_ok fil) /\
  Z.of_nat (length (aa_FloatArgs a)) < 65536 /\
  sia_Subject (aa_SignalArgs a) <> ""%string.
Proof.
  unfold validateAggSigArgs.
  destruct (is_zero (aa_FromTS a)) eqn:E1; [done|]. destruct (is_zero (aa_ToTS a)) eqn:E2; [done|].
  destruct (after (aa_FromTS a) (aa_ToTS a)) eqn:E3; [done|].
  destruct (aa_Interval a <? 1) eqn:E4; [done|].
  destruct (too_many_buckets _ _ _) eqn:E5; [done|].
  destruct (maxUint16 <? Z.of_nat (length (aa_FloatArgs a))) eqn:E6; [done|].
  destruct (maxUint16 <? Z.of_nat (length (aa_StringArgs a))); [done|].
  destruct (maxUint16 <? Z.of_nat (length (aa_LocationArgs a))); [done|].
  rewrite or_else_None, first_error_None. intros [Hloc Hsig]. bools.
  split; [done|]. split; [done|]. split; [lia|]. split; [lia|]. split; [|split; [|split]].
  - intros Hmax.
    assert (Hb : (aa_ToTS a - aa_FromTS a) / Microsecond < maxAggBuckets * (aa_Interval a + 1)).
    { revert E5. unfold too_many_buckets.
      rewrite time_sub_exact by (unfold in_int64, min_int64, max_int64 in *; lia).
      rewrite Z.quot_div_nonneg by (unfold Microsecond, Nanosecond; lia).
      set (w := (aa_ToTS a - aa_FromTS a) / Microsecond). intros E5.
      assert (0 <= w) by (apply Z.div_pos; [lia|done]).
      rewrite Z.quot_div_nonneg in E5 by (done || lia).
      assert (Hm : 0 < maxAggBuckets) by done.
      destruct (Z.ltb_spec 0 w); [|lia]. simpl in E5. apply Z.ltb_ge in E5.
      pose proof (Z.mul_succ_div_gt w maxAggBuckets Hm). nia. }
    split; [done|]. apply Z.div_lt_upper_bound; [lia|]. unfold maxAggBuckets in *. nia.
  - intros la fil Hin. rewrite Forall_forall in Hloc. by apply validateLocFilter_ok, (Hloc (la, Some fil)).
  - unfold maxUint16 in *. lia.
  - unfold validateSignalArgs in Hsig. destruct (String.eqb_spec (sia_Subject (aa_SignalArgs a)) ""); done.
Qed.

(** A request of 199,999 one-microsecond buckets is accepted. *)
Example validateAggSigArgs_spec_witness :
  let a := mkAggregatedSignalArgs (mkSignalArgs None "did") 0 (199999 * Microsecond) 1 [] [] [] in
  validateAggSigArgs (fun _ => true) (Some a) = None /\
  (aa_ToTS a - aa_FromTS a) / Microsecond / aa_Interval a = 199999 /\
  199999 < 2 * maxAggBuckets.
Proof.
  set (a := mkAggregatedSignalArgs (mkSignalArgs None "did") 0 (199999 * Microsecond) 1 [] [] []).
  intros a'. assert (H : validateAggSigArgs (fun _ => true) (Some a) = None) by (vm_compute; reflexivity).
  split; [exact H|]. split; [vm_compute; reflexivity|].
  destruct (validateAggSigArgs_spec (fun _ => true) a H) as (_ & _ & _ & _ & Hb & _).
  destruct Hb as [_ Hb]; [vm_compute; discriminate|]. exact Hb.
Defined.
