(* ===== verification/SignalsRepo.v ===== *)
(** * internal/repositories/signals.go

    The signal, event, snapshot and summary queries of the repository: rows of
    the backend grouped into per-bucket maps, summaries folded, snapshots
    filtered. The bucket grouping is proved to produce one entry per timestamp,
    holding for each alias the value of its row. *)

From stdpp Require Import pretty.
From S2P Require Import Prelude Model SegRepo Validate.

(** ** Rows (model-garage vss) and results (graph/model) *)

Record vssSignal := mkVssSignal {
  vs_Name : string;
  vs_Timestamp : Z;
  vs_ValueNumber : float64;
  vs_ValueString : string;
  vs_ValueLocation : vssLocation;
}.

Record vssEvent := mkVssEvent {
  ve_Timestamp : Z;
  ve_Name : string;
  ve_Source : string;
  ve_DurationNs : Z;
  ve_Metadata : string;
  ve_Tags : list string;
}.

Record SignalAggregations := mkSignalAggregations {
  sg_Timestamp : Z;
  ValueNumbers : gmap string float64;
  ValueStrings : gmap string string;
  ValueLocations : gmap string vssLocation;
}.

Record SignalDataSummary := mkSignalDataSummary {
  sds_Name : string;
  sds_NumberOfSignals : Z;
  sds_FirstSeen : Z;
  sds_LastSeen : Z;
}.

(** [qtypes.EventSummary] and [model.EventDataSummary]: the same four fields. *)
Record EventSummary := mkEventSummary {
  es_Name : string;
  es_Count : Z;
  es_FirstSeen : Z;
  es_LastSeen : Z;
}.

Record DataSummary := mkDataSummary {
  ds_NumberOfSignals : Z;
  ds_FirstSeen : Z;
  ds_LastSeen : Z;
  ds_AvailableSignals : list string;
  ds_SignalDataSummary : list SignalDataSummary;
  ds_EventDataSummary : list EventSummary;
}.

Record modelEvent := mkModelEvent {
  me_Timestamp : Z;
  me_Name : string;
  me_Source : string;
  me_DurationNs : Z;
  me_Metadata : option string;
}.

Record LatestSignal := mkLatestSignal {
  ls_Name : string;
  ls_Timestamp : Z;
  ls_ValueNumber : option float64;
  ls_ValueString : option string;
  ls_ValueLocation : option Location;
}.

Record SignalsSnapshotResponse := mkSnapshot {
  ssr_LastSeen : option Z;
  ssr_Signals : list LatestSignal;
}.

Definition LastSeenField : string := "lastSeen".
Definition ApproximateCoordinatesField : string := "currentLocationApproximateCoordinates".
Definition unixEpoch : Z := 0.

(** The backend calls of this file ([Backend]). *)
Class SignalBackend := {
  sb_GetAggregatedSignals : string -> AggregatedSignalArgs -> result db_error (list AggSignal);
  sb_GetAvailableSignals : string -> option SignalFilter -> result db_error (list string);
  sb_GetAllLatestSignals : string -> option SignalFilter -> result db_error (list vssSignal);
  sb_GetLatestSignals : string -> LatestSignalsArgs -> result db_error (list vssSignal);
  sb_GetSignalSummaries : string -> option SignalFilter -> result db_error (list SignalDataSummary);
  sb_GetEventSummaries : string -> result db_error (list EventSummary);
  sb_GetEvents : string -> Z -> Z -> option EventFilter -> result db_error (list vssEvent);
}.

(** ** GetSignal *)

Definition new_aggs (ts : Z) : SignalAggregations := mkSignalAggregations ts ∅ ∅ ∅.

Definition index_error (kind : string) (n : nat) (i : Z) : api_error :=
  PlainError ("only " +:+ pretty n +:+ " " +:+ kind +:+
              " signal requests, but the query returned index " +:+ pretty i)%string.

(** The [switch]: the value stored in the current bucket. *)
Definition store_value (a : AggregatedSignalArgs) (curr : SignalAggregations) (s : AggSignal)
  : result api_error SignalAggregations :=
  let i := Z.to_nat (as_SignalIndex s) in
  match as_SignalType s with
  | FloatType =>
      match aa_FloatArgs a !! i with
      | None => Err (index_error "float" (length (aa_FloatArgs a)) (as_SignalIndex s))
      | Some arg => Ok (mkSignalAggregations (sg_Timestamp curr)
                          (<[fsa_Alias arg := as_ValueNumber s]> (ValueNumbers curr))
                          (ValueStrings curr) (ValueLocations curr))
      end
  | StringType =>
      match aa_StringArgs a !! i with
      | None => Err (index_error "string" (length (aa_StringArgs a)) (as_SignalIndex s))
      | Some arg => Ok (mkSignalAggregations (sg_Timestamp curr) (ValueNumbers curr)
                          (<[stsa_Alias arg := as_ValueString s]> (ValueStrings curr))
                          (ValueLocations curr))
      end
  | LocType =>
      match aa_LocationArgs a !! i with
      | None => Err (index_error "location" (length (aa_LocationArgs a)) (as_SignalIndex s))
      | Some arg => Ok (mkSignalAggregations (sg_Timestamp curr) (ValueNumbers curr)
                          (ValueStrings curr)
                          (<[lsa_Alias arg.1 := as_ValueLocation s]> (ValueLocations curr)))
      end
  | FieldOther n =>
      Err (PlainError ("scanned a row with unrecognized type number " +:+ pretty n)%string)
  end.

(** The loop; [done] are the finished buckets, [curr] is [currAggs] (nil at first,
    when storing a value panics), [lastTS] starts at the zero time. *)
Fixpoint signal_loop (a : AggregatedSignalArgs) (done_ : list SignalAggregations)
    (curr : option SignalAggregations) (lastTS : Z) (rows : list AggSignal)
  : result api_error (list SignalAggregations) :=
  match rows with
  | [] => Ok (done_ ++ option_list curr)
  | s :: rest =>
      if negb (tequal lastTS (as_Timestamp s)) then
        let* c := store_value a (new_aggs (as_Timestamp s)) s in
        signal_loop a (done_ ++ option_list curr) (Some c) (as_Timestamp s) rest
      else
        match curr with
        | Some c0 =>
            let* c := store_value a c0 s in
            signal_loop a done_ (Some c) lastTS rest
        | None =>
            (* an index error is returned before the nil bucket is touched *)
            let* _ := store_value a (new_aggs lastTS) s in Err Panic
        end
  end.

Definition GetSignal {sb : SignalBackend} (dec : string -> bool)
    (aggArgs : option AggregatedSignalArgs) : result api_error (list SignalAggregations) :=
  match validateAggSigArgs dec aggArgs, aggArgs with
  | Some e, _ => Err (BadRequest ("invalid argument: " +:+ e)%string)
  | None, None => Err Panic
  | None, Some a =>
      let* signals := map_err handleDBError
                        (sb_GetAggregatedSignals (sia_Subject (aa_SignalArgs a)) a) in
      signal_loop a [] None zero_time signals
  end.

(** ** Availability, summary, events *)

Definition GetAvailableSignals {sb : SignalBackend} (queryableSignals : gset string)
    (subject : string) (filter_ : option SignalFilter) : result api_error (list string) :=
  let* allSignals := map_err handleDBError (sb_GetAvailableSignals subject filter_) in
  Ok (filter (fun s => s ∈ queryableSignals) allSignals).

Definition foldTimeRange (minTime maxTime first_ last_ : Z) : Z * Z :=
  (if before first_ minTime then first_ else minTime,
   if after last_ maxTime then last_ else maxTime).

(** [uint64] addition. *)
Definition addU64 (x y : Z) : Z := (x + y) mod 2 ^ 64.

(** 1900-01-01 00:00 UTC. *)
Definition year1900 : Z := -2208988800 * Second.

Definition fold_ranges {A} (first_ last_ : A -> Z) (r : Z * Z) (l : list A) : Z * Z :=
  fold_left (fun r x => foldTimeRange r.1 r.2 (first_ x) (last_ x)) l r.

Definition GetDataSummary {sb : SignalBackend} (now : Z) (subject : string)
    (filter_ : option SignalFilter) : result api_error DataSummary :=
  let* signals := map_err handleDBError (sb_GetSignalSummaries subject filter_) in
  let* events := map_err handleDBError (sb_GetEventSummaries subject) in
  let totalCount := fold_left (fun n s => addU64 n (sds_NumberOfSignals s)) signals 0 in
  let r1 := fold_ranges sds_FirstSeen sds_LastSeen (now, year1900) signals in
  let r2 := fold_ranges es_FirstSeen es_LastSeen r1 events in
  Ok (mkDataSummary totalCount r2.1 r2.2 (map sds_Name signals) signals events).

Definition to_model_event (e : vssEvent) : modelEvent :=
  mkModelEvent (ve_Timestamp e) (ve_Name e) (ve_Source e) (ve_DurationNs e)
    (if String.eqb (ve_Metadata e) "" then None else Some (ve_Metadata e)).

Definition GetEvents {sb : SignalBackend} (did : string) (from to : Z)
    (filter_ : option EventFilter) : result api_error (list modelEvent) :=
  match validateEventArgs did from to filter_ with
  | Some e => Err (BadRequest ("invalid argument: " +:+ e)%string)
  | None =>
      let* allEvents := map_err handleDBError (sb_GetEvents did from to filter_) in
      Ok (map to_model_event allEvents)
  end.

(** ** Latest values *)

Definition f64_neqb (x y : float64) : bool := negb (f64_eqb x y).

Definition signalToLatestSignal (s : vssSignal) : LatestSignal :=
  let loc := vs_ValueLocation s in
  if f64_neqb (vl_Latitude loc) f64_zero || f64_neqb (vl_Longitude loc) f64_zero then
    mkLatestSignal (vs_Name s) (vs_Timestamp s) None None
      (Some (mkLocation (vl_Latitude loc) (vl_Longitude loc) (vl_HDOP loc)))
  else if negb (String.eqb (vs_ValueString s) "") then
    mkLatestSignal (vs_Name s) (vs_Timestamp s) None (Some (vs_ValueString s)) None
  else mkLatestSignal (vs_Name s) (vs_Timestamp s) (Some (vs_ValueNumber s)) None None.

Section latest.
(** [h3.LatLngToCell] and [h3.CellToLatLng] (a third-party library). *)
Context {Cell : Type} (LatLngToCell : float64 -> float64 -> Z -> option Cell)
        (CellToLatLng : Cell -> option (float64 * float64)).

Definition approximateLocationResolution : Z := 6.

Definition GetApproximateLoc (lat long : float64) : option (float64 * float64) :=
  cell ← LatLngToCell lat long approximateLocationResolution; CellToLatLng cell.

Definition is_last_seen (s : vssSignal) : bool :=
  String.eqb (vs_Name s) LastSeenField && negb (tequal (vs_Timestamp s) unixEpoch).

(** The loop of [GetSignalSnapshot]: last seen, signals, raw location. *)
Fixpoint snapshot_loop (queryable : gset string) (signals : list vssSignal)
  : option Z * list LatestSignal * option vssSignal :=
  match signals with
  | [] => (None, [], None)
  | s :: rest =>
      let '(seen, out, raw) := snapshot_loop queryable rest in
      if is_last_seen s then (match seen with None => Some (vs_Timestamp s) | _ => seen end, out, raw)
      else if decide (vs_Name s ∈ queryable) then
        (seen, signalToLatestSignal s :: out,
         match raw with
         | Some _ => raw
         | None => if String.eqb (vs_Name s) FieldCurrentLocationCoordinates then Some s else None
         end)
      else (seen, out, raw)
  end.

Definition GetSignalSnapshot {sb : SignalBackend} (queryable : gset string) (subject : string)
    (filter_ : option SignalFilter) : result api_error SignalsSnapshotResponse :=
  let* signals := map_err handleDBError (sb_GetAllLatestSignals subject filter_) in
  let '(seen, out, raw) := snapshot_loop queryable signals in
  let approx :=
    s ← raw;
    let loc := vs_ValueLocation s in
    '(lat, lng) ← GetApproximateLoc (vl_Latitude loc) (vl_Longitude loc);
    Some (mkLatestSignal ApproximateCoordinatesField (vs_Timestamp s) None None
            (Some (mkLocation lat lng (vl_HDOP loc)))) in
  Ok (mkSnapshot seen (out ++ option_list approx)).

(** The generated collection type and its setters ([signalSetter_gen.go]). *)
Context {Coll : Type} (emptyColl : Coll) (setLastSeen : Z -> Coll -> Coll)
        (SetCollectionField : vssSignal -> Coll -> Coll)
        (getLocation : Coll -> option SignalLocation)
        (setApproximate : SignalLocation -> Coll -> Coll).

(** [CurrentLocationCoordinates] is nil ([None]) or points to a location with a
    value; one without a value panics, as the code's dereference does. *)
Definition setApproximateLocationInCollection (coll : Coll) : result api_error Coll :=
  match getLocation coll with
  | None => Ok coll
  | Some l =>
      let* v := deref (sl_Value l) in
      match GetApproximateLoc (Latitude v) (Longitude v) with
      | None => Ok coll
      | Some (lat, lng) =>
          Ok (setApproximate (mkSignalLocation (sl_Timestamp l)
                                (Some (mkLocation lat lng (Hdop v)))) coll)
      end
  end.

Definition GetSignalLatest {sb : SignalBackend} (dec : string -> bool)
    (latestArgs : option LatestSignalsArgs) : result api_error Coll :=
  match validateLatestSigArgs dec latestArgs, latestArgs with
  | Some e, _ => Err (BadRequest ("invalid argument: " +:+ e)%string)
  | None, None => Err Panic
  | None, Some a =>
      let* signals := map_err handleDBError (sb_GetLatestSignals (sia_Subject (la_SignalArgs a)) a) in
      let coll := fold_left (fun c s =>
        if is_last_seen s then setLastSeen (vs_Timestamp s) c else SetCollectionField s c)
        signals emptyColl in
      setApproximateLocationInCollection coll
  end.
End latest.

(** ** The buckets *)

Fixpoint fold_store (a : AggregatedSignalArgs) (c : SignalAggregations) (rows : list AggSignal)
  : result api_error SignalAggregations :=
  match rows with
  | [] => Ok c
  | s :: rest => let* c' := store_value a c s in fold_store a c' rest
  end.

(** The row's index and type are among the requested ones. *)
Definition row_ok (a : AggregatedSignalArgs) (s : AggSignal) : Prop :=
  match as_SignalType s with
  | FloatType => is_Some (aa_FloatArgs a !! Z.to_nat (as_SignalIndex s))
  | StringType => is_Some (aa_StringArgs a !! Z.to_nat (as_SignalIndex s))
  | LocType => is_Some (aa_LocationArgs a !! Z.to_nat (as_SignalIndex s))
  | FieldOther _ => False
  end.

Lemma store_value_ok a c s :
  row_ok a s -> exists c', store_value a c s = Ok c' /\ sg_Timestamp c' = sg_Timestamp c.
Proof.
  unfold row_ok, store_value. destruct (as_SignalType s); [| | |done];
    intros [arg ->]; by eexists.
Qed.

Definition rows_at (ts : Z) (rows : list AggSignal) : list AggSignal :=
  filter (fun s => as_Timestamp s = ts) rows.

(** What the loop adds to [done_]: the bucket under construction, then one
    bucket per later timestamp. *)
Definition buckets_ok (a : AggregatedSignalArgs) (c : SignalAggregations) (rows : list AggSignal)
    (b0 : SignalAggregations) (tl : list SignalAggregations) : Prop :=
  sg_Timestamp b0 = sg_Timestamp c /\
  fold_store a c (rows_at (sg_Timestamp c) rows) = Ok b0 /\
  Forall (fun b => sg_Timestamp c < sg_Timestamp b /\
            fold_store a (new_aggs (sg_Timestamp b)) (rows_at (sg_Timestamp b) rows) = Ok b) tl /\
  StronglySorted (fun x y => sg_Timestamp x < sg_Timestamp y) tl /\
  (forall ts, (exists b, b ∈ tl /\ sg_Timestamp b = ts) <->
              (exists s, s ∈ rows /\ as_Timestamp s = ts /\ ts <> sg_Timestamp c)).

Lemma rows_at_none ts rows :
  Forall (fun s => ts < as_Timestamp s) rows -> rows_at ts rows = [].
Proof.
  intros H. apply filter_none. eapply Forall_impl; [exact H|]. simpl. lia.
Qed.

Lemma signal_loop_ok a done_ c rows :
  Forall (row_ok a) rows -> StronglySorted (fun x y => as_Timestamp x <= as_Timestamp y) rows ->
  Forall (fun s => sg_Timestamp c <= as_Timestamp s) rows ->
  exists b0 tl, signal_loop a done_ (Some c) (sg_Timestamp c) rows = Ok (done_ ++ b0 :: tl) /\
    buckets_ok a c rows b0 tl.
Proof.
  intros Hok Hs. revert done_ c; induction Hs as [|s rows Hs IH Hall]; intros done_ c Hge.
  { exists c, []. split; [done|]. split; [done|]. split; [done|]. split; [constructor|].
    split; [constructor|]. intros ts. split; [by intros (b & Hb%elem_of_nil & _)|].
    by intros (s & Hs%elem_of_nil & _). }
  inversion Hok as [|? ? Hrow Hok']; subst. inversion Hge as [|? ? Hle Hge']; subst.
  cbn [signal_loop]. unfold tequal. destruct (Z.eqb_spec (sg_Timestamp c) (as_Timestamp s)) as [Eq|Ne];
    simpl negb; cbv iota.
  - destruct (store_value_ok a c s Hrow) as (c' & Hc' & Ets). rewrite Hc'. cbn [result_bind].
    rewrite <- Ets. destruct (IH Hok' done_ c') as (b0 & tl & -> & H1 & H2 & H3 & H4 & H5).
    { by rewrite Ets. }
    exists b0, tl. split; [done|]. rewrite Ets in *. split; [done|]. split.
    { unfold rows_at. rewrite filter_cons_True by done. cbn [fold_store]. by rewrite Hc'. }
    split; [|split; [done|]].
    + eapply Forall_impl; [exact H3|]. intros b [Hlt Hb]. split; [done|].
      unfold rows_at. rewrite filter_cons_False by lia. exact Hb.
    + intros ts. rewrite H5. split; intros (x & Hx & Hts & Hne).
      * exists x. split; [by right|done].
      * apply elem_of_cons in Hx as [->|Hx]; [congruence|]. by exists x.
  - destruct (store_value_ok a (new_aggs (as_Timestamp s)) s Hrow) as (c' & Hc' & Ets).
    simpl in Ets. rewrite Hc'. cbn [result_bind]. change (option_list (Some c)) with [c].
    destruct (IH Hok' (done_ ++ [c]) c') as (b0 & tl & E & H1 & H2 & H3 & H4 & H5).
    { by rewrite Ets. }
    rewrite Ets in *. exists c, (b0 :: tl). rewrite E. split; [by rewrite <- app_assoc|].
    assert (Hlt : sg_Timestamp c < as_Timestamp s) by lia.
    split; [done|]. split; [|split; [|split]].
    + rewrite rows_at_none; [done|]. constructor; [done|].
      eapply Forall_impl; [exact Hall|]. simpl. lia.
    + constructor.
      * rewrite H1. split; [done|]. unfold rows_at. rewrite filter_cons_True by done.
        cbn [fold_store]. by rewrite Hc'.
      * eapply Forall_impl; [exact H3|]. intros b [Hb Hf]. split; [lia|].
        unfold rows_at. rewrite filter_cons_False by lia. exact Hf.
    + constructor; [done|]. rewrite H1. eapply Forall_impl; [exact H3|]. by intros b [Hb _].
    + intros ts. split.
      * intros (b & [->|Hb]%elem_of_cons & <-); [exists s; rewrite H1; split; [by left|lia]|].
        destruct (proj1 (H5 (sg_Timestamp b)) ltac:(by exists b)) as (x & Hx & Ex & Hne).
        exists x. rewrite Forall_forall in Hall. specialize (Hall x Hx).
        split; [by right|lia].
      * intros (x & [->|Hx]%elem_of_cons & <- & Hne); [by exists b0; split; [left|]|].
        destruct (decide (as_Timestamp x = as_Timestamp s)) as [Ex|Ex].
        { exists b0. split; [by left|]. by rewrite H1, Ex. }
        destruct (proj2 (H5 (as_Timestamp x)) ltac:(by exists x)) as (b & Hb & Eb).
        exists b. split; [by right|done].
Qed.

(** For rows ordered by timestamp, after the zero time, whose types and indices
    were requested, the grouping loop neither fails nor panics: one bucket per
    distinct timestamp, each the fold of its own rows. *)
Lemma signal_loop_buckets a rows :
  Forall (row_ok a) rows -> StronglySorted (fun x y => as_Timestamp x <= as_Timestamp y) rows ->
  Forall (fun s => zero_time < as_Timestamp s) rows ->
  exists out, signal_loop a [] None zero_time rows = Ok out /\
    StronglySorted (fun x y => sg_Timestamp x < sg_Timestamp y) out /\
    (forall ts, (exists b, b ∈ out /\ sg_Timestamp b = ts) <->
                (exists s, s ∈ rows /\ as_Timestamp s = ts)) /\
    (forall b, b ∈ out ->
       fold_store a (new_aggs (sg_Timestamp b)) (rows_at (sg_Timestamp b) rows) = Ok b).
Proof.
  intros Hok Hs Hz. destruct rows as [|s rows].
  { exists []. split; [done|]. split; [constructor|]. split.
    - intros ts. split; [by intros (b & Hb%elem_of_nil & _)|by intros (s & Hs'%elem_of_nil & _)].
    - intros b Hb. by apply elem_of_nil in Hb. }
  inversion Hok as [|? ? Hrow Hok']; subst. inversion Hz as [|? ? Hz1 _]; subst.
  inversion Hs as [|? ? Hs' Hall]; subst. cbn [signal_loop].
  unfold tequal. replace (zero_time =? as_Timestamp s) with false by (symmetry; apply Z.eqb_neq; lia).
  simpl negb; cbv iota.
  destruct (store_value_ok a (new_aggs (as_Timestamp s)) s Hrow) as (c & Hc & Ets). simpl in Ets.
  rewrite Hc. cbn [result_bind]. change ([] ++ option_list None) with (@nil SignalAggregations).
  destruct (signal_loop_ok a [] c rows Hok' Hs') as (b0 & tl & E & H1 & H2 & H3 & H4 & H5);
    [by rewrite Ets|]. rewrite Ets in *. rewrite E. cbn [app].
  exists (b0 :: tl). split; [done|]. split; [|split].
  - constructor; [done|]. rewrite H1. eapply Forall_impl; [exact H3|]. by intros b [Hb _].
  - intros ts. split.
    + intros (b & [->|Hb]%elem_of_cons & <-); [exists s; split; [by left|done]|].
      destruct (proj1 (H5 (sg_Timestamp b)) ltac:(by exists b)) as (x & Hx & Ex & _).
      exists x. split; [by right|done].
    + intros (x & [->|Hx]%elem_of_cons & <-); [exists b0; split; [by left|done]|].
      destruct (decide (as_Timestamp x = as_Timestamp s)) as [Ex|Ex].
      { exists b0. split; [by left|]. by rewrite H1, Ex. }
      destruct (proj2 (H5 (as_Timestamp x)) ltac:(by exists x)) as (b & Hb & Eb).
      exists b. split; [by right|done].
  - intros b [->|Hb]%elem_of_cons.
    + rewrite H1. unfold rows_at. rewrite filter_cons_True by done. cbn [fold_store]. by rewrite Hc.
    + rewrite Forall_forall in H3. destruct (H3 b Hb) as [Hlt Hf].
      unfold rows_at. rewrite filter_cons_False by lia. exact Hf.
Qed.

Definition signal_demo_backend (rows : list AggSignal) : SignalBackend := {|
  sb_GetAggregatedSignals _ _ := Ok rows;
  sb_GetAvailableSignals _ _ := Ok [];
  sb_GetAllLatestSignals _ _ := Ok [];
  sb_GetLatestSignals _ _ := Ok [];
  sb_GetSignalSummaries _ _ := Ok [];
  sb_GetEventSummaries _ := Ok [];
  sb_GetEvents _ _ _ _ := Ok [];
|}.
