(* ===== verification/Limits.v ===== *)
(** * internal/limits: request limits

    The per-subject in-flight limiter and the process-wide semaphore as
    transition systems over the requests in progress, with the code of
    [acquire], [release] and the middleware as the steps; any interleaving of
    requests is a sequence of steps. Proved for every reachable state: the
    bookkeeping equals the requests actually running and never exceeds the
    limit. *)

From stdpp Require Import fin_maps relations.
From S2P Require Import Prelude.

(** ** ConcurrencyLimiter (concurrency.go) *)

(** [c.inflight[key]] of a Go map reads 0 for an absent key. *)
Definition inflight_at (m : gmap string Z) (key : string) : Z := default 0 (m !! key).

(** [acquire]: the mutex makes it one step. *)
Definition acquire (max : Z) (inflight : gmap string Z) (key : string) : bool * gmap string Z :=
  if max <=? inflight_at inflight key then (false, inflight)
  else (true, <[key := wrap64 (inflight_at inflight key + 1)]> inflight).

Definition release (inflight : gmap string Z) (key : string) : gmap string Z :=
  if inflight_at inflight key <=? 1 then delete key inflight
  else <[key := inflight_at inflight key - 1]> inflight.

(** What the wrapped handler does on entry: serve unlimited, reject with 429, or
    serve and release on return. *)
Inductive admission := Unlimited | TooManyRequests | Accepted.

Definition Middleware_enter (max : Z) (inflight : gmap string Z) (key : string)
  : admission * gmap string Z :=
  if max <=? 0 then (Unlimited, inflight)
  else if String.eqb key "" then (Unlimited, inflight)
  else
    let '(ok, inflight') := acquire max inflight key in
    if ok then (Accepted, inflight') else (TooManyRequests, inflight').

(** The limiter with the requests it admitted and that are still being served:
    request number to key. *)
Record limiter_state := mkLimiterState {
  inflight : gmap string Z;
  serving : gmap nat string;
}.

Definition limiter_init : limiter_state := mkLimiterState ∅ ∅.

(** A request arrives; a request being served returns (or panics: the release is
    deferred). *)
Inductive limiter_step (max : Z) : limiter_state -> limiter_state -> Prop :=
  | step_admit s id key m :
      serving s !! id = None ->
      Middleware_enter max (inflight s) key = (Accepted, m) ->
      limiter_step max s (mkLimiterState m (<[id := key]> (serving s)))
  | step_other s key a m :
      Middleware_enter max (inflight s) key = (a, m) -> a <> Accepted ->
      limiter_step max s (mkLimiterState m (serving s))
  | step_return s id key :
      serving s !! id = Some key ->
      limiter_step max s (mkLimiterState (release (inflight s) key) (delete id (serving s))).

(** ** GlobalLimiter (global.go) *)

Definition globalAcquireWait : Z := 100 * Millisecond.

(** Between the two selects of [acquire] a request waits for a slot. *)
Inductive phase := Waiting | Running.

Record global_state := mkGlobalState {
  sem : Z;
  phases : gmap nat phase;
}.

Definition global_init : global_state := mkGlobalState 0 ∅.

(** The first, non-blocking select: a slot is taken at once when there is one. *)
Definition acquire_fast (max : Z) (sem : Z) : option Z :=
  if sem <? max then Some (sem + 1) else None.

(** The channel of capacity [max] holds [sem] tokens; the second select takes a
    slot when there is one, or gives up on the timer or the context at any time. *)
Inductive global_step (max : Z) : global_state -> global_state -> Prop :=
  | gstep_fast s id n :
      phases s !! id = None -> acquire_fast max (sem s) = Some n ->
      global_step max s (mkGlobalState n (<[id := Running]> (phases s)))
  | gstep_wait s id :
      phases s !! id = None -> acquire_fast max (sem s) = None ->
      global_step max s (mkGlobalState (sem s) (<[id := Waiting]> (phases s)))
  | gstep_slot s id n :
      phases s !! id = Some Waiting -> acquire_fast max (sem s) = Some n ->
      global_step max s (mkGlobalState n (<[id := Running]> (phases s)))
  | gstep_shed s id :
      phases s !! id = Some Waiting ->
      global_step max s (mkGlobalState (sem s) (delete id (phases s)))
  | gstep_return s id :
      phases s !! id = Some Running ->
      global_step max s (mkGlobalState (sem s - 1) (delete id (phases s))).

(** ** Limiter (middleware.go) *)

Definition defaultMaxRequestDuration : Z := 5 * Minute.

Section timeout.
(** [time.ParseDuration] and the [%q] verb. *)
Context (ParseDuration : string -> result string Z) (quote : string -> string).

Definition Limiter_New (maxRequestDuration : string) : result string Z :=
  if String.eqb maxRequestDuration "" then Ok defaultMaxRequestDuration
  else
    match ParseDuration maxRequestDuration with
    | Err e => Err ("couldn't parse duration " +:+ quote maxRequestDuration +:+ ": " +:+ e)%string
    | Ok mrd =>
        if mrd <=? 0 then Err ("duration " +:+ maxRequestDuration +:+ " was not positive")%string
        else Ok mrd
    end.
End timeout.

(** ** Counting the requests of a key *)

Definition count_of {A} `{EqDecision A} (m : gmap nat A) (x : A) : nat :=
  size (filter (fun p => p.2 = x) m).

Lemma count_insert {A} `{EqDecision A} (m : gmap nat A) i x y :
  m !! i = None -> count_of (<[i := x]> m) y = if decide (x = y) then S (count_of m y) else count_of m y.
Proof.
  intros Hi. unfold count_of. case_decide as E.
  - rewrite map_filter_insert_True by done. rewrite map_size_insert_None; [done|].
    apply map_lookup_filter_None. by left.
  - rewrite map_filter_insert_False by done. by rewrite delete_id.
Qed.

Lemma count_delete {A} `{EqDecision A} (m : gmap nat A) i x y :
  m !! i = Some x -> count_of m y = if decide (x = y) then S (count_of (delete i m) y) else count_of (delete i m) y.
Proof.
  intros Hi. rewrite <- (insert_delete_id m i x Hi) at 1. apply count_insert. apply lookup_delete_eq.
Qed.

(** ** Invariants *)

Record limiter_inv (max : Z) (s : limiter_state) : Prop := {
  inv_count key : inflight_at (inflight s) key = Z.of_nat (count_of (serving s) key);
  inv_positive key n : inflight s !! key = Some n -> 0 < n;
  inv_bound key : Z.of_nat (count_of (serving s) key) <= Z.max 0 max;
}.

Lemma inflight_at_insert m key n key' :
  inflight_at (<[key := n]> m) key' = if decide (key = key') then n else inflight_at m key'.
Proof.
  unfold inflight_at. case_decide as E; [by subst; rewrite lookup_insert_eq|by rewrite lookup_insert_ne].
Qed.

Lemma inflight_at_delete m key key' :
  inflight_at (delete key m) key' = if decide (key = key') then 0 else inflight_at m key'.
Proof.
  unfold inflight_at. case_decide as E; [by subst; rewrite lookup_delete_eq|by rewrite lookup_delete_ne].
Qed.

Lemma Middleware_enter_cases max m key a m' :
  Middleware_enter max m key = (a, m') ->
  (a = Accepted /\ 0 < max /\ key <> ""%string /\ inflight_at m key < max /\
   m' = <[key := wrap64 (inflight_at m key + 1)]> m) \/
  (a <> Accepted /\ m' = m /\ (a = TooManyRequests -> 0 < max <= inflight_at m key)).
Proof.
  unfold Middleware_enter, acquire.
  destruct (Z.leb_spec max 0); [by intros [= <- <-]; right|].
  destruct (String.eqb_spec key ""); [by intros [= <- <-]; right|].
  destruct (Z.leb_spec max (inflight_at m key)); intros [= <- <-]; [right|left]; done.
Qed.

Lemma limiter_step_inv max s s' :
  max <= max_int64 -> limiter_inv max s -> limiter_step max s s' -> limiter_inv max s'.
Proof.
  intros Hmax [Hc Hp Hb] Hstep. inversion Hstep as [? id key m Hid He|? key a m He Ha|? id key Hid]; subst.
  - apply Middleware_enter_cases in He as [(_ & H0 & _ & Hlt & ->)|(Hn & _)]; [|done].
    pose proof (Hc key) as Hk. rewrite wrap64_id by (unfold in_int64, min_int64, max_int64 in *; lia).
    split; simpl.
    + intros k. rewrite inflight_at_insert, (count_insert _ _ _ _ Hid).
      case_decide; [subst; lia|apply Hc].
    + intros k n. destruct (decide (key = k)) as [->|E].
      * rewrite lookup_insert_eq. intros [= <-]. lia.
      * rewrite lookup_insert_ne by done. apply Hp.
    + intros k. rewrite (count_insert _ _ _ _ Hid). case_decide; [subst; lia|apply Hb].
  - apply Middleware_enter_cases in He as [(-> & _)|(_ & -> & _)]; done.
  - pose proof (Hc key) as Hk. rewrite (count_delete _ _ _ key Hid) in Hk.
    rewrite decide_True in Hk by done.
    assert (Hcd : forall k, Z.of_nat (count_of (delete id (serving s)) k) =
              inflight_at (inflight s) k - (if decide (key = k) then 1 else 0)).
    { intros k. rewrite (Hc k), (count_delete _ _ _ k Hid). case_decide; lia. }
    split; simpl.
    + intros k. rewrite Hcd. unfold release. destruct (Z.leb_spec (inflight_at (inflight s) key) 1).
      * rewrite inflight_at_delete. case_decide; [subst; lia|lia].
      * rewrite inflight_at_insert. case_decide; [subst; lia|lia].
    + intros k n. unfold release. destruct (Z.leb_spec (inflight_at (inflight s) key) 1) as [Hle|Hgt].
      * intros [_ Hl]%lookup_delete_Some. by eapply Hp.
      * intros [[-> <-]|[_ Hl]]%lookup_insert_Some; [lia|by eapply Hp].
    + intros k. specialize (Hb k). rewrite (count_delete _ _ _ k Hid) in Hb. case_decide; lia.
Qed.

Lemma limiter_reachable_inv max s :
  max <= max_int64 -> rtc (limiter_step max) limiter_init s -> limiter_inv max s.
Proof.
  intros Hmax Hr. remember limiter_init as s0 eqn:E.
  assert (H0 : limiter_inv max s0).
  { subst. split; simpl; [done|done|]. intros key. change (count_of ∅ key) with 0%nat. lia. }
  clear E. induction Hr as [|s0 s1 s2 Hs Hr IH]; [done|]. apply IH. by eapply limiter_step_inv.
Qed.

(** The per-subject limiter, over every interleaving of requests: the
    in-flight count it keeps for a subject is the number of that subject's
    requests being served, at most [max] of them; the map holds an entry only
    for subjects with a request in progress, so it cannot grow with one-off
    callers; and a request is rejected exactly when its subject already has
    [max] requests in progress. *)
Theorem limiter_counts_requests max s key :
  0 < max <= max_int64 -> key <> ""%string ->
  rtc (limiter_step max) limiter_init s ->
  inflight_at (inflight s) key = Z.of_nat (count_of (serving s) key) /\
  Z.of_nat (count_of (serving s) key) <= max /\
  (inflight s !! key = None <-> count_of (serving s) key = 0%nat) /\
  ((Middleware_enter max (inflight s) key).1 = TooManyRequests <->
   Z.of_nat (count_of (serving s) key) = max).
Proof.
  intros Hmax Hkey Hr. destruct (limiter_reachable_inv max s ltac:(lia) Hr) as [Hc Hp Hb].
  specialize (Hc key). specialize (Hb key). split; [done|]. split; [lia|]. split.
  - unfold inflight_at in Hc. destruct (inflight s !! key) as [n|] eqn:E; simpl in Hc.
    + specialize (Hp key n E). split; [done|lia].
    + split; [lia|done].
  - destruct (Middleware_enter max (inflight s) key) as [a m] eqn:E. simpl.
    pose proof E as E'.
    apply Middleware_enter_cases in E as [(-> & _ & _ & Hlt & _)|(Hn & _ & Hrej)].
    + split; [done|lia].
    + destruct a; [|split; [intros Ha; specialize (Hrej Ha); lia|done]|done].
      unfold Middleware_enter in E'. destruct (Z.leb_spec max 0); [lia|].
      destruct (String.eqb_spec key ""); [done|]. destruct (acquire _ _ _) as [[] ?]; done.
Qed.

Example limiter_counts_requests_witness :
  let s := mkLimiterState {["alice"%string := 1]} {[7%nat := "alice"%string]} in
  inflight_at (inflight s) "alice" = 1 /\
  (Middleware_enter 1 (inflight s) "alice").1 = TooManyRequests.
Proof.
  set (s := mkLimiterState {["alice"%string := 1]} {[7%nat := "alice"%string]}).
  assert (Hr : rtc (limiter_step 1) limiter_init s).
  { eapply rtc_once. apply (step_admit 1 limiter_init 7%nat "alice"); [reflexivity|].
    vm_compute. reflexivity. }
  destruct (limiter_counts_requests 1 s "alice" ltac:(vm_compute; split; [reflexivity|discriminate])
              ltac:(discriminate) Hr) as (_ & _ & _ & H).
  split; [vm_compute; reflexivity|]. apply H. vm_compute. reflexivity.
Defined.

(** ** The process-wide limiter *)

#[export] Instance phase_eq_dec : EqDecision phase.
Proof. solve_decision. Defined.

Record global_inv (max : Z) (s : global_state) : Prop := {
  ginv_sem : sem s = Z.of_nat (count_of (phases s) Running);
  ginv_bound : sem s <= max;
}.

Lemma global_step_inv max s s' :
  global_inv max s -> global_step max s s' -> global_inv max s'.
Proof.
  intros [Hs Hb] Hstep.
  inversion Hstep as [? id n Hid Hf|? id Hid Hf|? id n Hid Hf|? id Hid|? id Hid]; subst;
    try (unfold acquire_fast in Hf; destruct (Z.ltb_spec (sem s) max); [injection Hf as <-|done]);
    split; simpl; try lia.
  - rewrite (count_insert _ _ _ _ Hid), decide_True by done. lia.
  - rewrite (count_insert _ _ _ _ Hid), decide_False by done. done.
  - rewrite <- insert_delete_eq, (count_insert _ _ _ _ (lookup_delete_eq _ _)), decide_True by done.
    pose proof (count_delete _ _ _ Running Hid) as Hc. rewrite decide_False in Hc by done. lia.
  - pose proof (count_delete _ _ _ Running Hid) as Hc. rewrite decide_False in Hc by done. lia.
  - pose proof (count_delete _ _ _ Running Hid) as Hc. rewrite decide_True in Hc by done. lia.
Qed.

Lemma global_reachable_inv max s :
  0 < max -> rtc (global_step max) global_init s -> global_inv max s.
Proof.
  intros Hmax Hr. remember global_init as s0 eqn:E.
  assert (H0 : global_inv max s0) by (subst; split; simpl; [done|lia]).
  clear E. induction Hr as [|s0 s1 s2 Hs Hr IH]; [done|]. apply IH. by eapply global_step_inv.
Qed.

(** The process-wide limiter, over every interleaving of arrivals, waits,
    timeouts and returns: the tokens in the channel are exactly the requests
    being served, never more than [max]; returning from a request never blocks
    on an empty channel; and as long as fewer than [max] requests run, an
    arriving or waiting request can be admitted. *)
Theorem global_limiter_bounds max s :
  0 < max -> rtc (global_step max) global_init s ->
  sem s = Z.of_nat (count_of (phases s) Running) /\ sem s <= max /\
  (forall id, phases s !! id = Some Running -> 0 < sem s) /\
  (Z.of_nat (count_of (phases s) Running) < max ->
   forall id, phases s !! id <> Some Running ->
   exists s', global_step max s s' /\ phases s' !! id = Some Running).
Proof.
  intros Hmax Hr. destruct (global_reachable_inv max s Hmax Hr) as [Hs Hb].
  split; [done|]. split; [done|]. split.
  - intros id Hid. rewrite Hs, (count_delete _ _ _ Running Hid), decide_True by done. lia.
  - intros Hlt id Hid. exists (mkGlobalState (sem s + 1) (<[id := Running]> (phases s))).
    assert (Hf : acquire_fast max (sem s) = Some (sem s + 1)).
    { unfold acquire_fast. destruct (Z.ltb_spec (sem s) max); [done|lia]. }
    split; [|by simpl; rewrite lookup_insert_eq].
    destruct (phases s !! id) as [[]|] eqn:E; [by apply gstep_slot|done|by apply gstep_fast].
Qed.

Example global_limiter_bounds_witness :
  let s := mkGlobalState 1 (<[8%nat := Waiting]> (<[7%nat := Running]> ∅)) in
  sem s <= 1 /\ sem s = Z.of_nat (count_of (phases s) Running).
Proof.
  set (s := mkGlobalState 1 (<[8%nat := Waiting]> (<[7%nat := Running]> ∅))).
  assert (Hr : rtc (global_step 1) global_init s).
  { eapply rtc_l; [apply (gstep_fast 1 global_init 7%nat 1); [reflexivity|vm_compute; reflexivity]|].
    eapply rtc_l; [|apply rtc_refl].
    exact (gstep_wait 1 (mkGlobalState 1 (<[7%nat := Running]> ∅)) 8%nat eq_refl eq_refl). }
  destruct (global_limiter_bounds 1 s ltac:(reflexivity) Hr) as (H1 & H2 & _).
  split; [exact H2|exact H1].
Defined.
