(* ===== verification/Base64.v ===== *)
(** * Go's encoding/base64

    The encodings the code uses: [StdEncoding] (padded) for the blob key and
    [RawURLEncoding] (unpadded) for latest-value keys. Bytes are integers below
    256, encoded text is a list of characters. *)

From Stdlib Require Import Ascii String.
From S2P Require Import Prelude.

Definition byte_ok (b : Z) : Prop := 0 <= b < 256.

Definition chars (s : string) : list ascii := list_ascii_of_string s.

Definition encodeStd : list ascii :=
  chars "ABCDEFGHIJKLMNOPQRSTUVWXYZabcdefghijklmnopqrstuvwxyz0123456789+/".
Definition encodeURL : list ascii :=
  chars "ABCDEFGHIJKLMNOPQRSTUVWXYZabcdefghijklmnopqrstuvwxyz0123456789-_".

Definition sym (alphabet : list ascii) (v : Z) : ascii := nth (Z.to_nat v) alphabet "="%char.

Fixpoint find_index (c : ascii) (l : list ascii) : option Z :=
  match l with
  | [] => None
  | x :: rest => if Ascii.eqb c x then Some 0 else i ← find_index c rest; Some (i + 1)
  end.

(** [Encode]: three bytes to four symbols; a rest of one or two bytes to two or
    three, padded or not. *)
Fixpoint encode (alphabet : list ascii) (pad : bool) (src : list Z) : list ascii :=
  match src with
  | b0 :: b1 :: b2 :: rest =>
      sym alphabet (b0 / 4) :: sym alphabet (b0 mod 4 * 16 + b1 / 16) ::
      sym alphabet (b1 mod 16 * 4 + b2 / 64) :: sym alphabet (b2 mod 64) ::
      encode alphabet pad rest
  | [b0; b1] =>
      [sym alphabet (b0 / 4); sym alphabet (b0 mod 4 * 16 + b1 / 16); sym alphabet (b1 mod 16 * 4)] ++
      (if pad then ["="%char] else [])
  | [b0] =>
      [sym alphabet (b0 / 4); sym alphabet (b0 mod 4 * 16)] ++
      (if pad then ["="%char; "="%char] else [])
  | [] => []
  end.

(** [DecodeString] skips carriage returns and line feeds. *)
Definition strip_newlines (s : list ascii) : list ascii :=
  List.filter (fun c => negb (Ascii.eqb c "010" || Ascii.eqb c "013")) s.

(** Quanta of four symbols; padding only in the last one. [None] is the error. *)
Fixpoint decode_quanta (alphabet : list ascii) (pad : bool) (s : list ascii) : option (list Z) :=
  match s with
  | [] => Some []
  | c0 :: c1 :: c2 :: c3 :: rest =>
      v0 ← find_index c0 alphabet;
      v1 ← find_index c1 alphabet;
      match find_index c2 alphabet, find_index c3 alphabet with
      | Some v2, Some v3 =>
          tl ← decode_quanta alphabet pad rest;
          Some ((v0 * 4 + v1 / 16) :: (v1 mod 16 * 16 + v2 / 4) :: (v2 mod 4 * 64 + v3) :: tl)
      | Some v2, None =>
          if pad && Ascii.eqb c3 "=" && bool_decide (rest = [])
          then Some [v0 * 4 + v1 / 16; v1 mod 16 * 16 + v2 / 4] else None
      | None, _ =>
          if pad && Ascii.eqb c2 "=" && Ascii.eqb c3 "=" && bool_decide (rest = [])
          then Some [v0 * 4 + v1 / 16] else None
      end
  | [c0; c1; c2] =>
      if pad then None
      else
        v0 ← find_index c0 alphabet;
        v1 ← find_index c1 alphabet;
        v2 ← find_index c2 alphabet;
        Some [v0 * 4 + v1 / 16; v1 mod 16 * 16 + v2 / 4]
  | [c0; c1] =>
      if pad then None
      else
        v0 ← find_index c0 alphabet;
        v1 ← find_index c1 alphabet;
        Some [v0 * 4 + v1 / 16]
  | [_] => None
  end.

Definition decode (alphabet : list ascii) (pad : bool) (s : list ascii) : option (list Z) :=
  decode_quanta alphabet pad (strip_newlines s).

Definition StdEncoding_DecodeString (s : string) : option (list Z) :=
  decode encodeStd true (chars s).

Definition RawURLEncoding_EncodeToString (b : list Z) : string :=
  string_of_list_ascii (encode encodeURL false b).

(** ** Round trip *)

(** What the proofs need of an alphabet. *)
Class Alphabet (alphabet : list ascii) : Prop := {
  alphabet_index : forallb (fun v => bool_decide (find_index (sym alphabet v) alphabet = Some v))
                     (seqZ 0 64) = true;
  alphabet_clean : forallb (fun v => negb (Ascii.eqb (sym alphabet v) "010" ||
                                           Ascii.eqb (sym alphabet v) "013")) (seqZ 0 64) = true;
  alphabet_pad : find_index "=" alphabet = None;
}.

#[export] Instance std_alphabet : Alphabet encodeStd.
Proof. split; vm_compute; reflexivity. Qed.

#[export] Instance url_alphabet : Alphabet encodeURL.
Proof. split; vm_compute; reflexivity. Qed.

Section roundtrip.
Context (alphabet : list ascii) `{!Alphabet alphabet} (pad : bool).

Lemma find_sym v : 0 <= v < 64 -> find_index (sym alphabet v) alphabet = Some v.
Proof.
  intros Hv. pose proof alphabet_index as H. rewrite forallb_forall in H.
  specialize (H v ltac:(apply list_elem_of_In, elem_of_seqZ; lia)).
  by apply bool_decide_eq_true in H.
Qed.

Lemma clean_sym v : 0 <= v < 64 ->
  Ascii.eqb (sym alphabet v) "010" || Ascii.eqb (sym alphabet v) "013" = false.
Proof.
  intros Hv. pose proof alphabet_clean as H. rewrite forallb_forall in H.
  specialize (H v ltac:(apply list_elem_of_In, elem_of_seqZ; lia)).
  by apply negb_true_iff in H.
Qed.

(** Induction three bytes at a time. *)
Lemma triple_ind (P : list Z -> Prop) :
  P [] -> (forall a, P [a]) -> (forall a b, P [a; b]) ->
  (forall a b c l, P l -> P (a :: b :: c :: l)) -> forall l, P l.
Proof.
  intros H0 H1 H2 H3 l. cut (P l /\ (forall a, P (a :: l)) /\ forall a b, P (a :: b :: l)); [tauto|].
  induction l as [|x l (I0 & I1 & I2)]; [done|]. split; [done|]. split; [done|].
  intros a b. by apply H3.
Qed.

Ltac six := Z.to_euclidean_division_equations; unfold byte_ok in *; lia.

Lemma strip_encode l : Forall byte_ok l -> strip_newlines (encode alphabet pad l) = encode alphabet pad l.
Proof.
  induction l as [|a|a b|a b c l IH] using triple_ind; intros HF; [done| | |].
  - inversion HF; subst. unfold strip_newlines; simpl.
    rewrite !clean_sym by six. by destruct pad.
  - inversion HF as [|? ? ? HF1]; subst. inversion HF1; subst. unfold strip_newlines; simpl.
    rewrite !clean_sym by six. by destruct pad.
  - inversion HF as [|? ? ? HF1]; subst. inversion HF1 as [|? ? ? HF2]; subst.
    inversion HF2; subst. unfold strip_newlines in *. cbn [encode List.filter].
    rewrite !clean_sym by six. cbn [negb]. by rewrite IH.
Qed.

Lemma decode_encode_gen l :
  Forall byte_ok l -> decode_quanta alphabet pad (encode alphabet pad l) = Some l.
Proof.
  induction l as [|a|a b|a b c l IH] using triple_ind; intros HF; [done| | |].
  - inversion HF; subst. destruct pad; simpl; rewrite !find_sym by six; simpl;
      [rewrite alphabet_pad; simpl|]; f_equal; f_equal; six.
  - inversion HF as [|? ? ? HF1]; subst. inversion HF1; subst.
    destruct pad; simpl; rewrite !find_sym by six; simpl;
      [rewrite alphabet_pad; simpl|]; f_equal; f_equal; [six|f_equal; six|six|f_equal; six].
  - inversion HF as [|? ? ? HF1]; subst. inversion HF1 as [|? ? ? HF2]; subst.
    inversion HF2 as [|? ? ? HF3]; subst. cbn [encode decode_quanta].
    rewrite !find_sym by six. rewrite (IH HF3). simpl. f_equal.
    f_equal; [six|]. f_equal; [six|]. f_equal. six.
Qed.

Lemma decode_encode l : Forall byte_ok l -> decode alphabet pad (encode alphabet pad l) = Some l.
Proof. intros HF. unfold decode. rewrite strip_encode by done. by apply decode_encode_gen. Qed.
End roundtrip.

Lemma RawURL_inj a b :
  Forall byte_ok a -> Forall byte_ok b ->
  RawURLEncoding_EncodeToString a = RawURLEncoding_EncodeToString b -> a = b.
Proof.
  intros Ha Hb H. unfold RawURLEncoding_EncodeToString in H.
  apply (f_equal list_ascii_of_string) in H. rewrite !list_ascii_of_string_of_list_ascii in H.
  apply (f_equal (decode encodeURL false)) in H. rewrite !decode_encode in H by (done || apply _).
  by injection H.
Qed.
