(* ===== verification/Blobcrypt.v ===== *)
(** * pkg/blobcrypt: sealed blob payloads

    Seal and open over an abstract AEAD (AES-256-GCM is the Go library's), with
    the two properties of GCM the code relies on as a class: opening inverts
    sealing, and only a sealing opens. Proved: which blobs open, to what, and
    that every failure is the classified decrypt error. *)

From S2P Require Import Prelude Base64.

(** ** crypto/cipher.AEAD *)

Class AEAD := {
  Key : Type;
  NonceSize : nat;
  aead_Seal : Key -> list Z -> list Z -> list Z -> list Z;
  aead_Open : Key -> list Z -> list Z -> list Z -> option (list Z);
}.

(** Arguments: key, nonce, plaintext or ciphertext with tag, additional data. *)
Class AEADLaws (A : AEAD) : Prop := {
  open_seal k n p aad : aead_Open k n (aead_Seal k n p aad) aad = Some p;
  seal_open k n c p aad : aead_Open k n c aad = Some p -> c = aead_Seal k n p aad;
}.

(** ["DBE1"]. *)
Definition magic : list Z := [68; 66; 69; 49].

Inductive crypt_error :=
  | ErrBase64
  | ErrKeyLength (n : nat)
  | ErrCipher
  | ErrNonce
  (** An error that wraps [ErrDecrypt]. *)
  | ErrDecryptTooShort
  | ErrDecryptOpen.

Definition IsDecryptError (e : crypt_error) : bool :=
  match e with ErrDecryptTooShort | ErrDecryptOpen => true | _ => false end.

Definition IsSealed (b : list Z) : bool :=
  (length magic <=? length b)%nat && bool_decide (take (length magic) b = magic).

Section cipher.
Context {A : AEAD}.

(** [aes.NewCipher] and [cipher.NewGCM] on the key bytes. *)
Context (NewGCM : list Z -> option Key).

(** [Ok None] is the nil cipher of an empty key. *)
Definition NewCipher (b64Key : string) : result crypt_error (option Key) :=
  if String.eqb b64Key "" then Ok None
  else
    match StdEncoding_DecodeString b64Key with
    | None => Err ErrBase64
    | Some key =>
        if negb (length key =? 32)%nat then Err (ErrKeyLength (length key))
        else match NewGCM key with
             | None => Err ErrCipher
             | Some k => Ok (Some k)
             end
    end.

(** [nonce] is what [rand.Reader] supplies, [None] when it fails. *)
Definition Seal (k : Key) (nonce : option (list Z)) (aad plaintext : list Z)
  : result crypt_error (list Z) :=
  match nonce with
  | None => Err ErrNonce
  | Some n => Ok (magic ++ n ++ aead_Seal k n plaintext aad)
  end.

Definition Open (k : Key) (aad blob : list Z) : result crypt_error (list Z) :=
  if negb (IsSealed blob) then Ok blob
  else
    let rest := drop (length magic) blob in
    if (length rest <? NonceSize)%nat then Err ErrDecryptTooShort
    else
      match aead_Open k (take NonceSize rest) (drop NonceSize rest) aad with
      | None => Err ErrDecryptOpen
      | Some pt => Ok pt
      end.

(** ** What opens *)

Context `{!AEADLaws A}.

Lemma IsSealed_spec b : IsSealed b = true <-> exists r, b = magic ++ r.
Proof.
  unfold IsSealed. rewrite andb_true_iff, bool_decide_eq_true, Nat.leb_le. split.
  - intros [Hl Ht]. exists (drop (length magic) b). rewrite <- Ht at 1. by rewrite take_drop.
  - intros [r ->]. rewrite take_app_length, length_app. split; [lia|done].
Qed.

Lemma Open_sealed k aad n c :
  length n = NonceSize ->
  Open k aad (magic ++ n ++ c) =
  match aead_Open k n c aad with Some pt => Ok pt | None => Err ErrDecryptOpen end.
Proof.
  intros Hn. unfold Open. rewrite (proj2 (IsSealed_spec (magic ++ n ++ c))) by (by eexists).
  simpl negb. cbv iota. rewrite drop_app_length, length_app.
  destruct (Nat.ltb_spec (length n + length c) NonceSize); [lia|].
  by rewrite <- Hn, take_app_length, drop_app_length.
Qed.

(** Opening blobs: what [Seal] produced under a key and additional data
    opens, under the same, to its plaintext; a blob without the magic prefix
    is returned unchanged; and for any blob at all, opening either fails with
    a decrypt error, or returns the blob unchanged because it is not sealed,
    or returns the plaintext of which, under this very key and additional
    data, the blob is a sealing with a nonce of the right size. *)
Theorem Open_spec k aad blob :
  (forall nonce plaintext sealed, length nonce = NonceSize ->
     Seal k (Some nonce) aad plaintext = Ok sealed -> Open k aad sealed = Ok plaintext) /\
  (IsSealed blob = false -> Open k aad blob = Ok blob) /\
  match Open k aad blob with
  | Err e => IsDecryptError e = true /\ IsSealed blob = true
  | Ok pt =>
      (IsSealed blob = false /\ pt = blob) \/
      (exists nonce, length nonce = NonceSize /\ Seal k (Some nonce) aad pt = Ok blob)
  end.
Proof.
  split; [|split].
  - intros nonce p sealed Hn H.
    assert (sealed = magic ++ nonce ++ aead_Seal k nonce p aad) as -> by (unfold Seal in H; congruence).
    rewrite Open_sealed by done. by rewrite open_seal.
  - intros H. unfold Open. by rewrite H.
  - destruct (IsSealed blob) eqn:Es; [|unfold Open; rewrite Es; by left].
    unfold Open. rewrite Es. simpl negb. cbv iota.
    destruct (Nat.ltb_spec (length (drop (length magic) blob)) NonceSize) as [|Hl]; [done|].
    destruct (aead_Open _ _ _ _) as [pt|] eqn:Eo; [|done]. right.
    apply IsSealed_spec in Es as [r ->]. rewrite drop_app_length in *.
    exists (take NonceSize r). split; [rewrite length_take; lia|].
    simpl. apply seal_open in Eo. rewrite <- Eo. by rewrite take_drop.
Qed.
End cipher.

(** ** An instance: a toy AEAD whose tag is the key, the nonce and the data *)

Definition toy_tag (k : Z) (n aad : list Z) : list Z :=
  [(k + fold_left Z.add n 0 + fold_left Z.add aad 0) mod 256].

#[local] Instance toy_aead : AEAD := {|
  Key := Z;
  NonceSize := 12;
  aead_Seal k n p aad := toy_tag k n aad ++ map (fun b => (b + k) mod 256) p ++ p;
  aead_Open k n c aad :=
    let t := toy_tag k n aad in
    if bool_decide (take 1 c = t) then
      let body := drop 1 c in
      let h := (length body / 2)%nat in
      if bool_decide (take h body = map (fun b => (b + k) mod 256) (drop h body) /\
                      length body = (h + h)%nat)
      then Some (drop h body) else None
    else None;
|}.

#[local] Instance toy_laws : AEADLaws toy_aead.
Proof.
  split.
  - intros k n p aad. cbn [aead_Open aead_Seal toy_aead]. unfold toy_tag.
    set (t := _ mod 256). simpl app. cbn [take drop]. rewrite bool_decide_true by done.
    set (e := map _ p). assert (Hl : length e = length p) by apply length_map.
    assert (Hh : (length (e ++ p) / 2)%nat = length e).
    { rewrite length_app, Hl. replace (length p + length p)%nat with (length p * 2)%nat by lia.
      by rewrite Nat.div_mul. }
    rewrite drop_0, Hh, take_app_length, drop_app_length, length_app, Hl. by rewrite bool_decide_true.
  - intros k n c p aad. cbn [aead_Open aead_Seal toy_aead].
    case_bool_decide as Ht; [|done]. case_bool_decide as Hb; [|done].
    set (body := drop 1 c) in *. set (h := (length body / 2)%nat) in *.
    intros E. injection E as <-. destruct Hb as [Hb _].
    rewrite <- (take_drop 1 c) at 1. fold body. rewrite Ht. f_equal.
    rewrite <- (take_drop h body) at 1. by rewrite Hb.
Qed.

Example Open_spec_witness :
  let nonce := [1; 2; 3; 4; 5; 6; 7; 8; 9; 10; 11; 12] in
  exists sealed, @Seal toy_aead 7 (Some nonce) [97] [104; 105] = Ok sealed /\
    @Open toy_aead 7 [97] sealed = Ok [104; 105] /\
    @Open toy_aead 7 [98] sealed = Err ErrDecryptOpen.
Proof.
  eexists. split; [reflexivity|]. split; [|vm_compute; reflexivity].
  eapply (@Open_spec toy_aead toy_laws 7 [97] []); [|reflexivity]. reflexivity.
Defined.
