(* ===== verification/LatestFold.v ===== *)
(** * internal/latestkv/latestkv.go: the latest-value fold

    The entry of a subject keeps, per signal name, the most recent reading and
    the most recent location fix, each under the order (timestamp descending,
    cloud event id ascending). Proved: the entry depends only on the set of
    readings folded in, so redelivery, replay and reordering are harmless, and
    what it holds is the maximum of that order. *)

From S2P Require Import Prelude Model Base64.

(** ** Data *)

Definition EntryVersion : Z := 1.

Record Row := mkRow {
  r_Subject : string;
  r_Name : string;
  r_Timestamp : Z;
  r_CloudEventID : string;
  r_ValueNumber : float64;
  r_ValueString : string;
  r_LocLat : float64;
  r_LocLon : float64;
  r_LocHDOP : float64;
  r_LocHeading : float64;
}.

Record LocValue := mkLocValue {
  lv_TS : Z;
  lv_CEID : string;
  lv_Lat : float64;
  lv_Lon : float64;
  lv_HDOP : float64;
  lv_Heading : float64;
}.

Record SignalValue := mkSignalValue {
  sv_TS : Z;
  sv_CEID : string;
  sv_Num : float64;
  sv_Str : string;
  sv_Loc : option LocValue;
}.

Record Entry := mkEntry { e_V : Z; e_Signals : gmap string SignalValue }.

(** ** Keys *)

Definition subjectKeyPrefix : string := "s.".

Definition KeyForSubject (subject : string) : string :=
  (subjectKeyPrefix +:+ RawURLEncoding_EncodeToString (bytes_of subject))%string.

Definition bootstrapMarkerKey : string := "meta.bootstrap".
Definition coverageKey : string := "meta.coverage".

(** ** The fold *)

Definition newerThan (ts : Z) (ceid : string) (oldTS : Z) (oldCEID : string) : bool :=
  if after ts oldTS then true else tequal ts oldTS && String.ltb ceid oldCEID.

(** The value part and the location part of [cur] after [in_]; [None] is an absent
    name, which reads as the zero value. *)
Definition fold_value_part (cur : option SignalValue) (in_ : SignalValue) : bool :=
  match cur with
  | None => true
  | Some c => newerThan (sv_TS in_) (sv_CEID in_) (sv_TS c) (sv_CEID c)
  end.

Definition fold_loc_part (curLoc : option LocValue) (inLoc : option LocValue) : bool :=
  match inLoc with
  | None => false
  | Some l =>
      match curLoc with
      | None => true
      | Some c => newerThan (lv_TS l) (lv_CEID l) (lv_TS c) (lv_CEID c)
      end
  end.

Definition zero_value : SignalValue := mkSignalValue zero_time "" f64_zero "" None.

Definition FoldValue (e : Entry) (name : string) (in_ : SignalValue) : Entry * bool :=
  let found := e_Signals e !! name in
  let cur := default zero_value found in
  let vnew := fold_value_part found in_ in
  let cur1 := if vnew
              then mkSignalValue (sv_TS in_) (sv_CEID in_) (sv_Num in_) (sv_Str in_) (sv_Loc cur)
              else cur in
  let lnew := fold_loc_part (sv_Loc cur1) (sv_Loc in_) in
  let cur2 := if lnew
              then mkSignalValue (sv_TS cur1) (sv_CEID cur1) (sv_Num cur1) (sv_Str cur1) (sv_Loc in_)
              else cur1 in
  if vnew || lnew then (mkEntry (e_V e) (<[name := cur2]> (e_Signals e)), true)
  else (e, false).

Definition row_value (r : Row) : SignalValue :=
  mkSignalValue (r_Timestamp r) (r_CloudEventID r) (r_ValueNumber r) (r_ValueString r)
    (if negb (f64_eqb (r_LocLat r) f64_zero) || negb (f64_eqb (r_LocLon r) f64_zero)
     then Some (mkLocValue (r_Timestamp r) (r_CloudEventID r) (r_LocLat r) (r_LocLon r)
                  (r_LocHDOP r) (r_LocHeading r))
     else None).

Definition Fold (e : Entry) (r : Row) : Entry * bool := FoldValue e (r_Name r) (row_value r).

Definition LastSeen (e : Entry) : Z :=
  fold_left (fun last p => if after (sv_TS p.2) last then sv_TS p.2 else last)
    (map_to_list (e_Signals e)) zero_time.

(** The loop of [publishSubject]: the entry and whether anything changed. *)
Fixpoint fold_rows (e : Entry) (changed : bool) (rows : list Row) : Entry * bool :=
  match rows with
  | [] => (e, changed)
  | r :: rest => let '(e', c) := Fold e r in fold_rows e' (c || changed) rest
  end.

(** ** The recency order *)

Lemma newerThan_irrefl ts c : newerThan ts c ts c = false.
Proof.
  unfold newerThan, after, tequal. rewrite Z.ltb_irrefl, Z.eqb_refl. apply sltb_irrefl.
Qed.

Lemma newerThan_spec ts c ts' c' :
  newerThan ts c ts' c' = true <-> ts' < ts \/ (ts = ts' /\ String.ltb c c' = true).
Proof.
  unfold newerThan, after, tequal. destruct (Z.ltb_spec ts' ts); [split; [by left|done]|].
  rewrite andb_true_iff, Z.eqb_eq. split; [by right|]. intros [?|?]; [lia|done].
Qed.

Lemma newerThan_false ts c ts' c' :
  newerThan ts c ts' c' = false <-> ts < ts' \/ (ts = ts' /\ String.ltb c c' = false).
Proof.
  unfold newerThan, after, tequal. destruct (Z.ltb_spec ts' ts); [split; [done|lia]|].
  rewrite andb_false_iff, Z.eqb_neq. split.
  - intros [?|?]; [left; lia|]. destruct (decide (ts = ts')); [by right|left; lia].
  - intros [?|[? ?]]; [left; lia|by right].
Qed.

Lemma newerThan_trans ts1 c1 ts2 c2 ts3 c3 :
  newerThan ts1 c1 ts2 c2 = true -> newerThan ts2 c2 ts3 c3 = true -> newerThan ts1 c1 ts3 c3 = true.
Proof.
  rewrite !newerThan_spec. intros [?|[-> H1]] [?|[-> H2]]; [left; lia..|right].
  split; [done|by eapply sltb_trans].
Qed.

(** Nothing newer than what was not newer than the old. *)
Lemma newerThan_mono ts c ts1 c1 ts2 c2 :
  newerThan ts c ts1 c1 = false -> newerThan ts2 c2 ts1 c1 = true -> newerThan ts c ts2 c2 = false.
Proof.
  intros H1 H2. destruct (newerThan ts c ts2 c2) eqn:E; [|done].
  by rewrite (newerThan_trans _ _ _ _ _ _ E H2) in H1.
Qed.

Lemma newerThan_total ts c ts' c' :
  newerThan ts c ts' c' = false -> newerThan ts' c' ts c = false -> ts = ts' /\ c = c'.
Proof.
  rewrite !newerThan_false. intros [?|[-> H1]] [?|[? H2]]; try lia. split; [done|].
  destruct (sltb_total c c') as [Hc|[Hc|Hc]]; congruence.
Qed.

(** ** What an entry has absorbed *)

(** The entry's value of [name] is at least as recent as [v], in both parts. *)
Definition absorbs (e : Entry) (name : string) (v : SignalValue) : Prop :=
  exists c, e_Signals e !! name = Some c /\
    newerThan (sv_TS v) (sv_CEID v) (sv_TS c) (sv_CEID c) = false /\
    (forall l, sv_Loc v = Some l -> exists lc, sv_Loc c = Some lc /\
       newerThan (lv_TS l) (lv_CEID l) (lv_TS lc) (lv_CEID lc) = false).

Definition absorbs_row (e : Entry) (r : Row) : Prop := absorbs e (r_Name r) (row_value r).

(** Every part an entry holds comes from one of the values folded in. *)
Definition value_of (src : list (string * SignalValue)) (name : string) (c : SignalValue) : Prop :=
  (exists v, (name, v) ∈ src /\ sv_TS v = sv_TS c /\ sv_CEID v = sv_CEID c /\
             sv_Num v = sv_Num c /\ sv_Str v = sv_Str c) /\
  (forall l, sv_Loc c = Some l -> exists v, (name, v) ∈ src /\ sv_Loc v = Some l).

Lemma FoldValue_lookup_ne e name v name' :
  name <> name' -> e_Signals (FoldValue e name v).1 !! name' = e_Signals e !! name'.
Proof.
  intros Hne. unfold FoldValue. destruct (_ || _); simpl; [by rewrite lookup_insert_ne|done].
Qed.

(** The value of [name] after folding [v] into it. *)
Definition joined (found : option SignalValue) (v : SignalValue) : SignalValue :=
  let cur := default zero_value found in
  let cur1 := if fold_value_part found v
              then mkSignalValue (sv_TS v) (sv_CEID v) (sv_Num v) (sv_Str v) (sv_Loc cur) else cur in
  if fold_loc_part (sv_Loc cur1) (sv_Loc v)
  then mkSignalValue (sv_TS cur1) (sv_CEID cur1) (sv_Num cur1) (sv_Str cur1) (sv_Loc v) else cur1.

Lemma FoldValue_lookup e name v :
  e_Signals (FoldValue e name v).1 !! name = Some (joined (e_Signals e !! name) v).
Proof.
  unfold FoldValue, joined. set (cur1 := if fold_value_part _ _ then _ else _).
  destruct (fold_value_part (e_Signals e !! name) v) eqn:E1; simpl.
  { by rewrite lookup_insert_eq. }
  destruct (fold_loc_part (sv_Loc cur1) (sv_Loc v)) eqn:E2; simpl; [by rewrite lookup_insert_eq|].
  unfold cur1. by destruct (e_Signals e !! name).
Qed.

Lemma joined_loc found v l :
  sv_Loc (joined found v) = Some l ->
  sv_Loc v = Some l \/ sv_Loc (default zero_value found) = Some l.
Proof.
  unfold joined. destruct (fold_loc_part _ _); simpl; [by left|].
  destruct (fold_value_part found v); simpl; by right.
Qed.

(** After folding [v], the entry absorbs [v]. *)
Lemma FoldValue_absorbs e name v : absorbs (FoldValue e name v).1 name v.
Proof.
  exists (joined (e_Signals e !! name) v). split; [apply FoldValue_lookup|]. unfold joined.
  set (found := e_Signals e !! name).
  set (cur1 := if fold_value_part found v then _ else _).
  assert (H1 : newerThan (sv_TS v) (sv_CEID v) (sv_TS cur1) (sv_CEID cur1) = false).
  { unfold cur1. destruct (fold_value_part found v) eqn:E; simpl; [apply newerThan_irrefl|].
    destruct found; [exact E|done]. }
  destruct (fold_loc_part (sv_Loc cur1) (sv_Loc v)) eqn:E2; simpl; (split; [exact H1|]).
  - intros l Hl. exists l. split; [done|apply newerThan_irrefl].
  - intros l Hl. unfold fold_loc_part in E2. rewrite Hl in E2.
    destruct (sv_Loc cur1) as [lc|]; [|done]. by exists lc.
Qed.

(** What an entry absorbed, it keeps absorbing. *)
Lemma FoldValue_keeps e name v name' v' :
  absorbs e name' v' -> absorbs (FoldValue e name v).1 name' v'.
Proof.
  destruct (decide (name = name')) as [->|Hne].
  2:{ intros (c & Hc & H). exists c. by rewrite FoldValue_lookup_ne. }
  intros (c & Hc & H1 & H2). exists (joined (Some c) v).
  split; [by rewrite FoldValue_lookup, Hc|]. unfold joined; simpl.
  destruct (newerThan (sv_TS v) (sv_CEID v) (sv_TS c) (sv_CEID c)) eqn:En; simpl;
    destruct (fold_loc_part (sv_Loc c) (sv_Loc v)) eqn:El; simpl;
    (split; [first [exact H1|by eapply newerThan_mono]|]).
  all: intros l Hl; destruct (H2 l Hl) as (lc & Hlc & Hnew); try (exists lc; done).
  all: unfold fold_loc_part in El; destruct (sv_Loc v) as [lv|]; [|done]; rewrite Hlc in El;
    exists lv; (split; [done|by eapply newerThan_mono]).
Qed.

(** A value already absorbed changes nothing. *)
Lemma FoldValue_noop e name v : absorbs e name v -> FoldValue e name v = (e, false).
Proof.
  intros (c & Hc & H1 & H2). unfold FoldValue. rewrite Hc. simpl. rewrite H1. simpl.
  assert (Hloc : fold_loc_part (sv_Loc c) (sv_Loc v) = false); [|by rewrite Hloc].
  unfold fold_loc_part. destruct (sv_Loc v) as [l|]; [|done].
  by destruct (H2 l eq_refl) as (lc & -> & ->).
Qed.

Lemma FoldValue_unchanged e name v : (FoldValue e name v).2 = false -> (FoldValue e name v).1 = e.
Proof. unfold FoldValue. by destruct (_ || _). Qed.

Lemma FoldValue_source e name v src :
  (forall n c, e_Signals e !! n = Some c -> value_of src n c) ->
  forall n c, e_Signals (FoldValue e name v).1 !! n = Some c -> value_of ((name, v) :: src) n c.
Proof.
  intros He n c. destruct (decide (name = n)) as [->|Hne].
  2:{ rewrite FoldValue_lookup_ne by done. intros Hc. destruct (He n c Hc) as [(w & Hw & H) Hl].
      split; [exists w; split; [by right|done]|].
      intros l Hlc. destruct (Hl l Hlc) as (w' & Hw' & Hl'). exists w'. split; [by right|done]. }
  rewrite FoldValue_lookup. intros [= <-]. split.
  - unfold joined. destruct (fold_value_part (e_Signals e !! n) v) eqn:E.
    + exists v. destruct (fold_loc_part _ _); (split; [by left|done]).
    + destruct (e_Signals e !! n) as [c|] eqn:Hc; [|done]. destruct (He n c Hc) as [(w & Hw & H) _].
      exists w. destruct (fold_loc_part _ _); (split; [by right|done]).
  - intros l Hl. apply joined_loc in Hl as [Hl|Hl]; [exists v; split; [by left|done]|].
    destruct (e_Signals e !! n) as [c|] eqn:Hc; simpl in Hl; [|done].
    destruct (He n c Hc) as [_ Hs]. destruct (Hs l Hl) as (w & Hw & Hlw).
    exists w. split; [by right|done].
Qed.

(** ** Folding batches *)

Definition named (rows : list Row) : list (string * SignalValue) :=
  map (fun r => (r_Name r, row_value r)) rows.

Lemma fold_rows_app e ch l1 l2 :
  fold_rows e ch (l1 ++ l2) = fold_rows (fold_rows e ch l1).1 (fold_rows e ch l1).2 l2.
Proof.
  revert e ch; induction l1 as [|r l1 IH]; intros e ch; [done|]. cbn [app fold_rows].
  destruct (Fold e r) as [e' c]. apply IH.
Qed.

Lemma fold_rows_keeps e ch rows name v :
  absorbs e name v -> absorbs (fold_rows e ch rows).1 name v.
Proof.
  revert e ch; induction rows as [|r rows IH]; intros e ch H; [done|]. cbn [fold_rows].
  destruct (Fold e r) as [e' c] eqn:E. apply IH.
  replace e' with (FoldValue e (r_Name r) (row_value r)).1 by (unfold Fold in E; by rewrite E).
  by apply FoldValue_keeps.
Qed.

Lemma fold_rows_absorbs e ch rows r : r ∈ rows -> absorbs_row (fold_rows e ch rows).1 r.
Proof.
  revert e ch; induction rows as [|r' rows IH]; intros e ch Hr; [by apply elem_of_nil in Hr|].
  cbn [fold_rows]. destruct (Fold e r') as [e' c] eqn:E.
  apply elem_of_cons in Hr as [->|Hr]; [|by apply IH].
  apply fold_rows_keeps. unfold Fold in E.
  replace e' with (FoldValue e (r_Name r') (row_value r')).1 by (by rewrite E).
  apply FoldValue_absorbs.
Qed.

(** A batch all of whose rows are absorbed is a no-op. *)
Lemma fold_rows_noop e ch rows :
  Forall (absorbs_row e) rows -> fold_rows e ch rows = (e, ch).
Proof.
  revert ch; induction rows as [|r rows IH]; intros ch HF; [done|]. inversion HF; subst.
  cbn [fold_rows]. unfold Fold. rewrite FoldValue_noop by done. simpl. by apply IH.
Qed.

Lemma fold_rows_changed e rows :
  (fold_rows e false rows).2 = false -> (fold_rows e false rows).1 = e.
Proof.
  cut (forall ch, (fold_rows e ch rows).2 = false -> ch = false /\ (fold_rows e ch rows).1 = e).
  { intros H Hf. by apply (H false). }
  revert e; induction rows as [|r rows IH]; intros e ch; [done|]. cbn [fold_rows].
  destruct (Fold e r) as [e' c] eqn:E. intros Hf. destruct (IH e' _ Hf) as [Hc He].
  apply orb_false_iff in Hc as [-> ->]. split; [done|]. rewrite He. unfold Fold in E.
  pose proof (FoldValue_unchanged e (r_Name r) (row_value r)) as Hu. rewrite E in Hu. by apply Hu.
Qed.

Lemma value_of_incl src src' name c :
  (forall p, p ∈ src -> p ∈ src') -> value_of src name c -> value_of src' name c.
Proof.
  intros Hi [(v & Hv & H) Hl]. split; [exists v; split; [by apply Hi|done]|].
  intros l Hlc. destruct (Hl l Hlc) as (w & Hw & Hlw). exists w. split; [by apply Hi|done].
Qed.

Lemma fold_rows_source e ch rows src :
  (forall n c, e_Signals e !! n = Some c -> value_of src n c) ->
  forall n c, e_Signals (fold_rows e ch rows).1 !! n = Some c -> value_of (src ++ named rows) n c.
Proof.
  revert e ch src; induction rows as [|r rows IH]; intros e ch src He n c.
  { intros Hc. rewrite app_nil_r. by apply He. }
  cbn [fold_rows]. destruct (Fold e r) as [e' c'] eqn:E. intros Hc.
  eapply value_of_incl; [|eapply (IH e' _ ((r_Name r, row_value r) :: src)); [|exact Hc]].
  - intros p Hp. simpl in *. set_solver.
  - intros m d Hd. unfold Fold in E.
    apply (FoldValue_source e (r_Name r) (row_value r) src He). by rewrite E.
Qed.

(** A cloud event id and timestamp determine a signal's reading. *)
Definition coherent (rows : list Row) : Prop :=
  forall r1 r2, r1 ∈ rows -> r2 ∈ rows -> r_Name r1 = r_Name r2 ->
    r_Timestamp r1 = r_Timestamp r2 -> r_CloudEventID r1 = r_CloudEventID r2 ->
    row_value r1 = row_value r2.

(** An entry that is exactly what the rows give. *)
Definition entry_of (rows : list Row) (e : Entry) : Prop :=
  (forall r, r ∈ rows -> absorbs_row e r) /\
  (forall n c, e_Signals e !! n = Some c -> value_of (named rows) n c).

Lemma fold_rows_entry_of v rows : entry_of rows (fold_rows (mkEntry v ∅) false rows).1.
Proof.
  split; [intros; by apply fold_rows_absorbs|].
  apply (fold_rows_source (mkEntry v ∅) false rows []). intros n c Hc. simpl in Hc; by rewrite lookup_empty in Hc.
Qed.

Lemma in_named rows n v :
  (n, v) ∈ named rows -> exists r, r ∈ rows /\ n = r_Name r /\ v = row_value r.
Proof. intros (r & [= -> ->] & Hr)%list_elem_of_fmap. by exists r. Qed.

Lemma row_loc_key r l :
  sv_Loc (row_value r) = Some l -> lv_TS l = r_Timestamp r /\ lv_CEID l = r_CloudEventID r.
Proof. unfold row_value; simpl. destruct (_ || _); [|done]. by intros [= <-]. Qed.

(** One entry's part is bounded by the other's. *)
Lemma entry_of_le rows1 rows2 e1 e2 n c1 :
  (forall r, r ∈ rows1 -> r ∈ rows2) -> entry_of rows1 e1 -> entry_of rows2 e2 ->
  e_Signals e1 !! n = Some c1 ->
  exists c2, e_Signals e2 !! n = Some c2 /\
    newerThan (sv_TS c1) (sv_CEID c1) (sv_TS c2) (sv_CEID c2) = false /\
    (forall l1, sv_Loc c1 = Some l1 -> exists l2, sv_Loc c2 = Some l2 /\
       newerThan (lv_TS l1) (lv_CEID l1) (lv_TS l2) (lv_CEID l2) = false).
Proof.
  intros Hi [_ S1] [A2 _] Hc. destruct (S1 n c1 Hc) as [(v & Hv & E1 & E2 & _) Hl].
  apply in_named in Hv as (r & Hr & -> & ->).
  destruct (A2 r (Hi r Hr)) as (c2 & Hc2 & H1 & _). exists c2. split; [done|].
  split; [by rewrite <- E1, <- E2|]. intros l1 Hl1. destruct (Hl l1 Hl1) as (w & Hw & Hlw).
  apply in_named in Hw as (r' & Hr' & En & ->).
  destruct (A2 r' (Hi r' Hr')) as (c2' & Hc2' & _ & H2).
  assert (c2' = c2) as -> by congruence. by apply H2.
Qed.

Lemma entry_of_unique rows1 rows2 e1 e2 :
  (forall r, r ∈ rows1 <-> r ∈ rows2) -> coherent rows2 ->
  entry_of rows1 e1 -> entry_of rows2 e2 -> e_Signals e1 = e_Signals e2.
Proof.
  intros Hi Hco H1 H2. apply map_eq. intros n.
  destruct (e_Signals e1 !! n) as [c1|] eqn:Hc1.
  2:{ destruct (e_Signals e2 !! n) as [c2|] eqn:Hc2; [|done].
      destruct (entry_of_le rows2 rows1 e2 e1 n c2) as (c & Hc & _); try done; [|congruence].
      intros r. apply Hi. }
  destruct (entry_of_le rows1 rows2 e1 e2 n c1) as (c2 & Hc2 & N1 & L1); try done.
  { intros r. apply Hi. }
  destruct (entry_of_le rows2 rows1 e2 e1 n c2) as (c1' & Hc1' & N2 & L2); try done.
  { intros r. apply Hi. }
  assert (c1' = c1) as -> by congruence. rewrite Hc2. f_equal.
  destruct H1 as [_ S1], H2 as [_ S2].
  destruct (S1 n c1 Hc1) as [(v1 & Hv1 & A1 & A2 & A3 & A4) M1].
  destruct (S2 n c2 Hc2) as [(v2 & Hv2 & B1 & B2 & B3 & B4) M2].
  apply in_named in Hv1 as (r1 & Hr1 & En1 & ->). apply in_named in Hv2 as (r2 & Hr2 & En2 & ->).
  destruct (newerThan_total _ _ _ _ N1 N2) as [ET EC].
  assert (Er : row_value r1 = row_value r2).
  { apply Hco; [by apply Hi|done|congruence| |].
    - change (sv_TS (row_value r1) = sv_TS (row_value r2)). congruence.
    - change (sv_CEID (row_value r1) = sv_CEID (row_value r2)). congruence. }
  assert (EL : sv_Loc c1 = sv_Loc c2).
  { destruct (sv_Loc c1) as [l1|] eqn:Hl1.
    - destruct (L1 l1 eq_refl) as (l2 & Hl2 & P1). rewrite Hl2.
      destruct (L2 l2 Hl2) as (l1' & [= <-] & P2).
      destruct (newerThan_total _ _ _ _ P1 P2) as [LT LC].
      destruct (M1 l1 eq_refl) as (w1 & Hw1 & Hx1). destruct (M2 l2 Hl2) as (w2 & Hw2 & Hx2).
      apply in_named in Hw1 as (q1 & Hq1 & Eq1 & ->). apply in_named in Hw2 as (q2 & Hq2 & Eq2 & ->).
      destruct (row_loc_key _ _ Hx1) as [K1 K2], (row_loc_key _ _ Hx2) as [K3 K4].
      assert (row_value q1 = row_value q2) as E.
      { apply Hco; [by apply Hi|done|congruence..]. }
      rewrite E in Hx1. congruence.
    - destruct (sv_Loc c2) as [l2|] eqn:Hl2; [|done].
      destruct (L2 l2 eq_refl) as (l1 & Hl1' & _). done. }
  rewrite Er in A1, A2, A3, A4. destruct c1, c2; simpl in *. congruence.
Qed.

(** The latest-value entry of a subject depends only on the set of readings
    folded into it: two batches with the same readings, in any order and with
    any repetitions, give the same entry, provided a cloud event id and
    timestamp determine a signal's reading. Whatever the readings, the entry
    holds for each signal a reading no other is newer than and, separately, a
    location fix no other fix is newer than; and folding again readings it has
    seen changes nothing and reports no change. *)
Theorem latest_entry_set rows1 rows2 :
  (forall r, r ∈ rows1 <-> r ∈ rows2) -> coherent rows2 ->
  let e := (fold_rows (mkEntry EntryVersion ∅) false rows1).1 in
  e_Signals e = e_Signals (fold_rows (mkEntry EntryVersion ∅) false rows2).1 /\
  (forall r, r ∈ rows2 -> absorbs_row e r) /\
  (forall n c, e_Signals e !! n = Some c -> value_of (named rows1) n c) /\
  (forall rows, (forall r, r ∈ rows -> r ∈ rows2) -> fold_rows e false rows = (e, false)).
Proof.
  intros Hi Hco e. pose proof (fold_rows_entry_of EntryVersion rows1) as [HA HS]. fold e in HA, HS.
  assert (Habs : forall r, r ∈ rows2 -> absorbs_row e r) by (intros r Hr; apply HA, Hi, Hr).
  split; [|split; [exact Habs|split; [exact HS|]]].
  - eapply entry_of_unique; [exact Hi|exact Hco|by split|apply fold_rows_entry_of].
  - intros rows Hr. apply fold_rows_noop. apply Forall_forall. auto.
Qed.

Definition row_demo (n : string) (ts : Z) (ceid : string) (v lat : Z) : Row :=
  mkRow "did:x" n ts ceid (f64_of_Z v) "" (f64_of_Z lat) f64_zero f64_zero f64_zero.

Example latest_entry_set_witness :
  let r1 := row_demo "speed" 10 "b" 1 0 in
  let r2 := row_demo "speed" 10 "a" 2 0 in
  let r3 := row_demo "pos" 5 "c" 0 52 in
  let r4 := row_demo "pos" 9 "d" 0 0 in
  e_Signals (fold_rows (mkEntry EntryVersion ∅) false [r1; r2; r3; r4; r1]).1 =
  e_Signals (fold_rows (mkEntry EntryVersion ∅) false [r4; r3; r2; r1]).1 /\
  (sv_CEID <$> e_Signals (fold_rows (mkEntry EntryVersion ∅) false [r1; r2]).1 !! "speed")
    = Some "a"%string.
Proof.
  intros r1 r2 r3 r4. split; [|vm_compute; reflexivity].
  apply (latest_entry_set [r1; r2; r3; r4; r1] [r4; r3; r2; r1]).
  - intros r. rewrite !elem_of_cons. split; intuition.
  - intros a b Ha Hb. rewrite !elem_of_cons, elem_of_nil in Ha, Hb.
    destruct Ha as [->|[->|[->|[->|[]]]]], Hb as [->|[->|[->|[->|[]]]]];
      intros En Et Ec; first [reflexivity|discriminate En|discriminate Et|discriminate Ec].
Defined.

(** ** Keys *)

Definition allowed_key_char (c : Ascii.ascii) : bool :=
  existsb (Ascii.eqb c)
    (chars "-/_=.abcdefghijklmnopqrstuvwxyzABCDEFGHIJKLMNOPQRSTUVWXYZ0123456789").

Lemma bytes_of_ok s : Forall byte_ok (bytes_of s).
Proof.
  apply Forall_forall. intros b (c & -> & _)%list_elem_of_fmap. unfold byte_ok.
  pose proof (Ascii.N_ascii_bounded c). lia.
Qed.

Lemma bytes_of_inj s t : bytes_of s = bytes_of t -> s = t.
Proof.
  intros H. rewrite <- (String.string_of_list_ascii_of_string s),
    <- (String.string_of_list_ascii_of_string t). f_equal.
  revert H. unfold bytes_of. generalize (String.list_ascii_of_string s) (String.list_ascii_of_string t).
  induction l as [|c l IH]; intros [|d l'] H; try done. simpl in H. injection H as Hc Hl.
  f_equal; [|by apply IH]. apply N2Z.inj in Hc.
  by rewrite <- (Ascii.ascii_N_embedding c), <- (Ascii.ascii_N_embedding d), Hc.
Qed.

Lemma encode_chars l (ok : Ascii.ascii -> bool) :
  Forall byte_ok l -> forallb (fun v => ok (sym encodeURL v)) (seqZ 0 64) = true ->
  forallb ok (encode encodeURL false l) = true.
Proof.
  intros HF Hs. assert (Hsym : forall v, 0 <= v < 64 -> ok (sym encodeURL v) = true).
  { intros v Hv. rewrite forallb_forall in Hs. apply Hs, list_elem_of_In, elem_of_seqZ. lia. }
  clear Hs. induction l as [|a|a b|a b c l IH] using triple_ind; [done| | |];
    repeat match goal with H : Forall byte_ok (_ :: _) |- _ => inversion H; clear H; subst end;
    cbn [encode forallb app]; unfold byte_ok in *;
    rewrite !Hsym by (Z.to_euclidean_division_equations; lia); auto.
Qed.

(** Keys of the latest-value bucket: different subjects have different keys,
    no subject's key is the bootstrap or coverage key, and every key uses only
    the characters the store allows. *)
Theorem KeyForSubject_spec s t :
  (KeyForSubject s = KeyForSubject t -> s = t) /\
  KeyForSubject s <> bootstrapMarkerKey /\ KeyForSubject s <> coverageKey /\
  forallb allowed_key_char (chars (KeyForSubject s)) = true.
Proof.
  split; [|split; [|split]].
  - intros H. apply bytes_of_inj. apply RawURL_inj; [apply bytes_of_ok..|].
    unfold KeyForSubject in H. injection H as H. exact H.
  - discriminate.
  - discriminate.
  - unfold KeyForSubject. change (chars (subjectKeyPrefix +:+ ?x)) with (Ascii.ascii_of_nat 115 :: Ascii.ascii_of_nat 46 :: chars x).
    cbn [forallb]. unfold RawURLEncoding_EncodeToString, chars.
    rewrite String.list_ascii_of_string_of_list_ascii.
    rewrite encode_chars; [done|apply bytes_of_ok|vm_compute; reflexivity].
Qed.
