(* ===== verification/LatestStore.v ===== *)
(** * internal/latestkv/store.go: the latest-value store

    Read-modify-write of entries under compare-and-swap, by any number of
    writers at once (the live publisher's per-subject goroutines, the coverage
    reconcile, a backfill), over an abstract key-value bucket with the
    documented JetStream behaviour. Proved for every interleaving: what a writer
    was told succeeded is in the bucket and stays there. Also the grouping of a
    batch and of a rollup scan into per-subject updates. *)

From stdpp Require Import relations fin_maps.
From S2P Require Import Prelude Model LatestFold.

(** ** The bucket (nats.go jetstream.KeyValue) *)

Class KV := {
  kv : Type;
  Val : Type;
  kv_get : kv -> string -> option (Z * Val);
  (** [None] is [ErrKeyExists]. *)
  kv_create : kv -> string -> Val -> option kv;
  kv_update : kv -> string -> Val -> Z -> option kv;
  (** Stream sequence number of the last write. *)
  kv_seq : kv -> Z;
  (** [json.Marshal] and [json.Unmarshal] of an entry. *)
  marshal : Entry -> option Val;
  unmarshal : Val -> option Entry;
}.

Definition written {K : KV} (s : kv) (k : string) (v : Val) (s' : kv) : Prop :=
  kv_get s' k = Some (kv_seq s', v) /\ kv_seq s < kv_seq s' /\
  (forall k', k' <> k -> kv_get s' k' = kv_get s k').

(** Documented behaviour: revisions are stream sequence numbers, which grow with
    each write; Create writes only an absent key, Update only at the revision
    given. *)
Class KVLaws (K : KV) : Prop := {
  get_seq s k r v : kv_get s k = Some (r, v) -> 0 < r <= kv_seq s;
  create_law s k v s' : kv_create s k v = Some s' -> kv_get s k = None /\ written s k v s';
  update_law s k v r s' :
    kv_update s k v r = Some s' -> (exists v0, kv_get s k = Some (r, v0)) /\ written s k v s';
  unmarshal_marshal e v : marshal e = Some v -> unmarshal v = Some e;
}.

(** ** getEntry, putEntry *)

Definition fresh_entry : Entry := mkEntry EntryVersion ∅.

Section store.
Context {K : KV}.

(** The entry to fold into and the revision to compare; 0 is "no key". *)
Definition getEntry (s : kv) (key : string) : Entry * Z :=
  match kv_get s key with
  | None => (fresh_entry, 0)
  | Some (rev, v) =>
      match unmarshal v with
      | Some e => (e, rev)
      | None => (fresh_entry, rev)
      end
  end.

Inductive put_result := PutOk (s : kv) | PutConflict | PutError.

Definition putEntry (s : kv) (key : string) (e : Entry) (rev : Z) : put_result :=
  match marshal (mkEntry EntryVersion (e_Signals e)) with
  | None => PutError
  | Some v =>
      match (if rev =? 0 then kv_create s key v else kv_update s key v rev) with
      | Some s' => PutOk s'
      | None => PutConflict
      end
  end.

(** [GetEntry], the reader's side: an undecodable value is an error. *)
Definition GetEntry (s : kv) (subject : string) : result unit (option Entry) :=
  match kv_get s (KeyForSubject subject) with
  | None => Ok None
  | Some (_, v) => match unmarshal v with Some e => Ok (Some e) | None => Err tt end
  end.

(** ** Jobs: one [updateEntry] call each *)

(** The subject and the values its mutation folds in, in order. *)
Record job := mkJob { j_subject : string; j_values : list (string * SignalValue) }.

Definition j_key (j : job) : string := KeyForSubject (j_subject j).

(** The mutation: fold every value, report whether anything changed. *)
Fixpoint mutate (e : Entry) (changed : bool) (vs : list (string * SignalValue)) : Entry * bool :=
  match vs with
  | [] => (e, changed)
  | (n, v) :: rest => let '(e', c) := FoldValue e n v in mutate e' (c || changed) rest
  end.

(** [PublishSignals]: the batch grouped by subject; the order of the groups is
    that of ranging over a map, fixed here. *)
Definition by_subject (rows : list Row) : gmap string (list Row) :=
  fold_left (fun m r => <[r_Subject r := default [] (m !! r_Subject r) ++ [r]]> m) rows ∅.

Definition publish_jobs (rows : list Row) : list job :=
  map (fun p => mkJob p.1 (map (fun r => (r_Name r, row_value r)) p.2))
      (map_to_list (by_subject rows)).

(** A rollup or tail row as [mergeFromRollup] reads it, in subject order. *)
Record RollupRow := mkRollupRow { rr_subject : string; rr_name : string; rr_value : SignalValue }.

(** The value built from the columns of [lake.signals_latest]. *)
Definition rollup_value (ts : Z) (ceid : string) (num : float64) (str : string) (locTS : option Z)
    (locCEID : string) (lat lon hdop heading : float64) : SignalValue :=
  mkSignalValue ts ceid num str
    (match locTS with
     | Some lt =>
         if negb (f64_eqb lat f64_zero) || negb (f64_eqb lon f64_zero)
         then Some (mkLocValue lt locCEID lat lon hdop heading) else None
     | None => None
     end).

Definition flush (subject : string) (pending : gmap string SignalValue) : list job :=
  if decide (pending = ∅) then [] else [mkJob subject (map_to_list pending)].

(** The row loop: flush when the subject changes, and once at the end. *)
Fixpoint merge_loop (curSubject : string) (pending : gmap string SignalValue)
    (rows : list RollupRow) : list job :=
  match rows with
  | [] => flush curSubject pending
  | r :: rest =>
      if String.eqb (rr_subject r) curSubject
      then merge_loop curSubject (<[rr_name r := rr_value r]> pending) rest
      else flush curSubject pending ++
           merge_loop (rr_subject r) {[rr_name r := rr_value r]} rest
  end.

Definition merge_jobs (rows : list RollupRow) : list job := merge_loop "" ∅ rows.

(** [mergeFromRollup]: the rollup scan, then the tail since the watermark, when
    there is one. *)
Definition mergeFromRollup_jobs (rollup : list RollupRow) (watermark : option Z)
    (tail_ : Z -> list RollupRow) : list job :=
  merge_jobs rollup ++
  match watermark with
  | None => []
  | Some w => if is_zero w then [] else merge_jobs (tail_ w)
  end.

(** ** updateEntry, interleaved *)

Definition casAttempts : nat := 8.

(** A writer's current job: between calls, before a read, or holding what it
    read and the entry it is about to write. *)
Inductive wphase :=
  | WIdle
  | WRead (j : job) (attempt : nat)
  | WWrite (j : job) (attempt : nat) (rev : Z) (base e : Entry).

Record writer := mkWriter {
  w_phase : wphase;
  (** Jobs whose [updateEntry] returned nil. *)
  w_acked : list job;
  (** Jobs whose [updateEntry] returned an error. *)
  w_failed : list job;
}.

Record sys := mkSys { s_kv : kv; s_writers : gmap nat writer }.

Definition ack (w : writer) (j : job) : writer := mkWriter WIdle (j :: w_acked w) (w_failed w).
Definition fail (w : writer) (j : job) : writer := mkWriter WIdle (w_acked w) (j :: w_failed w).
Definition go (w : writer) (p : wphase) : writer := mkWriter p (w_acked w) (w_failed w).

(** The read and the mutation of one attempt. *)
Definition read_and_mutate (s : kv) (w : writer) (j : job) (attempt : nat) : writer :=
  let '(base, rev) := getEntry s (j_key j) in
  let '(e, changed) := mutate base false (j_values j) in
  if changed then go w (WWrite j attempt rev base e) else ack w j.

(** The write of one attempt and what the loop does with its error. *)
Definition write_attempt (s : kv) (w : writer) (j : job) (attempt : nat) (rev : Z) (e : Entry)
  : kv * writer :=
  match putEntry s (j_key j) e rev with
  | PutOk s' => (s', ack w j)
  | PutConflict => if (attempt =? casAttempts - 1)%nat then (s, fail w j)
                   else (s, go w (WRead j (S attempt)))
  | PutError => (s, fail w j)
  end.

(** A writer takes up a job, reads, writes, or has a call fail on it (the
    network, a cancelled context). *)
Inductive sys_step : sys -> sys -> Prop :=
  | st_start s ws i w j :
      ws !! i = Some w -> w_phase w = WIdle ->
      sys_step (mkSys s ws) (mkSys s (<[i := go w (WRead j 0)]> ws))
  | st_read s ws i w j n :
      ws !! i = Some w -> w_phase w = WRead j n ->
      sys_step (mkSys s ws) (mkSys s (<[i := read_and_mutate s w j n]> ws))
  | st_write s ws i w j n rev base e s' w' :
      ws !! i = Some w -> w_phase w = WWrite j n rev base e ->
      write_attempt s w j n rev e = (s', w') ->
      sys_step (mkSys s ws) (mkSys s' (<[i := w']> ws))
  | st_error s ws i w j n :
      ws !! i = Some w ->
      (w_phase w = WRead j n \/ exists rev base e, w_phase w = WWrite j n rev base e) ->
      sys_step (mkSys s ws) (mkSys s (<[i := fail w j]> ws)).

(** Any bucket contents, any number of idle writers. *)
Definition sys_init (x : sys) : Prop :=
  forall i w, s_writers x !! i = Some w -> w = mkWriter WIdle [] [].

Definition content (s : kv) (key : string) : Entry := (getEntry s key).1.

(** ** Lemmas *)

Lemma mutate_keeps e c vs n v : absorbs e n v -> absorbs (mutate e c vs).1 n v.
Proof.
  revert e c; induction vs as [|[m w] vs IH]; intros e c H; [done|]. cbn [mutate].
  destruct (FoldValue e m w) as [e' c'] eqn:E. apply IH.
  replace e' with (FoldValue e m w).1 by (by rewrite E). by apply FoldValue_keeps.
Qed.

Lemma mutate_absorbs e c vs n v : (n, v) ∈ vs -> absorbs (mutate e c vs).1 n v.
Proof.
  revert e c; induction vs as [|[m w] vs IH]; intros e c Hin; [by apply elem_of_nil in Hin|].
  cbn [mutate]. destruct (FoldValue e m w) as [e' c'] eqn:E.
  apply elem_of_cons in Hin as [[= -> ->]|Hin]; [|by apply IH]. apply mutate_keeps.
  replace e' with (FoldValue e m w).1 by (by rewrite E). apply FoldValue_absorbs.
Qed.

Lemma mutate_unchanged e vs : (mutate e false vs).2 = false -> (mutate e false vs).1 = e.
Proof.
  cut (forall c, (mutate e c vs).2 = false -> c = false /\ (mutate e c vs).1 = e).
  { intros H Hf. by apply (H false). }
  revert e; induction vs as [|[m w] vs IH]; intros e c; [done|]. cbn [mutate].
  destruct (FoldValue e m w) as [e' c'] eqn:E. intros Hf. destruct (IH e' _ Hf) as [Hc He].
  apply orb_false_iff in Hc as [-> ->]. split; [done|]. rewrite He.
  pose proof (FoldValue_unchanged e m w) as Hu. rewrite E in Hu. by apply Hu.
Qed.

Context `{!KVLaws K}.

Definition holds (s : kv) (j : job) : Prop :=
  forall n v, (n, v) ∈ j_values j -> absorbs (content s (j_key j)) n v.

(** What a writer about to write holds: the content of its revision, and that
    content with its values folded in. *)
Definition phase_ok (s : kv) (p : wphase) : Prop :=
  match p with
  | WWrite j _ rev base e =>
      e = (mutate base false (j_values j)).1 /\ 0 <= rev <= kv_seq s /\
      (rev = 0 -> base = fresh_entry) /\
      (forall v, kv_get s (j_key j) = Some (rev, v) -> content s (j_key j) = base)
  | _ => True
  end.

Definition sys_inv (x : sys) : Prop :=
  0 <= kv_seq (s_kv x) /\
  forall i w, s_writers x !! i = Some w ->
    phase_ok (s_kv x) (w_phase w) /\ forall j, j ∈ w_acked w -> holds (s_kv x) j.

Lemma written_content s k v s' e :
  written s k v s' -> unmarshal v = Some e -> content s' k = e.
Proof. intros (Hg & _) Hu. unfold content, getEntry. by rewrite Hg, Hu. Qed.

(** A successful write replaces exactly the content it was built on. *)
Lemma putEntry_ok s key e rev s' base :
  putEntry s key e rev = PutOk s' ->
  (rev = 0 -> base = fresh_entry) ->
  (forall v, kv_get s key = Some (rev, v) -> content s key = base) ->
  content s key = base /\ content s' key = mkEntry EntryVersion (e_Signals e) /\
  kv_seq s < kv_seq s' /\ exists v, written s key v s'.
Proof.
  unfold putEntry. destruct (marshal _) as [v|] eqn:Em; [|done]. intros Hp H0 Hb.
  destruct (rev =? 0) eqn:Er.
  - destruct (kv_create s key v) as [s1|] eqn:Ec; [|done]. injection Hp as ->.
    apply create_law in Ec as [Hn Hw]. apply Z.eqb_eq in Er.
    split; [unfold content, getEntry; rewrite Hn; symmetry; by apply H0|].
    split; [eapply written_content; [exact Hw|by eapply unmarshal_marshal]|].
    split; [apply Hw|by exists v].
  - destruct (kv_update s key v rev) as [s1|] eqn:Ec; [|done]. injection Hp as ->.
    apply update_law in Ec as [[v0 Hg] Hw]. split; [by eapply Hb|].
    split; [eapply written_content; [exact Hw|by eapply unmarshal_marshal]|].
    split; [apply Hw|by exists v].
Qed.

Lemma content_other s k v s' k' : written s k v s' -> k' <> k -> content s' k' = content s k'.
Proof. intros (_ & _ & Ho) Hne. unfold content, getEntry. by rewrite Ho. Qed.

(** What a write does to the other writers' invariants. *)
Lemma write_preserves s s' key v e base :
  written s key v s' -> content s key = base -> content s' key = mkEntry EntryVersion (e_Signals e) ->
  (forall n x, absorbs base n x -> absorbs e n x) ->
  (forall j, holds s j -> holds s' j) /\ (forall p, phase_ok s p -> phase_ok s' p).
Proof.
  intros Hw Hb He Hle. split.
  - intros j Hj n x Hin. destruct (decide (j_key j = key)) as [Ek|Ek].
    + rewrite Ek, He. specialize (Hj n x Hin). rewrite Ek, Hb in Hj.
      apply Hle in Hj as (c & Hc & H). by exists c.
    + rewrite (content_other _ _ _ _ _ Hw Ek). by apply Hj.
  - intros [| |j n rev base' e']; try done. simpl. intros (H1 & H2 & H3 & H4).
    pose proof Hw as (Hg & Hlt & Ho). split; [done|]. split; [lia|]. split; [done|].
    intros v' Hv'. destruct (decide (j_key j = key)) as [Ek|Ek].
    + rewrite Ek, Hg in Hv'. injection Hv' as Er _. lia.
    + rewrite Ho in Hv' by done. rewrite (content_other _ _ _ _ _ Hw Ek). by eapply H4.
Qed.

Lemma upd_inv s ws i w' :
  sys_inv (mkSys s ws) -> phase_ok s (w_phase w') -> (forall j, j ∈ w_acked w' -> holds s j) ->
  sys_inv (mkSys s (<[i := w']> ws)).
Proof.
  intros [Hs HI] Hp Ha. split; [done|]. intros k w Hk. simpl in *.
  apply lookup_insert_Some in Hk as [[-> <-]|[_ Hk]]; [by split|by eapply HI].
Qed.

Lemma sys_step_inv x y : sys_inv x -> sys_step x y -> sys_inv y.
Proof.
  intros HI Hstep.
  destruct Hstep as [s ws i w j Hi Hp|s ws i w j n Hi Hp|s ws i w j n rev base e s' w' Hi Hp Hw|
                     s ws i w j n Hi Hp].
  - destruct HI as [Hs HI]. destruct (HI i w Hi) as [_ Ha]. by apply upd_inv.
  - pose proof HI as [Hs HI']. destruct (HI' i w Hi) as [_ Ha]. unfold read_and_mutate.
    destruct (getEntry s (j_key j)) as [base rev] eqn:Eg.
    assert (Hc : content s (j_key j) = base) by (unfold content; by rewrite Eg).
    destruct (mutate base false (j_values j)) as [e c] eqn:Em.
    destruct c.
    + apply upd_inv; [done| |done]. simpl. rewrite Em. split; [done|].
      unfold getEntry in Eg. simpl in Hs.
      destruct (kv_get s (j_key j)) as [[r v]|] eqn:Ek.
      * assert (Hr : r = rev) by (destruct (unmarshal v); by simplify_eq). subst r.
        pose proof (get_seq _ _ _ _ Ek). split; [lia|]. split; [lia|done].
      * injection Eg as <- <-. split; [lia|]. split; [done|]. intros v [=].
    + apply upd_inv; [done|done|]. simpl. intros j' [->|Hj']%elem_of_cons; [|by apply Ha].
      intros n' v Hin. rewrite Hc. pose proof (mutate_unchanged base (j_values j)) as Hu.
      pose proof (mutate_absorbs base false (j_values j) n' v Hin) as Hab.
      rewrite Em in Hu, Hab. simpl in *. by rewrite <- (Hu eq_refl).
  - pose proof HI as [Hs HI']. destruct (HI' i w Hi) as [Hph Ha]. rewrite Hp in Hph.
    destruct Hph as (He & Hrev & H0 & Hb). unfold write_attempt in Hw.
    destruct (putEntry s (j_key j) e rev) as [s1| |] eqn:Epu.
    + injection Hw as <- <-.
      destruct (putEntry_ok _ _ _ _ _ base Epu H0 Hb) as (Hc & Hc' & Hlt & v & Hwr).
      destruct (write_preserves s s1 (j_key j) v e base Hwr Hc Hc') as [Hholds Hphase].
      { intros n' x Hx. rewrite He. by apply mutate_keeps. }
      simpl in Hs. apply upd_inv; [|done|].
      * split; [simpl; lia|]. intros k w2 Hk. destruct (HI' k w2 Hk) as [P A].
        split; [by apply Hphase|]. intros j' Hj'. by apply Hholds, A.
      * intros j' [->|Hj']%elem_of_cons; [|by apply Hholds, Ha].
        intros n' x Hin. rewrite Hc'.
        pose proof (mutate_absorbs base false (j_values j) n' x Hin) as (c & Hcl & H).
        rewrite <- He in Hcl. by exists c.
    + destruct (_ =? _)%nat; injection Hw as <- <-; by apply upd_inv.
    + injection Hw as <- <-. by apply upd_inv.
  - destruct HI as [Hs HI]. destruct (HI i w Hi) as [_ Ha]. by apply upd_inv.
Qed.

(** ** Where what the bucket holds comes from *)

Definition phase_jobs (p : wphase) : list job :=
  match p with WIdle => [] | WRead j _ => [j] | WWrite j _ _ _ _ => [j] end.

(** The jobs a writer has taken up so far. *)
Definition taken (w : writer) : list job := phase_jobs (w_phase w) ++ w_acked w ++ w_failed w.

(** The values of the signal [n] that were in the bucket at the start, or that some
    writer was asked to store under the key. *)
Definition source (x y : sys) (key n : string) (v : SignalValue) : Prop :=
  e_Signals (content (s_kv x) key) !! n = Some v \/
  exists i w j, s_writers y !! i = Some w /\ j ∈ taken w /\ j_key j = key /\ (n, v) ∈ j_values j.

(** [c] is put together from values of the source: its reading from one of them,
    its fix from one of them. *)
Definition drawn (src : string -> SignalValue -> Prop) (n : string) (c : SignalValue) : Prop :=
  (exists v, src n v /\ sv_TS c = sv_TS v /\ sv_CEID c = sv_CEID v /\ sv_Num c = sv_Num v /\ sv_Str c = sv_Str v) /\
  (forall l, sv_Loc c = Some l -> exists v, src n v /\ sv_Loc v = Some l).

Definition entry_drawn (src : string -> SignalValue -> Prop) (e : Entry) : Prop :=
  forall n c, e_Signals e !! n = Some c -> drawn src n c.

Lemma drawn_mono (src src' : string -> SignalValue -> Prop) n c :
  (forall n v, src n v -> src' n v) -> drawn src n c -> drawn src' n c.
Proof.
  intros Hi [(v & Hv & H) Hl]. split; [by exists v; split; [apply Hi|]|].
  intros l Hlc. destruct (Hl l Hlc) as (v' & Hv' & E). by exists v'; split; [apply Hi|].
Qed.

Lemma FoldValue_drawn src e name v : src name v -> entry_drawn src e -> entry_drawn src (FoldValue e name v).1.
Proof.
  intros Hv He n c. destruct (decide (name = n)) as [->|Hne].
  2:{ rewrite FoldValue_lookup_ne by done. apply He. }
  rewrite FoldValue_lookup. intros [= <-]. split.
  - unfold joined. destruct (fold_value_part (e_Signals e !! n) v) eqn:E.
    + exists v. by destruct (fold_loc_part _ _).
    + destruct (e_Signals e !! n) as [c|] eqn:Hc; [|done]. destruct (He n c Hc) as [(w & Hw & H) _].
      exists w. by destruct (fold_loc_part _ _).
  - intros l [Hl|Hl]%joined_loc; [by exists v|].
    destruct (e_Signals e !! n) as [c|] eqn:Hc; simpl in Hl; [|done]. by apply (He n c Hc).
Qed.

Lemma mutate_drawn src e c vs : (forall n v, (n, v) ∈ vs -> src n v) -> entry_drawn src e ->
  entry_drawn src (mutate e c vs).1.
Proof.
  revert e c; induction vs as [|[m w] vs IH]; intros e c Hv He; [done|]. cbn [mutate].
  destruct (FoldValue e m w) as [e' c'] eqn:E. apply IH; [intros n v Hin; apply Hv; by right|].
  replace e' with (FoldValue e m w).1 by (by rewrite E). apply FoldValue_drawn; [apply Hv; left|done].
Qed.

(** A step changes one writer, who forgets no job. *)
Lemma step_taken y z : sys_step y z -> exists i w w',
  s_writers y !! i = Some w /\ s_writers z = <[i := w']> (s_writers y) /\ forall j, j ∈ taken w -> j ∈ taken w'.
Proof.
  intros H. destruct H as [s ws i w j Hi Hp|s ws i w j n Hi Hp|s ws i w j n rev base e s' w' Hi Hp Hw|
                     s ws i w j n Hi Hp]; exists i, w.
  - exists (go w (WRead j 0)). split; [done|]. split; [done|]. unfold taken. rewrite Hp. simpl. set_solver.
  - eexists. split; [done|]. split; [done|]. unfold taken, read_and_mutate. rewrite Hp.
    destruct (getEntry s (j_key j)) as [b r], (mutate b false (j_values j)) as [e []]; simpl; set_solver.
  - exists w'. split; [done|]. split; [done|]. unfold taken. rewrite Hp. unfold write_attempt in Hw.
    destruct (putEntry s (j_key j) e rev); [|destruct (_ =? _)%nat|]; injection Hw as <- <-; simpl; set_solver.
  - exists (fail w j). split; [done|]. split; [done|]. unfold taken. simpl.
    destruct Hp as [->|(rev & base & e & ->)]; simpl; set_solver.
Qed.

Lemma source_step x y z key n v : sys_step y z -> source x y key n v -> source x z key n v.
Proof.
  intros (i & w & w' & Hi & Hz & Ht)%step_taken [H|(k & u & j & Hk & Hj & H)]; [by left|]. right. rewrite Hz.
  destruct (decide (k = i)) as [->|Hne].
  - assert (u = w) as -> by congruence. exists i, w', j. rewrite lookup_insert_eq. auto.
  - exists k, u, j. by rewrite lookup_insert_ne.
Qed.

Lemma source_taken x s ws i w j n v : ws !! i = Some w -> j ∈ taken w -> (n, v) ∈ j_values j ->
  source x (mkSys s ws) (j_key j) n v.
Proof. intros Hi Hj Hv. right. by exists i, w, j. Qed.

(** What is in the bucket, and what a writer is about to write, is drawn from the source. *)
Definition drawn_inv (x y : sys) : Prop :=
  (forall key, entry_drawn (source x y key) (content (s_kv y) key)) /\
  (forall i w j n rev base e, s_writers y !! i = Some w -> w_phase w = WWrite j n rev base e ->
     entry_drawn (source x y (j_key j)) e).

Lemma drawn_same x y s ws i w' : drawn_inv x y -> sys_step y (mkSys s (<[i := w']> ws)) ->
  ws = s_writers y -> (forall key, content s key = content (s_kv y) key) ->
  (forall j n rev base e, w_phase w' = WWrite j n rev base e -> entry_drawn (source x y (j_key j)) e) ->
  drawn_inv x (mkSys s (<[i := w']> ws)).
Proof.
  intros [H1 H2] Hs -> Hc Hw. split.
  - intros key n c Hn. simpl in Hn. rewrite Hc in Hn. eapply drawn_mono; [|by eapply H1].
    intros m v. by apply source_step.
  - intros k w j n rev base e Hk Hp m c Hm. simpl in Hk. eapply drawn_mono; [intros ? ?; by apply source_step|].
    apply lookup_insert_Some in Hk as [[-> <-]|[_ Hk]]; [by eapply Hw|by eapply H2].
Qed.

Lemma drawn_step x y z : sys_inv y -> drawn_inv x y -> sys_step y z -> drawn_inv x z.
Proof.
  intros [Hseq HI] HD Hstep. pose proof Hstep as Hs. pose proof HD as [H1 H2].
  destruct Hstep as [s ws i w j Hi Hp|s ws i w j n Hi Hp|s ws i w j n rev base e s' w' Hi Hp Hw|
                     s ws i w j n Hi Hp].
  - by apply (drawn_same x (mkSys s ws)).
  - apply (drawn_same x (mkSys s ws)); try done. unfold read_and_mutate.
    destruct (getEntry s (j_key j)) as [base rev] eqn:Eg.
    assert (Eb : content s (j_key j) = base) by (unfold content; by rewrite Eg).
    destruct (mutate base false (j_values j)) as [e []] eqn:Em; [|done]. simpl.
    intros j' n' rev' base' e' [= <- <- <- <- <-].
    replace e with (mutate base false (j_values j)).1 by (by rewrite Em). apply mutate_drawn.
    + intros m v Hv. eapply source_taken; [exact Hi| |exact Hv]. unfold taken. rewrite Hp. left.
    + rewrite <- Eb. apply H1.
  - destruct (HI i w Hi) as [Hph _]. rewrite Hp in Hph. destruct Hph as (He & Hrev & H0 & Hb).
    pose proof (H2 i w j n rev base e Hi Hp) as Hde. unfold write_attempt in Hw.
    destruct (putEntry s (j_key j) e rev) as [s1| |] eqn:Epu.
    + injection Hw as <- <-. destruct (putEntry_ok _ _ _ _ _ base Epu H0 Hb) as (_ & Hc' & _ & v & Hwr). split.
      * intros key m c Hm. eapply drawn_mono; [intros ? ?; by apply source_step|]. simpl in Hm.
        destruct (decide (key = j_key j)) as [->|Hne]; [rewrite Hc' in Hm; by apply Hde|].
        rewrite (content_other _ _ _ _ _ Hwr Hne) in Hm. by eapply H1.
      * intros k u j' n' rev' base' e' Hk Hpu m c Hm. eapply drawn_mono; [intros ? ?; by apply source_step|].
        simpl in Hk. apply lookup_insert_Some in Hk as [[-> <-]|[_ Hk]]; [done|by eapply H2].
    + destruct (_ =? _)%nat; injection Hw as <- <-; by apply (drawn_same x (mkSys s ws)).
    + injection Hw as <- <-. by apply (drawn_same x (mkSys s ws)).
  - by apply (drawn_same x (mkSys s ws)).
Qed.

Lemma init_invs x : sys_init x -> 0 <= kv_seq (s_kv x) -> sys_inv x /\ drawn_inv x x.
Proof.
  intros Hinit Hseq. split.
  - split; [done|]. intros k w' Hk. rewrite (Hinit k w' Hk). split; [done|]. intros j' Hj'. by apply elem_of_nil in Hj'.
  - split.
    + intros key n c Hn. split; [exists c; split; [by left|done]|]. intros l Hl. exists c. split; [by left|done].
    + intros i w j n rev base e Hi Hp. rewrite (Hinit i w Hi) in Hp. done.
Qed.

Lemma run_invs x y z : sys_inv y -> drawn_inv x y -> rtc sys_step y z -> sys_inv z /\ drawn_inv x z.
Proof.
  intros HI HD Hr. induction Hr as [|y y' z Hs Hr IH]; [done|].
  apply IH; [by eapply sys_step_inv|by eapply drawn_step].
Qed.

(** ** Acknowledged updates *)

(** A later time wins, and of one time the smaller event id. *)
Definition later (ts : Z) (ceid : string) (ts' : Z) (ceid' : string) : Prop :=
  ts' < ts \/ (ts = ts' /\ String.ltb ceid ceid' = true).

(** [c] has the very reading [v], or a later one of the source; and the very fix of
    [v], or a later one of the source. *)
Definition keeps (src : string -> SignalValue -> Prop) (n : string) (v c : SignalValue) : Prop :=
  ((sv_TS c = sv_TS v /\ sv_CEID c = sv_CEID v /\ sv_Num c = sv_Num v /\ sv_Str c = sv_Str v) \/
   exists v', src n v' /\ later (sv_TS v') (sv_CEID v') (sv_TS v) (sv_CEID v) /\
     sv_TS c = sv_TS v' /\ sv_CEID c = sv_CEID v' /\ sv_Num c = sv_Num v' /\ sv_Str c = sv_Str v') /\
  (forall l, sv_Loc v = Some l ->
     sv_Loc c = Some l \/
     exists v' l', src n v' /\ sv_Loc v' = Some l' /\ later (lv_TS l') (lv_CEID l') (lv_TS l) (lv_CEID l) /\
       sv_Loc c = Some l').

(** A signal's readings are told apart by their time and event id, and so are its
    fixes. *)
Definition told_apart (src : string -> SignalValue -> Prop) : Prop :=
  forall n v v', src n v -> src n v' ->
    (sv_TS v = sv_TS v' -> sv_CEID v = sv_CEID v' -> sv_Num v = sv_Num v' /\ sv_Str v = sv_Str v') /\
    (forall l l', sv_Loc v = Some l -> sv_Loc v' = Some l' -> lv_TS l = lv_TS l' -> lv_CEID l = lv_CEID l' -> l = l').

Lemma not_newer ts c ts' c' : newerThan ts c ts' c' = false -> (ts = ts' /\ c = c') \/ later ts' c' ts c.
Proof.
  rewrite newerThan_false. intros [H|[-> H]]; [right; by left|].
  destruct (sltb_total c c') as [Hc|[->|Hc]]; [congruence|by left|]. right. by right.
Qed.

Lemma absorbs_keeps src e n v : told_apart src -> src n v -> entry_drawn src e -> absorbs e n v ->
  exists c, e_Signals e !! n = Some c /\ keeps src n v c.
Proof.
  intros Hta Hv Hd (c & Hc & Hnew & Hloc). exists c. split; [done|]. destruct (Hd n c Hc) as [(u & Hu & E1 & E2 & E3 & E4) Hl].
  split.
  - apply not_newer in Hnew as [[Et Ec]|Hlt]; [left|right; exists u; rewrite <- E1, <- E2; by split_and!].
    destruct (Hta n u v Hu Hv) as [Hs _]. destruct Hs as [F1 F2]; [congruence..|]. split_and!; congruence.
  - intros l Hlv. destruct (Hloc l Hlv) as (lc & Elc & Hnl). destruct (Hl lc Elc) as (u' & Hu' & El).
    apply not_newer in Hnl as [[Et Ec]|Hlt]; [left|right; by exists u', lc].
    destruct (Hta n u' v Hu' Hv) as [_ Hs]. rewrite Elc. f_equal. by apply Hs.
Qed.

(** C7. No acknowledged update is lost: over every interleaving of any number
    of writers, retries, conflicts and failures, once [updateEntry] has
    returned nil for a job, and ever after, the subject's entry in the bucket
    holds each of its values: the reading with its own time, event id, number and
    text, or those of one later reading of the signal that was in the bucket or
    that a writer was asked to store there; and its fix, or one later such fix.
    Two readings of a signal with one time and one event id are taken to be the
    same reading. *)
Theorem acked_updates_survive x y i w j n v :
  sys_init x -> 0 <= kv_seq (s_kv x) -> rtc sys_step x y ->
  s_writers y !! i = Some w -> j ∈ w_acked w -> (n, v) ∈ j_values j ->
  told_apart (source x y (j_key j)) ->
  exists c, e_Signals (content (s_kv y) (j_key j)) !! n = Some c /\ keeps (source x y (j_key j)) n v c.
Proof.
  intros Hinit Hseq Hr Hi Hj Hin Hta. destruct (init_invs x Hinit Hseq) as [HI HD].
  destruct (run_invs x x y HI HD Hr) as [[_ HI'] [HD' _]]. destruct (HI' i w Hi) as [_ Ha].
  apply absorbs_keeps; [done| |apply HD'|by apply Ha].
  right. exists i, w, j. split; [done|]. split; [|done]. unfold taken. set_solver.
Qed.
End store.

(** ** The jobs cover what they were made from *)

Lemma by_subject_gen (rows : list Row) (m : gmap string (list Row)) (r : Row) :
  (r ∈ rows \/ exists l, m !! r_Subject r = Some l /\ r ∈ l) ->
  exists l, (fold_left (fun m r => <[r_Subject r := default [] (m !! r_Subject r) ++ [r]]> m) rows m
              : gmap string (list Row)) !! r_Subject r = Some l /\ r ∈ l.
Proof.
  revert m; induction rows as [|r' rows IH]; intros m [Hr|Hr]; simpl.
  - by apply elem_of_nil in Hr.
  - exact Hr.
  - apply IH. apply elem_of_cons in Hr as [->|Hr]; [|by left]. right.
    eexists. split; [apply lookup_insert_eq|]. apply elem_of_app. right. by apply list_elem_of_singleton.
  - apply IH. right. destruct Hr as (l & Hl & Hin).
    destruct (decide (r_Subject r' = r_Subject r)) as [E|E].
    + rewrite E, Hl. eexists. split; [apply lookup_insert_eq|]. apply elem_of_app. by left.
    + exists l. by rewrite lookup_insert_ne.
Qed.

Lemma publish_jobs_cover rows r :
  r ∈ rows -> exists j, j ∈ publish_jobs rows /\ j_subject j = r_Subject r /\
                       (r_Name r, row_value r) ∈ j_values j.
Proof.
  intros Hr. destruct (by_subject_gen rows ∅ r ltac:(by left)) as (l & Hl & Hin).
  exists (mkJob (r_Subject r) (map (fun r => (r_Name r, row_value r)) l)). split; [|split; [done|]].
  - unfold publish_jobs. apply list_elem_of_fmap. exists (r_Subject r, l). split; [done|].
    by apply elem_of_map_to_list.
  - apply list_elem_of_fmap. by exists r.
Qed.

Definition rr_id (r : RollupRow) : string * string := (rr_subject r, rr_name r).

Lemma merge_loop_cover cur pending rows :
  NoDup (map rr_id rows) ->
  (forall n v, pending !! n = Some v -> (cur, n) ∉ map rr_id rows) ->
  (forall n v, pending !! n = Some v -> exists j, j ∈ merge_loop cur pending rows /\
     j_subject j = cur /\ (n, v) ∈ j_values j) /\
  (forall r, r ∈ rows -> exists j, j ∈ merge_loop cur pending rows /\
     j_subject j = rr_subject r /\ (rr_name r, rr_value r) ∈ j_values j).
Proof.
  assert (Hflush : forall cur pending n v, pending !! n = Some v ->
            exists j, j ∈ flush cur pending /\ j_subject j = cur /\ (n, v) ∈ j_values j).
  { intros c p n v Hn. unfold flush. rewrite decide_False by (intros ->; by rewrite lookup_empty in Hn).
    eexists. split; [by left|]. split; [done|]. by apply elem_of_map_to_list. }
  revert cur pending; induction rows as [|r rows IH]; intros cur pending Hnd Hp; cbn [merge_loop].
  { split; [intros; by apply Hflush|]. intros r Hr. by apply elem_of_nil in Hr. }
  cbn [map] in Hnd. apply NoDup_cons in Hnd as [Hni Hnd].
  destruct (String.eqb_spec (rr_subject r) cur) as [E|E].
  - destruct (IH cur (<[rr_name r := rr_value r]> pending)) as [I1 I2]; [done| |].
    { intros n v [[<- <-]|[_ Hn]]%lookup_insert_Some.
      - intros Hc. apply Hni. unfold rr_id at 1. by rewrite E.
      - intros Hc. apply (Hp n v Hn). by right. }
    split.
    + intros n v Hn. apply I1. rewrite lookup_insert_ne; [done|]. intros En.
      apply (Hp n v Hn). apply elem_of_cons. left. unfold rr_id. congruence.
    + intros r' [->|Hr']%elem_of_cons; [|by apply I2].
      destruct (I1 (rr_name r) (rr_value r)) as (j & H1 & H2 & H3); [apply lookup_insert_eq|].
      exists j. by rewrite E.
  - destruct (IH (rr_subject r) {[rr_name r := rr_value r]}) as [I1 I2]; [done| |].
    { intros n v [<- <-]%lookup_singleton_Some. exact Hni. }
    split.
    + intros n v Hn. destruct (Hflush cur pending n v Hn) as (j & H1 & H2). exists j.
      split; [apply elem_of_app; by left|done].
    + intros r' [->|Hr']%elem_of_cons.
      * destruct (I1 (rr_name r) (rr_value r)) as (j & H1 & H2 & H3); [apply lookup_singleton_eq|].
        exists j. split; [apply elem_of_app; by right|done].
      * destruct (I2 r' Hr') as (j & H1 & H2). exists j. split; [apply elem_of_app; by right|done].
Qed.

(** A completed merge pass is a proof of completeness: when every job made
    from the rollup rows has been acknowledged, whatever other writers did
    meanwhile and do after, each row of the rollup (one per subject and signal)
    and each row of the tail since the watermark has its subject's entry in the
    bucket holding a reading of that signal at least as recent. The same holds
    of a published batch and its rows. *)
Theorem merge_pass_complete {K : KV} {laws : KVLaws K} x y i w rollup watermark tail_ :
  sys_init x -> 0 <= kv_seq (s_kv x) -> rtc sys_step x y -> s_writers y !! i = Some w ->
  NoDup (map rr_id rollup) -> (forall t, NoDup (map rr_id (tail_ t))) ->
  (forall j, j ∈ mergeFromRollup_jobs rollup watermark tail_ -> j ∈ w_acked w) ->
  (forall r, r ∈ rollup ->
     absorbs (content (s_kv y) (KeyForSubject (rr_subject r))) (rr_name r) (rr_value r)) /\
  (forall t r, watermark = Some t -> t <> zero_time -> r ∈ tail_ t ->
     absorbs (content (s_kv y) (KeyForSubject (rr_subject r))) (rr_name r) (rr_value r)) /\
  (forall batch r, (forall j, j ∈ publish_jobs batch -> j ∈ w_acked w) -> r ∈ batch ->
     absorbs (content (s_kv y) (KeyForSubject (r_Subject r))) (r_Name r) (row_value r)).
Proof.
  intros Hinit Hseq Hr Hi Hnd Hndt Hack.
  assert (HI : sys_inv x).
  { split; [done|]. intros k w' Hk. rewrite (Hinit k w' Hk). split; [done|].
    intros j' Hj'. by apply elem_of_nil in Hj'. }
  assert (HJ : sys_inv y).
  { clear -HI Hr laws. induction Hr as [|x x' y Hs Hr IH]; [done|]. apply IH. by eapply sys_step_inv. }
  assert (Hholds : forall j, j ∈ w_acked w -> holds (s_kv y) j).
  { destruct HJ as [_ HJ]. destruct (HJ i w Hi) as [_ Ha]. exact Ha. }
  split; [|split].
  - intros r Hin. destruct (merge_loop_cover "" ∅ rollup Hnd) as [_ Hc];
      [intros n v Hn; by rewrite lookup_empty in Hn|].
    destruct (Hc r Hin) as (j & Hj & Es & Hv).
    pose proof (Hholds j (Hack j ltac:(apply elem_of_app; by left)) _ _ Hv) as H.
    unfold j_key in H. by rewrite Es in H.
  - intros t r -> Ht Hin. destruct (merge_loop_cover "" ∅ (tail_ t) (Hndt t)) as [_ Hc];
      [intros n v Hn; by rewrite lookup_empty in Hn|].
    destruct (Hc r Hin) as (j & Hj & Es & Hv).
    assert (Hj' : j ∈ mergeFromRollup_jobs rollup (Some t) tail_).
    { apply elem_of_app; right. unfold is_zero.
      rewrite (proj2 (Z.eqb_neq t zero_time) Ht). exact Hj. }
    pose proof (Hholds j (Hack j Hj') _ _ Hv) as H. unfold j_key in H. by rewrite Es in H.
  - intros batch r Hb Hin. destruct (publish_jobs_cover batch r Hin) as (j & Hj & Es & Hv).
    pose proof (Hholds j (Hb j Hj) _ _ Hv) as H. unfold j_key in H. by rewrite Es in H.
Qed.

(** ** An in-memory bucket: the log of its writes, newest first *)

Fixpoint log_get (log : list (string * Entry)) (k : string) : option (Z * Entry) :=
  match log with
  | [] => None
  | (k', v) :: rest => if String.eqb k' k then Some (Z.of_nat (length log), v) else log_get rest k
  end.

#[export] Instance mem_kv : KV := {|
  kv := list (string * Entry);
  Val := Entry;
  kv_get := log_get;
  kv_create s k v := match log_get s k with Some _ => None | None => Some ((k, v) :: s) end;
  kv_update s k v r :=
    match log_get s k with
    | Some (r0, _) => if r0 =? r then Some ((k, v) :: s) else None
    | None => None
    end;
  kv_seq s := Z.of_nat (length s);
  marshal e := Some e;
  unmarshal v := Some v;
|}.

Lemma log_get_seq s k r v : log_get s k = Some (r, v) -> 0 < r <= Z.of_nat (length s).
Proof.
  induction s as [|[k' v'] s IH]; cbn [log_get]; [done|].
  destruct (String.eqb k' k); [intros [= <- <-]; simpl; lia|]. intros H. specialize (IH H).
  simpl. lia.
Qed.

Lemma log_written (s : list (string * Entry)) k v : @written mem_kv s k v ((k, v) :: s).
Proof.
  split; [|split].
  - simpl. by rewrite String.eqb_refl.
  - simpl. lia.
  - intros k' Hne. simpl. destruct (String.eqb_spec k k'); [congruence|done].
Qed.

#[export] Instance mem_kv_laws : KVLaws mem_kv.
Proof.
  split; simpl.
  - apply log_get_seq.
  - intros s k v s'. destruct (log_get s k); [done|]. intros [= <-]. split; [done|apply log_written].
  - intros s k v r s'. destruct (log_get s k) as [[r0 v0]|]; [|done].
    destruct (Z.eqb_spec r0 r) as [->|]; [|done]. intros [= <-].
    split; [by exists v0|apply log_written].
  - by intros e v [= ->].
Qed.

(** Two writers meet on one subject: both read it absent, the second one writes,
    the first loses the race, reads again and writes. *)
Definition job_demo (n : string) (ts : Z) (v : Z) : job :=
  mkJob "did:x" [(n, mkSignalValue ts "c" (f64_of_Z v) "" None)].

Definition idle_writer : writer := mkWriter WIdle [] [].

Definition do_write (s : list (string * Entry)) (w : writer) : list (string * Entry) * writer :=
  match w_phase w with
  | WWrite j n rev _ e => write_attempt s w j n rev e
  | _ => (s, w)
  end.

Definition race_a0 := read_and_mutate [] idle_writer (job_demo "speed" 10 1) 0.
Definition race_b0 := read_and_mutate [] idle_writer (job_demo "odo" 20 2) 0.
Definition race_b1 := do_write [] race_b0.
Definition race_a1 := do_write race_b1.1 race_a0.
Definition race_a2 := read_and_mutate race_a1.1 race_a1.2 (job_demo "speed" 10 1) 1.
Definition race_a3 := do_write race_a1.1 race_a2.
Definition race_end : sys := mkSys race_a3.1 {[0%nat := race_a3.2; 1%nat := race_b1.2]}.

Lemma race_end_reachable :
  rtc sys_step (mkSys [] {[0%nat := idle_writer; 1%nat := idle_writer]}) race_end.
Proof.
  eapply rtc_l; [apply (st_start _ _ 0%nat idle_writer (job_demo "speed" 10 1)); vm_compute; reflexivity|].
  eapply rtc_l; [apply (st_start _ _ 1%nat idle_writer (job_demo "odo" 20 2)); vm_compute; reflexivity|].
  eapply rtc_l; [eapply (st_read _ _ 0%nat); vm_compute; reflexivity|].
  eapply rtc_l; [eapply (st_read _ _ 1%nat); vm_compute; reflexivity|].
  eapply rtc_l; [eapply (st_write _ _ 1%nat); vm_compute; reflexivity|].
  eapply rtc_l; [eapply (st_write _ _ 0%nat); vm_compute; reflexivity|].
  eapply rtc_l; [eapply (st_read _ _ 0%nat); vm_compute; reflexivity|].
  eapply rtc_l; [eapply (st_write _ _ 0%nat); vm_compute; reflexivity|].
  match goal with |- rtc _ ?a ?b => replace b with a by (vm_compute; reflexivity) end.
  apply rtc_refl.
Qed.

Definition race_start : sys := mkSys (@nil (string * Entry) : @kv mem_kv) {[0%nat := idle_writer; 1%nat := idle_writer]}.

Lemma race_init : sys_init race_start.
Proof.
  intros i w Hw. simpl in Hw. apply lookup_insert_Some in Hw as [[_ <-]|[_ Hw]]; [done|].
  by apply lookup_singleton_Some in Hw as [_ <-].
Qed.

(** All the race writes is the two jobs' values. *)
Lemma race_source n v : source race_start race_end (KeyForSubject "did:x") n v ->
  (n, v) ∈ j_values (job_demo "speed" 10 1) \/ (n, v) ∈ j_values (job_demo "odo" 20 2).
Proof.
  intros [H|(i & w & j & Hi & Hj & _ & Hv)]; [vm_compute in H; discriminate|].
  change (s_writers race_end) with ({[0%nat := race_a3.2; 1%nat := race_b1.2]} : gmap nat writer) in Hi.
  apply lookup_insert_Some in Hi as [[_ <-]|[_ [_ <-]%lookup_singleton_Some]]; vm_compute in Hj;
    apply list_elem_of_singleton in Hj as ->; [left|right]; exact Hv.
Qed.

Lemma race_told_apart : told_apart (source race_start race_end (KeyForSubject "did:x")).
Proof.
  intros n v v' [[= -> ->]%list_elem_of_singleton|[= -> ->]%list_elem_of_singleton]%race_source
    [[= ->]%list_elem_of_singleton|[= ->]%list_elem_of_singleton]%race_source; split; done.
Qed.

Example acked_updates_survive_witness :
  exists c, e_Signals (content (s_kv race_end) (KeyForSubject "did:x")) !! "odo"%string = Some c /\
    keeps (source race_start race_end (KeyForSubject "did:x")) "odo" (mkSignalValue 20 "c" (f64_of_Z 2) "" None) c.
Proof.
  apply (acked_updates_survive race_start race_end
           1%nat race_b1.2 (job_demo "odo" 20 2)).
  - exact race_init.
  - vm_compute. discriminate.
  - exact race_end_reachable.
  - reflexivity.
  - vm_compute. apply list_elem_of_here.
  - apply list_elem_of_here.
  - exact race_told_apart.
Defined.

Example merge_pass_complete_witness :
  let r := mkRollupRow "did:x" "speed" (mkSignalValue 10 "c" (f64_of_Z 1) "" None) in
  absorbs (content (s_kv race_end) (KeyForSubject "did:x")) "speed" (rr_value r).
Proof.
  intros r.
  destruct (merge_pass_complete race_start race_end
              0%nat race_a3.2 [r] None (fun _ => [])) as (H & _).
  - exact race_init.
  - vm_compute. discriminate.
  - exact race_end_reachable.
  - reflexivity.
  - apply NoDup_singleton.
  - intros _. apply NoDup_nil_2.
  - intros j Hj.
    change (mergeFromRollup_jobs [r] None (fun _ => [])) with ([job_demo "speed" 10 1]) in Hj.
    apply list_elem_of_singleton in Hj as ->. vm_compute. apply list_elem_of_here.
  - apply (H r). apply list_elem_of_here.
Defined.
