(* ===== verification/Coverage.v ===== *)
(** * internal/latestkv/coverage.go: the coverage contract

    The writer's standing assertion that the latest-value bucket is complete:
    when a reader may trust it, and the reporter that proves, asserts and revokes
    it. The reporter's critical sections are functions; the reporter goroutine,
    the decode goroutine, a backfill beside it, shutdowns and crashes interleave in
    a step relation. What really happened to each failed publish is kept apart from
    what the reporter believes: in flight, in the lake only, seen there by a scan. Proved: outside the windows in which a failure or a flag goes unnoticed a
    proof always means completeness, and the windows are real. *)

From stdpp Require Import relations gmap sets.
From S2P Require Import Prelude.

(** ** The record *)

Definition CoverageVersion : Z := 1.
Definition CoverageHeartbeatInterval : Z := 30 * Second.
Definition CoverageMaxStaleness : Z := 90 * Second.

Record Coverage := mkCoverage {
  cv_V : Z;
  cv_VerifiedThrough : Z;
  cv_Clean : bool;
  cv_Degraded : bool;
  cv_Reason : string;
}.

(** [trusted]; the nil receiver is [None]. *)
Definition trusted (c : option Coverage) (now maxStaleness : Z) : bool :=
  match c with
  | None => false
  | Some c =>
      if negb (cv_V c =? CoverageVersion) || cv_Degraded c || is_zero (cv_VerifiedThrough c)
      then false
      else let age := time_sub now (cv_VerifiedThrough c) in
           (age <=? maxStaleness) && (wrap64 (- maxStaleness) <=? age)
  end.

(** [decodeCoverage] after [json.Unmarshal] ([None] when that fails). *)
Definition decodeCoverage (parsed : option Coverage) : result unit (option Coverage) :=
  match parsed with
  | None => Err tt
  | Some c => if negb (cv_V c =? CoverageVersion) then Ok None else Ok (Some c)
  end.

(** ** The reader's watcher *)

Inductive watch_update :=
  | UClosed
  | UInitialDone
  | UDeleted
  | UPut (parsed : option Coverage).

(** One round of [consume] on the atomic snapshot. *)
Definition consume (cur : option Coverage) (u : watch_update) : option Coverage :=
  match u with
  | UClosed | UDeleted => None
  | UInitialDone => cur
  | UPut p => match decodeCoverage p with Ok c => c | Err _ => None end
  end.

Definition TrustedAt (bucketTTL : Z) (cur : option Coverage) (now : Z) : bool :=
  if negb (bucketTTL =? 0) then false else trusted cur now CoverageMaxStaleness.

(** ** The reporter *)

Definition reconcileMinBackoff : Z := 30 * Second.
Definition reconcileMaxBackoff : Z := 10 * Minute.

Record CoverageReporter := mkReporter {
  proven : bool;
  degraded : bool;
  reason : string;
  adoptChecked : bool;
  retryAfter : Z;
  backoff : Z;
  settledBatches : Z;
  awaitBatch : Z;
  failSeq : Z;
}.

Definition NewCoverageReporter : CoverageReporter :=
  mkReporter false false "" false zero_time 0 0 0 0.

Definition nextBackoff (cur : Z) : Z :=
  if cur =? 0 then reconcileMinBackoff
  else let next := wrap64 (cur * 2) in
       if next <? reconcileMaxBackoff then next else reconcileMaxBackoff.

Definition ObservePublish (r : CoverageReporter) (err : option string) : CoverageReporter :=
  match err with
  | None => r
  | Some e => mkReporter false true e (adoptChecked r) (retryAfter r) (backoff r)
                (settledBatches r) (settledBatches r + 1) (failSeq r + 1)
  end.

Definition ObserveBatchSettled (r : CoverageReporter) : CoverageReporter :=
  mkReporter (proven r) (degraded r) (reason r) (adoptChecked r) (retryAfter r) (backoff r)
    (settledBatches r + 1) (awaitBatch r) (failSeq r).

Definition settleBarrierMet (r : CoverageReporter) : bool :=
  (awaitBatch r =? 0) || (awaitBatch r <=? settledBatches r).

(** The first critical section of [establish]: [None] while backing off. *)
Definition establish_begin (now : Z) (r : CoverageReporter)
  : CoverageReporter * option (bool * string * bool) :=
  let r' := mkReporter (proven r) (degraded r) (reason r) true (retryAfter r) (backoff r)
              (settledBatches r) (awaitBatch r) (failSeq r) in
  if negb (is_zero (retryAfter r)) && before now (retryAfter r) then (r', None)
  else (r', Some (degraded r, reason r, adoptChecked r)).

(** The critical section of [adoptClean]. *)
Definition adopt_set (r : CoverageReporter) : CoverageReporter :=
  mkReporter true (degraded r) (reason r) (adoptChecked r) (retryAfter r) (backoff r)
    (settledBatches r) (awaitBatch r) (failSeq r).

(** What makes the stored record adoptable. *)
Definition adoptable (cur : option Coverage) : bool :=
  match cur with
  | None => false
  | Some c => cv_Clean c && negb (cv_Degraded c)
  end.

(** The critical section after a failed reconcile or a failed assertion. *)
Definition back_off (now : Z) (r : CoverageReporter) : CoverageReporter :=
  let b := nextBackoff (backoff r) in
  mkReporter (proven r) (degraded r) (reason r) (adoptChecked r) (time_add now b) b
    (settledBatches r) (awaitBatch r) (failSeq r).

(** The last critical section of [runReconcile]. *)
Definition reconcile_commit (r : CoverageReporter) : CoverageReporter :=
  mkReporter true false "" (adoptChecked r) zero_time 0 (settledBatches r) 0 (failSeq r).

(** The critical section of [heartbeat] when another publisher degraded coverage. *)
Definition drop_proof (why : string) (r : CoverageReporter) : CoverageReporter :=
  mkReporter false true why (adoptChecked r) (retryAfter r) (backoff r)
    (settledBatches r) (awaitBatch r) (failSeq r).

Definition asserted (now : Z) : Coverage := mkCoverage CoverageVersion now false false "".
Definition degraded_record (why : string) : Coverage :=
  mkCoverage CoverageVersion zero_time false true why.
Definition clean_record (now : Z) : Coverage := mkCoverage CoverageVersion now true false "".

(** [markClean] on shutdown. *)
Definition markClean (now : Z) (r : CoverageReporter) (k : option Coverage) : option Coverage :=
  if proven r then Some (clean_record now) else k.

(** [FlushDegraded] of a publish-only participant. *)
Definition FlushDegraded (r : CoverageReporter) (k : option Coverage) : option Coverage * bool :=
  if degraded r then (Some (degraded_record (reason r)), true) else (k, false).

(** ** The reporter's goroutine and its surroundings *)

(** Between which two operations of a [tick] the goroutine is. A running scan
    carries the failed publishes that are visible to it. *)
Inductive rpc :=
  | PIdle
  | PEstablish
  | PAdopt
  | PAdoptSet
  | PPersist (deg : bool) (why : string)
  | PBarrier
  | PReconcile
  | PScan (failsAtStart : Z) (sees : gset Z)
  | PRaceCheck (failsAtStart : Z)
  | PAssert
  | PCommit
  | PHeartbeat
  | PBeatPut.

(** What really happened, whatever the reporter believes. Every failed publish has
    a number of its own. [w_open]: the writer's, whose batch is in flight, so that
    their rows are in neither the bucket nor the lake; [w_missing]: those whose rows
    are in the lake and that no completed scan started after that; [w_unflagged]:
    those of a backfill that is still running. [w_other] is the backfill's reporter. *)
Record world := mkWorld {
  w_next : Z;
  w_open : gset Z;
  w_missing : gset Z;
  w_unflagged : gset Z;
  w_other : CoverageReporter;
}.

Record cov_sys := mkCov {
  rep : CoverageReporter;
  stored : option Coverage;
  pc : rpc;
  wld : world;
}.

(** Every row whose publish failed and whose batch was committed was in the lake when
    a later, completed scan started, and no failed batch is in flight. *)
Definition complete (w : world) : Prop := w_open w = ∅ /\ w_missing w = ∅.

(** A completed scan accounts for the failed publishes whose rows were in the lake
    when it started. (That it merges those rows into the bucket is
    [ReconcileFromRollup]'s part, in LatestStore: it visits the rollup's rows and those
    since the watermark.) *)
Definition scanned (sees : gset Z) (w : world) : world :=
  mkWorld (w_next w) (w_open w) (w_missing w ∖ sees) (w_unflagged w) (w_other w).

Definition record_degraded (k : option Coverage) : bool :=
  match k with Some c => cv_Degraded c | None => false end.

(** One operation of the reporter goroutine. *)
Inductive rep_step : cov_sys -> cov_sys -> Prop :=
  | rs_tick_proven r k w :
      proven r = true -> rep_step (mkCov r k PIdle w) (mkCov r k PHeartbeat w)
  | rs_tick_unproven r k w :
      proven r = false -> rep_step (mkCov r k PIdle w) (mkCov r k PEstablish w)
  | rs_backing_off now r r' k w :
      establish_begin now r = (r', None) ->
      rep_step (mkCov r k PEstablish w) (mkCov r' k PIdle w)
  | rs_try_adopt now r r' k w why :
      establish_begin now r = (r', Some (false, why, false)) ->
      rep_step (mkCov r k PEstablish w) (mkCov r' k PAdopt w)
  | rs_no_adopt now r r' k w deg why checked :
      establish_begin now r = (r', Some (deg, why, checked)) -> checked || deg = true ->
      rep_step (mkCov r k PEstablish w) (mkCov r' k (PPersist deg why) w)
  | rs_adopt_read r k w :
      adoptable k = true -> rep_step (mkCov r k PAdopt w) (mkCov r k PAdoptSet w)
  | rs_adopt_refused r k w :
      (* unreadable, absent, unclean or degraded *)
      rep_step (mkCov r k PAdopt w) (mkCov r k (PPersist false "") w)
  | rs_adopt_set r k w :
      rep_step (mkCov r k PAdoptSet w) (mkCov (adopt_set r) k PHeartbeat w)
  | rs_persist r k w why :
      rep_step (mkCov r k (PPersist true why) w) (mkCov r (Some (degraded_record why)) PBarrier w)
  | rs_persist_skip r k w deg why :
      (* nothing to persist, or the write failed *)
      rep_step (mkCov r k (PPersist deg why) w) (mkCov r k PBarrier w)
  | rs_barrier_wait r k w :
      settleBarrierMet r = false -> rep_step (mkCov r k PBarrier w) (mkCov r k PIdle w)
  | rs_barrier_met r k w :
      settleBarrierMet r = true -> rep_step (mkCov r k PBarrier w) (mkCov r k PReconcile w)
  | rs_scan_start r k w :
      rep_step (mkCov r k PReconcile w) (mkCov r k (PScan (failSeq r) (w_missing w)) w)
  | rs_scan_failed now r k w f c :
      rep_step (mkCov r k (PScan f c) w) (mkCov (back_off now r) k PIdle w)
  | rs_scan_done r k w f c :
      rep_step (mkCov r k (PScan f c) w) (mkCov r k (PRaceCheck f) (scanned c w))
  | rs_raced r k w f :
      failSeq r <> f -> rep_step (mkCov r k (PRaceCheck f) w) (mkCov r k PIdle w)
  | rs_not_raced r k w f :
      failSeq r = f -> rep_step (mkCov r k (PRaceCheck f) w) (mkCov r k PAssert w)
  | rs_assert_failed now r k w :
      rep_step (mkCov r k PAssert w) (mkCov (back_off now r) k PIdle w)
  | rs_assert now r k w :
      rep_step (mkCov r k PAssert w) (mkCov r (Some (asserted now)) PCommit w)
  | rs_commit r k w :
      rep_step (mkCov r k PCommit w) (mkCov (reconcile_commit r) k PHeartbeat w)
  | rs_beat_unreadable r k w :
      rep_step (mkCov r k PHeartbeat w) (mkCov r k PIdle w)
  | rs_beat_degraded r c w :
      cv_Degraded c = true ->
      rep_step (mkCov r (Some c) PHeartbeat w) (mkCov (drop_proof (cv_Reason c) r) (Some c) PIdle w)
  | rs_beat_ok r k w :
      record_degraded k = false -> rep_step (mkCov r k PHeartbeat w) (mkCov r k PBeatPut w)
  | rs_beat_put now r k w :
      rep_step (mkCov r k PBeatPut w) (mkCov r (Some (asserted now)) PIdle w)
  | rs_beat_put_failed r k w :
      rep_step (mkCov r k PBeatPut w) (mkCov r k PIdle w).

(** The decode goroutine: the publish of the batch in flight fails; the batch's
    transaction ends. *)
Definition publish_fails (s : cov_sys) (e : string) : cov_sys :=
  let w := wld s in
  mkCov (ObservePublish (rep s) (Some e)) (stored s) (pc s)
    (mkWorld (w_next w + 1) ({[w_next w]} ∪ w_open w) (w_missing w) (w_unflagged w) (w_other w)).

Definition batch_settles (committed : bool) (s : cov_sys) : cov_sys :=
  let w := wld s in
  mkCov (ObserveBatchSettled (rep s)) (stored s) (pc s)
    (mkWorld (w_next w) ∅ (if committed then w_open w ∪ w_missing w else w_missing w)
       (w_unflagged w) (w_other w)).

(** A backfill beside the writer: a publish of its fails; a batch of its settles;
    it ends with [FlushDegraded], whose write may be lost (or it is killed). *)
Definition other_fails (s : cov_sys) (e : string) : cov_sys :=
  let w := wld s in
  mkCov (rep s) (stored s) (pc s)
    (mkWorld (w_next w + 1) (w_open w) (w_missing w) ({[w_next w]} ∪ w_unflagged w)
       (ObservePublish (w_other w) (Some e))).

Definition other_settles (s : cov_sys) : cov_sys :=
  let w := wld s in
  mkCov (rep s) (stored s) (pc s)
    (mkWorld (w_next w) (w_open w) (w_missing w) (w_unflagged w) (ObserveBatchSettled (w_other w))).

Definition other_exits (written : bool) (s : cov_sys) : cov_sys :=
  let w := wld s in
  mkCov (rep s) (if written then (FlushDegraded (w_other w) (stored s)).1 else stored s) (pc s)
    (mkWorld (w_next w) (w_open w) (w_unflagged w ∪ w_missing w) ∅ NewCoverageReporter).

(** The writer's process ends: after [markClean], whose write may be lost, with the
    decode loop stopped; or at any moment, and the batch in flight may be in the
    lake. The next process starts afresh. *)
Definition shutdown (now : Z) (written : bool) (s : cov_sys) : cov_sys :=
  mkCov NewCoverageReporter (if written then markClean now (rep s) (stored s) else stored s) PIdle (wld s).

Definition crash (s : cov_sys) : cov_sys :=
  let w := wld s in
  mkCov NewCoverageReporter (stored s) PIdle
    (mkWorld (w_next w) ∅ (w_open w ∪ w_missing w) (w_unflagged w) (w_other w)).

(** The places where a failed publish of the writer is not noticed, and those where
    a flag another publisher writes is overwritten unread. *)
Definition blind (p : rpc) : bool :=
  match p with
  | PAdopt | PAdoptSet | PReconcile | PAssert | PCommit => true
  | _ => false
  end.

Definition deaf (p : rpc) : bool :=
  match p with
  | PScan _ _ | PRaceCheck _ | PAssert | PBeatPut => true
  | _ => false
  end.

(** With [restricted] the windows of [coverage_holes] are left out. *)
Inductive cov_step (restricted : bool) : cov_sys -> cov_sys -> Prop :=
  | cs_rep s s' : rep_step s s' -> cov_step restricted s s'
  | cs_fail s e :
      restricted && blind (pc s) = false -> cov_step restricted s (publish_fails s e)
  | cs_settle committed s : cov_step restricted s (batch_settles committed s)
  | cs_other_fails s e : cov_step restricted s (other_fails s e)
  | cs_other_settles s : cov_step restricted s (other_settles s)
  | cs_other_exits written s :
      (restricted = true -> w_unflagged (wld s) <> ∅ -> written = true /\ deaf (pc s) = false) ->
      cov_step restricted s (other_exits written s)
  | cs_shutdown now written s :
      pc s = PIdle -> w_open (wld s) = ∅ ->
      (restricted = true -> proven (rep s) = true -> record_degraded (stored s) = false) ->
      (restricted = true -> adoptable (stored s) = true -> degraded (rep s) = false) ->
      cov_step restricted s (shutdown now written s)
  | cs_crash s :
      (restricted = true -> adoptable (stored s) = true -> degraded (rep s) = false) ->
      cov_step restricted s (crash s).

(** A first process: nothing proven; a clean record means no gap was left. *)
Definition cov_init (s : cov_sys) : Prop :=
  rep s = NewCoverageReporter /\ pc s = PIdle /\
  w_open (wld s) = ∅ /\ w_unflagged (wld s) = ∅ /\ w_other (wld s) = NewCoverageReporter /\
  (adoptable (stored s) = true -> w_missing (wld s) = ∅).

(** ** Trust decays *)

(** A reader trusts misses only against a live assertion: trust requires a
    record of the known version, not degraded, whose time is within 90 seconds
    of now either way, and a bucket without a TTL. So when the writer stops
    asserting, whatever the reason, trust ends 90 seconds after its last
    assertion and does not come back by itself; and the watcher trusts nothing
    after the record is deleted, undecodable, or the watch ends. *)
Theorem trust_decays ttl cur now :
  (TrustedAt ttl cur now = true ->
   exists c, cur = Some c /\ ttl = 0 /\ cv_V c = CoverageVersion /\ cv_Degraded c = false /\
     cv_VerifiedThrough c <> zero_time /\
     Z.abs (now - cv_VerifiedThrough c) <= CoverageMaxStaleness) /\
  (forall c later, cur = Some c -> cv_VerifiedThrough c + CoverageMaxStaleness < later ->
     TrustedAt ttl cur later = false) /\
  (forall later, TrustedAt ttl (consume cur UClosed) later = false /\
                 TrustedAt ttl (consume cur UDeleted) later = false /\
                 TrustedAt ttl (consume cur (UPut None)) later = false).
Proof.
  assert (Hw : wrap64 (- CoverageMaxStaleness) = - CoverageMaxStaleness) by (vm_compute; reflexivity).
  assert (Hage : forall c t, trusted (Some c) t CoverageMaxStaleness = true ->
            cv_V c = CoverageVersion /\ cv_Degraded c = false /\ cv_VerifiedThrough c <> zero_time /\
            Z.abs (t - cv_VerifiedThrough c) <= CoverageMaxStaleness).
  { intros c t. unfold trusted. rewrite Hw. destruct (_ || _) eqn:E; [done|].
    apply orb_false_iff in E as [E E3]. apply orb_false_iff in E as [E1 E2].
    rewrite andb_true_iff, !Z.leb_le. bools. unfold time_sub.
    assert (CoverageMaxStaleness < max_int64) by (vm_compute; reflexivity).
    assert (min_int64 < - CoverageMaxStaleness) by (vm_compute; reflexivity).
    intros [H1 H2]. repeat split; try done. lia. }
  split; [|split].
  - unfold TrustedAt. destruct (Z.eqb_spec ttl 0); simpl; [|done].
    destruct cur as [c|]; [|done]. intros H. apply Hage in H as (? & ? & ? & ?). by exists c.
  - intros c later -> Hl. unfold TrustedAt. destruct (negb _); [done|].
    destruct (trusted (Some c) later CoverageMaxStaleness) eqn:E; [|done].
    apply Hage in E as (_ & _ & _ & Hb). lia.
  - intros later. unfold TrustedAt. by destruct (negb _).
Qed.

(** ** A proof means completeness, outside the blind windows *)

Definition pc_inv (s : cov_sys) : Prop :=
  match pc s with
  | PAdopt => adoptable (stored s) = true -> complete (wld s)
  | PAdoptSet | PCommit => w_open (wld s) = ∅ /\ (record_degraded (stored s) = false -> w_missing (wld s) = ∅)
  | PAssert => complete (wld s)
  | PReconcile => w_open (wld s) = ∅
  | PScan f c => f <= failSeq (rep s) /\ (failSeq (rep s) = f -> w_open (wld s) = ∅ /\ w_missing (wld s) ⊆ c)
  | PRaceCheck f => f <= failSeq (rep s) /\ (failSeq (rep s) = f -> complete (wld s))
  | PBeatPut => proven (rep s) = true -> complete (wld s)
  | _ => True
  end.

Record cov_inv (s : cov_sys) : Prop := {
  ci_proven : proven (rep s) = true -> record_degraded (stored s) = false -> complete (wld s);
  ci_open : 0 <= settledBatches (rep s) /\
            (w_open (wld s) <> ∅ -> awaitBatch (rep s) = settledBatches (rep s) + 1 /\ proven (rep s) = false);
  ci_adopt : degraded (rep s) = false -> adoptable (stored s) = true -> complete (wld s);
  ci_other : w_unflagged (wld s) <> ∅ -> degraded (w_other (wld s)) = true;
  ci_pc : pc_inv s;
}.

Lemma establish_begin_spec now r r' res :
  establish_begin now r = (r', res) ->
  proven r' = proven r /\ degraded r' = degraded r /\ settledBatches r' = settledBatches r /\
  awaitBatch r' = awaitBatch r /\
  (forall d w c, res = Some (d, w, c) -> d = degraded r).
Proof.
  unfold establish_begin. destruct (_ && _); intros [= <- <-]; simpl;
    repeat split; try done; intros d w c; by intros [= <- _ _].
Qed.

Lemma adoptable_not_degraded k : adoptable k = true -> record_degraded k = false.
Proof. destruct k as [c|]; [|done]. simpl. by destruct (cv_Degraded c); rewrite ?andb_false_r. Qed.

(** A met barrier: the batches of all failed publishes have settled. *)
Lemma barrier_closed r (o : gset Z) : 0 <= settledBatches r ->
  (o <> ∅ -> awaitBatch r = settledBatches r + 1 /\ proven r = false) ->
  settleBarrierMet r = true -> o = ∅.
Proof.
  intros Hs Ho. unfold settleBarrierMet. rewrite orb_true_iff, Z.eqb_eq, Z.leb_le. intros Hm.
  destruct (decide (o = ∅)) as [|Hne]; [done|]. destruct (Ho Hne). lia.
Qed.

(** A step that only moves the goroutine, or changes what the proof does not rest on. *)
Lemma cov_inv_frame r r' k p p' w : cov_inv (mkCov r k p w) ->
  proven r' = proven r -> degraded r' = degraded r ->
  settledBatches r' = settledBatches r -> awaitBatch r' = awaitBatch r ->
  pc_inv (mkCov r' k p' w) -> cov_inv (mkCov r' k p' w).
Proof.
  intros [HA HB HC HO _] Ep Ed Es Ea HD. split; simpl in *; rewrite ?Ep, ?Ed, ?Es, ?Ea; done.
Qed.

Lemma complete_scanned c w : complete w -> complete (scanned c w).
Proof. intros [H1 H2]. split; simpl; [done|set_solver]. Qed.

Lemma rep_step_inv s s' : cov_inv s -> rep_step s s' -> cov_inv s'.
Proof.
  intros Hs Hstep. pose proof Hs as [HA [HB1 HB2] HC HO HD]. unfold pc_inv in HD.
  destruct Hstep; simpl in *;
    try match goal with H : establish_begin _ _ = _ |- _ =>
      apply establish_begin_spec in H as (Ep & Ed & Es & Ea & Er) end;
    try (eapply cov_inv_frame; [exact Hs|done..|]; unfold pc_inv; simpl; try done).
  - (* the adoption probe *)
    apply HC. symmetry. by eapply Er.
  - (* the record is clean *)
    destruct (HD H) as [Ho Hm]. by split.
  - (* adopted *)
    destruct HD as [Ho Hm]. split; simpl; try done. intros _ Hk. by split; [|apply Hm].
  - (* the degraded flag goes out *)
    by split.
  - (* the barrier *)
    by eapply barrier_closed.
  - (* a scan is done *)
    destruct HD as [Hf Hd]. split; simpl; try done.
    + intros Hp Hk. by apply complete_scanned, HA.
    + intros Hp Hk. by apply complete_scanned, HC.
    + unfold pc_inv; simpl. split; [done|]. intros E. destruct (Hd E) as [Ho Hm].
      split; simpl; [done|set_solver].
  - (* no failure raced the scan *)
    by apply HD.
  - (* the assertion *)
    split; simpl; try done. by destruct HD.
  - (* the proof *)
    destruct HD as [Ho Hm]. split; simpl; try done.
    + intros _ Hk. by split; [|apply Hm].
    + intros _ Hk. split; [done|]. by apply Hm, adoptable_not_degraded.
  - (* another publisher's flag *)
    split; simpl; try done. split; [done|]. intros Ho. by destruct (HB2 Ho).
  - (* before the heartbeat's write *)
    intros Hp. by apply HA.
  - (* the heartbeat *)
    split; simpl; try done. intros Hp _. by apply HD.
Qed.

Lemma publish_fails_inv s e : cov_inv s -> blind (pc s) = false -> cov_inv (publish_fails s e).
Proof.
  intros [HA [HB1 HB2] HC HO HD] Hb. unfold pc_inv in HD. destruct s as [r k p [n o m u ot]].
  split; simpl in *; try done. unfold pc_inv; simpl. destruct p; simpl in *; try done; split; lia.
Qed.

Lemma batch_settles_inv cm s : cov_inv s -> cov_inv (batch_settles cm s).
Proof.
  intros [HA [HB1 HB2] HC HO HD]. unfold pc_inv, complete in HD. destruct s as [r k p [n o m u ot]].
  assert (Hm : forall X : gset Z, o = ∅ -> m ⊆ X -> (if cm then o ∪ m else m) ⊆ X)
    by (intros X -> HX; destruct cm; set_solver).
  assert (Hc : o = ∅ /\ m = ∅ -> @eq (gset Z) ∅ ∅ /\ (if cm then o ∪ m else m) = ∅)
    by (intros [-> ->]; split; [done|]; destruct cm; set_solver).
  split; unfold complete in *; simpl in *; try (split; [lia|done]); auto.
  unfold pc_inv, complete; simpl. destruct p; simpl in *; auto.
  - destruct HD as [Ho Hd]. split; [done|]. intros Hk. apply Hc. auto.
  - destruct HD as [Hf Hd]. split; [done|]. intros E. destruct (Hd E). auto.
  - destruct HD as [Hf Hd]. split; [done|]. auto.
  - destruct HD as [Ho Hd]. split; [done|]. intros Hk. apply Hc. auto.
Qed.

(** With the flag in place failures may be added outside the deaf windows. *)
Lemma cov_inv_flag r k why p w w' : cov_inv (mkCov r k p w) ->
  w_open w' = w_open w -> w_unflagged w' = ∅ -> (w_missing w' = w_missing w \/ deaf p = false) ->
  cov_inv (mkCov r (Some (degraded_record why)) p w').
Proof.
  intros [HA [HB1 HB2] HC HO HD] Eo Eu Hm. unfold pc_inv, complete in HD.
  split; unfold complete in *; simpl in *; try done; [by rewrite Eo|].
  unfold pc_inv, complete; simpl. rewrite Eo.
  destruct p; simpl in *; destruct Hm as [Hm|Hm]; rewrite ?Hm; try done; by destruct HD.
Qed.

Lemma other_exits_inv wr s : cov_inv s ->
  (w_unflagged (wld s) <> ∅ -> wr = true /\ deaf (pc s) = false) -> cov_inv (other_exits wr s).
Proof.
  intros Hs Hx. destruct s as [r k p [n o m u ot]]. unfold other_exits, FlushDegraded; simpl in *.
  destruct (decide (u = ∅)) as [->|Hu].
  - rewrite (left_id_L ∅ (∪) m). destruct wr, (degraded ot); simpl;
      [by eapply cov_inv_flag; [exact Hs|auto..]|..]; by destruct Hs; split.
  - destruct (Hx Hu) as [-> Hd]. pose proof (ci_other _ Hs Hu) as Ho. simpl in Ho. rewrite Ho. simpl.
    eapply cov_inv_flag; [exact Hs|done|done|by right].
Qed.

(** A process that starts afresh on a record that does not hide a failure. *)
Lemma fresh_inv k w : w_open w = ∅ -> (w_unflagged w <> ∅ -> degraded (w_other w) = true) ->
  (adoptable k = true -> w_missing w = ∅) -> cov_inv (mkCov NewCoverageReporter k PIdle w).
Proof. intros Ho Hu Hk. split; simpl; try done. intros _ Ha. split; auto. Qed.

Lemma shutdown_inv now wr s : cov_inv s -> w_open (wld s) = ∅ ->
  (proven (rep s) = true -> record_degraded (stored s) = false) ->
  (adoptable (stored s) = true -> degraded (rep s) = false) -> cov_inv (shutdown now wr s).
Proof.
  intros [HA HB HC HO HD] Ho H1 H2. apply fresh_inv; [done|done|]. unfold markClean.
  destruct wr; [destruct (proven (rep s)) eqn:Ep|]; intros Ha; [apply HA; auto|apply HC; auto..].
Qed.

Lemma crash_inv s : cov_inv s -> (adoptable (stored s) = true -> degraded (rep s) = false) -> cov_inv (crash s).
Proof.
  intros [HA HB HC HO HD] H2. apply fresh_inv; simpl; [done|done|].
  intros Ha. destruct (HC (H2 Ha) Ha) as [-> ->]. set_solver.
Qed.

Lemma cov_step_inv s s' : cov_inv s -> cov_step true s s' -> cov_inv s'.
Proof.
  intros Hs H. destruct H; try (by destruct Hs; split).
  - by eapply rep_step_inv.
  - by apply publish_fails_inv.
  - by apply batch_settles_inv.
  - apply other_exits_inv; auto.
  - apply shutdown_inv; auto.
  - apply crash_inv; auto.
Qed.

Lemma cov_init_inv s : cov_init s -> cov_inv s.
Proof.
  destruct s as [r k p w]. unfold cov_init; simpl. intros (-> & -> & Ho & Hu & _ & Ha).
  apply fresh_inv; [done|by rewrite Hu|done].
Qed.

Lemma cov_run_inv s s' : cov_inv s -> rtc (cov_step true) s s' -> cov_inv s'.
Proof. intros Hs H. induction H; [done|]. eauto using cov_step_inv. Qed.

(** C2. A proof of coverage means that no gap is unrepaired: on every run from a first
    process (which finds no clean record, or a true one), over any interleaving of batches,
    failed publishes, a backfill, restarts and the reporter's steps, while the reporter
    holds a proof and the stored record carries no flag, no failed publish is in flight,
    and every row that was committed although its publish failed, the backfill's included
    once it has ended, was in the lake when some later, completed scan started. The same
    holds while the stored record is one the next process adopts without a scan and this
    one has seen no failure. The runs leave out the windows of [coverage_holes]: a publish
    of the writer that fails between a check and the action it licenses, a flag of a
    backfill with a failure that is not written or is overwritten unread, and a process
    that ends with a clean record in place after a failure it saw, or that marks itself
    clean over a flag. A graceful end comes between ticks with no failed batch in flight. *)
Theorem proof_means_complete s0 s :
  cov_init s0 -> rtc (cov_step true) s0 s ->
  (proven (rep s) = true -> record_degraded (stored s) = false -> complete (wld s)) /\
  (adoptable (stored s) = true -> degraded (rep s) = false -> complete (wld s)).
Proof. intros H0 Hr. pose proof (cov_run_inv _ _ (cov_init_inv _ H0) Hr) as [HA _ HC _ _]. split; auto. Qed.

(** ** Runs *)

Definition t0 : Z := 100 * Second.
Definition quiet (m : gset Z) (n : Z) : world := mkWorld n ∅ m ∅ NewCoverageReporter.
Definition boot (k : option Coverage) : cov_sys := mkCov NewCoverageReporter k PIdle (quiet ∅ 0).

(** A failed publish at boot, its batch commits, the lake is scanned. *)
Definition healed : cov_sys :=
  mkCov (mkReporter true false "" true zero_time 0 1 0 1) (Some (asserted t0)) PHeartbeat (quiet ∅ 1).

Ltac go rule := eapply rtc_l; [apply cs_rep, rule; vm_compute; reflexivity|]; simpl.
Ltac go0 rule := eapply rtc_l; [apply cs_rep, rule|]; simpl.

Lemma eq_world (w w' : world) : w_next w = w_next w' -> w_open w = w_open w' -> w_missing w = w_missing w' ->
  w_unflagged w = w_unflagged w' -> w_other w = w_other w' -> w = w'.
Proof. destruct w, w'; simpl; congruence. Qed.

(** To the end of a run: the sets are compared as sets. *)
Ltac arrive :=
  match goal with
  | |- rtc _ (mkCov ?r ?k ?p ?w) (mkCov ?r' ?k' ?p' ?w') =>
      replace w with w' by (apply eq_world; simpl; first [reflexivity|vm_compute; reflexivity|set_solver]);
      apply rtc_refl
  end.

Lemma healed_run restricted : rtc (cov_step restricted) (boot None) healed.
Proof.
  eapply rtc_l; [apply (cs_fail _ _ "timeout"); simpl; by rewrite andb_false_r|].
  eapply rtc_l; [apply (cs_settle _ true)|]. simpl.
  go rs_tick_unproven. eapply rtc_l;
    [apply cs_rep; eapply (rs_no_adopt t0); [vm_compute; reflexivity|reflexivity]|]; simpl.
  go0 rs_persist. go rs_barrier_met. go0 rs_scan_start. go0 rs_scan_done.
  go rs_not_raced. go0 (rs_assert t0). go0 rs_commit. unfold healed, quiet. arrive.
Qed.

Lemma proof_means_complete_witness :
  cov_init (boot None) /\ proven (rep healed) = true /\ complete (wld healed).
Proof.
  split; [repeat split; try done|]. split; [reflexivity|].
  refine (proj1 (proof_means_complete (boot None) healed _ (healed_run true)) eq_refl eq_refl). repeat split; done.
Defined.

(** ** The windows are real *)

(** A reporter that is idle with a proof, a record readers trust, and a row in the
    lake that is missing from the bucket. *)
Definition hole (s : cov_sys) : Prop :=
  pc s = PIdle /\ proven (rep s) = true /\ trusted (stored s) t0 CoverageMaxStaleness = true /\
  w_missing (wld s) <> ∅.

Definition reaches_hole (s : cov_sys) : Prop := exists s', rtc (cov_step false) s s' /\ hole s'.

Lemma hole_step s s' : cov_step false s s' -> reaches_hole s' -> reaches_hole s.
Proof. intros H (t & Hr & Ht). exists t. split; [by eapply rtc_l|done]. Qed.

Lemma hole_rep s s' : rep_step s s' -> reaches_hole s' -> reaches_hole s.
Proof. intros H. by apply hole_step, cs_rep. Qed.

(** From a heartbeat that finds no flag the assertion goes out. *)
Lemma beat_hole r k w : record_degraded k = false -> proven r = true -> w_missing w <> ∅ ->
  reaches_hole (mkCov r k PHeartbeat w).
Proof.
  intros Hk Hp Hw. eapply hole_rep; [by apply rs_beat_ok|]. eapply hole_rep; [apply (rs_beat_put t0)|].
  eexists. split; [apply rtc_refl|]. by repeat split.
Qed.

(** A publish fails at [p] of some run from boot, its batch commits, and the gap is
    certified away. *)
Definition blind_at (p : rpc) : Prop :=
  exists s0 s1, cov_init s0 /\ rtc (cov_step false) s0 s1 /\ pc s1 = p /\
    reaches_hole (publish_fails s1 "timeout").

(** A backfill's flag arrives at [p] and is overwritten. *)
Definition deaf_at (p : rpc) : Prop :=
  exists s0 s1, cov_init s0 /\ rtc (cov_step false) s0 s1 /\ pc s1 = p /\
    reaches_hole (other_exits true s1).

(** After the barrier has been checked on a fresh reporter. *)
Definition checked : CoverageReporter := mkReporter false false "" true zero_time 0 0 0 0.

Lemma reconciling w : rtc (cov_step false) (mkCov NewCoverageReporter None PIdle w) (mkCov checked None PReconcile w).
Proof.
  go rs_tick_unproven.
  eapply rtc_l; [apply cs_rep; eapply (rs_try_adopt t0); vm_compute; reflexivity|]. simpl.
  go0 rs_adopt_refused. go0 rs_persist_skip. go rs_barrier_met. apply rtc_refl.
Qed.

Ltac hole rule := eapply hole_rep; [apply rule; vm_compute; reflexivity|]; simpl.
Ltac hole0 rule := eapply hole_rep; [apply rule|]; simpl.

(** The writer's own failures: after a clean record was read and before it is
    adopted; after the barrier was found met and before the failure counter is
    sampled; after the race check and before the proof is committed. *)
Lemma blind_adopt : blind_at PAdoptSet.
Proof.
  exists (boot (Some (clean_record t0))). eexists. split; [done|]. split.
  - unfold boot. go rs_tick_unproven.
    eapply rtc_l; [apply cs_rep; eapply (rs_try_adopt t0); vm_compute; reflexivity|].
    eapply rtc_l; [apply cs_rep, rs_adopt_read; reflexivity|]. apply rtc_refl.
  - split; [done|]. eapply hole_step; [apply (cs_settle _ true)|]. simpl. hole0 rs_adopt_set.
    apply beat_hole; [done|done|]. simpl. set_solver.
Qed.

Lemma blind_reconcile : blind_at PReconcile.
Proof.
  exists (boot None). eexists. split; [done|]. split; [apply reconciling|]. split; [done|].
  hole0 rs_scan_start. eapply hole_step; [apply (cs_settle _ true)|]. simpl.
  hole0 rs_scan_done. hole rs_not_raced. hole0 (rs_assert t0). hole0 rs_commit.
  apply beat_hole; [done|done|]. simpl. set_solver.
Qed.

Lemma blind_assert : blind_at PAssert.
Proof.
  exists (boot None). eexists. split; [done|]. split; [|split; [|]].
  - etrans; [apply reconciling|]. go0 rs_scan_start. go0 rs_scan_done. go rs_not_raced. apply rtc_refl.
  - done.
  - eapply hole_step; [apply (cs_settle _ true)|]. simpl. hole0 (rs_assert t0). hole0 rs_commit.
    apply beat_hole; [done|done|]. simpl. set_solver.
Qed.

(** A backfill's failed publish, and its end. *)
Lemma backfilled : rtc (cov_step false) (boot None)
  (other_settles (other_fails (boot None) "timeout")).
Proof. eapply rtc_l; [apply cs_other_fails|]. eapply rtc_l; [apply cs_other_settles|]. apply rtc_refl. Qed.

(** The flag of a backfill that ends between a heartbeat's read and its write, or
    while the lake is scanned, is overwritten by the assertion. *)
Lemma deaf_beat : deaf_at PBeatPut.
Proof.
  exists (boot None). eexists. split; [done|]. split; [|split; [|]].
  - etrans; [apply backfilled|]. unfold boot, other_fails, other_settles; simpl. etrans; [apply reconciling|].
    go0 rs_scan_start. go0 rs_scan_done. go rs_not_raced. go0 (rs_assert t0). go0 rs_commit.
    go rs_beat_ok. apply rtc_refl.
  - done.
  - unfold other_exits; simpl. hole0 (rs_beat_put t0). eexists. split; [apply rtc_refl|].
    split; [done|]. split; [done|]. split; [done|]. simpl. set_solver.
Qed.

Lemma deaf_scan : exists sees, deaf_at (PScan 0 sees).
Proof.
  eexists. exists (boot None). eexists. split; [done|]. split; [|split; [|]].
  - etrans; [apply backfilled|]. unfold boot, other_fails, other_settles; simpl. etrans; [apply reconciling|].
    go0 rs_scan_start. apply rtc_refl.
  - done.
  - unfold other_exits; simpl. hole0 rs_scan_done. hole rs_not_raced. hole0 (rs_assert t0). hole0 rs_commit.
    apply beat_hole; [done|done|]. simpl. set_solver.
Qed.

(** A flag that is never written: nothing revokes the proof. *)
Lemma lost_flag : exists s1, rtc (cov_step false) (boot None) s1 /\ reaches_hole (other_exits false s1).
Proof.
  eexists. split.
  - etrans; [apply backfilled|]. unfold boot, other_fails, other_settles; simpl. etrans; [apply reconciling|].
    go0 rs_scan_start. go0 rs_scan_done. go rs_not_raced. go0 (rs_assert t0). go0 rs_commit. apply rtc_refl.
  - unfold other_exits; simpl. apply beat_hole; [done|done|]. simpl. set_solver.
Qed.

(** A clean record outlives a failure its process saw: the process ends before the
    flag has replaced it, and the next one adopts it. *)
Lemma stale_clean : reaches_hole (crash (publish_fails (boot (Some (clean_record t0))) "timeout")).
Proof.
  unfold crash, publish_fails, boot; simpl. hole rs_tick_unproven.
  eapply hole_rep; [eapply (rs_try_adopt t0); vm_compute; reflexivity|].
  hole rs_adopt_read. hole0 rs_adopt_set. apply beat_hole; [done|done|]. simpl. set_solver.
Qed.

(** A clean shutdown writes over a flag no heartbeat has read. *)
Lemma clean_over_flag : exists s1, rtc (cov_step false) (boot None) s1 /\ pc s1 = PIdle /\
  record_degraded (stored s1) = true /\ reaches_hole (shutdown t0 true s1).
Proof.
  eexists. split; [|split; [|split]].
  - etrans; [apply backfilled|]. unfold boot, other_fails, other_settles; simpl. etrans; [apply reconciling|].
    go0 rs_scan_start. go0 rs_scan_done. go rs_not_raced. go0 (rs_assert t0). go0 rs_commit.
    go rs_beat_ok. go0 (rs_beat_put t0). eapply rtc_l; [apply (cs_other_exits _ true); done|]. apply rtc_refl.
  - done.
  - done.
  - unfold shutdown, other_exits; simpl. hole rs_tick_unproven.
    eapply hole_rep; [eapply (rs_try_adopt t0); vm_compute; reflexivity|].
    hole rs_adopt_read. hole0 rs_adopt_set. apply beat_hole; [done|done|]. simpl. set_solver.
Qed.

(** The windows are real: each ends in a reporter that is idle and proven, with a
    trusted assertion in the bucket and a row of the lake missing from it. *)
Theorem coverage_holes :
  (blind_at PAdoptSet /\ blind_at PReconcile /\ blind_at PAssert) /\
  (deaf_at PBeatPut /\ exists sees, deaf_at (PScan 0 sees)) /\
  (exists s1, rtc (cov_step false) (boot None) s1 /\ reaches_hole (other_exits false s1)) /\
  reaches_hole (crash (publish_fails (boot (Some (clean_record t0))) "timeout")) /\
  (exists s1, rtc (cov_step false) (boot None) s1 /\ pc s1 = PIdle /\
     record_degraded (stored s1) = true /\ reaches_hole (shutdown t0 true s1)).
Proof.
  auto 10 using blind_adopt, blind_reconcile, blind_assert, deaf_beat, deaf_scan, lost_flag, stale_clean, clean_over_flag.
Qed.
