(* ===== verification/Coordinates.v ===== *)
(** * internal/materializer: decoded signals before they are stored

    decode.go's pruning of future and duplicate signals, and location.go's merging
    of latitude, longitude and HDOP readings into one location signal. The code
    keeps indices into a slice it renames in place; it is proved to compute what a
    greedy grouping of the coordinate readings gives. *)

From S2P Require Import Prelude Model.

(** ** Signals *)

(** The fields of [cloudevent.CloudEventHeader] the materializer reads. *)
Record CloudEventHeader := mkHeader {
  ce_Subject : string;
  ce_Time : Z;
  ce_Type : string;
  ce_ID : string;
  ce_Source : string;
  ce_Producer : string;
  ce_DataVersion : string;
}.

Record SignalData := mkSignalData {
  sd_Timestamp : Z;
  sd_Name : string;
  sd_ValueNumber : float64;
  sd_ValueString : string;
  sd_ValueLocation : vssLocation;
  sd_CloudEventID : string;
}.

Record Signal := mkSignal { sg_Header : CloudEventHeader; sg_Data : SignalData }.

Definition ts (s : Signal) : Z := sd_Timestamp (sg_Data s).
Definition name (s : Signal) : string := sd_Name (sg_Data s).

Definition zero_location : vssLocation := mkVssLocation f64_zero f64_zero f64_zero f64_zero.
Definition zero_header : CloudEventHeader := mkHeader "" zero_time "" "" "" "" "".

Definition pruneSignalName : string := "___prune".
Definition pruneSignal : Signal :=
  mkSignal zero_header (mkSignalData zero_time pruneSignalName f64_zero "" zero_location "").

(** [cmp.Or(a.Timestamp.Compare(b.Timestamp), cmp.Compare(a.Name, b.Name)) <= 0]. *)
Definition signal_le (a b : Signal) : bool :=
  before (ts a) (ts b) || tequal (ts a) (ts b) && negb (String.ltb (name b) (name a)).

(** [slices.SortFunc] with that comparison. It is not stable: equal elements may
    come out in any order, so it is any function that sorts. *)
Class SortFunc := sort_signals : list Signal -> list Signal.

Class SortFuncLaws (S : SortFunc) : Prop := {
  sort_signals_perm l : sort_signals l ≡ₚ l;
  sort_signals_sorted l : StronglySorted (fun a b => signal_le a b = true) (sort_signals l);
}.

(** ** decode.go: future and duplicate signals *)

Definition allowableTimeSkew : Z := 5 * Minute.

Definition isFutureTimestamp (now t : Z) : bool := after t (time_add now allowableTimeSkew).

Definition signalEqual (a b : Signal) : bool :=
  String.eqb (name a) (name b) && tequal (ts a) (ts b).

(** The marking loop; an error is the name and time of a future signal. *)
Fixpoint prune_loop (now : Z) (signals : list Signal) : list Signal * list (string * Z) :=
  match signals with
  | [] => ([], [])
  | s :: rest =>
      let '(out, errs) := prune_loop now rest in
      if isFutureTimestamp now (ts s) then (pruneSignal :: out, (name s, ts s) :: errs)
      else
        let dup := match rest with s' :: _ => signalEqual s s' | [] => false end in
        ((if dup then pruneSignal else s) :: out, errs)
  end.

Definition not_pruned (s : Signal) : bool := negb (String.eqb (name s) pruneSignalName).

Definition pruneFutureAndDuplicateSignals {S : SortFunc} (now : Z) (signals : list Signal)
  : list Signal * list (string * Z) :=
  let '(out, errs) := prune_loop now (sort_signals signals) in
  (List.filter not_pruned out, errs).

(** ** location.go *)

Definition maxLatLongDur : Z := 500 * Millisecond.
Definition fieldCurrentLocationLatitude : string := "currentLocationLatitude".
Definition fieldCurrentLocationLongitude : string := "currentLocationLongitude".
Definition fieldDIMOAftermarketHDOP : string := "dimoAftermarketHDOP".
Definition FieldCurrentLocationCoordinates : string := "currentLocationCoordinates".

Definition validLatLon (lat lon : float64) : bool :=
  if f64_is_nan lat || f64_is_nan lon || f64_is_inf lat || f64_is_inf lon then false
  else if f64_eqb lat f64_zero && f64_eqb lon f64_zero then false
  else f64_leb (f64_of_Z (-90)) lat && f64_leb lat (f64_of_Z 90) &&
       f64_leb (f64_of_Z (-180)) lon && f64_leb lon (f64_of_Z 180).

Inductive location_error :=
  | InvalidCoordinate (lat lon : float64) (t : Z)
  | UnpairedLatitude (t : Z)
  | UnpairedLongitude (t : Z).

Record coordinateStore := mkStore {
  lastLat : Z;
  lastLon : Z;
  lastHDOP : Z;
  lastTime : Z;
  signals : list Signal;
  created : list Signal;
  errs : list location_error;
}.

Definition newCoordinateStore (l : list Signal) : coordinateStore :=
  mkStore (-1) (-1) (-1) zero_time l [] [].

(** [c.signals[i]]; the store's indices are within the slice ([settled_at]). *)
Definition sig_at (l : list Signal) (i : Z) : Signal := default pruneSignal (l !! Z.to_nat i).

(** [s.Data.Name = pruneSignalName] *)
Definition marked (s : Signal) : Signal :=
  let d := sg_Data s in
  mkSignal (sg_Header s)
    (mkSignalData (sd_Timestamp d) pruneSignalName (sd_ValueNumber d) (sd_ValueString d)
       (sd_ValueLocation d) (sd_CloudEventID d)).

(** [c.signals[i].Data.Name = pruneSignalName], for [i] other than -1. *)
Definition mark (i : Z) (l : list Signal) : list Signal :=
  if i =? -1 then l else alter marked (Z.to_nat i) l.

Definition tryCreateLocation (c : coordinateStore) : coordinateStore :=
  let sigs := signals c in
  let template :=
    if negb (lastLat c =? -1) then sig_at sigs (lastLat c)
    else if negb (lastLon c =? -1) then sig_at sigs (lastLon c)
    else if negb (lastHDOP c =? -1) then sig_at sigs (lastHDOP c)
    else sig_at sigs 0 in
  let '(sigs1, loc1, create1, errs1) :=
    if negb (lastLat c =? -1) && negb (lastLon c =? -1) then
      let lat := sd_ValueNumber (sg_Data (sig_at sigs (lastLat c))) in
      let lon := sd_ValueNumber (sg_Data (sig_at sigs (lastLon c))) in
      let sigs' := mark (lastLon c) (mark (lastLat c) sigs) in
      if negb (validLatLon lat lon)
      then (sigs', zero_location, false, errs c ++ [InvalidCoordinate lat lon (lastTime c)])
      else (sigs', mkVssLocation lat lon f64_zero f64_zero, true, errs c)
    else if negb (lastLat c =? -1) then
      (mark (lastLat c) sigs, zero_location, false, errs c ++ [UnpairedLatitude (lastTime c)])
    else if negb (lastLon c =? -1) then
      (mark (lastLon c) sigs, zero_location, false, errs c ++ [UnpairedLongitude (lastTime c)])
    else (sigs, zero_location, false, errs c) in
  let '(sigs2, loc2, create2) :=
    if negb (lastHDOP c =? -1) then
      (mark (lastHDOP c) sigs1,
       mkVssLocation (vl_Latitude loc1) (vl_Longitude loc1)
         (sd_ValueNumber (sg_Data (sig_at sigs1 (lastHDOP c)))) f64_zero, true)
    else (sigs1, loc1, create1) in
  mkStore (-1) (-1) (-1) zero_time sigs2
    (if create2 then
       created c ++ [mkSignal (sg_Header template)
         (mkSignalData (lastTime c) FieldCurrentLocationCoordinates f64_zero "" loc2
            (sd_CloudEventID (sg_Data template)))]
     else created c)
    errs1.

Definition set_lat (i : Z) (c : coordinateStore) : coordinateStore :=
  mkStore i (lastLon c) (lastHDOP c) (lastTime c) (signals c) (created c) (errs c).
Definition set_lon (i : Z) (c : coordinateStore) : coordinateStore :=
  mkStore (lastLat c) i (lastHDOP c) (lastTime c) (signals c) (created c) (errs c).
Definition set_hdop (i : Z) (c : coordinateStore) : coordinateStore :=
  mkStore (lastLat c) (lastLon c) i (lastTime c) (signals c) (created c) (errs c).
Definition set_time (t : Z) (c : coordinateStore) : coordinateStore :=
  mkStore (lastLat c) (lastLon c) (lastHDOP c) t (signals c) (created c) (errs c).

Definition processSignal (index : Z) (c : coordinateStore) : coordinateStore :=
  let sig := sig_at (signals c) index in
  let c1 := if negb (is_zero (lastTime c)) && (maxLatLongDur <=? time_sub (ts sig) (lastTime c))
            then tryCreateLocation c else c in
  let start c2 := if is_zero (lastTime c2) then set_time (ts sig) c2 else c2 in
  if String.eqb (name sig) fieldCurrentLocationLatitude then
    start (set_lat index (if negb (lastLat c1 =? -1) then tryCreateLocation c1 else c1))
  else if String.eqb (name sig) fieldCurrentLocationLongitude then
    start (set_lon index (if negb (lastLon c1 =? -1) then tryCreateLocation c1 else c1))
  else if String.eqb (name sig) fieldDIMOAftermarketHDOP then
    start (set_hdop index (if negb (lastHDOP c1 =? -1) then tryCreateLocation c1 else c1))
  else c1.

Definition handleCoordinates {S : SortFunc} (l : list Signal) : list Signal * list location_error :=
  match l with
  | [] => ([], [])
  | _ =>
      let sorted := sort_signals l in
      let c := fold_left (fun c i => processSignal (Z.of_nat i) c)
                         (seq 0 (length sorted)) (newCoordinateStore sorted) in
      let c' := tryCreateLocation c in
      (List.filter not_pruned (signals c') ++ created c', errs c')
  end.

(** ** The coordinate readings, grouped *)

Inductive coord := CLat | CLon | CHdop.

#[export] Instance coord_eq_dec : EqDecision coord.
Proof. solve_decision. Defined.

Definition coord_of (s : Signal) : option coord :=
  if String.eqb (name s) fieldCurrentLocationLatitude then Some CLat
  else if String.eqb (name s) fieldCurrentLocationLongitude then Some CLon
  else if String.eqb (name s) fieldDIMOAftermarketHDOP then Some CHdop
  else None.

Definition is_coord (s : Signal) : bool := match coord_of s with Some _ => true | None => false end.
Definition of_kind (k : coord) (s : Signal) : bool := bool_decide (coord_of s = Some k).

(** The group's reading of kind [k]. *)
Definition part (k : coord) (g : list Signal) : option Signal := List.find (of_kind k) g.

Definition triple_time (g : list Signal) : Z := match g with s :: _ => ts s | [] => zero_time end.

(** A reading joins the group under construction unless the group has one of its
    kind or started half a second before it. *)
Definition joins (g : list Signal) (x : Signal) : bool :=
  match g with
  | [] => true
  | h :: _ => (time_sub (ts x) (ts h) <? maxLatLongDur) &&
              negb (existsb (fun s => bool_decide (coord_of s = coord_of x)) g)
  end.

Fixpoint triples (cur rest : list Signal) : list (list Signal) :=
  match rest with
  | [] => match cur with [] => [] | _ => [cur] end
  | x :: r => if joins cur x then triples (cur ++ [x]) r else cur :: triples [x] r
  end.

Definition number (s : Signal) : float64 := sd_ValueNumber (sg_Data s).

(** The position of a group that has a usable latitude and longitude. *)
Definition pair_of (g : list Signal) : option vssLocation :=
  match part CLat g, part CLon g with
  | Some a, Some b =>
      if validLatLon (number a) (number b)
      then Some (mkVssLocation (number a) (number b) f64_zero f64_zero) else None
  | _, _ => None
  end.

Definition template_of (g : list Signal) : option Signal :=
  match part CLat g with
  | Some a => Some a
  | None => match part CLon g with Some b => Some b | None => part CHdop g end
  end.

Definition triple_errs (g : list Signal) : list location_error :=
  match part CLat g, part CLon g with
  | Some a, Some b =>
      if validLatLon (number a) (number b) then []
      else [InvalidCoordinate (number a) (number b) (triple_time g)]
  | Some _, None => [UnpairedLatitude (triple_time g)]
  | None, Some _ => [UnpairedLongitude (triple_time g)]
  | None, None => []
  end.

Definition with_hdop (h : option Signal) (l : vssLocation) : vssLocation :=
  match h with
  | Some s => mkVssLocation (vl_Latitude l) (vl_Longitude l) (number s) f64_zero
  | None => l
  end.

Definition triple_created (g : list Signal) : list Signal :=
  match template_of g, pair_of g, part CHdop g with
  | None, _, _ => []
  | _, None, None => []
  | Some t, p, h =>
      [mkSignal (sg_Header t)
         (mkSignalData (triple_time g) FieldCurrentLocationCoordinates f64_zero ""
            (with_hdop h (default zero_location p)) (sd_CloudEventID (sg_Data t)))]
  end.

(** ** The store follows the grouping *)

Definition settled (s : Signal) : Signal := if is_coord s then marked s else s.

Definition settle (c : coordinateStore) : list Signal :=
  mark (lastHDOP c) (mark (lastLon c) (mark (lastLat c) (signals c))).

Definition index_of (k : coord) (c : coordinateStore) : Z :=
  match k with CLat => lastLat c | CLon => lastLon c | CHdop => lastHDOP c end.

(** The store's index of kind [k] points at the group's reading, before [i]. *)
Definition points (i : nat) (cur : list Signal) (c : coordinateStore) (k : coord) : Prop :=
  match part k cur with
  | None => index_of k c = -1
  | Some s => exists j : nat, index_of k c = Z.of_nat j /\ (j < i)%nat /\ signals c !! j = Some s
  end.

Lemma mark_comm i j l : mark i (mark j l) = mark j (mark i l).
Proof.
  unfold mark. destruct (i =? -1), (j =? -1); try done.
  rewrite list_alter_alter. destruct (decide _) as [E|]; [|done]. by rewrite E, list_alter_alter_eq.
Qed.

Lemma mark_nat j l : mark (Z.of_nat j) l = alter marked j l.
Proof.
  unfold mark. destruct (Z.eqb_spec (Z.of_nat j) (-1)); [lia|]. by rewrite Nat2Z.id.
Qed.

(** Marking renames, and so leaves what the code reads of an element. *)
Lemma number_mark i l j : number (sig_at (mark i l) j) = number (sig_at l j).
Proof.
  unfold mark, sig_at. destruct (i =? -1); [done|]. rewrite list_lookup_alter.
  destruct (decide _) as [->|]; [|done]. by destruct (l !! Z.to_nat j).
Qed.

Lemma mark_other j i (l : list Signal) : (i < j)%nat -> mark (Z.of_nat i) l !! j = l !! j.
Proof. intros H. rewrite mark_nat. apply list_lookup_alter_ne. lia. Qed.

Lemma settle_at i cur c j :
  (forall k, points i cur c k) -> (i <= j)%nat -> settle c !! j = signals c !! j.
Proof.
  intros HP Hj.
  assert (Hm : forall k l, mark (index_of k c) l !! j = l !! j).
  { intros k l. specialize (HP k). unfold points in HP. destruct (part k cur).
    - destruct HP as (n & -> & Hn & _). apply mark_other. lia.
    - by rewrite HP. }
  unfold settle. rewrite (Hm CHdop), (Hm CLon). apply (Hm CLat).
Qed.

(** What forcing the group out does. *)
Lemma tryCreateLocation_spec i cur c :
  (forall k, points i cur c k) -> lastTime c = triple_time cur ->
  tryCreateLocation c =
  mkStore (-1) (-1) (-1) zero_time (settle c)
    (created c ++ triple_created cur) (errs c ++ triple_errs cur).
Proof.
  intros HP Ht.
  assert (Hat : forall k s, part k cur = Some s ->
            (index_of k c =? -1) = false /\ sig_at (signals c) (index_of k c) = s).
  { intros k s Hs. specialize (HP k). unfold points in HP. rewrite Hs in HP.
    destruct HP as (j & -> & _ & Hl). split; [apply Z.eqb_neq; lia|].
    unfold sig_at. by rewrite Nat2Z.id, Hl. }
  assert (Hno : forall k, part k cur = None -> index_of k c = -1).
  { intros k Hs. specialize (HP k). unfold points in HP. by rewrite Hs in HP. }
  unfold tryCreateLocation, settle, triple_created, triple_errs, pair_of, template_of, with_hdop.
  rewrite Ht.
  destruct (part CLat cur) as [a|] eqn:E1;
    [destruct (Hat _ _ E1) as [I1 S1]|pose proof (Hno _ E1) as I1]; cbn [index_of] in *;
  (destruct (part CLon cur) as [b|] eqn:E2;
    [destruct (Hat _ _ E2) as [I2 S2]|pose proof (Hno _ E2) as I2]); cbn [index_of] in *;
  (destruct (part CHdop cur) as [h|] eqn:E3;
    [destruct (Hat _ _ E3) as [I3 S3]|pose proof (Hno _ E3) as I3]); cbn [index_of] in *;
  fold (number (sig_at (signals c) (lastLat c))) (number (sig_at (signals c) (lastLon c)));
  rewrite ?I1, ?I2, ?I3, ?S1, ?S2; cbn [negb andb Z.eqb Pos.eqb];
  try (destruct (validLatLon _ _); cbn [negb]);
  repeat (match goal with |- context [sd_ValueNumber (sg_Data ?s)] => fold (number s) end);
  rewrite ?number_mark, ?S3, ?app_nil_r; try done.
Qed.

(** ** The loop invariant *)

Definition coords (l : list Signal) : list Signal := List.filter is_coord l.

Section store.
Context (S : list Signal).
Context (Hsorted : StronglySorted (fun a b => ts a <= ts b) S).
Context (Hreal : Forall (fun s => ts s <> zero_time) S).

Record store_inv (i : nat) (gs : list (list Signal)) (cur : list Signal) (c : coordinateStore)
  : Prop := {
  si_points : forall k, points i cur c k;
  si_settle : settle c = map settled (take i S) ++ drop i S;
  si_time : lastTime c = triple_time cur;
  si_real : Forall (fun s => ts s <> zero_time /\ is_coord s = true) cur;
  si_created : created c = flat_map triple_created gs;
  si_errs : errs c = flat_map triple_errs gs;
  si_groups : triples [] (coords S) = gs ++ triples cur (coords (drop i S));
}.

Lemma flush_inv i gs cur c :
  store_inv i gs cur c ->
  triples cur (coords (drop i S)) = cur :: triples [] (coords (drop i S)) ->
  store_inv i (gs ++ [cur]) [] (tryCreateLocation c).
Proof.
  intros [H1 H2 H3 H4 H5 H6 H7] Hf. rewrite (tryCreateLocation_spec i cur) by done.
  split; simpl; try done.
  - by intros [].
  - rewrite H5, flat_map_app. simpl. by rewrite app_nil_r.
  - rewrite H6, flat_map_app. simpl. by rewrite app_nil_r.
  - rewrite H7, Hf. by rewrite <- app_assoc.
Qed.

Lemma idle_cur i gs cur c : store_inv i gs cur c -> is_zero (lastTime c) = true -> cur = [].
Proof.
  intros [_ _ H3 H4 _ _ _] Hz. destruct cur as [|h g]; [done|].
  apply Forall_cons in H4 as [[Hh _] _]. rewrite H3 in Hz. simpl in Hz. bools. done.
Qed.

Lemma idle_time i gs c : store_inv i gs [] c -> is_zero (lastTime c) = true.
Proof. intros [_ _ H3 _ _ _ _]. by rewrite H3. Qed.

Definition has (k : coord) (g : list Signal) : bool :=
  match part k g with Some _ => true | None => false end.

Lemma unset_part i cur c k :
  (forall k, points i cur c k) -> negb (index_of k c =? -1) = has k cur.
Proof.
  intros HP. specialize (HP k). unfold points, has in *. destruct (part k cur).
  - destruct HP as (j & -> & _). apply negb_true_iff, Z.eqb_neq. lia.
  - by rewrite HP.
Qed.

(** Half a second after the group's first reading nothing joins it any more. *)
Lemma gap_closes i cur x :
  S !! i = Some x -> cur <> [] -> maxLatLongDur <= time_sub (ts x) (triple_time cur) ->
  triples cur (coords (drop i S)) = cur :: triples [] (coords (drop i S)).
Proof.
  intros Hx Hne Hgap. destruct cur as [|h g]; [done|]. simpl in Hgap.
  assert (Hall : Forall (fun y => ts x <= ts y) (coords (drop i S))).
  { apply Forall_forall. intros y (Hy & _)%list_elem_of_In%List.filter_In.
    apply list_elem_of_In, list_elem_of_lookup in Hy as [n Hn]. rewrite lookup_drop in Hn.
    destruct n as [|n]; [replace (i + 0)%nat with i in Hn by lia; simplify_eq; lia|].
    eapply (sorted_lookup (fun a b => ts a <= ts b)); eauto. lia. }
  destruct (coords (drop i S)) as [|y r]; [done|]. apply Forall_cons in Hall as [Hy _].
  cbn [triples joins].
  replace (time_sub (ts y) (ts h) <? maxLatLongDur) with false; [done|].
  symmetry. apply Z.ltb_ge. unfold time_sub in *. lia.
Qed.

Lemma existsb_part k (g : list Signal) x :
  coord_of x = Some k ->
  existsb (fun s => bool_decide (coord_of s = coord_of x)) g = has k g.
Proof.
  intros ->. unfold has, part. induction g as [|s g IH]; simpl; [done|].
  change (bool_decide (coord_of s = Some k)) with (of_kind k s). by destruct (of_kind k s).
Qed.

Lemma part_snoc k g x : part k (g ++ [x]) = match part k g with
  | Some s => Some s | None => if of_kind k x then Some x else None end.
Proof. unfold part. induction g as [|s g IH]; simpl; [done|]. by destruct (of_kind k s). Qed.

(** Taking up a reading of kind [k] the group lacks. *)
Definition set_index (k : coord) : Z -> coordinateStore -> coordinateStore :=
  match k with CLat => set_lat | CLon => set_lon | CHdop => set_hdop end.

Lemma settle_set k i c :
  index_of k c = -1 -> settle (set_index k i c) = mark i (settle c).
Proof.
  assert (Hn : forall l, mark (-1) l = l) by done.
  intros Hk. unfold settle. destruct k; simpl in *; rewrite Hk, Hn; [|by rewrite (mark_comm _ i)|done].
  by rewrite (mark_comm (lastLon c) i), (mark_comm (lastHDOP c) i).
Qed.

Lemma take_inv i gs cur c x k :
  store_inv i gs cur c -> S !! i = Some x -> coord_of x = Some k -> has k cur = false ->
  joins cur x = true ->
  let c' := set_index k (Z.of_nat i) c in
  store_inv (i + 1) gs (cur ++ [x]) (if is_zero (lastTime c') then set_time (ts x) c' else c').
Proof.
  intros Hinv Hx Hk Hno Hj c'. pose proof (idle_cur _ _ _ _ Hinv) as Hidle.
  destruct Hinv as [H1 H2 H3 H4 H5 H6 H7].
  assert (Hidx : index_of k c = -1).
  { pose proof (unset_part _ _ _ k H1) as Hu. rewrite Hno in Hu. by apply negb_false_iff, Z.eqb_eq in Hu. }
  assert (Hxi : signals c !! i = Some x).
  { rewrite <- (settle_at i cur c i) by (done || lia). rewrite H2.
    rewrite lookup_app_r by (rewrite length_fmap, length_take; lia).
    rewrite length_fmap, length_take, lookup_drop.
    pose proof (lookup_lt_Some _ _ _ Hx). by replace (_ + _)%nat with i by lia. }
  assert (Hc : is_coord x = true) by (unfold is_coord; by rewrite Hk).
  assert (Hd : drop i S = x :: drop (i + 1) S).
  { rewrite Nat.add_1_r. by apply drop_S. }
  assert (Hsettle : settle c' = map settled (take (i + 1) S) ++ drop (i + 1) S).
  { unfold c'. rewrite (settle_set k) by done. rewrite mark_nat, H2, Hd.
    rewrite alter_app_r_alt by (rewrite length_fmap, length_take; lia).
    rewrite length_fmap, length_take. pose proof (lookup_lt_Some _ _ _ Hx).
    replace (i - _)%nat with 0%nat by lia. rewrite Nat.add_1_r, (take_S_r _ _ x) by done.
    rewrite map_app. simpl. unfold settled at 3. rewrite Hc. by rewrite <- app_assoc. }
  assert (Hpts : forall k', points (i + 1) (cur ++ [x]) c' k').
  { intros k'. specialize (H1 k'). unfold points in *. rewrite part_snoc.
    destruct (decide (k' = k)) as [->|Hne].
    - replace (part k cur) with (@None Signal) by (unfold has in Hno; by destruct (part k cur)).
      unfold of_kind. rewrite bool_decide_true by done. exists i. split; [by destruct k|].
      split; [lia|]. by destruct k.
    - unfold of_kind. rewrite (bool_decide_false (coord_of x = Some k')) by congruence.
      assert (E : index_of k' c' = index_of k' c) by (unfold c'; by destruct k, k').
      assert (E2 : signals c' = signals c) by (unfold c'; by destruct k).
      rewrite E, E2. destruct (part k' cur); [|done].
      destruct H1 as (j & ? & ? & ?). exists j. split_and!; [done|lia|done]. }
  assert (Ht : lastTime c' = lastTime c) by (unfold c'; by destruct k).
  assert (Hx0 : ts x <> zero_time) by (rewrite Forall_lookup in Hreal; eauto).
  assert (Hgr : triples [] (coords S) = gs ++ triples (cur ++ [x]) (coords (drop (i + 1) S))).
  { rewrite H7, Hd. unfold coords. simpl. rewrite Hc. simpl. by rewrite Hj. }
  assert (Hcr : created c' = created c /\ errs c' = errs c) by (unfold c'; by destruct k).
  destruct Hcr as [Hcr Her].
  assert (Hreal' : Forall (fun s => ts s <> zero_time /\ is_coord s = true) (cur ++ [x])).
  { apply Forall_app. split; [done|]. by repeat constructor. }
  destruct (is_zero (lastTime c')) eqn:Ez; rewrite Ht in Ez.
  - rewrite (Hidle Ez) in *. split; simpl; try done; try congruence.
  - split; try done; try congruence. rewrite Ht, H3. destruct cur; [|done].
    rewrite H3 in Ez. done.
Qed.

Lemma skip_inv i gs cur c x :
  store_inv i gs cur c -> S !! i = Some x -> is_coord x = false -> store_inv (i + 1) gs cur c.
Proof.
  intros [H1 H2 H3 H4 H5 H6 H7] Hx Hc.
  assert (Hd : drop i S = x :: drop (i + 1) S) by (rewrite Nat.add_1_r; by apply drop_S).
  split; try done.
  - intros k. specialize (H1 k). unfold points in *. destruct (part k cur); [|done].
    destruct H1 as (j & ? & ? & ?). exists j. split_and!; [done|lia|done].
  - rewrite H2, Hd, Nat.add_1_r, (take_S_r _ _ x) by done. rewrite map_app, <- app_assoc. simpl.
    unfold settled at 3. by rewrite Hc.
  - rewrite H7, Hd. unfold coords. simpl. by rewrite Hc.
Qed.

(** One round of the loop. *)
Lemma processSignal_inv i gs cur c x :
  store_inv i gs cur c -> S !! i = Some x ->
  exists gs' cur', store_inv (i + 1) gs' cur' (processSignal (Z.of_nat i) c).
Proof.
  intros Hinv Hx. unfold processSignal.
  assert (Hsig : sig_at (signals c) (Z.of_nat i) = x).
  { destruct Hinv as [H1 H2 _ _ _ _ _]. unfold sig_at. rewrite Nat2Z.id.
    rewrite <- (settle_at i cur c i) by (done || lia). rewrite H2.
    rewrite lookup_app_r by (rewrite length_fmap, length_take; lia).
    rewrite length_fmap, length_take, lookup_drop.
    pose proof (lookup_lt_Some _ _ _ Hx).
    replace (_ + _)%nat with i by lia. by rewrite Hx. }
  rewrite Hsig.
  (* the gap *)
  set (c1 := if _ && _ then tryCreateLocation c else c).
  assert (H1 : exists gs1 cur1, store_inv i gs1 cur1 c1 /\
            (cur1 = [] \/ time_sub (ts x) (triple_time cur1) < maxLatLongDur)).
  { unfold c1. destruct (_ && _) eqn:E.
    - exists (gs ++ [cur]), []. split; [|by left]. apply flush_inv; [done|].
      bools. pose proof (si_time _ _ _ _ Hinv) as Ht. eapply gap_closes; [done| |by rewrite <- Ht].
      intros ->. by rewrite Ht in *.
    - exists gs, cur. split; [done|]. destruct cur as [|h g]; [by left|right].
      pose proof (si_time _ _ _ _ Hinv) as Ht. pose proof (si_real _ _ _ _ Hinv) as Hr.
      apply Forall_cons in Hr as [[Hh _] _]. rewrite Ht in E. bools. destruct E; bools; done. }
  clearbody c1. destruct H1 as (gs1 & cur1 & Hinv1 & Hgap).
  destruct (coord_of x) as [k|] eqn:Hk.
  2: { exists gs1, cur1. unfold coord_of in Hk.
       destruct (String.eqb (name x) fieldCurrentLocationLatitude) eqn:E1; [done|].
       destruct (String.eqb (name x) fieldCurrentLocationLongitude) eqn:E2; [done|].
       destruct (String.eqb (name x) fieldDIMOAftermarketHDOP) eqn:E3; [done|].
       eapply skip_inv; [done..|]. unfold is_coord, coord_of. by rewrite E1, E2, E3. }
  (* a reading of the kind the group has already *)
  set (c2 := if negb (index_of k c1 =? -1) then tryCreateLocation c1 else c1).
  assert (H2 : exists gs2 cur2, store_inv i gs2 cur2 c2 /\ has k cur2 = false /\ joins cur2 x = true).
  { unfold c2. rewrite (unset_part i cur1) by apply Hinv1. destruct (has k cur1) eqn:Eh.
    - exists (gs1 ++ [cur1]), []. split; [|done]. apply flush_inv; [done|].
      assert (Hd : drop i S = x :: drop (i + 1) S) by (rewrite Nat.add_1_r; by apply drop_S).
      rewrite Hd. unfold coords. simpl. unfold is_coord. rewrite Hk.
      destruct cur1 as [|h g]; [done|]. cbn [triples]. cbn [joins].
      rewrite (existsb_part k) by done. by rewrite Eh, andb_false_r.
    - exists gs1, cur1. split; [done|]. split; [done|]. destruct cur1 as [|h g]; [done|].
      cbn [joins]. rewrite (existsb_part k), Eh by done. destruct Hgap as [|Hgap]; [done|].
      simpl in Hgap. apply Z.ltb_lt in Hgap. by rewrite Hgap. }
  destruct H2 as (gs2 & cur2 & Hinv2 & Hno & Hj).
  exists gs2, (cur2 ++ [x]). pose proof (take_inv _ _ _ _ _ _ Hinv2 Hx Hk Hno Hj) as Htake.
  simpl in Htake. unfold coord_of in Hk.
  destruct (String.eqb (name x) fieldCurrentLocationLatitude); [by simplify_eq|].
  destruct (String.eqb (name x) fieldCurrentLocationLongitude); [by simplify_eq|].
  destruct (String.eqb (name x) fieldDIMOAftermarketHDOP); [by simplify_eq|done].
Qed.

Lemma process_all n i gs cur c :
  store_inv i gs cur c -> (i + n <= length S)%nat ->
  exists gs' cur', store_inv (i + n) gs' cur'
    (fold_left (fun c i => processSignal (Z.of_nat i) c) (seq i n) c).
Proof.
  revert i gs cur c. induction n as [|n IH]; intros i gs cur c Hinv Hlen; simpl.
  - exists gs, cur. by rewrite Nat.add_0_r.
  - destruct (lookup_lt_ex S i) as [x Hx]; [lia|].
    destruct (processSignal_inv _ _ _ _ _ Hinv Hx) as (gs1 & cur1 & Hinv1).
    rewrite Nat.add_1_r in Hinv1. apply IH in Hinv1; [|lia].
    by replace (i + Datatypes.S n)%nat with (Datatypes.S i + n)%nat by lia.
Qed.

Lemma store_run :
  let c := tryCreateLocation (fold_left (fun c i => processSignal (Z.of_nat i) c)
             (seq 0 (length S)) (newCoordinateStore S)) in
  signals c = map settled S /\
  created c = flat_map triple_created (triples [] (coords S)) /\
  errs c = flat_map triple_errs (triples [] (coords S)).
Proof.
  destruct (process_all (length S) 0 [] [] (newCoordinateStore S)) as (gs & cur & Hinv).
  { split; try done. by intros []. }
  { done. }
  rewrite Nat.add_0_l in Hinv. destruct Hinv as [H1 H2 H3 H4 H5 H6 H7].
  cbn zeta. rewrite (tryCreateLocation_spec (length S) cur) by done. simpl.
  rewrite drop_all in H2, H7. rewrite take_ge, app_nil_r in H2 by done.
  change (coords []) with (@nil Signal) in H7. rewrite H5, H6, H2, H7, !flat_map_app.
  split; [done|]. destruct cur; simpl; by rewrite ?app_nil_r.
Qed.
End store.

(** ** What the groups are *)

Definition group_ok (g : list Signal) : Prop :=
  match g with
  | [] => False
  | h :: _ => Forall (fun x => time_sub (ts x) (ts h) < maxLatLongDur) g /\ NoDup (map coord_of g)
  end.

Definition cur_ok (g : list Signal) : Prop := g = [] \/ group_ok g.

Lemma joins_ok g x : cur_ok g -> joins g x = true -> group_ok (g ++ [x]).
Proof.
  intros [->|Hg] Hj.
  - simpl. split; [|apply NoDup_singleton]. repeat constructor. unfold time_sub, maxLatLongDur.
    replace (ts x - ts x) with 0 by lia. done.
  - destruct g as [|h g]; [done|]. destruct Hg as [Ht Hn]. cbn [joins] in Hj. bools.
    cbn [app group_ok]. split.
    + change (Forall (fun y => time_sub (ts y) (ts h) < maxLatLongDur) ((h :: g) ++ [x])).
      apply Forall_app. split; [done|]. by apply Forall_singleton.
    + change (NoDup (map coord_of ((h :: g) ++ [x]))). rewrite map_app.
      apply NoDup_app. split_and!; [done| |apply NoDup_singleton].
      intros o Ho ->%list_elem_of_singleton.
      apply list_elem_of_In, in_map_iff in Ho as (s & Hs & Hin).
      assert (existsb (fun s => bool_decide (coord_of s = coord_of x)) (h :: g) = true); [|congruence].
      apply existsb_exists. exists s. split; [done|]. by apply bool_decide_true.
Qed.

Lemma triples_ok rest cur :
  cur_ok cur ->
  concat (triples cur rest) = cur ++ rest /\ Forall group_ok (triples cur rest).
Proof.
  revert cur. induction rest as [|x r IH]; intros cur Hc; simpl.
  - destruct cur; simpl; [done|]. rewrite app_nil_r. destruct Hc; [done|]. by constructor; [|constructor].
  - destruct (joins cur x) eqn:Hj.
    + destruct (IH (cur ++ [x])) as [E F]; [right; by apply joins_ok|]. rewrite E, <- app_assoc. done.
    + destruct (IH [x]) as [E F]; [right; apply (joins_ok []); [by left|done]|].
      simpl. rewrite E. split; [done|]. constructor; [|done]. by destruct Hc as [->|].
Qed.

(** A group ends only where the next reading cannot join it. *)
Lemma triples_maximal rest cur :
  (forall y r, hd_error (triples cur rest) = Some (y :: r) -> cur <> [] -> hd_error cur = Some y) /\
  (forall i g x r, triples cur rest !! i = Some g -> triples cur rest !! S i = Some (x :: r) ->
     joins g x = false).
Proof.
  revert cur. induction rest as [|y l IH]; intros cur; simpl.
  - destruct cur; (split; [try done; by intros ? ? [= -> ->]|]); [done|]. by intros [|[]].
  - destruct (joins cur y) eqn:Hj.
    + destruct (IH (cur ++ [y])) as [H1 H2]. split; [|exact H2].
      intros z r Hz Hne. specialize (H1 _ _ Hz). destruct cur; [done|]. by apply H1.
    + destruct (IH [y]) as [H1 H2]. split; [by intros z r [= ->]|].
      intros [|i] g x r; simpl; [|apply H2]. intros [= <-] Hx.
      assert (hd_error (triples [y] l) = Some (x :: r)) as Hh
        by (revert Hx; by destruct (triples [y] l)).
      specialize (H1 _ _ Hh). simpl in H1. assert (Some y = Some x) as [= <-] by (by apply H1). done.
Qed.

Lemma filter_settled l :
  List.filter not_pruned (map settled l) =
  List.filter (fun s => not_pruned s && negb (is_coord s)) l.
Proof.
  induction l as [|s l IH]; simpl; [done|].
  assert (Hs : settled s = if is_coord s then marked s else s) by done. rewrite Hs.
  destruct (is_coord s); [by rewrite andb_false_r|]. rewrite andb_true_r.
  by destruct (not_pruned s); rewrite IH.
Qed.

Lemma signal_le_ts l :
  StronglySorted (fun a b => signal_le a b = true) l -> StronglySorted (fun a b => ts a <= ts b) l.
Proof.
  induction 1 as [|a l Hs IH Hall]; constructor; [done|].
  eapply Forall_impl; [exact Hall|]. intros b Hb. unfold signal_le in Hb. bools.
  destruct Hb; bools; lia.
Qed.

Definition location_of (s : Signal) : vssLocation := sd_ValueLocation (sg_Data s).

Lemma triple_created_position g s :
  s ∈ triple_created g ->
  name s = FieldCurrentLocationCoordinates /\ ts s = triple_time g /\
  (validLatLon (vl_Latitude (location_of s)) (vl_Longitude (location_of s)) = true \/
   pair_of g = None /\ part CHdop g <> None /\
   vl_Latitude (location_of s) = f64_zero /\ vl_Longitude (location_of s) = f64_zero).
Proof.
  unfold triple_created. destruct (template_of g) as [t|]; [|by intros []%not_elem_of_nil].
  assert (Hp : forall p, pair_of g = Some p -> validLatLon (vl_Latitude p) (vl_Longitude p) = true).
  { intros p. unfold pair_of. destruct (part CLat g), (part CLon g); try done.
    destruct (validLatLon _ _) eqn:E; [|done]. by intros [= <-]. }
  destruct (pair_of g) as [p|]; destruct (part CHdop g) as [h|];
    try (intros []%not_elem_of_nil; fail); intros ->%list_elem_of_singleton;
    (split; [done|split; [done|]]); [left; by apply (Hp p)..|right; done].
Qed.

(** [handleCoordinates] on signals that carry a time: its loop over indices of
    a slice it renames in place computes a greedy grouping of the coordinate
    readings in time order, into groups of at most one latitude, longitude and
    HDOP within half a second of the first, each group ended only by a reading
    that cannot join. What comes out is every other signal, once, in order,
    followed by at most one location signal per group; no latitude, longitude or
    HDOP reading is left. A location signal has a valid position -- or the
    position (0,0), when its group has an HDOP reading and no valid pair. *)
Theorem handleCoordinates_spec {S : SortFunc} {laws : SortFuncLaws S} l :
  Forall (fun s => ts s <> zero_time) l ->
  exists gs,
    handleCoordinates l =
      (List.filter (fun s => not_pruned s && negb (is_coord s)) (sort_signals l) ++
       flat_map triple_created gs, flat_map triple_errs gs) /\
    concat gs = List.filter is_coord (sort_signals l) /\
    Forall group_ok gs /\
    (forall i g x r, gs !! i = Some g -> gs !! Datatypes.S i = Some (x :: r) -> joins g x = false) /\
    Forall (fun g => forall s, s ∈ triple_created g ->
      name s = FieldCurrentLocationCoordinates /\ ts s = triple_time g /\
      (validLatLon (vl_Latitude (location_of s)) (vl_Longitude (location_of s)) = true \/
       pair_of g = None /\ part CHdop g <> None /\
       vl_Latitude (location_of s) = f64_zero /\ vl_Longitude (location_of s) = f64_zero)) gs.
Proof.
  intros Hz. set (srt := sort_signals l).
  assert (Hs : StronglySorted (fun a b => ts a <= ts b) srt)
    by apply signal_le_ts, sort_signals_sorted.
  assert (Hr : Forall (fun s => ts s <> zero_time) srt)
    by (unfold srt; by rewrite sort_signals_perm).
  destruct (store_run srt Hs Hr) as (H1 & H2 & H3).
  destruct (triples_ok (coords srt) []) as [H4 H5]; [by left|].
  exists (triples [] (coords srt)). split_and!; [|exact H4|exact H5|apply triples_maximal|].
  - unfold handleCoordinates. destruct l as [|s0 l'] eqn:El.
    + unfold srt. pose proof (sort_signals_perm []) as Hp.
      symmetry in Hp. apply Permutation_nil in Hp. by rewrite Hp.
    + fold srt. rewrite H1, H2, H3. by rewrite filter_settled.
  - apply Forall_forall. intros g _ s. apply triple_created_position.
Qed.

(** ** Pruning *)

Definition same_reading (a b : Signal) : Prop := ts a = ts b /\ name a = name b.

Definition signal_lt (a b : Signal) : Prop :=
  ts a < ts b \/ ts a = ts b /\ String.ltb (name a) (name b) = true.

Definition future (now : Z) (s : Signal) : bool := isFutureTimestamp now (ts s).

Lemma signal_le_antisym a b : signal_le a b = true -> signal_le b a = true -> same_reading a b.
Proof.
  unfold signal_le, same_reading. intros Ha Hb. bools.
  destruct Ha as [Ha|Ha], Hb as [Hb|Hb]; bools; try lia. split; [done|].
  destruct (sltb_total (name a) (name b)) as [|[]]; congruence.
Qed.

Lemma signal_le_lt a b : signal_le a b = true -> ~ same_reading a b -> signal_lt a b.
Proof.
  unfold signal_le, same_reading, signal_lt. intros Ha Hn. bools.
  destruct Ha as [|Ha]; bools; [by left|right]. split; [done|].
  destruct (sltb_total (name a) (name b)) as [?|[?|?]]; [done|tauto|congruence].
Qed.

Lemma signalEqual_spec a b : signalEqual a b = true <-> same_reading a b.
Proof.
  unfold signalEqual, same_reading. rewrite andb_true_iff, String.eqb_eq. bools.
  unfold tequal. rewrite Z.eqb_eq. tauto.
Qed.

Lemma same_reading_le_l a b c : same_reading a b -> signal_le c a = true -> signal_le c b = true.
Proof. unfold same_reading, signal_le. by intros [-> ->]. Qed.

Definition kept (now : Z) (l : list Signal) : list Signal :=
  List.filter not_pruned (prune_loop now l).1.

Lemma kept_cons now s l :
  kept now (s :: l) =
  if future now s || (match l with s' :: _ => signalEqual s s' | [] => false end)
     || negb (not_pruned s)
  then kept now l else s :: kept now l.
Proof.
  unfold kept. cbn [prune_loop]. destruct (prune_loop now l) as [o e]. unfold future.
  destruct (isFutureTimestamp now (ts s)); [done|].
  destruct (match l with s' :: _ => signalEqual s s' | [] => false end); [done|].
  simpl. by destruct (not_pruned s).
Qed.

Lemma kept_facts now l :
  StronglySorted (fun a b => signal_le a b = true) l ->
  StronglySorted signal_lt (kept now l) /\
  Forall (fun s => s ∈ l /\ future now s = false /\ not_pruned s = true) (kept now l) /\
  (forall s, s ∈ l -> future now s = false -> not_pruned s = true ->
     exists s', s' ∈ kept now l /\ same_reading s s').
Proof.
  induction 1 as [|s l Hs (IH1 & IH2 & IH3) Hall].
  { split; [constructor|split; [constructor|]]. by intros s []%not_elem_of_nil. }
  assert (IH2' : Forall (fun x => x ∈ s :: l /\ future now x = false /\ not_pruned x = true) (kept now l)).
  { eapply Forall_impl; [exact IH2|]. intros x (? & ?). split; [|done]. by apply elem_of_cons; right. }
  rewrite kept_cons. destruct (future now s) eqn:Ef; cbn [orb].
  { split_and!; [done..|]. intros x [->|Hx]%elem_of_cons ? ?; [congruence|by apply IH3]. }
  destruct (match l with s' :: _ => signalEqual s s' | [] => false end) eqn:Ed; cbn [orb].
  { split_and!; [done..|]. intros x [->|Hx]%elem_of_cons Hf Hn; [|by apply IH3].
    destruct l as [|s' l]; [done|]. apply signalEqual_spec in Ed as [E1 E2].
    destruct (IH3 s') as (y & Hy & E3 & E4).
    - by apply elem_of_cons; left.
    - unfold future in *. by rewrite <- E1.
    - unfold not_pruned in *. by rewrite <- E2.
    - exists y. split; [done|]. split; congruence. }
  destruct (not_pruned s) eqn:En; simpl.
  2: { split_and!; [done..|]. intros x [->|Hx]%elem_of_cons ? ?; [congruence|by apply IH3]. }
  split_and!.
  - constructor; [done|]. rewrite Forall_forall in IH2. apply Forall_forall. intros x Hx.
    destruct (IH2 x Hx) as (Hxl & _). rewrite Forall_forall in Hall.
    apply signal_le_lt; [by apply Hall|]. intros Hsame.
    destruct l as [|s1 l]; [by apply not_elem_of_nil in Hxl|].
    assert (signalEqual s s1 = true); [|congruence]. apply signalEqual_spec, signal_le_antisym.
    + apply Hall. by apply elem_of_cons; left.
    + inversion Hs as [|? ? _ Hall']; subst. apply elem_of_cons in Hxl as [->|Hxl].
      * destruct Hsame as [E1 E2]. unfold signal_le. rewrite E1, E2, sltb_irrefl. bools. simpl.
        rewrite Z.eqb_refl. by rewrite orb_true_r.
      * rewrite Forall_forall in Hall'. eapply same_reading_le_l; [|by apply Hall'].
        destruct Hsame; by split.
  - constructor; [|done]. split; [by apply elem_of_cons; left|done].
  - intros x [->|Hx]%elem_of_cons ? ?; [exists s; split; [by apply elem_of_cons; left|done]|].
    destruct (IH3 x Hx) as (y & ? & ?); [done..|]. exists y. split; [by apply elem_of_cons; right|done].
Qed.

Lemma prune_errs now l :
  (prune_loop now l).2 = map (fun s => (name s, ts s)) (List.filter (future now) l).
Proof.
  induction l as [|s l IH]; simpl; [done|]. destruct (prune_loop now l) as [o e]; simpl in IH.
  unfold future at 1. destruct (isFutureTimestamp now (ts s)); simpl; by rewrite IH.
Qed.

(** Pruning decoded signals: the result is strictly ordered by time and name,
    so no two have the same; all come from the input, none more than five minutes
    in the future; and each input reading that is not in the future still has one
    of its time and name. The errors name exactly the future readings. *)
Theorem prune_spec {S : SortFunc} {laws : SortFuncLaws S} now l :
  let '(out, errs) := pruneFutureAndDuplicateSignals now l in
  StronglySorted signal_lt out /\
  Forall (fun s => s ∈ l /\ ts s <= now + allowableTimeSkew /\ name s <> pruneSignalName) out /\
  (forall s, s ∈ l -> ts s <= now + allowableTimeSkew -> name s <> pruneSignalName ->
     exists s', s' ∈ out /\ same_reading s s') /\
  errs ≡ₚ map (fun s => (name s, ts s)) (List.filter (fun s => now + allowableTimeSkew <? ts s) l).
Proof.
  unfold pruneFutureAndDuplicateSignals. pose proof (prune_errs now (sort_signals l)) as He.
  destruct (kept_facts now (sort_signals l) (sort_signals_sorted l)) as (H1 & H2 & H3).
  unfold kept in *. destruct (prune_loop now (sort_signals l)) as [o e]; simpl in *.
  assert (Hf : forall s, future now s = false <-> ts s <= now + allowableTimeSkew).
  { intros s. unfold future, isFutureTimestamp, time_add, after. apply Z.ltb_ge. }
  assert (Hn : forall s, not_pruned s = true <-> name s <> pruneSignalName).
  { intros s. unfold not_pruned. rewrite negb_true_iff. apply String.eqb_neq. }
  split_and!; [done|..].
  - eapply Forall_impl; [exact H2|]. intros s (Hs & ? & ?). rewrite sort_signals_perm in Hs.
    rewrite <- Hf, <- Hn. done.
  - intros s Hs Ht Hnm. apply Hf in Ht. apply Hn in Hnm. apply H3; [|done..].
    by rewrite sort_signals_perm.
  - rewrite He. apply Permutation_map. change (future now) with (fun s => now + allowableTimeSkew <? ts s).
    apply list_filter_perm, sort_signals_perm.
Qed.

(** ** A sort, and runs *)

Lemma signal_le_total a b : signal_le a b = true \/ signal_le b a = true.
Proof.
  unfold signal_le. destruct (Z.lt_trichotomy (ts a) (ts b)) as [H|[H|H]].
  - left. apply orb_true_iff. left. by bools.
  - destruct (String.ltb (name b) (name a)) eqn:E; [right|left]; apply orb_true_iff; right;
      apply andb_true_iff; (split; [bools; lia|]); [by rewrite (sltb_asym _ _ E)|done].
  - right. apply orb_true_iff. left. by bools.
Qed.

Lemma signal_le_trans a b c :
  signal_le a b = true -> signal_le b c = true -> signal_le a c = true.
Proof.
  unfold signal_le. intros H1 H2. apply orb_true_iff. bools.
  destruct H1 as [H1|H1], H2 as [H2|H2]; bools; [left; bools; lia..|].
  right. apply andb_true_iff. split; [bools; lia|]. apply negb_true_iff.
  destruct (String.ltb (name c) (name a)) eqn:E; [|done].
  destruct (sltb_total (name b) (name a)) as [E'|[E'|E']]; [congruence|congruence|].
  pose proof (sltb_trans _ _ _ E E'). congruence.
Qed.

#[export] Instance insertion_sort : SortFunc := isort signal_le.

#[export] Instance insertion_sort_laws : SortFuncLaws insertion_sort.
Proof.
  split; intros l; [apply isort_perm|]. apply isort_sorted.
  - apply signal_le_total.
  - apply signal_le_trans.
Qed.

Definition reading (nm : string) (t n : Z) : Signal :=
  mkSignal zero_header (mkSignalData (t * Millisecond) nm (f64_of_Z n) "" zero_location "id").

(** A full triple, a speed, and half a second later an HDOP alone. *)
Definition triple_demo : list Signal :=
  [reading "speed" 1020 50; reading "currentLocationLongitude" 1010 13;
   reading "currentLocationLatitude" 1000 52; reading "dimoAftermarketHDOP" 1030 1;
   reading "dimoAftermarketHDOP" 2000 2].

Lemma triple_demo_timed : Forall (fun s => ts s <> zero_time) triple_demo.
Proof. repeat constructor; vm_compute; discriminate. Qed.

Lemma handleCoordinates_spec_witness :
  map (fun s => (name s, location_of s)) (handleCoordinates triple_demo).1 =
    [("speed"%string, zero_location);
     (FieldCurrentLocationCoordinates,
      mkVssLocation (f64_of_Z 52) (f64_of_Z 13) (f64_of_Z 1) f64_zero);
     (FieldCurrentLocationCoordinates, mkVssLocation f64_zero f64_zero (f64_of_Z 2) f64_zero)] /\
  exists gs, concat gs = List.filter is_coord (sort_signals triple_demo) /\ Forall group_ok gs.
Proof.
  split; [vm_compute; reflexivity|].
  destruct (handleCoordinates_spec triple_demo triple_demo_timed) as (gs & _ & H1 & H2 & _).
  by exists gs.
Defined.

Lemma prune_spec_witness :
  let l := [reading "b" 5 1; reading "a" 5 1; reading "b" 5 2; reading "c" 600000 1] in
  map name (pruneFutureAndDuplicateSignals 0 l).1 = ["a"; "b"]%string /\
  StronglySorted signal_lt (pruneFutureAndDuplicateSignals 0 l).1.
Proof.
  split; [vm_compute; reflexivity|].
  pose proof (prune_spec 0 [reading "b" 5 1; reading "a" 5 1; reading "b" 5 2; reading "c" 600000 1]) as H.
  destruct (pruneFutureAndDuplicateSignals _ _). apply H.
Defined.
