(* ===== verification/Decode.v ===== *)
(** * internal/materializer: from raw events to rows

    The decode step: deduplication and routing of a batch of raw events, their
    conversion by the module of their source (default module or vendor), the
    flattening into rows, and the containment of failures and panics
    (materializer.go, decode.go, registry.go, defaultmodule.go, rows.go and
    service/duck/bucket.go). *)

From S2P Require Import Prelude Model Coordinates.

(** ** bucket.go *)

Definition NumLatestBuckets : Z := 256.
Definition offset32 : Z := 2166136261.
Definition prime32 : Z := 16777619.

(** FNV-1a in [uint32] arithmetic. *)
Definition HashBucket (subject : string) : Z :=
  fold_left (fun h b => (Z.lxor h b * prime32) mod 2 ^ 32) (bytes_of subject) offset32
  mod NumLatestBuckets.

(** ** rows.go *)

Record SignalRow := mkSignalRow {
  sr_Subject : string;
  sr_SubjectBucket : Z;
  sr_Name : string;
  sr_Timestamp : Z;
  sr_Source : string;
  sr_Producer : string;
  sr_CloudEventID : string;
  sr_ValueNumber : float64;
  sr_ValueString : string;
  sr_LocLat : float64;
  sr_LocLon : float64;
  sr_LocHDOP : float64;
  sr_LocHeading : float64;
}.

Record EventRow := mkEventRow {
  er_Subject : string;
  er_SubjectBucket : Z;
  er_Source : string;
  er_Producer : string;
  er_CloudEventID : string;
  er_Type : string;
  er_DataVersion : string;
  er_Name : string;
  er_Timestamp : Z;
  er_DurationNs : Z;
  er_Metadata : string;
  er_Tags : list string;
}.

(** [vss.Event]: its header and data. *)
Record EventData := mkEventData {
  ed_Name : string;
  ed_Timestamp : Z;
  ed_DurationNs : Z;
  ed_Metadata : string;
  ed_CloudEventID : string;
  ed_Tags : option (list string);
}.

Record Event := mkEvent { ev_Header : CloudEventHeader; ev_Data : EventData }.

(** [cloudevent.RawEvent]; [re_Data] and [re_DataBase64] are the payload's bytes. *)
Record RawEvent := mkRawEvent {
  re_Header : CloudEventHeader;
  re_Data : list Z;
  re_DataBase64 : string;
}.

Definition TypeStatus : string := "dimo.status".
Definition TypeEvents : string := "dimo.events".
Definition TypeEvent : string := "dimo.event".

(** [cmp.Or] on strings: the first that is not empty. *)
Definition cmp_Or (a b : string) : string := if String.eqb a "" then b else a.

Definition signalRowFromVSS (rawEvent : RawEvent) (sig : Signal) : SignalRow :=
  let h := re_Header rawEvent in
  let d := sg_Data sig in
  let l := sd_ValueLocation d in
  mkSignalRow (ce_Subject h) (HashBucket (ce_Subject h)) (sd_Name d)
    (time_truncate (sd_Timestamp d) Microsecond) (ce_Source h) (ce_Producer h)
    (cmp_Or (sd_CloudEventID d) (ce_ID h)) (sd_ValueNumber d) (sd_ValueString d)
    (vl_Latitude l) (vl_Longitude l) (vl_HDOP l) (vl_Heading l).

Definition eventRowFromVSS (rawEvent : RawEvent) (ev : Event) : EventRow :=
  let h := re_Header rawEvent in
  let d := ev_Data ev in
  mkEventRow (ce_Subject h) (HashBucket (ce_Subject h)) (ce_Source h) (ce_Producer h)
    (cmp_Or (ed_CloudEventID d) (ce_ID h)) (cmp_Or (ce_Type (ev_Header ev)) TypeEvent)
    (cmp_Or (ce_DataVersion (ev_Header ev)) (ce_DataVersion h)) (ed_Name d)
    (time_truncate (ed_Timestamp d) Microsecond) (ed_DurationNs d) (ed_Metadata d)
    (default [] (ed_Tags d)).

Definition isFinite (f : float64) : bool := negb (f64_is_nan f) && negb (f64_is_inf f).

Definition finiteSignalRow (r : SignalRow) : bool :=
  isFinite (sr_ValueNumber r) && isFinite (sr_LocLat r) && isFinite (sr_LocLon r) &&
  isFinite (sr_LocHDOP r) && isFinite (sr_LocHeading r).

(** ** registry.go *)

(** What a module's conversion comes to: values, a [ConversionError] with the
    partial decodes, another error, or a panic. *)
Inductive conversion (A : Type) :=
  | Converted (l : list A)
  | ConversionError (decoded : list A)
  | ConvertFailed
  | ConvertPanics.
Arguments Converted {A}. Arguments ConversionError {A}.
Arguments ConvertFailed {A}. Arguments ConvertPanics {A}.

Definition module (A : Type) : Type := RawEvent -> conversion A.

(** A registry: module by source, the empty source being the default. *)
Definition Override {T} (modules : gmap string T) (source : string) (m : T) : gmap string T :=
  <[source := m]> modules.

Definition registry_get {T} (modules : gmap string T) (source : string) : option T :=
  match modules !! source with
  | Some m => Some m
  | None => modules !! ""%string
  end.

(** [convertToSignals] and [convertToEvents]; wrapping keeps a [ConversionError]
    findable. *)
Definition convertTo {A} (modules : gmap string (module A)) (event : RawEvent) : conversion A :=
  match registry_get modules (ce_Source (re_Header event)) with
  | None => ConvertFailed
  | Some m => m event
  end.

(** ** defaultmodule.go *)

(** A decoded [any]: what [json.Unmarshal] stores in one. *)
Inductive json :=
  | JNull
  | JBool (b : bool)
  | JNumber (f : float64)
  | JString (s : string)
  | JArray (l : list json)
  | JObject (m : list (string * json)).

(** [m[key]] of a decoded object: keys are unique in the map. *)
Fixpoint json_get (m : list (string * json)) (key : string) : option json :=
  match m with
  | [] => None
  | (k, v) :: rest => if String.eqb k key then Some v else json_get rest key
  end.

Record defaultSignal := mkDefaultSignal {
  ds_Timestamp : Z;
  ds_Name : string;
  ds_Value : json;
}.

Record defaultEvent := mkDefaultEvent {
  de_Name : string;
  de_Timestamp : Z;
  de_DurationNs : Z;
  de_Metadata : string;
  de_Tags : option (list string);
}.

Section default_module.
(** The embedded schema of model-garage (signal name to base type, event names),
    [cloudevent.TypeSignal], and the standard library's parsers. *)
Context (TypeSignal : string) (schema_ok : bool)
        (signalMap : gmap string string) (eventNameMap : gset string)
        (ParseFloat : string -> option float64) (json_Valid : string -> bool)
        (ToLower : string -> string)
        (unmarshal_signals : list Z -> option (list (option defaultSignal)))
        (unmarshal_events : list Z -> option (list defaultEvent)).

(** A member that must be a number when it is there. *)
Definition json_number (m : list (string * json)) (key : string) : option float64 :=
  match json_get m key with
  | None => Some f64_zero
  | Some (JNumber f) => Some f
  | Some _ => None
  end.

Definition default_value (base : string) (v : json) : option (float64 * string * vssLocation) :=
  if String.eqb base "float64" then
    match v with
    | JNumber f => Some (f, ""%string, zero_location)
    | JString s => option_map (fun f => (f, ""%string, zero_location)) (ParseFloat s)
    | _ => None
    end
  else if String.eqb base "string" then
    match v with JString s => Some (f64_zero, s, zero_location) | _ => None end
  else if String.eqb base "vss.Location" then
    match v with
    | JObject m =>
        match json_number m "latitude", json_number m "longitude", json_number m "hdop" with
        | Some lat, Some lon, Some hdop => Some (f64_zero, ""%string, mkVssLocation lat lon hdop f64_zero)
        | _, _, _ => None
        end
    | _ => None
    end
  else None.

(** [None] is an error; the header is set by the caller. *)
Definition defaultSignalToVSS (signal : defaultSignal) : option SignalData :=
  match signalMap !! ds_Name signal with
  | None => None
  | Some base =>
      match ds_Value signal with
      | JNull => None
      | v =>
          match default_value base v with
          | None => None
          | Some (n, str, loc) =>
              Some (mkSignalData (ds_Timestamp signal) (ds_Name signal) n str loc "")
          end
      end
  end.

Definition signal_header (h : CloudEventHeader) : CloudEventHeader :=
  mkHeader (ce_Subject h) (ce_Time h) TypeSignal (ce_ID h) (ce_Source h) (ce_Producer h)
    (ce_DataVersion h).

Definition with_id (d : SignalData) (id : string) : SignalData :=
  mkSignalData (sd_Timestamp d) (sd_Name d) (sd_ValueNumber d) (sd_ValueString d)
    (sd_ValueLocation d) id.

(** The loop: decoded signals and whether there were errors; [None] when an element
    is a nil pointer, whose [Name] is read. *)
Fixpoint signals_loop (h : CloudEventHeader) (l : list (option defaultSignal))
  : option (list Signal * bool) :=
  match l with
  | [] => Some ([], false)
  | None :: _ => None
  | Some s :: rest =>
      match signals_loop h rest with
      | None => None
      | Some (out, failed) =>
          match defaultSignalToVSS s with
          | None => Some (out, true)
          | Some d => Some (mkSignal (signal_header h) (with_id d (ce_ID h)) :: out, failed)
          end
      end
  end.

Definition SignalConvert : module Signal := fun event =>
  if negb schema_ok then ConvertFailed
  else match unmarshal_signals (re_Data event) with
  | None => ConvertFailed
  | Some l =>
      match signals_loop (re_Header event) l with
      | None => ConvertPanics
      | Some (out, failed) => if failed then ConversionError out else Converted out
      end
  end.

(** The checks on an event, in order. *)
Definition default_event_ok (ev : defaultEvent) : bool :=
  negb (String.eqb (de_Name ev) "") &&
  negb (is_zero (de_Timestamp ev)) &&
  bool_decide (de_Name ev ∈ eventNameMap) &&
  (String.eqb (de_Metadata ev) "" || json_Valid (de_Metadata ev)) &&
  forallb (fun tag => String.eqb tag (ToLower tag)) (default [] (de_Tags ev)).

Definition default_event (h : CloudEventHeader) (ev : defaultEvent) : Event :=
  mkEvent (mkHeader (ce_Subject h) (ce_Time h) TypeEvent "" (ce_Source h) (ce_Producer h)
             (ce_DataVersion h))
    (mkEventData (de_Name ev) (de_Timestamp ev) (de_DurationNs ev) (de_Metadata ev) (ce_ID h)
       (Some (default [] (de_Tags ev)))).

Definition EventConvert : module Event := fun event =>
  if negb schema_ok then ConvertFailed
  else match unmarshal_events (re_Data event) with
  | None => ConvertFailed
  | Some l =>
      let good := List.filter default_event_ok l in
      let out := map (default_event (re_Header event)) good in
      if (length good <? length l)%nat then ConversionError out else Converted out
  end.
End default_module.

(** ** decode.go and materializer.go *)

Section decode.
Context {S : SortFunc}.
(** [ev.Key()], the header's uniqueness key, and the decoding of an ERC-721 DID
    into chain id and contract address. *)
Context {K : Type} `{EqDecision K} (Key : RawEvent -> K)
        (DecodeERC721DID : string -> option (Z * string)).
Context (SignalRegistry : gmap string (module Signal)) (EventRegistry : gmap string (module Event)).
(** [cfg.VehicleNFTAddress] ([None] is the zero address) and [cfg.ChainID]. *)
Context (VehicleNFTAddress : option string) (ChainID : Z).

(** Rows and [failed], or [None] when the module panics. *)
Definition convertSignals (now : Z) (rawEvent : RawEvent) : option (list SignalRow * Z) :=
  match (match convertTo SignalRegistry rawEvent with
         | Converted l => Some (l, 0)
         | ConversionError l => Some (l, 1)
         | ConvertFailed => Some ([], 1)
         | ConvertPanics => None
         end) with
  | None => None
  | Some ([], failed) => Some ([], failed)
  | Some (signals, failed) =>
      let signals1 := (pruneFutureAndDuplicateSignals now signals).1 in
      let signals2 := (handleCoordinates signals1).1 in
      let rows := map (signalRowFromVSS rawEvent) signals2 in
      Some (List.filter finiteSignalRow rows,
            if forallb finiteSignalRow rows then failed else 1)
  end.

Definition convertEvents (rawEvent : RawEvent) : option (list EventRow * Z) :=
  match convertTo EventRegistry rawEvent with
  | Converted l => Some (map (eventRowFromVSS rawEvent) l, 0)
  | ConversionError l => Some (map (eventRowFromVSS rawEvent) l, 1)
  | ConvertFailed => Some ([], 1)
  | ConvertPanics => None
  end.

Record decodedBatch := mkBatch {
  b_signals : list SignalRow;
  b_events : list EventRow;
  b_signalCount : Z;
  b_eventCount : Z;
  b_errorCount : Z;
}.

Definition isVehicleSignalMessage (rawEvent : RawEvent) : bool :=
  match VehicleNFTAddress with
  | None => true
  | Some addr =>
      match DecodeERC721DID (ce_Subject (re_Header rawEvent)) with
      | None => false
      | Some (chain, contract) => (chain =? ChainID) && String.eqb contract addr
      end
  end.

(** The type switch of the loop. *)
Definition decodable (ev : RawEvent) : bool :=
  if String.eqb (ce_Type (re_Header ev)) TypeStatus then isVehicleSignalMessage ev
  else String.eqb (ce_Type (re_Header ev)) TypeEvents.

Fixpoint jobs_loop (seen : list K) (events : list RawEvent) : list RawEvent :=
  match events with
  | [] => []
  | ev :: rest =>
      if bool_decide (Key ev ∈ seen) then jobs_loop seen rest
      else (if decodable ev then [ev] else []) ++ jobs_loop (Key ev :: seen) rest
  end.

(** [convResult] of one job, a panic recovered. *)
Definition convert_job (now : Z) (raw : RawEvent) : list SignalRow * list EventRow * Z :=
  if String.eqb (ce_Type (re_Header raw)) TypeStatus then
    match convertSignals now raw with Some (rows, f) => (rows, [], f) | None => ([], [], 1) end
  else if String.eqb (ce_Type (re_Header raw)) TypeEvents then
    match convertEvents raw with Some (rows, f) => ([], rows, f) | None => ([], [], 1) end
  else ([], [], 0).

(** The merge in input order. *)
Definition convertJobs (now : Z) (jobs : list RawEvent) : decodedBatch :=
  fold_left (fun dec r =>
    let '(s, e, f) := r in
    mkBatch (b_signals dec ++ s) (b_events dec ++ e)
      (b_signalCount dec + Z.of_nat (length s)) (b_eventCount dec + Z.of_nat (length e))
      (b_errorCount dec + f))
    (map (convert_job now) jobs) (mkBatch [] [] 0 0 0).

Definition decodeEvents (now : Z) (events : list RawEvent) : decodedBatch :=
  convertJobs now (jobs_loop [] events).
End decode.

(** ** The default module salvages *)

Section default_module_facts.
Context (TypeSignal : string) (signalMap : gmap string string) (ParseFloat : string -> option float64).

(** What an element of the payload decodes to. *)
Definition salvaged (h : CloudEventHeader) (s : defaultSignal) : option Signal :=
  option_map (fun d => mkSignal (signal_header TypeSignal h) (with_id d (ce_ID h)))
    (defaultSignalToVSS signalMap ParseFloat s).

Definition has_null (l : list (option defaultSignal)) : bool :=
  existsb (fun o => match o with None => true | Some _ => false end) l.

Lemma signals_loop_spec h l :
  signals_loop TypeSignal signalMap ParseFloat h l =
  if has_null l then None
  else Some (omap (salvaged h) (omap id l),
             existsb (fun s => match salvaged h s with None => true | Some _ => false end) (omap id l)).
Proof.
  induction l as [|[s|] l IH]; [done| |done]. cbn [signals_loop]. rewrite IH.
  change (has_null (Some s :: l)) with (has_null l). destruct (has_null l); [done|].
  change (omap id (Some s :: l)) with (s :: omap id l). cbn [existsb].
  assert (Ho : omap (salvaged h) (s :: omap id l) =
               match salvaged h s with
               | Some y => y :: omap (salvaged h) (omap id l)
               | None => omap (salvaged h) (omap id l) end) by done.
  rewrite Ho. destruct (salvaged h s) eqn:E; unfold salvaged in E;
    destruct (defaultSignalToVSS signalMap ParseFloat s); by simplify_eq/=.
Qed.

Lemma salvaged_fields h s sig :
  salvaged h s = Some sig ->
  name sig = ds_Name s /\ ts sig = ds_Timestamp s /\ is_Some (signalMap !! ds_Name s) /\
  sd_CloudEventID (sg_Data sig) = ce_ID h.
Proof.
  unfold salvaged, defaultSignalToVSS. destruct (signalMap !! ds_Name s) eqn:E; [|done].
  destruct (ds_Value s); [done|..]; (destruct (default_value _ _ _) as [[[n str] loc]|]; [|done]);
    intros [= <-]; eauto.
Qed.
End default_module_facts.

(** The default module on a payload that parses: a null element makes it
    panic, whatever the others are; otherwise it returns, in payload order, the
    signals of exactly the elements that decode, as a plain result when all do
    and inside a [ConversionError] when some do not. Each keeps the name (one the
    schema defines) and time of its element and the id of the event. *)
Theorem default_module_spec TypeSignal signalMap ParseFloat unmarshal event l :
  unmarshal (re_Data event) = Some l ->
  let res := SignalConvert TypeSignal true signalMap ParseFloat unmarshal event in
  let h := re_Header event in
  let sal := salvaged TypeSignal signalMap ParseFloat h in
  (has_null l = true -> res = ConvertPanics) /\
  (has_null l = false ->
     res = (if forallb (fun s => bool_decide (is_Some (sal s))) (omap id l) then Converted
            else ConversionError) (omap sal (omap id l))) /\
  (forall s sig, sal s = Some sig ->
     name sig = ds_Name s /\ ts sig = ds_Timestamp s /\ is_Some (signalMap !! ds_Name s) /\
     sd_CloudEventID (sg_Data sig) = ce_ID h).
Proof.
  intros Hl res h sal. split_and!; [| |apply salvaged_fields].
  - intros Hn. unfold res, SignalConvert. simpl. by rewrite Hl, signals_loop_spec, Hn.
  - intros Hn. unfold res, SignalConvert. simpl. rewrite Hl, signals_loop_spec, Hn. fold h sal.
    assert (E : forallb (fun s => bool_decide (is_Some (sal s))) (omap id l) =
                negb (existsb (fun s => match sal s with None => true | Some _ => false end) (omap id l))).
    { generalize (omap id l). intros k. induction k as [|s k IH]; simpl; [done|].
      rewrite IH, negb_orb. f_equal. destruct (sal s) eqn:Es.
      - by apply bool_decide_true.
      - apply bool_decide_false. by intros [? ?]. }
    rewrite E. by destruct (existsb _ _).
Qed.

(** ** A batch *)

Section batch.
Context {S : SortFunc} {laws : SortFuncLaws S}.
Context {K : Type} `{EqDecision K} (Key : RawEvent -> K)
        (DecodeERC721DID : string -> option (Z * string)).
Context (SignalRegistry : gmap string (module Signal)) (EventRegistry : gmap string (module Event)).
Context (VehicleNFTAddress : option string) (ChainID : Z).

Local Notation decodable := (decodable DecodeERC721DID VehicleNFTAddress ChainID).
Local Notation jobs_loop := (jobs_loop Key DecodeERC721DID VehicleNFTAddress ChainID).
Local Notation convert_job := (convert_job SignalRegistry EventRegistry).
Local Notation decodeEvents :=
  (decodeEvents Key DecodeERC721DID SignalRegistry EventRegistry VehicleNFTAddress ChainID).

(** The header key covers subject and type. *)
Definition key_covers : Prop :=
  forall a b, Key a = Key b ->
    ce_Subject (re_Header a) = ce_Subject (re_Header b) /\
    ce_Type (re_Header a) = ce_Type (re_Header b).

Lemma decodable_key a b : key_covers -> Key a = Key b -> decodable a = decodable b.
Proof.
  intros HK E. apply HK in E as [E1 E2].
  unfold Decode.decodable, isVehicleSignalMessage. by rewrite E1, E2.
Qed.

Lemma jobs_loop_facts seen events :
  NoDup (map Key (jobs_loop seen events)) /\
  (forall e, e ∈ jobs_loop seen events -> e ∈ events /\ decodable e = true /\ Key e ∉ seen) /\
  (key_covers -> forall e, e ∈ events -> decodable e = true -> Key e ∉ seen ->
     exists j, j ∈ jobs_loop seen events /\ Key j = Key e).
Proof.
  revert seen. induction events as [|ev rest IH]; intros seen; cbn [Decode.jobs_loop].
  { split_and!; [constructor|by intros e []%not_elem_of_nil|by intros _ e []%not_elem_of_nil]. }
  destruct (bool_decide (Key ev ∈ seen)) eqn:Es.
  - apply bool_decide_eq_true in Es. destruct (IH seen) as (H1 & H2 & H3). split_and!; [done|..].
    + intros e He. destruct (H2 e He) as (? & ?). split; [by apply elem_of_cons; right|done].
    + intros HK e [->|He]%elem_of_cons ? ?; [done|by apply H3].
  - apply bool_decide_eq_false in Es. destruct (IH (Key ev :: seen)) as (H1 & H2 & H3).
    assert (Hrest : forall e, e ∈ jobs_loop (Key ev :: seen) rest ->
              e ∈ ev :: rest /\ decodable e = true /\ Key e ∉ seen /\ Key e <> Key ev).
    { intros e He. destruct (H2 e He) as (? & ? & Hn). rewrite elem_of_cons in Hn.
      split_and!; try tauto. by apply elem_of_cons; right. }
    destruct (decodable ev) eqn:Ed; simpl.
    + split_and!.
      * constructor; [|done]. intros (j & Hj & Hin)%list_elem_of_In%in_map_iff.
        apply list_elem_of_In in Hin. by apply Hrest in Hin as (_ & _ & _ & ?).
      * intros e [->|He]%elem_of_cons; [|by apply Hrest in He as (? & ? & ? & ?)].
        split_and!; try done. by apply elem_of_cons; left.
      * intros HK e He Hd Hn. destruct (decide (Key e = Key ev)) as [E|Hne].
        { exists ev. split; [by apply elem_of_cons; left|done]. }
        apply elem_of_cons in He as [->|He]; [done|].
        destruct (H3 HK e He Hd) as (j & Hj & ?); [by rewrite elem_of_cons; intros [?|?]|].
        exists j. split; [by apply elem_of_cons; right|done].
    + split_and!; [done|intros e He; by apply Hrest in He as (? & ? & ? & ?)|].
      intros HK e He Hd Hn. apply elem_of_cons in He as [->|He]; [congruence|].
      apply H3; try done. rewrite elem_of_cons. intros [E|?]; [|done].
      rewrite (decodable_key _ _ HK E) in Hd. congruence.
Qed.

Lemma fold_jobs rs d :
  fold_left (fun dec r => let '(s, e, f) := r in
    mkBatch (b_signals dec ++ s) (b_events dec ++ e)
      (b_signalCount dec + Z.of_nat (length s)) (b_eventCount dec + Z.of_nat (length e))
      (b_errorCount dec + f)) rs d =
  mkBatch (b_signals d ++ flat_map (fun r => r.1.1) rs) (b_events d ++ flat_map (fun r => r.1.2) rs)
    (b_signalCount d + Z.of_nat (length (flat_map (fun r => r.1.1) rs)))
    (b_eventCount d + Z.of_nat (length (flat_map (fun r => r.1.2) rs)))
    (b_errorCount d + foldr (fun r n => r.2 + n) 0 rs).
Proof.
  revert d. induction rs as [|[[s e] f] rs IH]; intros d; simpl.
  - rewrite !app_nil_r, !Z.add_0_r. by destruct d.
  - rewrite IH. simpl. rewrite <- !app_assoc, !length_app. f_equal; lia.
Qed.

(** A row the lake may hold. *)
Definition row_ok (r : SignalRow) : Prop :=
  finiteSignalRow r = true /\ sr_SubjectBucket r = HashBucket (sr_Subject r) /\
  0 <= sr_SubjectBucket r < NumLatestBuckets /\
  (sr_Timestamp r - zero_time) mod Microsecond = 0.

Lemma HashBucket_range s : 0 <= HashBucket s < NumLatestBuckets.
Proof. unfold HashBucket. by apply Z.mod_pos_bound. Qed.

Lemma truncate_micro t : (time_truncate t Microsecond - zero_time) mod Microsecond = 0.
Proof.
  unfold time_truncate. change (Microsecond <=? 0) with false. cbn iota.
  replace (t - (t - zero_time) mod Microsecond - zero_time)
    with ((t - zero_time) / Microsecond * Microsecond).
  - by rewrite Z_mod_mult.
  - pose proof (Z.div_mod (t - zero_time) Microsecond). unfold Microsecond, Nanosecond in *. lia.
Qed.

Lemma rows_ok ev l :
  Forall row_ok (List.filter finiteSignalRow (map (signalRowFromVSS ev) l)).
Proof.
  apply Forall_forall. intros r (Hr & Hf)%list_elem_of_In%List.filter_In.
  apply in_map_iff in Hr as (s & <- & _). split_and!; [done|done|apply HashBucket_range..|].
  apply truncate_micro.
Qed.

Lemma convert_job_ok now ev :
  Forall row_ok (convert_job now ev).1.1 /\ ((convert_job now ev).2 = 0 \/ (convert_job now ev).2 = 1).
Proof.
  unfold Decode.convert_job, convertSignals, convertEvents.
  destruct (String.eqb _ _).
  - destruct (convertTo _ _) as [l|l| |]; try (simpl; auto; fail);
      (destruct l as [|s l]; [simpl; auto|]); simpl; split; try apply rows_ok;
      destruct (forallb _ _); auto.
  - destruct (String.eqb _ _); [|simpl; auto]. destruct (convertTo _ _); simpl; auto.
Qed.

(** C39. Decoding a batch of raw events: of the events with a decodable type (and,
    for status, a vehicle subject) exactly one is converted per header key; the
    batch holds the rows of those conversions in input order, its counts are the
    numbers of rows and of conversions that failed -- a panic of a vendor module
    counting as one failure and losing no other event's rows. Every signal row is
    finite, in whole microseconds, and carries the bucket of its subject. *)
Theorem decodeEvents_spec now events :
  key_covers ->
  let jobs := jobs_loop [] events in
  let dec := decodeEvents now events in
  NoDup (map Key jobs) /\
  (forall e, e ∈ jobs -> e ∈ events /\ decodable e = true) /\
  (forall e, e ∈ events -> decodable e = true -> exists j, j ∈ jobs /\ Key j = Key e) /\
  b_signals dec = flat_map (fun j => (convert_job now j).1.1) jobs /\
  b_events dec = flat_map (fun j => (convert_job now j).1.2) jobs /\
  b_signalCount dec = Z.of_nat (length (b_signals dec)) /\
  b_eventCount dec = Z.of_nat (length (b_events dec)) /\
  b_errorCount dec = Z.of_nat (length (List.filter (fun j => (convert_job now j).2 =? 1) jobs)) /\
  Forall row_ok (b_signals dec).
Proof.
  intros HK jobs dec. destruct (jobs_loop_facts [] events) as (H1 & H2 & H3). fold jobs in H1, H2, H3.
  unfold dec, Decode.decodeEvents, convertJobs. fold jobs. rewrite fold_jobs. simpl.
  rewrite !flat_map_concat_map, !map_map, <- !flat_map_concat_map.
  split_and!; try done.
  - intros e He. destruct (H2 e He) as (? & ? & _). done.
  - intros e He Hd. apply (H3 HK e He Hd). apply not_elem_of_nil.
  - clear H1 H2 H3. induction jobs as [|j l IH]; simpl; [done|].
    destruct (proj2 (convert_job_ok now j)) as [E|E]; rewrite E; simpl; lia.
  - apply Forall_forall. intros r (j & _ & Hr)%list_elem_of_In%in_flat_map.
    pose proof (proj1 (convert_job_ok now j)) as Hj. rewrite Forall_forall in Hj.
    by apply Hj, list_elem_of_In.
Qed.
End batch.

(** ** Runs *)

Definition demo_header (typ id : string) : CloudEventHeader :=
  mkHeader "did:erc721:137:0xV:1" 0 typ id "0xS" "0xP" "1.0".

Definition demo_signals : list (option defaultSignal) :=
  [Some (mkDefaultSignal 5 "speed" (JNumber (f64_of_Z 50)));
   Some (mkDefaultSignal 6 "speed" (JString "fast"));
   Some (mkDefaultSignal 7 "unknown" (JNumber f64_zero))].

Lemma default_module_spec_witness :
  let sm : gmap string string := {["speed"%string := "float64"%string]} in
  let ev := mkRawEvent (demo_header TypeStatus "e1") [] "" in
  let sal := salvaged "dimo.signal" sm (fun _ => None) (demo_header TypeStatus "e1") in
  has_null demo_signals = false /\
  SignalConvert "dimo.signal" true sm (fun _ => None) (fun _ => Some demo_signals) ev =
    ConversionError (omap sal (omap id demo_signals)) /\
  map ts (omap sal (omap id demo_signals)) = [5].
Proof.
  intros sm ev sal. split; [reflexivity|]. split; [|vm_compute; reflexivity].
  destruct (default_module_spec "dimo.signal" sm (fun _ => None) (fun _ => Some demo_signals) ev
              demo_signals eq_refl) as (_ & H & _).
  rewrite (H eq_refl). replace (forallb _ _) with false by (vm_compute; reflexivity). reflexivity.
Defined.

(** Subject, type, source and id stand for the header key. *)
Definition demo_key (e : RawEvent) : string * string * string * string :=
  let h := re_Header e in (ce_Subject h, ce_Type h, ce_Source h, ce_ID h).

Lemma demo_key_covers : key_covers demo_key.
Proof. intros a b. unfold demo_key. by intros [= -> -> _ _]. Qed.

(** A module that decodes a speed, and panics on the event "e2". *)
Definition demo_module : module Signal := fun e =>
  if String.eqb (ce_ID (re_Header e)) "e2" then ConvertPanics
  else Converted [reading "speed" 1000 50].

(** A redelivered upload, one that makes the module panic, one of another type. *)
Definition demo_batch : list RawEvent :=
  [mkRawEvent (demo_header TypeStatus "e1") [] ""; mkRawEvent (demo_header TypeStatus "e2") [] "";
   mkRawEvent (demo_header TypeStatus "e1") [] "";
   mkRawEvent (demo_header "dimo.fingerprint" "e1") [] ""].

Lemma decodeEvents_spec_witness :
  let dec := decodeEvents demo_key (fun _ => None) {[""%string := demo_module]} ∅ None 137 0 demo_batch in
  b_signalCount dec = 1 /\ b_errorCount dec = 1 /\ Forall row_ok (b_signals dec).
Proof.
  intros dec. split; [vm_compute; reflexivity|]. split; [vm_compute; reflexivity|].
  apply (decodeEvents_spec demo_key (fun _ => None) {[""%string := demo_module]} ∅ None 137 0
           demo_batch demo_key_covers).
Defined.
