(* ===== verification/Blobs.v ===== *)
(** * Externalized payloads

    Downloading an object (pkg/eventrepo/s3_reader.go) and the materializer's
    resolution of the payloads din stored outside the raw event rows
    (internal/materializer/ducklake.go): which failures drop a row, and which
    abort the pass. *)

From S2P Require Import Prelude Model Coordinates Base64 Blobcrypt Decode.

(** ** s3_reader.go *)

Inductive s3_error :=
  | NoSuchKey
  | NotFound
  | APIError (code : string)
  | OtherError.

(** What [GetObject] answers: the declared length, the bytes the body yields and
    whether reading it ends in an error. *)
Record s3_object := mkObject {
  ContentLength : option Z;
  Body : list Z;
  Body_fails : bool;
}.

Inductive blob_error :=
  | EGet (e : s3_error)
  | ERead
  (** wraps [ErrObjectTooLarge] *)
  | EObjectTooLarge
  (** the message alone *)
  | EExceedsMaxSize
  | ENoStore
  (** wraps [errSealedNoKey] *)
  | ESealedNoKey
  | EDecrypting (e : crypt_error).

Definition IsObjectTooLarge (e : blob_error) : bool :=
  match e with EObjectTooLarge => true | _ => false end.

Definition IsObjectNotFound (e : blob_error) : bool :=
  match e with
  | EGet NoSuchKey | EGet NotFound => true
  | EGet (APIError code) =>
      existsb (String.eqb code) ["NoSuchKey"; "NotFound"; "NotFoundException"; "404"]%string
  | _ => false
  end.

Definition maxObjectSize : Z := 50 * 2 ^ 20.

Definition downloadS3Object (GetObject : string -> result s3_error s3_object) (key : string)
    (maxSize : Z) : result blob_error (list Z) :=
  match GetObject key with
  | Err e => Err (EGet e)
  | Ok resp =>
      let len := Z.of_nat (length (Body resp)) in
      match ContentLength resp with
      | Some size =>
          if 0 <? size then
            if maxSize <? size then Err EObjectTooLarge
            else if len <? size then Err ERead
            else Ok (take (Z.to_nat size) (Body resp))
          else
            if (len <=? maxSize) && Body_fails resp then Err ERead
            else if maxSize <? len then Err EExceedsMaxSize else Ok (Body resp)
      | None =>
          if (len <=? maxSize) && Body_fails resp then Err ERead
          else if maxSize <? len then Err EExceedsMaxSize else Ok (Body resp)
      end
  end.

Definition DownloadObject (GetObject : string -> result s3_error s3_object) (key : string)
  : result blob_error (list Z) := downloadS3Object GetObject key maxObjectSize.

(** ** resolveBlob, resolveBlobs *)

Definition BlobKeyPrefix : string := "cloudevent/blobs/".

Definition HasBlobPrefix (key : string) : bool := String.prefix BlobKeyPrefix key.

Definition inline_payload (ev : RawEvent) : bool :=
  negb (length (re_Data ev) =? 0)%nat || negb (String.eqb (re_DataBase64 ev) "").

Definition with_data (ev : RawEvent) (data : list Z) : RawEvent :=
  mkRawEvent (re_Header ev) data (re_DataBase64 ev).

Section blobs.
Context {A : AEAD}.
(** The object store and the cipher, when configured. *)
Context (blobs : option (string -> result s3_error s3_object)) (blobCipher : option Key).

Definition resolveBlob (ev : RawEvent) (dataIndexKey : string) : result blob_error RawEvent :=
  if inline_payload ev then Ok ev
  else if negb (HasBlobPrefix dataIndexKey) then Ok ev
  else match blobs with
  | None => Err ENoStore
  | Some get =>
      match DownloadObject get dataIndexKey with
      | Err e => Err e
      | Ok data =>
          match blobCipher with
          | Some k =>
              match Open k (bytes_of dataIndexKey) data with
              | Err e => Err (EDecrypting e)
              | Ok data' => Ok (with_data ev data')
              end
          | None => if IsSealed data then Err ESealedNoKey else Ok (with_data ev data)
          end
      end
  end.

(** The conditions under which the row is skipped. *)
Definition permanent (e : blob_error) : bool :=
  IsObjectNotFound e || IsObjectTooLarge e ||
  match e with ESealedNoKey => true | EDecrypting e' => IsDecryptError e' | _ => false end.

(** Every row's payload is resolved, concurrently; any other error aborts. *)
Fixpoint resolveBlobs (rows : list (RawEvent * string)) : result blob_error (list RawEvent) :=
  match rows with
  | [] => Ok []
  | (ev, key) :: rest =>
      match resolveBlob ev key with
      | Ok ev' => let* r := resolveBlobs rest in Ok (ev' :: r)
      | Err e => if permanent e then resolveBlobs rest else Err e
      end
  end.

(** What a row contributes: its event with payload, or nothing. *)
Definition resolved_row (row : RawEvent * string) : list RawEvent :=
  match resolveBlob row.1 row.2 with Ok ev => [ev] | Err _ => [] end.

Definition transient (row : RawEvent * string) : Prop :=
  exists e, resolveBlob row.1 row.2 = Err e /\ permanent e = false.

Lemma resolveBlobs_ok rows l :
  resolveBlobs rows = Ok l -> l = flat_map resolved_row rows /\ Forall (fun r => ~ transient r) rows.
Proof.
  revert l. induction rows as [|[ev key] rows IH]; intros l; simpl; [by intros [= <-]|].
  assert (Hn : forall P, (forall e, resolveBlob ev key = Err e -> permanent e = true) ->
             P -> ~ transient (ev, key) /\ P).
  { intros P H HP. split; [|done]. intros (e & He & Hp). rewrite (H e He) in Hp. done. }
  unfold resolved_row at 1. simpl. destruct (resolveBlob ev key) as [ev'|e] eqn:E.
  - destruct (resolveBlobs rows) as [r|]; [|done]. intros [= <-].
    destruct (IH r eq_refl) as [-> Hall]. split; [done|]. apply Forall_cons, Hn; [|done]. by intros e.
  - destruct (permanent e) eqn:Ep; [|done]. intros H. destruct (IH l H) as [-> Hall].
    split; [done|]. apply Forall_cons, Hn; [|done]. by intros e' [= <-].
Qed.

Lemma resolveBlobs_err rows :
  Exists transient rows -> exists e, resolveBlobs rows = Err e /\ permanent e = false.
Proof.
  induction 1 as [[ev key] rows (e & He & Hp)|[ev key] rows _ (e & He & Hp)]; simpl in *.
  - rewrite He, Hp. eauto.
  - destruct (resolveBlob ev key) as [ev'|e'] eqn:E.
    + rewrite He. simpl. eauto.
    + destruct (permanent e') eqn:Ep'; eauto.
Qed.

Lemma resolved_header row ev : ev ∈ resolved_row row -> re_Header ev = re_Header row.1.
Proof.
  destruct row as [e key]. unfold resolved_row, resolveBlob. simpl.
  destruct (inline_payload e); [by intros ->%list_elem_of_singleton|].
  destruct (negb _); [by intros ->%list_elem_of_singleton|].
  destruct blobs as [get|]; [|by intros []%not_elem_of_nil].
  destruct (DownloadObject get key); [|by intros []%not_elem_of_nil].
  destruct blobCipher as [k|].
  - destruct (Open _ _ _); [by intros ->%list_elem_of_singleton|by intros []%not_elem_of_nil].
  - destruct (IsSealed _); [by intros []%not_elem_of_nil|by intros ->%list_elem_of_singleton].
Qed.
End blobs.

(** Resolving a batch's payloads: it fails exactly when the payload of some row
    cannot be had for a reason that is not permanent; otherwise it returns, in
    order, every row whose payload is inline, absent or fetched, without the rows
    whose object is missing, declared too large, sealed without a key, or does
    not open. An object over the limit that does not declare its length is not
    among the permanent failures: a row that refers to one makes every attempt
    at its batch fail. *)
Theorem resolveBlobs_spec {A : AEAD} blobs blobCipher rows :
  (forall l, resolveBlobs blobs blobCipher rows = Ok l ->
     l = flat_map (resolved_row blobs blobCipher) rows) /\
  ((exists e, resolveBlobs blobs blobCipher rows = Err e) <->
   Exists (transient blobs blobCipher) rows) /\
  (forall get ev key obj,
     blobs = Some get -> (ev, key) ∈ rows -> inline_payload ev = false -> HasBlobPrefix key = true ->
     get key = Ok obj -> ContentLength obj = None -> maxObjectSize < Z.of_nat (length (Body obj)) ->
     exists e, resolveBlobs blobs blobCipher rows = Err e).
Proof.
  assert (Herr : Exists (transient blobs blobCipher) rows ->
                 exists e, resolveBlobs blobs blobCipher rows = Err e).
  { intros H. apply resolveBlobs_err in H as (e & ? & _). eauto. }
  split_and!.
  - intros l H. by apply resolveBlobs_ok in H as [-> _].
  - split; [|done]. clear Herr. intros (e & He). revert e He.
    induction rows as [|[ev key] rows IH]; intros e; simpl; [done|].
    destruct (resolveBlob blobs blobCipher ev key) as [ev'|e'] eqn:E.
    + destruct (resolveBlobs blobs blobCipher rows) as [|e2] eqn:E2; [done|]. intros _.
      right. by apply (IH e2).
    + destruct (permanent e') eqn:Ep; [|intros _; left; by exists e'].
      intros He. right. by apply (IH e).
  - intros get ev key obj -> Hin Hinl Hpre Hget Hlen Hbig. apply Herr, Exists_exists.
    exists (ev, key). split; [done|]. exists EExceedsMaxSize. split; [|done].
    unfold resolveBlob. simpl. rewrite Hinl, Hpre. unfold DownloadObject, downloadS3Object. simpl.
    rewrite Hget, Hlen. destruct (Z.leb_spec (Z.of_nat (length (Body obj))) maxObjectSize); [lia|].
    destruct (Z.ltb_spec maxObjectSize (Z.of_nat (length (Body obj)))); [done|lia].
Qed.
