(* ===== verification/Ingest.v ===== *)
(** * internal/materializer/ducklake.go: the decode pass

    Reading the raw-event change feed in key-ordered pages, decoding them into
    windows, writing the windows and advancing the cursor by compare-and-swap with
    the last one; chunking of the backlog, recovery from an expired feed, and the
    report of progress. The lake is a state the materializer and others act on:
    before each call of the pass any other actor may have moved, and each call may
    fail, with or without having taken effect. Proved: no retained row is passed
    by the cursor unhandled -- as long as the paging key tells rows apart, which
    the type variants of one upload violate. *)

From S2P Require Import Prelude Model Coordinates Base64 Blobcrypt Decode Blobs.

(** ** The lake *)

(** A raw event row: the snapshot that inserted it, the event, its data_index_key. *)
Record rawRow := mkRawRow { rw_snap : Z; rw_ev : RawEvent; rw_blob : string }.

(** [rawRowKey] *)
Record rawRowKey := mkRowKey { rk_subject : string; rk_ts : Z; rk_id : string }.

Definition row_key (r : rawRow) : rawRowKey :=
  let h := re_Header (rw_ev r) in mkRowKey (ce_Subject h) (ce_Time h) (ce_ID h).

(** [(subject, "time", id) > (?, ?, ?)] is [key_lt] from the right. *)
Definition key_lt (a b : rawRowKey) : bool :=
  String.ltb (rk_subject a) (rk_subject b) ||
  String.eqb (rk_subject a) (rk_subject b) &&
  (before (rk_ts a) (rk_ts b) ||
   tequal (rk_ts a) (rk_ts b) && String.ltb (rk_id a) (rk_id b)).

Definition row_le (a b : rawRow) : bool := negb (key_lt (row_key b) (row_key a)).

Record lake := mkLake {
  (** lake.raw_events with its change feed, and the snapshots kept *)
  lk_raw_exists : bool;
  lk_feed : list rawRow;
  lk_head : Z;
  lk_oldest : Z;
  (** lake.signals, lake.events *)
  lk_signals : list SignalRow;
  lk_events : list EventRow;
  (** the row of lake.ingest_progress, [None] when it is missing *)
  lk_cursor : option Z;
  (** dq's row of meta.din_consumer_progress *)
  lk_floor : option Z;
}.

Definition set_cursor (c : option Z) (l : lake) : lake :=
  mkLake (lk_raw_exists l) (lk_feed l) (lk_head l) (lk_oldest l) (lk_signals l) (lk_events l)
    c (lk_floor l).
Definition set_floor (f : option Z) (l : lake) : lake :=
  mkLake (lk_raw_exists l) (lk_feed l) (lk_head l) (lk_oldest l) (lk_signals l) (lk_events l)
    (lk_cursor l) f.
Definition set_tables (s : list SignalRow) (e : list EventRow) (l : lake) : lake :=
  mkLake (lk_raw_exists l) (lk_feed l) (lk_head l) (lk_oldest l) s e (lk_cursor l) (lk_floor l).

(** The rows of the insert feed of (from, to] after a key, ordered by key. *)
Definition feed_after (l : lake) (from to : Z) (after_ : option rawRowKey) : list rawRow :=
  isort row_le
    (List.filter (fun r => (from <? rw_snap r) && (rw_snap r <=? to) &&
       match after_ with Some k => key_lt k (row_key r) | None => true end) (lk_feed l)).

(** ** The idempotent insert *)

Definition dedupProbeFloor : Z := 30 * 24 * Hour.

Fixpoint minMaxTime_loop (i : nat) (ts : list Z) (r : Z * Z) : Z * Z :=
  match ts with
  | [] => r
  | t :: rest =>
      minMaxTime_loop (S i) rest
        (if (i =? 0)%nat || before t r.1 then t else r.1,
         if (i =? 0)%nat || after t r.2 then t else r.2)
  end.

Definition minMaxTime (ts : list Z) : Z * Z := minMaxTime_loop 0 ts (zero_time, zero_time).

Definition clampProbeFloor (now : Z) (r : Z * Z) : Z * Z :=
  if is_zero r.1 then r
  else
    let floor := time_add now (- dedupProbeFloor) in
    let minT := if before r.1 floor then floor else r.1 in
    (minT, if before r.2 minT then minT else r.2).

Definition timeRange (now : Z) (ts : list Z) : Z * Z := clampProbeFloor now (minMaxTime ts).

Definition same_signal (t src : SignalRow) : bool :=
  (sr_SubjectBucket t =? sr_SubjectBucket src) &&
  String.eqb (sr_CloudEventID t) (sr_CloudEventID src) &&
  String.eqb (sr_Name t) (sr_Name src) && tequal (sr_Timestamp t) (sr_Timestamp src).

Definition same_event (t src : EventRow) : bool :=
  (er_SubjectBucket t =? er_SubjectBucket src) &&
  String.eqb (er_CloudEventID t) (er_CloudEventID src) &&
  String.eqb (er_Name t) (er_Name src) && tequal (er_Timestamp t) (er_Timestamp src).

(** The literal has six decimals. *)
Definition sqlTimestampLit (t : Z) : Z := time_truncate t Microsecond.

(** [INSERT ... SELECT ... WHERE NOT EXISTS]: the table is probed as it was before
    the statement. *)
Definition antiJoinInsert {A} (same : A -> A -> bool) (time : A -> Z) (table src : list A)
    (range : Z * Z) (skipDedup : bool) : list A :=
  if skipDedup then table ++ src
  else table ++ List.filter (fun r => negb (existsb (fun t =>
         (sqlTimestampLit range.1 <=? time t) && (time t <=? sqlTimestampLit range.2) &&
         same t r) table)) src.

(** [insertDecodedSteady], the daily rollup being off. *)
Definition insertDecodedSteady (now : Z) (backfillMode : bool) (dec : decodedBatch) (l : lake) : lake :=
  let s := match b_signals dec with
           | [] => lk_signals l
           | rows => antiJoinInsert same_signal sr_Timestamp (lk_signals l) rows
                       (timeRange now (map sr_Timestamp rows)) backfillMode
           end in
  let e := match b_events dec with
           | [] => lk_events l
           | rows => antiJoinInsert same_event er_Timestamp (lk_events l) rows
                       (timeRange now (map er_Timestamp rows)) backfillMode
           end in
  set_tables s e l.

(** ** The materializer *)

Record config := mkConfig {
  maxSnapshotSpan : Z;
  windowByteBudget : Z;
  maxRowsPerWindow : Z;
  backfillMode : bool;
  maxDirtySubjects : Z;
}.

Definition defaultMaxSnapshotSpan : Z := 16.
Definition defaultWindowByteBudget : Z := 64 * 2 ^ 20.
Definition defaultWindowMaxRows : Z := 100000.
Definition windowReadChunk : Z := 512.
Definition defaultMaxDirtySubjects : Z := 250000.
Definition default_config : config :=
  mkConfig defaultMaxSnapshotSpan defaultWindowByteBudget defaultWindowMaxRows false
    defaultMaxDirtySubjects.

Definition progressReportInterval : Z := 5 * Second.
Definition progressKeepaliveInterval : Z := 5 * Minute.

(** What the publisher sees, in order. *)
Inductive publication := PublishLatest (rows : list SignalRow) | BatchSettled.

(** The materializer's own fields. *)
Record mat := mkMat {
  lastProgressReport : Z;
  lastReportedSnapshot : Z;
  dirtySubjects : gset string;
  rollupFullRebuild : bool;
  dirtyEventSubjects : gset string;
  eventRollupFullRebuild : bool;
  published : list publication;
  (** whether a publisher is set *)
  latestPub : bool;
}.

Definition new_mat : mat := mkMat zero_time 0 ∅ false ∅ false [] false.

Definition publish (ps : list publication) (m : mat) : mat :=
  mkMat (lastProgressReport m) (lastReportedSnapshot m) (dirtySubjects m) (rollupFullRebuild m)
    (dirtyEventSubjects m) (eventRollupFullRebuild m) (published m ++ ps) (latestPub m).

(** [publishLatest], and the settle function it returns. *)
Definition publishLatest (dec : decodedBatch) (m : mat) : mat :=
  if negb (latestPub m) then m
  else match b_signals dec with [] => m | rows => publish [PublishLatest rows] m end.
Definition settle_batch (dec : decodedBatch) (m : mat) : mat :=
  if negb (latestPub m) then m
  else match b_signals dec with [] => m | _ => publish [BatchSettled] m end.

Definition add_dirty (cap : Z) (subjects : list string) (d : gset string) (full : bool)
  : gset string * bool :=
  let d' := list_to_set subjects ∪ d in
  if cap <? Z.of_nat (size d') then (∅, true) else (d', full).

Definition markDirtyFromBatch (cfg : config) (dec : decodedBatch) (m : mat) : mat :=
  let '(ds, full) :=
    if backfillMode cfg
    then add_dirty (maxDirtySubjects cfg) (map sr_Subject (b_signals dec)) (dirtySubjects m)
           (rollupFullRebuild m)
    else (dirtySubjects m, rollupFullRebuild m) in
  let '(de, efull) :=
    add_dirty (maxDirtySubjects cfg) (map er_Subject (b_events dec)) (dirtyEventSubjects m)
      (eventRollupFullRebuild m) in
  mkMat (lastProgressReport m) (lastReportedSnapshot m) ds full de efull (published m) (latestPub m).

(** ** Calls *)

(** What befalls a call: others act on the lake before it, and then it succeeds, or
    a statement fails, or the commit fails, by a conflict or otherwise, or the commit
    takes effect and reports a failure all the same. *)
Inductive fate := Fine | Fails | Conflict | CommitFails | LostAck.

Record event := mkEvent { e_others : lake -> lake; e_fate : fate }.

Definition calm : event := mkEvent id Fine.

Record world := mkWorld { w_lake : lake; w_mat : mat; w_future : list event }.

Inductive pass_error := ErrTransient | ErrSnapshotMoved | OutOfFuel.

Definition M (A : Type) : Type := prog world pass_error A.

(** The next call's fate, after what the others did. *)
Definition call : M fate := fun w =>
  match w_future w with
  | [] => (Ok Fine, w)
  | e :: rest => (Ok (e_fate e), mkWorld (e_others e (w_lake w)) (w_mat w) rest)
  end.

Definition get_lake : M lake := fun w => (Ok (w_lake w), w).
Definition mod_lake (f : lake -> lake) : M unit := fun w =>
  (Ok tt, mkWorld (f (w_lake w)) (w_mat w) (w_future w)).
Definition get_mat : M mat := fun w => (Ok (w_mat w), w).
Definition mod_mat (f : mat -> mat) : M unit := fun w =>
  (Ok tt, mkWorld (w_lake w) (f (w_mat w)) (w_future w)).

(** A query: any fate but [Fine] is an error. *)
Definition query {A} (q : lake -> A) : M A :=
  do! f <- call;
  match f with Fine => do! l <- get_lake; ret (q l) | _ => fail_with ErrTransient end.

(** A statement on the lake outside a transaction of several. *)
Definition exec (f : lake -> lake) : M unit :=
  do! x <- call;
  match x with
  | Fine => mod_lake f
  | LostAck => do! _ <- mod_lake f; fail_with ErrTransient
  | _ => fail_with ErrTransient
  end.

(** [UPDATE lake.ingest_progress SET cursor = to WHERE ... AND cursor = from]. *)
Definition cas (from to : Z) (l : lake) : lake :=
  if bool_decide (lk_cursor l = Some from) then set_cursor (Some to) l else l.

Definition cas_hits (from : Z) (l : lake) : bool := bool_decide (lk_cursor l = Some from).

(** [m.cursor], which seeds a missing row. *)
Definition cursor : M Z :=
  do! c <- query lk_cursor;
  match c with
  | Some n => ret n
  | None =>
      do! _ <- exec (fun l => match lk_cursor l with None => set_cursor (Some 0) l | Some _ => l end);
      ret 0
  end.

Definition commitLanded (to : Z) : M bool := do! c <- cursor; ret (c =? to).

Definition resetCursor (from to : Z) : M unit := exec (cas from to).

Definition advanceCursor (from to : Z) : M unit :=
  do! x <- call;
  match x with
  | Fine =>
      do! l <- get_lake;
      if cas_hits from l then mod_lake (cas from to) else fail_with ErrSnapshotMoved
  | LostAck => do! _ <- mod_lake (cas from to); fail_with ErrTransient
  | _ => fail_with ErrTransient
  end.

(** ** Progress reports *)

Definition reportProgress (id : Z) : M bool :=
  do! x <- call;
  match x with
  | Fine => do! _ <- mod_lake (set_floor (Some id)); ret true
  | LostAck => do! _ <- mod_lake (set_floor (Some id)); ret false
  | _ => ret false
  end.

Definition stamp_report (now : Z) (m : mat) : mat :=
  mkMat now (lastReportedSnapshot m) (dirtySubjects m) (rollupFullRebuild m)
    (dirtyEventSubjects m) (eventRollupFullRebuild m) (published m) (latestPub m).
Definition stamp_reported (id : Z) (m : mat) : mat :=
  mkMat (lastProgressReport m) id (dirtySubjects m) (rollupFullRebuild m)
    (dirtyEventSubjects m) (eventRollupFullRebuild m) (published m) (latestPub m).

Definition recently (now : Z) (m : mat) (interval : Z) : bool :=
  negb (is_zero (lastProgressReport m)) && (time_sub now (lastProgressReport m) <? interval).

Definition attempt_report (now id : Z) : M unit :=
  do! _ <- mod_mat (stamp_report now);
  do! ok <- reportProgress id;
  if ok : bool then mod_mat (stamp_reported id) else ret tt.

Definition reportProgressNow (now id : Z) : M unit :=
  do! m <- get_mat;
  if id =? lastReportedSnapshot m then
    if recently now m progressKeepaliveInterval then ret tt
    else do! _ <- mod_mat (stamp_report now); do! _ <- reportProgress id; ret tt
  else attempt_report now id.

Definition maybeReportProgress (now id : Z) : M unit :=
  do! m <- get_mat;
  if id =? lastReportedSnapshot m then ret tt
  else if recently now m progressReportInterval then ret tt
  else attempt_report now id.

(** ** Windows *)

Record spanCounts := mkCounts {
  rawRows : Z;
  signalRows : Z;
  eventRows : Z;
  errRows : Z;
  oldest : Z;
}.

Definition no_counts : spanCounts := mkCounts 0 0 0 0 zero_time.

Definition earlier (a b : Z) : Z :=
  if is_zero a then b else if is_zero b then a else if before b a then b else a.

Definition add_counts (t c : spanCounts) : spanCounts :=
  mkCounts (rawRows t + rawRows c) (signalRows t + signalRows c) (eventRows t + eventRows c)
    (errRows t + errRows c) (earlier (oldest t) (oldest c)).

Definition rawResidentBytes (events : list RawEvent) : Z :=
  fold_left (fun n e => n + Z.of_nat (length (re_Data e)) + Z.of_nat (String.length (re_DataBase64 e)))
            events 0.

Definition appendDecoded (dst src : decodedBatch) : decodedBatch :=
  mkBatch (b_signals dst ++ b_signals src) (b_events dst ++ b_events src)
    (b_signalCount dst + b_signalCount src) (b_eventCount dst + b_eventCount src)
    (b_errorCount dst + b_errorCount src).

Definition empty_batch : decodedBatch := mkBatch [] [] 0 0 0.

Section pass.
Context {A : AEAD}.
Context (blobs : option (string -> result s3_error s3_object)) (blobCipher : option Key).
(** [eventDecoder.decodeEvents] *)
Context (dec : Z -> list RawEvent -> decodedBatch).
Context (cfg : config) (now : Z).

(** Events with payloads, the key of the last row read, the number of rows read. *)
Definition readDeltaWindow (from to : Z) (after_ : option rawRowKey) (limit : Z)
  : M (list RawEvent * option rawRowKey * Z) :=
  do! x <- call;
  match x with
  | Fine =>
      do! l <- get_lake;
      if from + 1 <? lk_oldest l then fail_with ErrTransient
      else
        let rows := take (Z.to_nat limit) (feed_after l from to after_) in
        match resolveBlobs blobs blobCipher (map (fun r => (rw_ev r, rw_blob r)) rows) with
        | Err _ => fail_with ErrTransient
        | Ok evs => ret (evs, option_map row_key (last rows), Z.of_nat (length rows))
        end
  | _ => fail_with ErrTransient
  end.

Definition or_key (k after_ : option rawRowKey) : option rawRowKey :=
  match k with Some _ => k | None => after_ end.

Fixpoint nextWindow (fuel : nat) (from to : Z) (after_ : option rawRowKey)
    (win : decodedBatch) (c : spanCounts) (winBytes : Z)
  : M (decodedBatch * spanCounts * option rawRowKey) :=
  match fuel with
  | O => fail_with OutOfFuel
  | S fuel' =>
      let rem := maxRowsPerWindow cfg - rawRows c in
      if (0 <? maxRowsPerWindow cfg) && (rem <=? 0) then ret (win, c, after_)
      else
        let readLimit := if (0 <? maxRowsPerWindow cfg) && (rem <? windowReadChunk) then rem
                         else windowReadChunk in
        do! (resolved, last_, got) <- readDeltaWindow from to after_ readLimit;
        if got =? 0 then ret (win, c, after_)
        else
          let d := dec now resolved in
          let winBytes' := winBytes + rawResidentBytes resolved in
          let c' := mkCounts (rawRows c + got) (signalRows c + b_signalCount d)
                      (eventRows c + b_eventCount d) (errRows c + b_errorCount d)
                      (fold_left (fun o e => earlier o (ce_Time (re_Header e))) resolved (oldest c)) in
          let win' := appendDecoded win d in
          if (got <? readLimit) || ((0 <? windowByteBudget cfg) && (windowByteBudget cfg <=? winBytes'))
          then ret (win', c', or_key last_ after_)
          else nextWindow fuel' from to (or_key last_ after_) win' c' winBytes'
  end.

(** ** Writing *)

(** A deferred settle: whatever the outcome of [m]. *)
Definition settling {B} (d : decodedBatch) (m : M B) : M B :=
  do! _ <- mod_mat (publishLatest d);
  try_ m (fun r => do! _ <- mod_mat (settle_batch d); fun w => (r, w)).

Definition writeWindow (d : decodedBatch) : M unit :=
  match b_signals d, b_events d with
  | [], [] => ret tt
  | _, _ =>
      settling d (
        do! x <- call;
        match x with
        | Fine =>
            do! _ <- mod_lake (insertDecodedSteady now (backfillMode cfg) d);
            mod_mat (markDirtyFromBatch cfg d)
        | Conflict => fail_with ErrSnapshotMoved
        | LostAck =>
            do! _ <- mod_lake (insertDecodedSteady now (backfillMode cfg) d);
            fail_with ErrTransient
        | _ => fail_with ErrTransient
        end)
  end.

(** An ambiguous commit is taken as done when the cursor reads [to]. *)
Definition landed_or_fail (to : Z) : M unit :=
  try_ (commitLanded to) (fun r =>
    match r with Ok true => ret tt | _ => fail_with ErrTransient end).

Definition commit (d : decodedBatch) (from to : Z) : M unit :=
  settling d (
    do! x <- call;
    do! l <- get_lake;
    let apply := mod_lake (fun l => cas from to (insertDecodedSteady now (backfillMode cfg) d l)) in
    do! _ <-
      match x with
      | Fails => fail_with ErrTransient
      | _ =>
          if negb (cas_hits from l) then fail_with ErrSnapshotMoved
          else match x with
          | Fine => apply
          | LostAck => do! _ <- apply; landed_or_fail to
          | CommitFails => landed_or_fail to
          | _ => fail_with ErrSnapshotMoved
          end
      end;
    mod_mat (markDirtyFromBatch cfg d)).

(** The loop of [decodeAndWriteSpan]. *)
Fixpoint span_loop (fuel : nat) (from to : Z) (after_ : option rawRowKey)
    (pending : option decodedBatch) (total : spanCounts) : M spanCounts :=
  match fuel with
  | O => fail_with OutOfFuel
  | S fuel' =>
      do! (win, c, after') <- nextWindow fuel from to after_ empty_batch no_counts 0;
      if rawRows c =? 0 then
        match pending with
        | None => ret total
        | Some d => do! _ <- commit d from to; ret total
        end
      else
        do! _ <- match pending with Some d => writeWindow d | None => ret tt end;
        span_loop fuel' from to after' (Some win) (add_counts total c)
  end.

Definition decodeAndWriteSpan (fuel : nat) (from to : Z) : M spanCounts :=
  span_loop fuel from to None None no_counts.

(** ** RunOnce *)

Definition maybeRecoverExpired (cur : Z) : M (option Z) :=
  try_ (query lk_oldest) (fun r =>
    match r with
    | Err _ => ret None
    | Ok old =>
        if old <=? cur + 1 then ret None
        else
          let skipTo := old - 1 in
          do! _ <- resetCursor cur skipTo;
          do! _ <- reportProgressNow now skipTo;
          ret (Some 1)
    end).

(** [(processed, newCur, done)] *)
Definition processChunk (fuel : nat) (cur head : Z) : M (Z * Z * bool) :=
  let to := if (0 <? maxSnapshotSpan cfg) && (maxSnapshotSpan cfg <? head - cur)
            then cur + maxSnapshotSpan cfg else head in
  try_ (decodeAndWriteSpan fuel cur to) (fun r =>
    match r with
    | Err ErrSnapshotMoved => ret (0, cur, true)
    | Err OutOfFuel => fail_with OutOfFuel
    | Err ErrTransient =>
        do! h <- maybeRecoverExpired cur;
        match h with Some n => ret (n, cur, true) | None => fail_with ErrTransient end
    | Ok res =>
        if 0 <? rawRows res then
          do! _ <- maybeReportProgress now to; ret (rawRows res, to, true)
        else if head <=? to then
          do! _ <- reportProgressNow now cur; ret (0, cur, true)
        else
          try_ (advanceCursor cur to) (fun r =>
            match r with
            | Ok _ => ret (0, to, false)
            | Err ErrSnapshotMoved => ret (0, cur, true)
            | Err e => fail_with e
            end)
    end).

Fixpoint chunk_loop (fuel chunks : nat) (cur head : Z) : M Z :=
  match chunks with
  | O => fail_with OutOfFuel
  | S chunks' =>
      do! (processed, newCur, done_) <- processChunk fuel cur head;
      if done_ : bool then ret processed else chunk_loop fuel chunks' newCur head
  end.

Definition RunOnce (fuel chunks : nat) : M Z :=
  do! exists_ <- query lk_raw_exists;
  if negb exists_ then ret 0
  else
    do! cur <- cursor;
    do! head <- query lk_head;
    if head <=? cur then do! _ <- reportProgressNow now cur; ret 0
    else chunk_loop fuel chunks cur head.
End pass.
