(* ===== verification/IngestInv.v ===== *)
(** * The invariant of the decode pass

    The order of the paging keys and what a page reads; how other actors may move
    the lake; the interface of the decoder; the idempotent insert; and the
    invariant: every raw row at or before the cursor is handled -- its event's rows
    are in the decoded tables, or its payload is permanently gone -- or has
    expired. *)

From S2P Require Import Prelude Model Coordinates Base64 Blobcrypt Decode Blobs Ingest.

(** ** The order of paging keys *)

Lemma key_lt_spec a b :
  key_lt a b = true <->
  String.ltb (rk_subject a) (rk_subject b) = true \/
  rk_subject a = rk_subject b /\
  (rk_ts a < rk_ts b \/ rk_ts a = rk_ts b /\ String.ltb (rk_id a) (rk_id b) = true).
Proof.
  unfold key_lt, before, tequal.
  rewrite orb_true_iff, andb_true_iff, orb_true_iff, andb_true_iff, String.eqb_eq, Z.ltb_lt, Z.eqb_eq.
  tauto.
Qed.

Lemma key_lt_trans a b c : key_lt a b = true -> key_lt b c = true -> key_lt a c = true.
Proof.
  rewrite !key_lt_spec. intros [H1|[E1 H1]] [H2|[E2 H2]].
  - left. by eapply sltb_trans.
  - left. by rewrite <- E2.
  - left. by rewrite E1.
  - right. split; [congruence|]. destruct H1 as [H1|[E3 H1]], H2 as [H2|[E4 H2]]; [left; lia..|].
    right. split; [congruence|]. by eapply sltb_trans.
Qed.

Lemma key_lt_irrefl a : key_lt a a = false.
Proof.
  apply not_true_iff_false. rewrite key_lt_spec, !sltb_irrefl. intros [?|[_ [?|[_ ?]]]]; [done|lia|done].
Qed.

Lemma key_lt_total a b : key_lt a b = true \/ a = b \/ key_lt b a = true.
Proof.
  rewrite !key_lt_spec.
  destruct (sltb_total (rk_subject a) (rk_subject b)) as [?|[E1|?]]; [auto| |auto].
  destruct (Z.lt_trichotomy (rk_ts a) (rk_ts b)) as [?|[E2|?]]; [auto| |auto 7].
  destruct (sltb_total (rk_id a) (rk_id b)) as [?|[E3|?]]; [auto 7| |auto 8].
  right; left. destruct a, b; simpl in *; congruence.
Qed.

Lemma key_lt_asym a b : key_lt a b = true -> key_lt b a = false.
Proof.
  intros H. apply not_true_iff_false. intros H'.
  pose proof (key_lt_trans _ _ _ H H') as Hc. by rewrite key_lt_irrefl in Hc.
Qed.

Lemma key_le_trans a b c : key_lt b a = false -> key_lt c b = false -> key_lt c a = false.
Proof.
  intros H1 H2. apply not_true_iff_false. intros H.
  destruct (key_lt_total a b) as [Hab|[->|Hab]]; [|congruence|congruence].
  rewrite (key_lt_trans _ _ _ H Hab) in H2. done.
Qed.

Lemma key_le_antisym a b : key_lt a b = false -> key_lt b a = false -> a = b.
Proof. intros H1 H2. destruct (key_lt_total a b) as [?|[?|?]]; congruence. Qed.

Lemma row_le_total a b : row_le a b = true \/ row_le b a = true.
Proof.
  unfold row_le. destruct (key_lt (row_key b) (row_key a)) eqn:E; [right|by left].
  by rewrite (key_lt_asym _ _ E).
Qed.

Lemma row_le_trans a b c : row_le a b = true -> row_le b c = true -> row_le a c = true.
Proof. unfold row_le. rewrite !negb_true_iff. apply key_le_trans. Qed.

(** ** Reading a page *)

Definition in_span (from to : Z) (r : rawRow) : Prop := from < rw_snap r <= to.

Definition below (after_ : option rawRowKey) (r : rawRow) : Prop :=
  match after_ with Some k => key_lt k (row_key r) = false | None => False end.

Lemma below_dec after_ r : below after_ r \/ ~ below after_ r.
Proof. destruct after_ as [k|]; simpl; [destruct (key_lt k (row_key r)); auto|auto]. Qed.

Lemma feed_after_in l from to after_ r :
  r ∈ feed_after l from to after_ <->
  r ∈ lk_feed l /\ in_span from to r /\ ~ below after_ r.
Proof.
  unfold feed_after, in_span, below. rewrite (isort_perm row_le).
  rewrite list_elem_of_In, filter_In, <- list_elem_of_In, !andb_true_iff, Z.ltb_lt, Z.leb_le.
  destruct after_ as [k|]; [rewrite not_false_iff_true|]; tauto.
Qed.

Lemma feed_after_sorted l from to after_ :
  StronglySorted (fun a b => row_le a b = true) (feed_after l from to after_).
Proof. apply isort_sorted; [apply row_le_total|apply row_le_trans]. Qed.

Lemma elem_of_take_in {A} n (l : list A) x : x ∈ take n l -> x ∈ l.
Proof. intros H. rewrite <- (take_drop n l). by apply elem_of_app; left. Qed.

(** After a page the rows at or before its last key are the ones that were, and
    those with the key of one of the page. *)
Lemma page_below l from to after_ n r :
  let rows := take n (feed_after l from to after_) in
  r ∈ lk_feed l -> in_span from to r ->
  below (or_key (option_map row_key (last rows)) after_) r ->
  below after_ r \/ exists r', r' ∈ rows /\ row_key r' = row_key r.
Proof.
  intros rows Hr Hs Hb. destruct (last rows) as [x|] eqn:Hl; [|by left]. simpl in Hb.
  destruct (below_dec after_ r) as [Hd|Hd]; [by left|].
  assert (Hin : r ∈ feed_after l from to after_) by (by apply feed_after_in).
  right. rewrite <- (take_drop n (feed_after _ _ _ _)) in Hin. apply elem_of_app in Hin as [Hin|Hin].
  { by exists r. }
  exists x. assert (Hx : x ∈ rows) by (by apply last_Some_elem_of). split; [done|].
  apply key_le_antisym; [done|].
  pose proof (feed_after_sorted l from to after_) as Hsrt.
  rewrite <- (take_drop n (feed_after _ _ _ _)) in Hsrt.
  apply StronglySorted_app_1_elem_of with (x1 := x) (x2 := r) in Hsrt; [|done..].
  unfold row_le in Hsrt. by apply negb_true_iff in Hsrt.
Qed.

(** A page leaves fewer rows to read. *)
Lemma page_progress l from to after_ n :
  let rows := take n (feed_after l from to after_) in
  (length (feed_after l from to (or_key (option_map row_key (last rows)) after_)) + length rows
   <= length (feed_after l from to after_))%nat.
Proof.
  intros rows. destruct (last rows) as [x|] eqn:Hl.
  2: { apply last_None in Hl. rewrite Hl. simpl. lia. }
  simpl. set (k := row_key x).
  assert (Hsub : forall r, r ∈ rows -> key_lt k (row_key r) = false).
  { intros r Hr. apply last_Some in Hl as [pre Hpre].
    pose proof (feed_after_sorted l from to after_) as Hsrt.
    rewrite <- (take_drop n (feed_after _ _ _ _)) in Hsrt. fold rows in Hsrt.
    rewrite Hpre in Hr, Hsrt. apply elem_of_app in Hr as [Hr| ->%list_elem_of_singleton].
    - rewrite <- app_assoc in Hsrt.
      apply StronglySorted_app_1_elem_of with (x1 := r) (x2 := x) in Hsrt;
        [|done|by apply elem_of_cons; left]. unfold row_le in Hsrt. by apply negb_true_iff in Hsrt.
    - apply key_lt_irrefl. }
  assert (Hx : x ∈ feed_after l from to after_).
  { apply last_Some in Hl as [pre Hpre]. apply (elem_of_take_in n). fold rows. rewrite Hpre.
    apply elem_of_app; right. by apply list_elem_of_singleton. }
  assert (Hle : (length (feed_after l from to (Some k)) <=
                 length (List.filter (fun r => key_lt k (row_key r)) (feed_after l from to after_)))%nat).
  { unfold feed_after. rewrite (Permutation_length (isort_perm row_le _)).
    rewrite (Permutation_length (list_filter_perm _ _ _ (isort_perm row_le _))), list_filter_andb.
    apply list_filter_length_mono. intros r _ (Hs & Hk)%andb_true_iff.
    rewrite Hs, Hk. simpl. rewrite andb_true_r. destruct after_ as [k0|]; [|done].
    apply feed_after_in in Hx as (_ & _ & Hx). simpl in Hx. apply not_false_iff_true in Hx.
    by apply (key_lt_trans _ k). }
  etrans; [apply Nat.add_le_mono_r, Hle|].
  rewrite <- (take_drop n (feed_after l from to after_)) at 2.
  rewrite <- (take_drop n (feed_after l from to after_)) at 1. fold rows.
  rewrite List.filter_app, !length_app, (list_filter_none _ rows) by done. simpl.
  pose proof (List.filter_length_le (fun r => key_lt k (row_key r))
                (drop n (feed_after l from to after_))). lia.
Qed.

(** A span is exhausted when no row is left after the key. *)
Definition left_ (from to : Z) (after_ : option rawRowKey) (l : lake) : nat :=
  length (feed_after l from to after_).


(** Nothing left: every row of the span is at or before the key. *)
Lemma left_zero l from to after_ r :
  left_ from to after_ l = 0%nat -> r ∈ lk_feed l -> in_span from to r -> below after_ r.
Proof.
  intros H0 Hr Hs. destruct (below_dec after_ r) as [Hb|Hb]; [done|].
  assert (Hin : r ∈ feed_after l from to after_) by by apply feed_after_in.
  unfold left_ in H0. apply length_zero_iff_nil in H0. rewrite H0 in Hin.
  by apply not_elem_of_nil in Hin.
Qed.

(** ** What the other actors may do *)

(** New raw rows come with new snapshots, snapshots expire from the oldest on, and
    decoded rows stay. *)
Record trans (L L' : lake) : Prop := mkTrans {
  tr_feed : exists new, lk_feed L' ≡ₚ lk_feed L ++ new /\ Forall (fun r => lk_head L < rw_snap r) new;
  tr_head : lk_head L <= lk_head L';
  tr_oldest : lk_oldest L <= lk_oldest L';
  tr_signals : lk_signals L ⊆ lk_signals L';
  tr_events : lk_events L ⊆ lk_events L';
}.

#[export] Instance trans_preorder : PreOrder trans.
Proof.
  split.
  - intros L. split; [exists []; by rewrite app_nil_r|done..].
  - intros L1 L2 L3 [(n1 & P1 & F1) h1 o1 s1 e1] [(n2 & P2 & F2) h2 o2 s2 e2].
    split; [|lia|lia|set_solver|set_solver].
    exists (n1 ++ n2). split; [by rewrite P2, P1, app_assoc|].
    apply Forall_app; split; [done|]. eapply Forall_impl; [exact F2|]. intros r ?. simpl in *. lia.
Qed.

Definition stable (P : lake -> Prop) : Prop := forall L L', trans L L' -> P L -> P L'.

Lemma trans_feed_in L L' r : trans L L' -> r ∈ lk_feed L -> r ∈ lk_feed L'.
Proof. intros [(new & -> & _) _ _ _ _] Hr. by apply elem_of_app; left. Qed.

Lemma trans_feed_back L L' r :
  trans L L' -> rw_snap r <= lk_head L -> r ∈ lk_feed L' -> r ∈ lk_feed L.
Proof.
  intros [(new & -> & F) _ _ _ _] Hs [Hr|Hr]%elem_of_app; [done|].
  rewrite Forall_forall in F. apply F in Hr. lia.
Qed.

Lemma trans_left L L' from to after_ :
  trans L L' -> to <= lk_head L -> left_ from to after_ L' = left_ from to after_ L.
Proof.
  intros [(new & P & F) _ _ _ _] Hto. unfold left_, feed_after.
  rewrite !(Permutation_length (isort_perm row_le _)), (Permutation_length (list_filter_perm _ _ _ P)).
  rewrite List.filter_app, length_app, (list_filter_none _ new); [simpl; lia|].
  intros r Hr. rewrite Forall_forall in F. apply F in Hr.
  apply andb_false_iff; left. apply andb_false_iff; right. by apply Z.leb_gt; lia.
Qed.

(** ** The decoder's promise *)

(** [dec] turns a batch of events into rows; [rows_of] is what it makes of one event.
    Of the events of a batch with one header key at least one is decoded. *)
Class DecoderLaws {K} (Key : RawEvent -> K) (decodable : RawEvent -> bool)
    (rows_of : Z -> RawEvent -> list SignalRow * list EventRow)
    (dec : Z -> list RawEvent -> decodedBatch) : Prop := {
  dec_covers now P e : e ∈ P -> decodable e = true ->
    exists j, j ∈ P /\ Key j = Key e /\
      (rows_of now j).1 ⊆ b_signals (dec now P) /\ (rows_of now j).2 ⊆ b_events (dec now P);
}.

Existing Class key_covers.

#[export] Instance decodeEvents_laws {S : SortFunc} {SL : SortFuncLaws S} {K} `{EqDecision K}
    (Key : RawEvent -> K) DecodeERC721DID SignalRegistry EventRegistry addr chain :
  key_covers Key ->
  DecoderLaws Key (decodable DecodeERC721DID addr chain)
    (fun now e => (convert_job SignalRegistry EventRegistry now e).1)
    (decodeEvents Key DecodeERC721DID SignalRegistry EventRegistry addr chain).
Proof.
  intros HK. split. intros now P e He Hd.
  destruct (jobs_loop_facts Key DecodeERC721DID addr chain [] P) as (_ & H2 & H3).
  destruct (H3 HK e He Hd (not_elem_of_nil _)) as (j & Hj & Hk). exists j.
  destruct (H2 j Hj) as (HjP & _). split; [done|]. split; [done|].
  unfold decodeEvents, convertJobs. rewrite fold_jobs. simpl.
  split; intros x Hx; apply list_elem_of_In, in_flat_map;
    exists (convert_job SignalRegistry EventRegistry now j);
    (split; [by apply in_map, list_elem_of_In|by apply list_elem_of_In]).
Qed.

(** ** The idempotent insert keeps what is there and adds what is not *)

(** Some row of the table is the same as [s]. *)
Definition has {A} (same : A -> A -> bool) (l : list A) (s : A) : Prop :=
  exists t, t ∈ l /\ same t s = true.

Lemma has_mono {A} (same : A -> A -> bool) l l' s : l ⊆ l' -> has same l s -> has same l' s.
Proof. intros H (t & Ht & E). exists t. auto. Qed.

Lemma same_signal_eq t s :
  same_signal t s = true <->
  sr_SubjectBucket t = sr_SubjectBucket s /\ sr_CloudEventID t = sr_CloudEventID s /\
  sr_Name t = sr_Name s /\ sr_Timestamp t = sr_Timestamp s.
Proof. unfold same_signal, tequal. rewrite !andb_true_iff, !Z.eqb_eq, !String.eqb_eq. tauto. Qed.

Lemma same_event_eq t s :
  same_event t s = true <->
  er_SubjectBucket t = er_SubjectBucket s /\ er_CloudEventID t = er_CloudEventID s /\
  er_Name t = er_Name s /\ er_Timestamp t = er_Timestamp s.
Proof. unfold same_event, tequal. rewrite !andb_true_iff, !Z.eqb_eq, !String.eqb_eq. tauto. Qed.

(** The two row types have the laws of an identity. *)
Class SameLaws {A} (same : A -> A -> bool) : Prop := {
  same_refl a : same a a = true;
  same_trans a b c : same a b = true -> same b c = true -> same a c = true;
}.

#[export] Instance same_signal_laws : SameLaws same_signal.
Proof. split; intros *; rewrite !same_signal_eq; intuition congruence. Qed.
#[export] Instance same_event_laws : SameLaws same_event.
Proof. split; intros *; rewrite !same_event_eq; intuition congruence. Qed.

Section insert.
Context {A : Type} {same : A -> A -> bool} {laws : SameLaws same} (time : A -> Z).

Lemma antiJoinInsert_keeps table src range skip :
  table ⊆ antiJoinInsert same time table src range skip.
Proof. unfold antiJoinInsert. destruct skip; set_solver. Qed.

Lemma antiJoinInsert_has table src range skip s :
  has same (table ++ src) s -> has same (antiJoinInsert same time table src range skip) s.
Proof.
  intros (t & Ht & Hs). apply elem_of_app in Ht as [Ht|Ht].
  { exists t. split; [by apply antiJoinInsert_keeps|done]. }
  unfold antiJoinInsert. destruct skip; [exists t; split; [by apply elem_of_app; right|done]|].
  destruct (existsb (fun t0 => (sqlTimestampLit range.1 <=? time t0) &&
              (time t0 <=? sqlTimestampLit range.2) && same t0 t) table) eqn:E.
  - apply existsb_exists in E as (t0 & Hin & Ht0). apply andb_true_iff in Ht0 as [_ Ht0].
    exists t0. split; [by apply elem_of_app; left; apply list_elem_of_In|by apply (same_trans _ t)].
  - exists t. split; [|done]. apply elem_of_app; right. apply list_elem_of_In, filter_In.
    split; [by apply list_elem_of_In|by rewrite E].
Qed.
End insert.

Lemma insert_frame now bf d l :
  let l' := insertDecodedSteady now bf d l in
  lk_feed l' = lk_feed l /\ lk_head l' = lk_head l /\ lk_oldest l' = lk_oldest l /\
  lk_cursor l' = lk_cursor l.
Proof. done. Qed.

Lemma insert_signals now bf d l :
  lk_signals l ⊆ lk_signals (insertDecodedSteady now bf d l) /\
  forall s, has same_signal (lk_signals l ++ b_signals d) s ->
    has same_signal (lk_signals (insertDecodedSteady now bf d l)) s.
Proof.
  unfold insertDecodedSteady. simpl. destruct (b_signals d) as [|x rows].
  - rewrite app_nil_r. set_solver.
  - split; [apply antiJoinInsert_keeps|intros s; apply antiJoinInsert_has].
Qed.

Lemma insert_events now bf d l :
  lk_events l ⊆ lk_events (insertDecodedSteady now bf d l) /\
  forall s, has same_event (lk_events l ++ b_events d) s ->
    has same_event (lk_events (insertDecodedSteady now bf d l)) s.
Proof.
  unfold insertDecodedSteady. simpl. destruct (b_events d) as [|x rows].
  - rewrite app_nil_r. set_solver.
  - split; [apply antiJoinInsert_keeps|intros s; apply antiJoinInsert_has].
Qed.

Lemma insert_trans now bf d l : trans l (insertDecodedSteady now bf d l).
Proof.
  split; simpl; [exists []; by rewrite app_nil_r|done|done|apply (insert_signals now bf)|apply (insert_events now bf)].
Qed.

(** ** The invariant *)

Definition payload (r : rawRow) : RawEvent * string := (rw_ev r, rw_blob r).

Section invariant.
Context {A : AEAD} (blobs : option (string -> result s3_error s3_object)) (blobCipher : option Key).
Context {K : Type} (HKey : RawEvent -> K) (decodable : RawEvent -> bool)
        (rows_of : Z -> RawEvent -> list SignalRow * list EventRow).

(** The row's payload is there or permanently gone, and if its event is one to
    decode, the rows of an event of the feed with the same header key, decoded at
    some time, are among [S] and [E]. *)
Definition accounted (S : list SignalRow) (E : list EventRow) (l : lake) (r : rawRow) : Prop :=
  ~ transient blobs blobCipher (payload r) /\
  forall ev, ev ∈ resolved_row blobs blobCipher (payload r) -> decodable ev = true ->
  exists r' j t, r' ∈ lk_feed l /\ j ∈ resolved_row blobs blobCipher (payload r') /\
    HKey j = HKey ev /\
    (forall s, s ∈ (rows_of t j).1 -> has same_signal S s) /\
    (forall e, e ∈ (rows_of t j).2 -> has same_event E e).

Definition handled (l : lake) (r : rawRow) : Prop :=
  rw_snap r < lk_oldest l \/ accounted (lk_signals l) (lk_events l) l r.

(** Every row at or before the cursor is handled. *)
Definition Inv (l : lake) : Prop :=
  forall r, r ∈ lk_feed l -> rw_snap r <= default 0 (lk_cursor l) -> handled l r.

(** The paging key tells rows apart: [rawRowKey]'s claim. *)
Definition key_ok (l : lake) : Prop :=
  forall r r', r ∈ lk_feed l -> r' ∈ lk_feed l -> row_key r = row_key r' -> payload r = payload r'.

Definition good (l : lake) : Prop := Inv l /\ key_ok l.

Lemma accounted_mono S S' E E' l l' r :
  (forall s, has same_signal S s -> has same_signal S' s) ->
  (forall e, has same_event E e -> has same_event E' e) ->
  lk_feed l ⊆ lk_feed l' -> accounted S E l r -> accounted S' E' l' r.
Proof.
  intros HS HE HF (Ht & H). split; [done|]. intros ev Hev Hd.
  destruct (H ev Hev Hd) as (r' & j & t & ? & ? & ? & ? & ?). exists r', j, t. split_and!; eauto.
Qed.

Lemma handled_trans l l' r : trans l l' -> handled l r -> handled l' r.
Proof.
  intros T [H|H]; [left; pose proof (tr_oldest _ _ T); lia|right].
  revert H. apply accounted_mono.
  - intros s. apply has_mono, T.
  - intros e. apply has_mono, T.
  - intros x. by apply trans_feed_in.
Qed.

(** A move that leaves the feed and the cursor keeps the invariant. *)
Lemma good_keep l l' :
  trans l l' -> lk_feed l' = lk_feed l -> default 0 (lk_cursor l') = default 0 (lk_cursor l) ->
  good l -> good l'.
Proof.
  intros T Hf Hc (Hi & Hk). split.
  - intros r Hr Hs. rewrite Hf in Hr. rewrite Hc in Hs. by apply (handled_trans l), Hi.
  - unfold key_ok. by rewrite Hf.
Qed.

Lemma good_insert now bf d l : good l -> good (insertDecodedSteady now bf d l).
Proof. apply good_keep; [apply insert_trans|done|done]. Qed.

Lemma set_cursor_trans c l : trans l (set_cursor c l).
Proof. split; simpl; [exists []; by rewrite app_nil_r|done..]. Qed.

Lemma set_floor_trans f l : trans l (set_floor f l).
Proof. split; simpl; [exists []; by rewrite app_nil_r|done..]. Qed.

Lemma good_set_floor f l : good l -> good (set_floor f l).
Proof. apply good_keep; [apply set_floor_trans|done|done]. Qed.

Lemma cas_trans from to l : trans l (cas from to l).
Proof. unfold cas. destruct (bool_decide _); [apply set_cursor_trans|done]. Qed.

(** The compare-and-swap may move over rows that are handled. *)
Lemma good_cas from to l :
  (forall r, r ∈ lk_feed l -> in_span from to r -> handled l r) -> good l -> good (cas from to l).
Proof.
  intros H (Hi & Hk). unfold cas. destruct (bool_decide _) eqn:E; [|done].
  apply bool_decide_eq_true in E. split; [|done]. intros r Hr Hs. simpl in *.
  apply (handled_trans l); [apply set_cursor_trans|].
  destruct (Z.leb_spec (rw_snap r) from) as [Hle|Hgt].
  - apply Hi; [done|]. by rewrite E.
  - by apply H.
Qed.

(** The rows of (from, to] up to a key are accounted for, once the batches still
    to write are written. *)
Record Cov (from to : Z) (after_ : option rawRowKey) (S : list SignalRow) (E : list EventRow)
    (l : lake) : Prop := mkCov {
  cov_head : to <= lk_head l;
  cov_rows r : r ∈ lk_feed l -> in_span from to r -> below after_ r ->
    accounted (lk_signals l ++ S) (lk_events l ++ E) l r;
}.

Lemma has_app_mono {X} (same : X -> X -> bool) (l l' k k' : list X) s :
  l ⊆ l' -> k ⊆ k' -> has same (l ++ k) s -> has same (l' ++ k') s.
Proof. intros H1 H2. apply has_mono. set_solver. Qed.

Lemma Cov_stable from to after_ S E : stable (Cov from to after_ S E).
Proof.
  intros l l' T [Hh Hr]. split; [pose proof (tr_head _ _ T); lia|].
  intros r Hin Hs Hb. pose proof Hs as [_ Hto].
  apply (trans_feed_back _ _ _ T) in Hin; [|lia].
  eapply accounted_mono; [..|by apply Hr].
  - intros s. apply has_app_mono; [apply T|done].
  - intros e. apply has_app_mono; [apply T|done].
  - intros x. by apply trans_feed_in.
Qed.

Lemma Cov_start from to S E l : to <= lk_head l -> Cov from to None S E l.
Proof. intros H. split; [done|]. by intros r _ _ []. Qed.

(** Reading and decoding a page. *)
Lemma Cov_page {dec} {laws : DecoderLaws HKey decodable rows_of dec} now from to after_ S E l n evs :
  let rows := take n (feed_after l from to after_) in
  good l -> Cov from to after_ S E l ->
  resolveBlobs blobs blobCipher (map payload rows) = Ok evs ->
  Cov from to (or_key (option_map row_key (last rows)) after_)
    (S ++ b_signals (dec now evs)) (E ++ b_events (dec now evs)) l.
Proof.
  intros rows (_ & Hk) [Hh Hc] Hres. apply resolveBlobs_ok in Hres as [-> Hnt]. set (evs := flat_map _ _).
  split; [done|]. intros r Hr Hs Hb. apply page_below in Hb as [Hb|(r' & Hr' & Hkey)]; [| |done..].
  { eapply accounted_mono; [..|by apply Hc]; [| |done].
    - intros s. apply has_app_mono; set_solver.
    - intros e. apply has_app_mono; set_solver. }
  assert (Hfeed : forall x, x ∈ rows -> x ∈ lk_feed l).
  { intros x Hx. apply elem_of_take_in, feed_after_in in Hx. tauto. }
  unfold accounted. rewrite <- (Hk r' r (Hfeed _ Hr') Hr Hkey). clear r Hr Hs Hkey.
  assert (Hin : payload r' ∈ map payload rows) by by apply list_elem_of_fmap_2.
  split; [rewrite Forall_forall in Hnt; by apply Hnt|].
  intros ev Hev Hd.
  destruct (dec_covers now evs ev) as (j & Hj & HK & H1 & H2); [|done|].
  { apply list_elem_of_In, in_flat_map. exists (payload r'). split; by apply list_elem_of_In. }
  apply list_elem_of_In, in_flat_map in Hj as (p & Hp & Hj).
  apply in_map_iff in Hp as (x & <- & Hx). exists x, j, now. split_and!.
  - by apply Hfeed, list_elem_of_In.
  - by apply list_elem_of_In.
  - done.
  - intros s Hs. exists s. split; [|apply same_refl]. set_solver.
  - intros e He. exists e. split; [|apply same_refl]. set_solver.
Qed.

(** Writing the first of the batches. *)
Lemma Cov_write now bf from to after_ d S E l :
  Cov from to after_ (b_signals d ++ S) (b_events d ++ E) l ->
  Cov from to after_ S E (insertDecodedSteady now bf d l).
Proof.
  intros [Hh Hc]. split; [done|]. intros r Hr Hs Hb.
  eapply accounted_mono; [..|by apply Hc]; [| |done].
  - intros s (t & Ht & Hts). rewrite app_assoc in Ht. apply elem_of_app in Ht as [Ht|Ht].
    + apply (has_app_mono _ (lk_signals (insertDecodedSteady now bf d l)) _ []); [done|set_solver|].
      rewrite app_nil_r. apply insert_signals. by exists t.
    + exists t. split; [by apply elem_of_app; right|done].
  - intros s (t & Ht & Hts). rewrite app_assoc in Ht. apply elem_of_app in Ht as [Ht|Ht].
    + apply (has_app_mono _ (lk_events (insertDecodedSteady now bf d l)) _ []); [done|set_solver|].
      rewrite app_nil_r. apply insert_events. by exists t.
    + exists t. split; [by apply elem_of_app; right|done].
Qed.

(** With nothing left to read or write the cursor may move. *)
Lemma Cov_handled from to after_ l :
  Cov from to after_ [] [] l -> left_ from to after_ l = 0%nat ->
  forall r, r ∈ lk_feed l -> in_span from to r -> handled l r.
Proof.
  intros [_ Hc] H0 r Hr Hs. right.
  specialize (Hc r Hr Hs (left_zero _ _ _ _ _ H0 Hr Hs)). by rewrite !app_nil_r in Hc.
Qed.
End invariant.
