(* ===== verification/IngestLogic.v ===== *)
(** * A program logic for the decode pass

    Triples [spec good P m Q]: from a lake that satisfies the invariant [good] and
    [P], with any actors that preserve [good] and move by [trans], [m] leaves a lake
    that satisfies [good] and, with its outcome, [Q]; and it moves by [trans]
    itself. A [stable] predicate survives any call. *)

From S2P Require Import Prelude Model Coordinates Decode Blobs Ingest IngestInv.

Section logic.
Context (good : lake -> Prop).

(** What the other actors are trusted with. *)
Definition env_ok (e : event) : Prop :=
  forall l, good l -> good (e_others e l) /\ trans l (e_others e l).

Definition ok (w : world) : Prop := good (w_lake w) /\ Forall env_ok (w_future w).

Definition spec {B} (P : lake -> Prop) (m : M B) (Q : result pass_error B -> lake -> Prop) : Prop :=
  forall w, ok w -> P (w_lake w) ->
    let '(r, w') := m w in ok w' /\ trans (w_lake w) (w_lake w') /\ Q r (w_lake w').

(** It never runs out of fuel. *)
Definition quiet {B} (m : M B) : Prop := spec (fun _ => True) m (fun r _ => r <> Err OutOfFuel).

Lemma spec_conseq {B} (P P' : lake -> Prop) (m : M B) Q Q' :
  spec P m Q -> (forall l, P' l -> P l) -> (forall r l, Q r l -> Q' r l) -> spec P' m Q'.
Proof.
  intros H HP HQ w Hw HP'. specialize (H w Hw (HP _ HP')). destruct (m w) as [r w'].
  destruct H as (? & ? & ?). auto.
Qed.

Lemma spec_pre {B} (P P' : lake -> Prop) (m : M B) Q :
  spec P m Q -> (forall l, P' l -> P l) -> spec P' m Q.
Proof. intros H HP. by apply (spec_conseq P P' m Q Q). Qed.

Lemma spec_pure {B} (phi : Prop) (P : lake -> Prop) (m : M B) Q :
  (phi -> spec P m Q) -> spec (fun l => phi /\ P l) m Q.
Proof. intros H w Hw (Hp & HP). by apply H. Qed.

Lemma spec_ret {B} (P : lake -> Prop) (b : B) Q : (forall l, P l -> Q (Ok b) l) -> spec P (ret b) Q.
Proof. intros H w Hw HP. simpl. split_and!; [done|reflexivity|auto]. Qed.

Lemma spec_fail {B} (P : lake -> Prop) e (Q : result pass_error B -> lake -> Prop) :
  (forall l, P l -> Q (Err e) l) -> spec P (fail_with e) Q.
Proof. intros H w Hw HP. simpl. split_and!; [done|reflexivity|auto]. Qed.

Lemma spec_bind {B C} (P : lake -> Prop) (m : M B) (k : B -> M C) (R : B -> lake -> Prop) Q :
  spec P m (fun r l => match r with Ok b => R b l | Err e => Q (Err e) l end) ->
  (forall b, spec (R b) (k b) Q) -> spec P (bind m k) Q.
Proof.
  intros Hm Hk w Hw HP. unfold bind. specialize (Hm w Hw HP). destruct (m w) as [[b|e] w1].
  - destruct Hm as (Hw1 & T1 & HR). specialize (Hk b w1 Hw1 HR). destruct (k b w1) as [r w2].
    destruct Hk as (? & ? & ?). split_and!; [done|by etrans|done].
  - done.
Qed.

Lemma spec_try {B C} (P : lake -> Prop) (m : M B) (k : result pass_error B -> M C) R Q :
  spec P m R -> (forall r, spec (R r) (k r) Q) -> spec P (try_ m k) Q.
Proof.
  intros Hm Hk w Hw HP. unfold try_. specialize (Hm w Hw HP). destruct (m w) as [r w1].
  destruct Hm as (Hw1 & T1 & HR). specialize (Hk r w1 Hw1 HR). destruct (k r w1) as [r' w2].
  destruct Hk as (? & ? & ?). split_and!; [done|by etrans|done].
Qed.

(** What is stable is kept. *)
Lemma spec_frame {B} (F P : lake -> Prop) (m : M B) Q :
  stable F -> spec P m Q -> spec (fun l => F l /\ P l) m (fun r l => F l /\ Q r l).
Proof.
  intros HF H w Hw (HFw & HP). specialize (H w Hw HP). destruct (m w) as [r w'].
  destruct H as (? & T & ?). split_and!; eauto.
Qed.

Lemma spec_call_bind {B} (P : lake -> Prop) (k : fate -> M B) Q :
  stable P -> (forall f, spec P (k f) Q) -> spec P (bind call k) Q.
Proof.
  intros HP Hk w (Hg & Hf) Hw. unfold bind, call. destruct w as [l m [|e rest]]; simpl in *.
  - by apply Hk.
  - apply Forall_cons in Hf as [He Hf]. destruct (He l Hg) as (Hg' & T).
    pose proof (Hk (e_fate e) (mkWorld (e_others e l) m rest)) as H.
    destruct (k _ _) as [r w']. destruct H as (? & ? & ?); [done|by apply (HP l)|].
    split_and!; [done|by etrans|done].
Qed.

Lemma spec_get_lake {B} (P : lake -> Prop) (k : lake -> M B) Q :
  (forall l, spec (fun l' => l' = l /\ P l') (k l) Q) -> spec P (bind get_lake k) Q.
Proof. intros H w Hw HP. by apply (H (w_lake w) w Hw). Qed.

Lemma spec_get_mat {B} (P : lake -> Prop) (k : mat -> M B) Q :
  (forall m, spec P (k m) Q) -> spec P (bind get_mat k) Q.
Proof. intros H w Hw HP. by apply (H (w_mat w) w Hw). Qed.

Lemma spec_mod_lake (P : lake -> Prop) f Q :
  (forall l, P l -> good l -> good (f l) /\ trans l (f l) /\ Q (Ok tt) (f l)) ->
  spec P (mod_lake f) Q.
Proof. intros H w (Hg & Hf) HP. destruct (H _ HP Hg) as (? & ? & ?). simpl. split_and!; [by split|done..]. Qed.

Lemma spec_mod_mat (P : lake -> Prop) f Q : (forall l, P l -> Q (Ok tt) l) -> spec P (mod_mat f) Q.
Proof. intros H w (Hg & Hf) HP. simpl. split_and!; [by split|done|auto]. Qed.

Lemma spec_query {B} (P : lake -> Prop) (q : lake -> B) :
  stable P ->
  spec P (query q) (fun r l => P l /\ match r with Ok b => b = q l | Err e => e = ErrTransient end).
Proof.
  intros HP. apply spec_call_bind; [done|]. intros [].
  - apply spec_get_lake. intros l. apply spec_ret. by intros l' (-> & ?).
  - by apply spec_fail.
  - by apply spec_fail.
  - by apply spec_fail.
  - by apply spec_fail.
Qed.

Lemma spec_settling {B} (P : lake -> Prop) d (m : M B) Q : spec P m Q -> spec P (settling d m) Q.
Proof.
  intros H. unfold settling. apply (spec_bind _ _ _ (fun _ => P)); [by apply spec_mod_mat|intros _].
  apply (spec_try _ _ _ Q); [done|intros r].
  apply (spec_bind _ _ _ (fun _ => Q r)); [by apply spec_mod_mat|intros _].
  intros w Hw HQ. by split_and!.
Qed.

(** ** Quiet computations *)

Lemma quiet_ret {B} (b : B) : quiet (ret b).
Proof. by apply spec_ret. Qed.
Lemma quiet_fail {B} e : e <> OutOfFuel -> quiet (fail_with e : M B).
Proof. intros H. apply spec_fail. intros _ _ [=]. congruence. Qed.
Lemma quiet_bind {B C} (m : M B) (k : B -> M C) : quiet m -> (forall b, quiet (k b)) -> quiet (bind m k).
Proof.
  intros Hm Hk. apply (spec_bind _ _ _ (fun _ _ => True)); [|done].
  eapply spec_conseq; [exact Hm|done|]. intros [b|e] l H; [done|congruence].
Qed.
Lemma quiet_then {B C} P (m : M B) (k : B -> M C) Q :
  quiet m -> (forall b, spec (fun _ => True) (k b) Q) -> (forall e l, e <> OutOfFuel -> Q (Err e) l) ->
  spec P (bind m k) Q.
Proof.
  intros Hm Hk HQ. apply (spec_bind _ _ _ (fun _ _ => True)); [|done].
  eapply spec_conseq; [exact Hm|done|]. intros [b|e] l H; [done|]. apply HQ. congruence.
Qed.
Lemma quiet_try {B C} (m : M B) (k : result pass_error B -> M C) :
  quiet m -> (forall r, r <> Err OutOfFuel -> quiet (k r)) -> quiet (try_ m k).
Proof.
  intros Hm Hk. apply (spec_try _ _ _ _ _ Hm). intros r w Hw Hr. by apply (Hk r Hr).
Qed.
Lemma quiet_call : quiet call.
Proof.
  intros [l m [|e rest]] (Hg & Hf) _; simpl in *; [done|].
  apply Forall_cons in Hf as [He Hf]. destruct (He l Hg). split_and!; [by split|done|done].
Qed.
Lemma quiet_get_lake : quiet get_lake.
Proof. intros w Hw _. split_and!; [done|reflexivity|done]. Qed.
Lemma quiet_get_mat : quiet get_mat.
Proof. intros w Hw _. split_and!; [done|reflexivity|done]. Qed.
Lemma quiet_mod_mat f : quiet (mod_mat f).
Proof. by apply spec_mod_mat. Qed.
Lemma quiet_mod_lake f :
  (forall l, good l -> good (f l) /\ trans l (f l)) -> quiet (mod_lake f).
Proof. intros H. apply spec_mod_lake. intros l _ Hg. destruct (H l Hg). done. Qed.
Lemma quiet_query {B} (q : lake -> B) : quiet (query q).
Proof.
  eapply spec_conseq; [by apply (spec_query (fun _ => True))|done|].
  intros [b|e] l (_ & H); [done|]. congruence.
Qed.
Lemma quiet_exec f : (forall l, good l -> good (f l) /\ trans l (f l)) -> quiet (exec f).
Proof.
  intros H. apply quiet_bind; [apply quiet_call|]. intros [].
  - by apply quiet_mod_lake.
  - by apply quiet_fail.
  - by apply quiet_fail.
  - by apply quiet_fail.
  - apply quiet_bind; [by apply quiet_mod_lake|intros _; by apply quiet_fail].
Qed.
Lemma quiet_settling {B} d (m : M B) : quiet m -> quiet (settling d m).
Proof. apply spec_settling. Qed.
End logic.

Create HintDb quiet.
#[export] Hint Resolve quiet_ret quiet_bind quiet_try quiet_call quiet_get_lake quiet_get_mat
  quiet_mod_mat quiet_mod_lake quiet_query quiet_exec quiet_settling : quiet.
#[export] Hint Extern 1 (quiet _ (fail_with _)) => apply quiet_fail; done : quiet.

(** Follows the structure of the program, with a case analysis where it branches. *)
Ltac quiet :=
  repeat (intros; match goal with
  | |- quiet _ (match ?x with _ => _ end) => destruct x eqn:?
  | |- quiet _ (bind _ _) => apply quiet_bind
  | |- quiet _ (try_ _ _) => apply quiet_try
  | _ => solve [eauto with quiet]
  | _ => congruence
  end).
