(* ===== verification/IngestSafe.v ===== *)
(** * The decode pass keeps the cursor honest

    Any pass preserves the invariant of [IngestInv] -- the cursor never moves over a
    retained row that is not handled -- over any schedule of failures and of other
    actors, as long as the paging key tells rows apart; and a pass ends. When the
    key does not tell them apart a row is lost. *)

From S2P Require Import Prelude Model Coordinates Base64 Blobcrypt Decode Blobs.
From S2P Require Import Ingest IngestInv IngestLogic.

Section pass_safe.
Context {A : AEAD} (blobs : option (string -> result s3_error s3_object)) (blobCipher : option Key).
Context {K : Type} (HKey : RawEvent -> K) (decodable : RawEvent -> bool)
        (rows_of : Z -> RawEvent -> list SignalRow * list EventRow).
Context (dec : Z -> list RawEvent -> decodedBatch) {laws : DecoderLaws HKey decodable rows_of dec}.
Context (cfg : config) (now : Z).

Local Notation good := (good blobs blobCipher HKey decodable rows_of).
Local Notation Cov := (Cov blobs blobCipher HKey decodable rows_of).
Local Notation spec := (spec good).
Local Notation quiet := (quiet good).

(** ** Calls that do not touch rows *)

Lemma seed_cursor_keeps l :
  let l' := match lk_cursor l with None => set_cursor (Some 0) l | Some _ => l end in
  good l -> good l' /\ trans l l'.
Proof.
  intros l' Hg. unfold l'. destruct (lk_cursor l) eqn:E; [done|]. split; [|apply set_cursor_trans].
  revert Hg. apply good_keep; [apply set_cursor_trans|done|]. simpl. by rewrite E.
Qed.

Lemma quiet_cursor : quiet cursor.
Proof. unfold cursor. quiet. apply quiet_exec. apply seed_cursor_keeps. Qed.

Lemma quiet_landed_or_fail to : quiet (landed_or_fail to).
Proof. unfold landed_or_fail, commitLanded. quiet; apply quiet_cursor. Qed.

Lemma quiet_reportProgress id : quiet (reportProgress id).
Proof.
  unfold reportProgress. quiet; apply quiet_mod_lake; intros l Hg;
    (split; [by apply good_set_floor|apply set_floor_trans]).
Qed.

Lemma quiet_attempt_report id : quiet (attempt_report now id).
Proof. unfold attempt_report. quiet. apply quiet_reportProgress. Qed.

Lemma quiet_reportProgressNow id : quiet (reportProgressNow now id).
Proof.
  unfold reportProgressNow. quiet; [apply quiet_reportProgress|apply quiet_attempt_report].
Qed.

Lemma quiet_maybeReportProgress id : quiet (maybeReportProgress now id).
Proof. unfold maybeReportProgress. quiet. apply quiet_attempt_report. Qed.

(** The cursor may be set over rows that have expired. *)
Lemma spec_resetCursor cur old :
  spec (fun l => old <= lk_oldest l) (resetCursor cur (old - 1)) (fun r _ => r <> Err OutOfFuel).
Proof.
  assert (Hst : stable (fun l => old <= lk_oldest l)).
  { intros l l' T ?. pose proof (tr_oldest _ _ T). lia. }
  assert (Hcas : forall l, old <= lk_oldest l -> good l ->
            good (cas cur (old - 1) l) /\ trans l (cas cur (old - 1) l)).
  { intros l Ho Hg. split; [|apply cas_trans]. apply good_cas; [|done].
    intros r _ [_ Hr]. left. lia. }
  unfold resetCursor, exec. apply spec_call_bind; [done|]. intros [].
  - apply spec_mod_lake. intros l Ho Hg. destruct (Hcas l Ho Hg). done.
  - by apply spec_fail.
  - by apply spec_fail.
  - by apply spec_fail.
  - apply (spec_bind _ _ _ _ (fun _ _ => True)); [|intros _; by apply spec_fail].
    apply spec_mod_lake. intros l Ho Hg. destruct (Hcas l Ho Hg). done.
Qed.

Lemma quiet_maybeRecoverExpired cur : quiet (maybeRecoverExpired now cur).
Proof.
  unfold maybeRecoverExpired.
  apply (spec_try _ _ _ _ (fun r l => match r with
    | Ok old => old <= lk_oldest l | Err e => e <> OutOfFuel end)).
  { eapply spec_conseq; [by apply (spec_query good (fun _ => True))|done|].
    intros [old|e] l (_ & ->); [lia|done]. }
  intros [old|e]; [|by apply spec_ret].
  destruct (old <=? cur + 1); [by apply spec_ret|].
  apply (spec_bind _ _ _ _ (fun _ _ => True)).
  - eapply spec_conseq; [apply spec_resetCursor|done|]. intros [|e] l H; [done|congruence].
  - intros _. apply quiet_bind; [apply quiet_reportProgressNow|intros _; apply quiet_ret].
Qed.

(** The cursor may be moved over a span without rows. *)
Lemma spec_advanceCursor from to :
  spec (fun l => to <= lk_head l /\ left_ from to None l = 0%nat) (advanceCursor from to)
       (fun r _ => r <> Err OutOfFuel).
Proof.
  set (P := fun l => _). assert (Hst : stable P).
  { intros l l' T (Hh & H0). pose proof (tr_head _ _ T). split; [lia|].
    by rewrite (trans_left l l'). }
  assert (Hcas : forall l, P l -> good l -> good (cas from to l) /\ trans l (cas from to l)).
  { intros l (Hh & H0) Hg. split; [|apply cas_trans]. apply good_cas; [|done].
    intros r Hr Hs. exfalso.
    exact (left_zero _ _ _ _ _ H0 Hr Hs). }
  unfold advanceCursor. apply spec_call_bind; [done|]. intros [].
  - apply spec_get_lake. intros l. destruct (cas_hits from l); [|by apply spec_fail].
    apply spec_mod_lake. intros l' (-> & HP) Hg. destruct (Hcas l HP Hg). done.
  - by apply spec_fail.
  - by apply spec_fail.
  - by apply spec_fail.
  - apply (spec_bind _ _ _ _ (fun _ _ => True)); [|intros _; by apply spec_fail].
    apply spec_mod_lake. intros l HP Hg. destruct (Hcas l HP Hg). done.
Qed.

(** ** Reading a window *)

(** The state between two reads: [n] bounds what is left. *)
Definition span_state (from to : Z) (after_ : option rawRowKey) (S : list SignalRow)
    (E : list EventRow) (n : nat) (l : lake) : Prop :=
  Cov from to after_ S E l /\ (left_ from to after_ l <= n)%nat.

Lemma span_state_stable from to after_ S E n : stable (span_state from to after_ S E n).
Proof.
  intros l l' T (Hc & Hl). split; [by apply (Cov_stable _ _ _ _ _ _ _ _ _ _ l)|].
  by rewrite (trans_left l l') by first [done|apply Hc].
Qed.

Lemma spec_readDeltaWindow from to after_ limit S E n :
  0 < limit ->
  spec (span_state from to after_ S E n) (readDeltaWindow blobs blobCipher from to after_ limit)
    (fun r l => match r with
     | Ok (evs, last_, got) =>
         if got =? 0 then last_ = None /\ left_ from to after_ l = 0%nat /\ span_state from to after_ S E n l
         else 0 < got /\ (0 < n)%nat /\
           span_state from to (or_key last_ after_) (S ++ b_signals (dec now evs))
                   (E ++ b_events (dec now evs)) (n - 1) l
     | Err e => e <> OutOfFuel
     end).
Proof.
  intros Hlim. unfold readDeltaWindow. apply spec_call_bind; [apply span_state_stable|].
  intros []; try by apply spec_fail.
  apply spec_get_lake. intros l. destruct (from + 1 <? lk_oldest l); [by apply spec_fail|].
  set (rows := take (Z.to_nat limit) (feed_after l from to after_)).
  change (map _ rows) with (map payload rows).
  destruct (resolveBlobs blobs blobCipher (map payload rows)) as [evs|e] eqn:Hres; [|by apply spec_fail].
  intros w Hw (Hl & Hc & Hn). simpl. rewrite Hl in Hc, Hn |- *. destruct Hw as (Hg & Hf).
  rewrite Hl in Hg. split_and!; [by split; rewrite ?Hl|done|]. clear w Hl Hf.
  pose proof (page_progress l from to after_ (Z.to_nat limit)) as Hp. fold rows in Hp. simpl in Hp.
  pose proof (Cov_page blobs blobCipher HKey decodable rows_of now from to after_ S E l
                (Z.to_nat limit) evs Hg Hc Hres) as Hpage. fold rows in Hpage.
  unfold left_ in *. destruct (Z.eqb_spec (Z.of_nat (length rows)) 0) as [H0|H0].
  - assert (rows = []) as Hnil by (apply length_zero_iff_nil; lia).
    split_and!; [by rewrite Hnil| |by split].
    unfold rows in Hnil. destruct (feed_after l from to after_); [done|].
    by destruct (Z.to_nat limit) eqn:?; [lia|].
  - split_and!; [lia|lia|]. split; [done|unfold left_; lia].
Qed.

Lemma or_key_None after_ : or_key None after_ = after_.
Proof. done. Qed.

(** What [nextWindow] leaves: the rows of [win'] accounted for, and less to read
    unless it read nothing. *)
Definition window_post from to after_ S E (n : nat) (win : decodedBatch) (c : spanCounts)
    (win' : decodedBatch) (c' : spanCounts) (after' : option rawRowKey) (l : lake) : Prop :=
  span_state from to after' (S ++ b_signals win') (E ++ b_events win') n l /\
  rawRows c <= rawRows c' /\
  (rawRows c < rawRows c' -> (left_ from to after' l < n)%nat) /\
  (rawRows c' = rawRows c -> win' = win /\ after' = after_) /\
  (rawRows c' = 0 -> left_ from to after' l = 0%nat).

Lemma spec_nextWindow fuel from to after_ win c wb S E n :
  0 <= rawRows c -> (n < fuel)%nat ->
  spec (span_state from to after_ (S ++ b_signals win) (E ++ b_events win) n)
    (nextWindow blobs blobCipher dec cfg now fuel from to after_ win c wb)
    (fun r l => match r with
     | Ok (win', c', after') => window_post from to after_ S E n win c win' c' after' l
     | Err e => e <> OutOfFuel
     end).
Proof.
  revert after_ win c wb n. induction fuel as [|fuel IH]; intros after_ win c wb n Hc Hn; [lia|].
  cbn [nextWindow].
  destruct ((0 <? maxRowsPerWindow cfg) && (maxRowsPerWindow cfg - rawRows c <=? 0)) eqn:Hfull.
  { apply spec_ret. intros l Hr. bools. unfold window_post. split_and!; [done|lia|lia|done|lia]. }
  set (limit := if (0 <? maxRowsPerWindow cfg) && (maxRowsPerWindow cfg - rawRows c <? windowReadChunk)
                then _ else _).
  assert (Hlim : 0 < limit).
  { unfold limit, windowReadChunk. destruct (0 <? maxRowsPerWindow cfg) eqn:E1; simpl in *; [|lia].
    destruct (_ <? 512); bools; lia. }
  eapply spec_bind; [by apply spec_readDeltaWindow|]. intros [[evs last_] got].
  destruct (Z.eqb_spec got 0) as [H0|H0].
  { apply spec_ret. intros l (_ & Hl & Hr). unfold window_post. split_and!; [done|lia|lia|done|done]. }
  set (d := dec now evs). set (c' := mkCounts _ _ _ _ _). set (win' := appendDecoded win d).
  apply spec_pure; intros Hgot. apply spec_pure; intros Hn0. rewrite <- !app_assoc.
  change (b_signals win ++ b_signals d) with (b_signals win').
  change (b_events win ++ b_events d) with (b_events win').
  destruct (_ || _).
  - apply spec_ret. intros l (Hcov & Hl). unfold window_post, c'. simpl.
    split_and!; [split; [done|lia]|lia|lia|lia|lia].
  - eapply spec_conseq; [apply (IH _ win' c' _ (n - 1)%nat)|done|]; [unfold c'; simpl; lia|lia|].
    intros [[[w' c''] after']|e] l H; [|done]. unfold window_post in *. unfold c' in H. simpl in H.
    destruct H as ((Hcov & Hl) & H1 & H2 & _ & H4).
    split_and!; [split; [done|lia]|lia|lia|lia|done].
Qed.

(** ** Writing a window *)

Lemma spec_writeWindow from to after_ d S E n :
  spec (span_state from to after_ (b_signals d ++ S) (b_events d ++ E) n) (writeWindow cfg now d)
    (fun r l => match r with
     | Ok _ => span_state from to after_ S E n l
     | Err e => e <> OutOfFuel
     end).
Proof.
  assert (Hmain : spec (span_state from to after_ (b_signals d ++ S) (b_events d ++ E) n)
    (do! x <- call;
     match x with
     | Fine => do! _ <- mod_lake (insertDecodedSteady now (backfillMode cfg) d);
               mod_mat (markDirtyFromBatch cfg d)
     | Conflict => fail_with ErrSnapshotMoved
     | LostAck => do! _ <- mod_lake (insertDecodedSteady now (backfillMode cfg) d);
                  fail_with ErrTransient
     | _ => fail_with ErrTransient
     end)
    (fun r l => match r with Ok _ => span_state from to after_ S E n l | Err e => e <> OutOfFuel end)).
  { apply spec_call_bind; [apply span_state_stable|]. intros []; try by apply spec_fail.
    - apply (spec_bind _ _ _ _ (fun _ => span_state from to after_ S E n)); [|intros _; by apply spec_mod_mat].
      apply spec_mod_lake. intros l (Hc & Hl) Hg.
      split_and!; [by apply good_insert|apply insert_trans|]. split; [by apply Cov_write|done].
    - apply (spec_bind _ _ _ _ (fun _ _ => True)); [|intros _; by apply spec_fail].
      apply spec_mod_lake. intros l _ Hg. split_and!; [by apply good_insert|apply insert_trans|done]. }
  unfold writeWindow. destruct (b_signals d) as [|x xs] eqn:Es; [destruct (b_events d) eqn:Ee|];
    [by apply spec_ret|by apply spec_settling..].
Qed.

Lemma spec_commit from to after_ d :
  spec (span_state from to after_ (b_signals d) (b_events d) 0) (commit cfg now d from to)
    (fun r _ => r <> Err OutOfFuel).
Proof.
  unfold commit. apply spec_settling. apply spec_call_bind; [apply span_state_stable|]. intros x.
  apply spec_get_lake. intros l.
  set (P := fun l' => l' = l /\ span_state from to after_ (b_signals d) (b_events d) 0 l').
  apply (spec_bind _ _ _ _ (fun _ _ => True)); [|intros _; by apply quiet_mod_mat].
  assert (Happly : spec P (mod_lake (fun l => cas from to (insertDecodedSteady now (backfillMode cfg) d l)))
            (fun r _ => r = Ok tt)).
  { apply spec_mod_lake. intros l' (_ & Hc & Hl) Hg. split_and!; [|etrans; [apply insert_trans|apply cas_trans]|done].
    apply good_cas; [|by apply good_insert].
    apply (Cov_handled _ _ _ _ _ from to after_).
    - apply Cov_write. by rewrite !app_nil_r.
    - unfold left_ in *. change (feed_after (insertDecodedSteady now (backfillMode cfg) d l') from to after_)
        with (feed_after l' from to after_). lia. }
  assert (Hland : forall P, spec P (landed_or_fail to)
            (fun r _ => match r with Ok _ => True | Err e => Err (A := unit) e <> Err OutOfFuel end)).
  { intros P'. eapply spec_conseq; [apply quiet_landed_or_fail|done|].
    by intros [|e] l' H. }
  destruct x; [..|]; try (destruct (negb _)); try by apply spec_fail.
  - eapply spec_conseq; [apply Happly|done|]. by intros r l' ->.
  - apply Hland.
  - apply (spec_bind _ _ _ _ (fun _ _ => True)); [|intros _; apply Hland].
    eapply spec_conseq; [apply Happly|done|]. by intros r l' ->.
Qed.

(** ** A span *)

Definition pend_signals (p : option decodedBatch) : list SignalRow :=
  match p with Some d => b_signals d | None => [] end.
Definition pend_events (p : option decodedBatch) : list EventRow :=
  match p with Some d => b_events d | None => [] end.

(** Nothing was read so far, or something was and the last window is pending. *)
Definition progress (after_ : option rawRowKey) (pending : option decodedBatch)
    (total : spanCounts) : Prop :=
  match pending with
  | None => after_ = None /\ rawRows total = 0
  | Some _ => 0 < rawRows total
  end.

Definition span_post from to (r : result pass_error spanCounts) (l : lake) : Prop :=
  match r with
  | Ok res => to <= lk_head l /\ (0 < rawRows res \/ rawRows res = 0 /\ left_ from to None l = 0%nat)
  | Err e => e <> OutOfFuel
  end.

Lemma spec_span_loop fuel from to after_ pending total n :
  progress after_ pending total -> (n < fuel)%nat ->
  spec (span_state from to after_ (pend_signals pending) (pend_events pending) n)
    (span_loop blobs blobCipher dec cfg now fuel from to after_ pending total) (span_post from to).
Proof.
  revert after_ pending total n. induction fuel as [|fuel IH]; intros after_ pending total n Hp Hn; [lia|].
  cbn [span_loop]. apply (spec_bind _ _ _ _ (fun x l => let '(win, c, after') := x in
    window_post from to after_ (pend_signals pending) (pend_events pending) n empty_batch no_counts
      win c after' l)).
  { eapply spec_conseq.
    - apply (spec_nextWindow (Datatypes.S fuel) from to after_ empty_batch no_counts 0
               (pend_signals pending) (pend_events pending) n); [done|done].
    - intros l. simpl. by rewrite !app_nil_r.
    - by intros [[[win c] after']|e] l H. }
  intros [[win c] after']. destruct (Z.eqb_spec (rawRows c) 0) as [H0|H0].
  - destruct pending as [d|]; simpl in Hp.
    + apply (spec_bind _ _ _ _ (fun _ l => to <= lk_head l)); [|intros _; apply spec_ret; intros l H; split; [done|by left]].
      eapply spec_conseq; [apply (spec_frame good (fun l => to <= lk_head l)); [|apply (spec_commit from to after_ d)]|..].
      * intros l l' T ?. pose proof (tr_head _ _ T). lia.
      * intros l ((Hc & Hl) & _ & _ & H3 & H4). destruct (H3 H0) as [-> ->]. simpl in *.
        rewrite !app_nil_r in Hc. split; [apply Hc|]. split; [done|]. rewrite H4; [lia|done].
      * intros [|e] l (? & ?); [done|congruence].
    + apply spec_ret. intros l ((Hc & Hl) & _ & _ & H3 & H4). destruct (H3 H0) as [-> ->].
      destruct Hp as [-> Hp]. split; [apply Hc|]. right. split; [done|by apply H4].
  - eapply spec_pre with (P := fun l => 0 < rawRows c /\ (0 < n)%nat /\
      span_state from to after' (pend_signals pending ++ b_signals win)
        (pend_events pending ++ b_events win) (n - 1) l).
    2: { intros l ((Hc & Hl) & H1 & H2 & _ & _). simpl in *. split_and!; [lia|lia|]. split; [done|lia]. }
    apply spec_pure; intros Hpos. apply spec_pure; intros Hn0.
    apply (spec_bind _ _ _ _ (fun _ => span_state from to after' (b_signals win) (b_events win) (n - 1))).
    + destruct pending as [d|]; [|by apply spec_ret].
      eapply spec_conseq; [apply spec_writeWindow|done|]. by intros [|] l H.
    + intros _. apply (IH _ (Some win)); [|lia]. simpl.
      destruct pending; simpl in Hp; [|destruct Hp as [_ Hp]]; lia.
Qed.

Lemma spec_decodeAndWriteSpan fuel from to n :
  (n < fuel)%nat ->
  spec (fun l => to <= lk_head l /\ (left_ from to None l <= n)%nat)
    (decodeAndWriteSpan blobs blobCipher dec cfg now fuel from to) (span_post from to).
Proof.
  intros Hn. eapply spec_pre; [by apply (spec_span_loop fuel from to None None no_counts n)|].
  intros l (Hh & Hl). split; [by apply Cov_start|done].
Qed.

(** ** A chunk, and the pass *)

(** The rows of a backlog. *)
Definition backlog (head : Z) (l : lake) : nat :=
  length (List.filter (fun r => rw_snap r <=? head) (lk_feed l)).

Lemma left_backlog from to head l : to <= head -> (left_ from to None l <= backlog head l)%nat.
Proof.
  intros H. unfold left_, feed_after, backlog. rewrite (Permutation_length (isort_perm row_le _)).
  apply list_filter_length_mono. intros r _. rewrite !andb_true_iff, !Z.leb_le. lia.
Qed.

Definition behind (head : Z) (n : nat) (l : lake) : Prop :=
  head <= lk_head l /\ (backlog head l <= n)%nat.

Lemma behind_stable head n : stable (behind head n).
Proof.
  intros l l' T (Hh & Hb). pose proof (tr_head _ _ T). split; [lia|].
  destruct (tr_feed _ _ T) as (new & P & F). unfold backlog.
  rewrite (Permutation_length (list_filter_perm _ _ _ P)), List.filter_app, length_app.
  rewrite (list_filter_none _ new), Nat.add_0_r; [done|].
  intros r Hr. rewrite Forall_forall in F. apply F in Hr. apply Z.leb_gt. lia.
Qed.

Lemma spec_processChunk fuel cur head n :
  (n < fuel)%nat -> cur < head ->
  spec (behind head n) (processChunk blobs blobCipher dec cfg now fuel cur head)
    (fun r l => match r with
     | Ok (_, newCur, done_) => done_ = false -> behind head n l /\ cur < newCur < head
     | Err e => e <> OutOfFuel
     end).
Proof.
  intros Hn Hcur. unfold processChunk. set (to := if _ : bool then cur + _ else head).
  assert (Hto : cur < to <= head).
  { unfold to. destruct (0 <? maxSnapshotSpan cfg) eqn:E1; simpl; [|lia].
    destruct (maxSnapshotSpan cfg <? head - cur) eqn:E2; bools; lia. }
  apply (spec_try _ _ _ _ (fun r l => behind head n l /\ span_post cur to r l)).
  { eapply spec_conseq; [apply (spec_frame good (behind head n) _ _ _ (behind_stable head n)
      (spec_decodeAndWriteSpan fuel cur to n Hn))|..]; [|done].
    intros l (Hh & Hb). split; [done|]. split; [lia|]. pose proof (left_backlog cur to head l). lia. }
  intros [res|[]].
  - destruct (Z.ltb_spec 0 (rawRows res)).
    { apply quiet_then; [apply quiet_maybeReportProgress| |by intros e l]. intros _. by apply spec_ret. }
    destruct (Z.leb_spec head to).
    { apply quiet_then; [apply quiet_reportProgressNow| |by intros e l]. intros _. by apply spec_ret. }
    apply (spec_try _ _ _ _ (fun r l => behind head n l /\ r <> Err OutOfFuel)).
    { eapply spec_conseq; [apply (spec_frame good (behind head n) _ _ _ (behind_stable head n)
        (spec_advanceCursor cur to))|..]; [|done].
      intros l (Hb & Hh & Hres). split; [done|]. split; [done|]. lia. }
    intros [[]|[]]; [apply spec_ret|apply spec_fail|by apply spec_ret|apply spec_fail].
    + intros l (Hb & _) _. split; [done|lia].
    + by intros l _.
    + by intros l (_ & H1).
  - apply quiet_then; [apply quiet_maybeRecoverExpired| |by intros e l].
    intros [k|]; [by apply spec_ret|by apply spec_fail].
  - by apply spec_ret.
  - apply spec_fail. by intros l (_ & H).
Qed.

Lemma spec_chunk_loop fuel chunks cur head n :
  (n < fuel)%nat -> (Z.to_nat (head - cur) <= chunks)%nat -> cur < head ->
  spec (behind head n) (chunk_loop blobs blobCipher dec cfg now fuel chunks cur head)
    (fun r _ => r <> Err OutOfFuel).
Proof.
  intros Hn. revert cur. induction chunks as [|chunks IH]; intros cur Hc Hcur; [lia|].
  cbn [chunk_loop].
  apply (spec_bind _ _ _ _ (fun x l => let '(_, newCur, done_) := x in
           done_ = false -> behind head n l /\ cur < newCur < head)).
  { eapply spec_conseq; [by apply (spec_processChunk fuel cur head n)|done|].
    intros [[[p nc] d]|e] l H; [done|congruence]. }
  intros [[p nc] []]; [by apply spec_ret|].
  eapply spec_pre with (P := fun l => cur < nc < head /\ behind head n l); [|intros l H; by apply and_comm, H].
  apply spec_pure; intros Hnc. apply IH; lia.
Qed.

(** The part of the pass before the loop, which takes no fuel. *)
Lemma RunOnce_safe w :
  ok good w ->
  exists n, forall fuel chunks, (n <= fuel)%nat -> (n <= chunks)%nat ->
    let '(r, w') := RunOnce blobs blobCipher dec cfg now fuel chunks w in
    ok good w' /\ trans (w_lake w) (w_lake w') /\ r <> Err OutOfFuel.
Proof.
  intros Hw. unfold RunOnce, bind at 1.
  pose proof (quiet_query good lk_raw_exists w Hw I) as H1.
  destruct (query lk_raw_exists w) as [[ex|e] w1]; destruct H1 as (Hw1 & T1 & E1).
  2: { exists 0%nat. intros _ _ _ _. split_and!; [done..|congruence]. }
  destruct ex; simpl; [|by exists 0%nat]. unfold bind at 1.
  pose proof (quiet_cursor w1 Hw1 I) as H2.
  destruct (cursor w1) as [[cur|e] w2]; destruct H2 as (Hw2 & T2 & E2).
  2: { exists 0%nat. intros _ _ _ _. split_and!; [done|by etrans|congruence]. }
  unfold bind at 1.
  pose proof (spec_query good (fun _ => True) lk_head (fun _ _ _ _ => I) w2 Hw2 I) as H3.
  destruct (query lk_head w2) as [[head|e] w3]; destruct H3 as (Hw3 & T3 & _ & E3).
  2: { exists 0%nat. intros _ _ _ _. split_and!; [done|by repeat (etrans; [eassumption|])|congruence]. }
  exists (Datatypes.S (backlog head (w_lake w3)) + Z.to_nat (head - cur))%nat.
  intros fuel chunks Hf Hc. destruct (Z.leb_spec head cur) as [Hle|Hlt].
  - pose proof (quiet_bind good _ _ (quiet_reportProgressNow cur) (fun _ => quiet_ret good 0) w3 Hw3 I) as H4.
    destruct (bind _ _ w3) as [r w4]. destruct H4 as (? & ? & ?).
    split_and!; [done|by repeat (etrans; [eassumption|])|done].
  - assert (Hb : behind head (backlog head (w_lake w3)) (w_lake w3)) by (split; [by rewrite E3|done]).
    pose proof (spec_chunk_loop fuel chunks cur head (backlog head (w_lake w3)) ltac:(lia) ltac:(lia) Hlt w3 Hw3 Hb) as H4.
    destruct (chunk_loop _ _ _ _ _ _ _ _ _ w3) as [r w4]. destruct H4 as (? & ? & ?).
    split_and!; [done|by repeat (etrans; [eassumption|])|done].
Qed.

(** C1. One pass of the materializer, whatever fails and whatever others do. If
    every raw row at or before the cursor is handled (its payload permanently gone,
    or its event's rows in the decoded tables, or the row expired), paging keys
    tell raw rows apart, and the other actors keep it so, then any pass ends, given
    fuel for its backlog, and leaves the lake in such a state: no interleaving of
    failed, conflicting or unacknowledged commits with peers' moves makes the
    cursor pass a retained row that is not decoded, and no decoded row is lost. *)
Theorem decode_pass_safe w :
  good (w_lake w) -> Forall (env_ok good) (w_future w) ->
  exists n, forall fuel chunks, (n <= fuel)%nat -> (n <= chunks)%nat ->
    let '(r, w') := RunOnce blobs blobCipher dec cfg now fuel chunks w in
    let l := w_lake w' in
    r <> Err OutOfFuel /\
    (forall row, row ∈ lk_feed l -> rw_snap row <= default 0 (lk_cursor l) ->
       handled blobs blobCipher HKey decodable rows_of l row) /\
    good l /\ trans (w_lake w) l.
Proof.
  intros Hg He. destruct (RunOnce_safe w (conj Hg He)) as (n & H). exists n. intros fuel chunks Hf Hc.
  specialize (H fuel chunks Hf Hc). destruct (RunOnce _ _ _ _ _ _ _ w) as [r w'].
  destruct H as ((Hg' & _) & T & Hr). split_and!; [done|apply Hg'|done|done].
Qed.
End pass_safe.

(** ** Runs *)

(** The decoder of the runs, over the module that decodes a speed. *)
Definition demo_dec : Z -> list RawEvent -> decodedBatch :=
  decodeEvents demo_key (fun _ => None) {[""%string := demo_module]} ∅ None 137.

Definition demo_rows_of (now : Z) (e : RawEvent) : list SignalRow * list EventRow :=
  (convert_job {[""%string := demo_module]} ∅ now e).1.

Definition demo_row (snap : Z) (typ id : string) : rawRow :=
  mkRawRow snap (mkRawEvent (demo_header typ id) [1] "") "".

Definition demo_lake (feed : list rawRow) : lake := mkLake true feed 1 0 [] [] (Some 0) None.

#[local] Instance demo_key_covers_instance : key_covers demo_key := demo_key_covers.

(** What the theorems say of a lake, for that decoder and without blob store. *)
Definition demo_handled : lake -> rawRow -> Prop :=
  handled (A := toy_aead) None None demo_key (decodable (fun _ => None) None 137) demo_rows_of.
Definition demo_good : lake -> Prop :=
  IngestInv.good (A := toy_aead) None None demo_key (decodable (fun _ => None) None 137) demo_rows_of.

(** Two status uploads; their commit is not acknowledged, and then reading the cursor
    back fails as well: the pass reports an error, with the commit in effect. *)
Definition demo_world : world :=
  mkWorld (demo_lake [demo_row 1 TypeStatus "e1"; demo_row 1 TypeStatus "e3"]) new_mat
    [calm; calm; calm; calm; calm; mkEvent id LostAck; mkEvent id Fails].

Lemma demo_world_good : demo_good (w_lake demo_world).
Proof.
  split.
  - intros r Hr Hc. exfalso. revert Hr Hc.
    by intros [-> | ->%list_elem_of_singleton]%elem_of_cons; vm_compute.
  - intros r r' [-> | ->%list_elem_of_singleton]%elem_of_cons
      [-> | ->%list_elem_of_singleton]%elem_of_cons; vm_compute; congruence.
Qed.

Lemma decode_pass_safe_witness :
  exists n, forall fuel chunks, (n <= fuel)%nat -> (n <= chunks)%nat ->
    let '(r, w') := RunOnce (A := toy_aead) None None demo_dec default_config 0 fuel chunks demo_world in
    let l := w_lake w' in
    r <> Err OutOfFuel /\
    (forall row, row ∈ lk_feed l -> rw_snap row <= default 0 (lk_cursor l) -> demo_handled l row) /\
    demo_good l /\ trans (w_lake demo_world) l.
Proof.
  apply (decode_pass_safe (A := toy_aead) None None demo_key (decodable (fun _ => None) None 137)
           demo_rows_of demo_dec default_config 0 demo_world demo_world_good).
  repeat (apply Forall_cons; split); try apply Forall_nil; try done;
    intros l Hl; (split; [exact Hl|reflexivity]).
Defined.

(** ** A row lost between two pages *)

(** An upload of one vehicle at time [t], its id the vehicle's. *)
Definition upload (t : Z) (typ : string) : rawRow :=
  mkRawRow 1 (mkRawEvent (mkHeader "did:erc721:137:0xV:1" t typ "e1" "0xS" "0xP" "1.0") [1] "") "".

(** 511 fingerprints, and an upload of two type variants: a fingerprint and a status
    with one id and time, which is what din emits. *)
Definition variants_feed : list rawRow :=
  map (fun i => upload (Z.of_nat i) "dimo.fingerprint") (seq 0 512) ++ [upload 511 TypeStatus].

Definition variants_world : world := mkWorld (demo_lake variants_feed) new_mat [].

(** C40. The paging key does not tell the type variants of one upload apart, and then a
    row is lost: with the default configuration, when the 512th and the 513th row
    of the change feed are the fingerprint and the status of one upload, a pass in
    which nothing fails moves the cursor past the status row, whose signal is not
    in the lake; the row alone would have been decoded. *)
Theorem type_variant_lost :
  let status := upload 511 TypeStatus in
  let '(r, w) := RunOnce (A := toy_aead) None None demo_dec default_config 0 9 9 variants_world in
  r = Ok 512 /\
  status ∈ lk_feed (w_lake w) /\ lk_oldest (w_lake w) <= rw_snap status /\
  (exists c, lk_cursor (w_lake w) = Some c /\ rw_snap status <= c) /\
  lk_signals (w_lake w) = [] /\
  (demo_rows_of 0 (rw_ev status)).1 <> [] /\
  length (lk_signals (w_lake (RunOnce (A := toy_aead) None None demo_dec default_config 0 9 9
    (mkWorld (demo_lake [status]) new_mat [])).2)) = 1%nat.
Proof.
  intros status.
  assert (E : forall b, (RunOnce (A := toy_aead) None None demo_dec default_config 0 9 9 variants_world) = b ->
    b.1 = Ok 512 /\ lk_feed (w_lake b.2) = variants_feed /\ lk_oldest (w_lake b.2) = 0 /\
    lk_cursor (w_lake b.2) = Some 1 /\ lk_signals (w_lake b.2) = []).
  { intros b <-. split_and!; vm_compute; reflexivity. }
  destruct (RunOnce _ _ _ _ _ _ _ variants_world) as [r w]. destruct (E _ eq_refl) as (? & Hf & Ho & Hc & Hs).
  simpl in *. rewrite Hf, Ho, Hc, Hs. split_and!; try done.
  - unfold variants_feed. apply elem_of_app; right. by apply list_elem_of_singleton.
  - by exists 1.
Qed.
