(* ===== verification/Sql.v ===== *)
(** * The queries over lake.signals

    The pieces the statements of internal/service/duck and of the rollup share:
    the read deduplication (lake_latest.go), the aggregates and orders it is
    combined with, and microsecond timestamps. A table is the list of its rows,
    in an order that means nothing: the lemmas say what each statement gives in
    terms of membership. *)

From S2P Require Import Prelude Model Decode.

(** ** Orders *)

Definition sleb (a b : string) : bool := negb (String.ltb b a).

Lemma sleb_total a b : sleb a b = true \/ sleb b a = true.
Proof.
  unfold sleb. destruct (sltb_total a b) as [H|[->|H]].
  - left. by rewrite (sltb_asym _ _ H).
  - left. by rewrite sltb_irrefl.
  - right. by rewrite (sltb_asym _ _ H).
Qed.

Lemma sleb_antisym a b : sleb a b = true -> sleb b a = true -> a = b.
Proof.
  unfold sleb. rewrite !negb_true_iff. intros H1 H2.
  destruct (sltb_total a b) as [H|[H|H]]; [congruence|done|congruence].
Qed.

Lemma sleb_trans a b c : sleb a b = true -> sleb b c = true -> sleb a c = true.
Proof.
  unfold sleb. rewrite !negb_true_iff. intros H1 H2. apply not_true_iff_false. intros H.
  destruct (sltb_total a b) as [Hab|[->|Hab]]; [|congruence|congruence].
  rewrite (sltb_trans _ _ _ H Hab) in H2. done.
Qed.

(** [ORDER BY key]: rows with the same key may come in any order; the model keeps
    the one they are produced in. *)
Section order_by.
Context {A K : Type} `{!EqDecision K} (key : A -> K) (leb : K -> K -> bool).

Definition by_key (a b : A) : bool := leb (key a) (key b).
Definition order_by (l : list A) : list A := isort by_key l.

Context (total : forall a b, leb a b = true \/ leb b a = true).
Context (trans : forall a b c, leb a b = true -> leb b c = true -> leb a c = true).
Context (antisym : forall a b, leb a b = true -> leb b a = true -> a = b).

Definition with_key (k : K) (a : A) : bool := bool_decide (key a = k).

Lemma with_key_self a : with_key (key a) a = true.
Proof. by apply bool_decide_true. Qed.

Lemma insert_class k x l :
  List.filter (with_key k) (insert_sorted by_key x l) = List.filter (with_key k) (x :: l).
Proof.
  induction l as [|y l IH]; [done|]. cbn [insert_sorted]. unfold by_key at 1.
  destruct (leb (key x) (key y)) eqn:E; [done|].
  cbn [List.filter] in *. rewrite IH. unfold with_key in *.
  case_bool_decide as H1; case_bool_decide as H2; try done.
  subst k. rewrite H2 in E. by destruct (total (key x) (key x)); congruence.
Qed.

Lemma order_by_class k l :
  List.filter (with_key k) (order_by l) = List.filter (with_key k) l.
Proof.
  induction l as [|x l IH]; [done|]. unfold order_by in *. cbn [isort].
  rewrite insert_class. cbn [List.filter]. by rewrite IH.
Qed.

Lemma order_by_perm l : order_by l ≡ₚ l.
Proof. apply isort_perm. Qed.

Lemma order_by_sorted l : StronglySorted (fun a b => by_key a b = true) (order_by l).
Proof. apply isort_sorted; unfold by_key; eauto. Qed.

Lemma sorted_class_eq l1 l2 :
  StronglySorted (fun a b => by_key a b = true) l1 ->
  StronglySorted (fun a b => by_key a b = true) l2 ->
  (forall k, List.filter (with_key k) l1 = List.filter (with_key k) l2) -> l1 = l2.
Proof.
  intros H1. revert l2; induction H1 as [|x l1 Hs1 IH Ha1]; intros l2 H2 Hf.
  { destruct l2 as [|y l2]; [done|]. specialize (Hf (key y)). cbn in Hf.
    rewrite with_key_self in Hf. discriminate. }
  assert (Hin : forall a l, In a l -> In a (List.filter (with_key (key a)) l)).
  { intros a l Ha. apply filter_In. split; [done|apply with_key_self]. }
  destruct H2 as [|y l2 Hs2 Ha2].
  { specialize (Hf (key x)). cbn in Hf. rewrite with_key_self in Hf. discriminate. }
  assert (Hle : forall a b l, Forall (fun c => by_key a c = true) l -> In b (a :: l) ->
            leb (key a) (key b) = true).
  { intros a b l Hall [->|Hb]; [by destruct (total (key b) (key b))|].
    rewrite Forall_forall in Hall. by apply Hall, list_elem_of_In. }
  assert (Hk : key x = key y).
  { apply antisym.
    - eapply Hle; [exact Ha1|]. eapply (proj1 (filter_In _ _ _)). rewrite Hf. apply Hin. by left.
    - eapply Hle; [exact Ha2|]. eapply (proj1 (filter_In _ _ _)). rewrite <- Hf. apply Hin. by left. }
  assert (x = y) as <-.
  { specialize (Hf (key x)). cbn in Hf. rewrite with_key_self in Hf.
    rewrite Hk, with_key_self in Hf. congruence. }
  f_equal. apply IH; [done|]. intros k. specialize (Hf k). cbn in Hf.
  destruct (with_key k x); congruence.
Qed.

Lemma order_by_ext l1 l2 :
  (forall k, List.filter (with_key k) l1 = List.filter (with_key k) l2) -> order_by l1 = order_by l2.
Proof.
  intros H. apply sorted_class_eq; [apply order_by_sorted..|]. intros k. by rewrite !order_by_class.
Qed.

(** Rows with distinct keys come in one order only. *)
Lemma class_perm k l1 l2 : NoDup (map key l1) -> l1 ≡ₚ l2 ->
  List.filter (with_key k) l1 = List.filter (with_key k) l2.
Proof.
  intros Hnd Hp.
  assert (Hone : forall l : list A, NoDup (map key l) -> (length (List.filter (with_key k) l) <= 1)%nat).
  { clear. induction l as [|a l IH]; intros Hnd; simpl; [lia|]. inversion Hnd; subst.
    unfold with_key at 1. case_bool_decide as Hk; [|by apply IH]. simpl.
    rewrite list_filter_none; [done|]. intros b Hb. apply bool_decide_false. intros Hbk.
    apply H1. rewrite Hk, <- Hbk. by apply list_elem_of_fmap_2. }
  pose proof (list_filter_perm (with_key k) _ _ Hp) as Hpf.
  pose proof (Hone l1 Hnd) as Hlen. destruct (List.filter (with_key k) l1) as [|a [|b l]]; simpl in Hlen.
  - by apply Permutation_nil_l in Hpf.
  - by apply Permutation_singleton_l in Hpf.
  - lia.
Qed.

Lemma order_by_perm_ext l1 l2 : NoDup (map key l1) -> l1 ≡ₚ l2 -> order_by l1 = order_by l2.
Proof. intros Hnd Hp. apply order_by_ext. intros k. by apply class_perm. Qed.

(** The same for the arms of a [UNION ALL], each with distinct keys. *)
Lemma order_by_union a1 a2 b1 b2 c :
  NoDup (map key a1) -> a1 ≡ₚ a2 -> NoDup (map key b1) -> b1 ≡ₚ b2 ->
  order_by (a1 ++ b1 ++ c) = order_by (a2 ++ b2 ++ c).
Proof.
  intros Ha Hpa Hb Hpb. apply order_by_ext. intros k. rewrite !List.filter_app.
  by rewrite (class_perm k a1 a2), (class_perm k b1 b2).
Qed.

(** A condition commutes with the order. *)
Lemma order_by_filter (f : A -> bool) l : order_by (List.filter f l) = List.filter f (order_by l).
Proof.
  apply sorted_class_eq; [apply order_by_sorted|apply list_filter_sorted, order_by_sorted|].
  intros k. by rewrite order_by_class, !(list_filter_comm (with_key k)), order_by_class.
Qed.

Lemma order_by_id l : StronglySorted (fun a b => by_key a b = true) l -> order_by l = l.
Proof. apply isort_id. Qed.
End order_by.

Lemma strict_NoDup {A} (key : A -> Z) l :
  StronglySorted (fun a b => key a < key b) l -> NoDup (map key l).
Proof.
  induction 1 as [|z l Hs IH Hall]; cbn [map]; [constructor|]. constructor; [|done].
  rewrite list_elem_of_fmap. intros (w & Ew & Hw). rewrite Forall_forall in Hall.
  specialize (Hall w Hw). lia.
Qed.

Lemma SSorted_suffix {A} (R : A -> A -> Prop) l1 l2 : StronglySorted R (l1 ++ l2) -> StronglySorted R l2.
Proof. induction l1 as [|x l1 IH]; [done|]. intros Hs. inversion Hs; subst. by apply IH. Qed.

(** ** Timestamps: the lake stores microseconds *)

Definition UnixMicro (t : Z) : Z := t / Microsecond.
Definition make_timestamp (us : Z) : Z := us * Microsecond.
Definition whole_micro (t : Z) : Prop := t mod Microsecond = 0.

Lemma micro_floor t : make_timestamp (UnixMicro t) = time_truncate t Microsecond.
Proof.
  unfold make_timestamp, UnixMicro, time_truncate, Microsecond, Nanosecond, zero_time. simpl.
  Z.to_euclidean_division_equations. lia.
Qed.

Lemma micro_floor_id t : whole_micro t -> make_timestamp (UnixMicro t) = t.
Proof.
  unfold whole_micro, make_timestamp, UnixMicro, Microsecond, Nanosecond. intros.
  Z.to_euclidean_division_equations. lia.
Qed.

Lemma micro_floor_bounds t :
  make_timestamp (UnixMicro t) <= t /\ t < make_timestamp (UnixMicro t) + Microsecond.
Proof.
  unfold make_timestamp, UnixMicro, Microsecond, Nanosecond.
  Z.to_euclidean_division_equations. lia.
Qed.

Lemma micro_lt x t : whole_micro x -> x < make_timestamp (UnixMicro t) <-> x < t - (t mod Microsecond).
Proof.
  unfold whole_micro, make_timestamp, UnixMicro, Microsecond, Nanosecond. intros.
  Z.to_euclidean_division_equations. lia.
Qed.

(** ** [QUALIFY ROW_NUMBER() OVER (PARTITION BY ident ORDER BY rank) = 1]

    One row of each group, of the least rank; among several rows of that rank the
    statement may keep any, and the model keeps the first. *)

Section qualify.
Context {A K : Type} `{!EqDecision K} (ident : A -> K) (lt : A -> A -> bool).

Definition same_ident (a b : A) : bool := bool_decide (ident a = ident b).

Fixpoint qualify (l : list A) : list A :=
  match l with
  | [] => []
  | r :: rest =>
      let d := qualify rest in
      if existsb (fun q => same_ident r q && lt q r) d then d
      else r :: List.filter (fun q => negb (same_ident r q)) d
  end.

Lemma same_ident_true a b : same_ident a b = true <-> ident a = ident b.
Proof. apply bool_decide_eq_true. Qed.

Lemma qualify_incl l x : x ∈ qualify l -> x ∈ l.
Proof.
  revert x; induction l as [|r l IH]; intros x; [done|]. cbn [qualify].
  destruct (existsb _ _); intros Hx; [right; by apply IH|].
  apply elem_of_cons in Hx as [->|Hx]; [left|right]. apply IH.
  by apply elem_of_list_filter in Hx as [Hx _].
Qed.

Lemma qualify_NoDup l : NoDup (map ident (qualify l)).
Proof.
  induction l as [|a l IH]; [constructor|]. cbn [qualify].
  destruct (existsb _ _); [done|]. cbn [map]. constructor.
  - intros (q & Hi & Hq)%list_elem_of_fmap. apply elem_of_list_filter in Hq as [_ Hq].
    rewrite (proj2 (same_ident_true a q) Hi) in Hq. discriminate.
  - induction (qualify l) as [|q d IHd]; [constructor|]. cbn [List.filter map] in *.
    inversion IH; subst. destruct (negb _); [|by apply IHd]. cbn [map]. constructor; [|by apply IHd].
    intros (p & Hp & Hin)%list_elem_of_fmap. apply H1. rewrite Hp. apply list_elem_of_fmap_2.
    by apply elem_of_list_filter in Hin as [Hin _].
Qed.

Lemma qualify_inj l x y : x ∈ qualify l -> y ∈ qualify l -> ident x = ident y -> x = y.
Proof.
  intros Hx Hy Hi. pose proof (qualify_NoDup l) as Hnd.
  apply list_elem_of_lookup in Hx as [i Hx]. apply list_elem_of_lookup in Hy as [j Hy].
  assert (i = j) as ->; [|congruence].
  eapply NoDup_lookup; [exact Hnd|..]; rewrite list_lookup_fmap.
  - by rewrite Hx.
  - rewrite Hy. simpl. by rewrite Hi.
Qed.

(** A filter on the columns of the partition commutes with the deduplication. *)
Lemma qualify_filter (f : A -> bool) l :
  (forall a b, a ∈ l -> b ∈ l -> ident a = ident b -> f a = f b) ->
  qualify (List.filter f l) = List.filter f (qualify l).
Proof.
  induction l as [|a l IH]; intros Hf; [done|].
  assert (IH' : qualify (List.filter f l) = List.filter f (qualify l)).
  { apply IH. intros x y Hx Hy. apply Hf; by right. }
  clear IH. cbn [List.filter qualify]. set (d := qualify l) in *.
  assert (Hd : forall q, q ∈ d -> same_ident a q = true -> f q = f a).
  { intros q Hq Hs. symmetry. apply Hf; [left|right; by apply qualify_incl|by apply same_ident_true]. }
  assert (Hcomm : forall g, List.filter g (List.filter f d) = List.filter f (List.filter g d)).
  { intros g. rewrite !list_filter_andb. apply List.filter_ext. intros x. apply andb_comm. }
  destruct (f a) eqn:Ea.
  - cbn [qualify]. rewrite IH'.
    replace (existsb _ (List.filter f d)) with (existsb (fun q => same_ident a q && lt q a) d).
    { destruct (existsb _ d); [done|]. cbn [List.filter]. rewrite Ea. f_equal. apply Hcomm. }
    clear -Hd. induction d as [|q d IH]; [done|]. cbn [existsb List.filter].
    rewrite IH by (intros x Hx; apply Hd; by right).
    destruct (f q) eqn:Eq; cbn [existsb]; [done|].
    destruct (same_ident a q) eqn:Es; [|done]. rewrite Hd in Eq by (by left || done). congruence.
  - destruct (existsb _ d); [done|]. cbn [List.filter]. rewrite Ea, <- Hcomm, IH'.
    symmetry. apply list_filter_all. intros q [Hq Hfq]%elem_of_list_filter.
    destruct (same_ident a q) eqn:Es; [|done]. rewrite Hd in Hfq by done. congruence.
Qed.

Context (irrefl : forall a, lt a a = false).
Context (asym : forall a b, lt a b = true -> lt b a = false).
Context (negtrans : forall a b c, lt a b = false -> lt b c = false -> lt a c = false).

(** Every row has a winner, of the same group and of no larger rank. *)
Lemma qualify_winner l r : r ∈ l ->
  exists q, q ∈ qualify l /\ ident q = ident r /\ lt r q = false.
Proof using irrefl asym negtrans.
  revert r; induction l as [|a l IH]; intros r Hr; [by apply elem_of_nil in Hr|].
  cbn [qualify]. set (d := qualify l) in *.
  destruct (existsb _ d) eqn:E.
  - apply existsb_exists in E as (q & Hq & [Hs Hl]%andb_true_iff). apply same_ident_true in Hs.
    apply list_elem_of_In in Hq.
    apply elem_of_cons in Hr as [->|Hr]; [|by apply IH].
    exists q. split; [done|]. split; [done|by apply asym].
  - assert (Hmin : forall q, q ∈ d -> ident a = ident q -> lt q a = false).
    { intros q Hq Hs. apply not_true_iff_false. intros Hl.
      rewrite <- not_true_iff_false in E. apply E, existsb_exists. exists q.
      split; [by apply list_elem_of_In|]. by rewrite (proj2 (same_ident_true a q) Hs), Hl. }
    apply elem_of_cons in Hr as [->|Hr].
    { exists a. split; [left|]. split; [done|apply irrefl]. }
    destruct (IH r Hr) as (q & Hq & Hi & Hl). destruct (same_ident a q) eqn:Es.
    + apply same_ident_true in Es. exists a. split; [left|]. split; [congruence|].
      eapply negtrans; [exact Hl|by apply Hmin].
    + exists q. split; [|done]. right. apply elem_of_list_filter. by rewrite Es.
Qed.

Lemma qualify_minimal l x r : x ∈ qualify l -> r ∈ l -> ident x = ident r -> lt r x = false.
Proof using irrefl asym negtrans.
  intros Hx Hr Hi. destruct (qualify_winner l r Hr) as (q & Hq & Hqi & Hl).
  by rewrite (qualify_inj l x q) by (done || congruence).
Qed.
End qualify.

Lemma sltb_negtrans a b c : String.ltb a b = false -> String.ltb b c = false -> String.ltb a c = false.
Proof.
  intros H1 H2. apply not_true_iff_false. intros H.
  destruct (sltb_total b a) as [Hb|[->|Hb]]; [|congruence|congruence].
  by rewrite (sltb_trans _ _ _ Hb H) in H2.
Qed.

(** ** The read deduplication (lake_latest.go, key 1) *)

(** One reading: [PARTITION BY subject, name, timestamp]. *)
Definition ident (r : SignalRow) : string * string * Z := (sr_Subject r, sr_Name r, sr_Timestamp r).

(** [ORDER BY cloud_event_id]. *)
Definition smaller_id (a b : SignalRow) : bool := String.ltb (sr_CloudEventID a) (sr_CloudEventID b).

(** [QUALIFY ROW_NUMBER() OVER (... ORDER BY cloud_event_id) = 1]: the row of the
    smallest cloud event id of each reading. *)
Definition signalDedupQualify : list SignalRow -> list SignalRow := qualify ident smaller_id.

Lemma dedup_incl l x : x ∈ signalDedupQualify l -> x ∈ l.
Proof. apply qualify_incl. Qed.

Lemma smaller_id_irrefl a : smaller_id a a = false.
Proof. apply sltb_irrefl. Qed.

Lemma smaller_id_asym a b : smaller_id a b = true -> smaller_id b a = false.
Proof. apply sltb_asym. Qed.

Lemma smaller_id_negtrans a b c : smaller_id a b = false -> smaller_id b c = false -> smaller_id a c = false.
Proof. apply sltb_negtrans. Qed.

Lemma dedup_winner l r : r ∈ l ->
  exists q, q ∈ signalDedupQualify l /\ ident q = ident r /\
            String.ltb (sr_CloudEventID r) (sr_CloudEventID q) = false.
Proof. exact (qualify_winner ident _ smaller_id_irrefl smaller_id_asym smaller_id_negtrans l r). Qed.

Lemma dedup_NoDup l : NoDup (map ident (signalDedupQualify l)).
Proof. apply qualify_NoDup. Qed.

Lemma dedup_inj l x y :
  x ∈ signalDedupQualify l -> y ∈ signalDedupQualify l -> ident x = ident y -> x = y.
Proof. apply qualify_inj. Qed.

Lemma dedup_minimal l x r :
  x ∈ signalDedupQualify l -> r ∈ l -> ident x = ident r ->
  String.ltb (sr_CloudEventID r) (sr_CloudEventID x) = false.
Proof. exact (qualify_minimal ident _ smaller_id_irrefl smaller_id_asym smaller_id_negtrans l x r). Qed.

(** A cloud event id carries one row per reading. *)
Definition one_row_per_id (l : list SignalRow) : Prop :=
  forall a b, a ∈ l -> b ∈ l -> ident a = ident b -> sr_CloudEventID a = sr_CloudEventID b -> a = b.

(** A table as the materializer writes it: rows in their subject's bucket, and
    unambiguous ids. *)
Record lake_ok (l : list SignalRow) : Prop := {
  lo_bucket : forall r, r ∈ l -> sr_SubjectBucket r = HashBucket (sr_Subject r);
  lo_id : one_row_per_id l;
}.

(** What the deduplication keeps, when cloud event ids are unambiguous. *)
Lemma dedup_iff l x : one_row_per_id l ->
  x ∈ signalDedupQualify l <->
  x ∈ l /\ forall r, r ∈ l -> ident r = ident x ->
                     String.ltb (sr_CloudEventID r) (sr_CloudEventID x) = false.
Proof.
  intros Hone. split.
  - intros Hx. split; [by apply dedup_incl|]. intros r Hr Hi. by eapply dedup_minimal.
  - intros [Hx Hmin]. destruct (dedup_winner l x Hx) as (q & Hq & Hi & Hl).
    assert (q = x) as <-; [|done]. apply Hone; [by apply dedup_incl|done|done|].
    specialize (Hmin q (dedup_incl _ _ Hq) Hi).
    destruct (sltb_total (sr_CloudEventID q) (sr_CloudEventID x)) as [?|[?|?]]; congruence.
Qed.

Lemma dedup_NoDup' l : NoDup (signalDedupQualify l).
Proof. eapply NoDup_fmap_1, dedup_NoDup. Qed.

(** The result depends on the set of rows alone. *)
Lemma dedup_set l1 l2 : one_row_per_id l2 -> (forall x, x ∈ l1 <-> x ∈ l2) ->
  signalDedupQualify l1 ≡ₚ signalDedupQualify l2.
Proof.
  intros Hone Hset. apply NoDup_Permutation; [apply dedup_NoDup'..|]. intros x.
  assert (Hone1 : one_row_per_id l1) by (intros a b Ha Hb; apply Hone; by apply Hset).
  rewrite !dedup_iff by done. rewrite Hset.
  split; intros [Hx Hmin]; (split; [done|]); intros r Hr; apply Hmin; by apply Hset.
Qed.

(** A filter on the columns of the partition commutes with the deduplication. *)
Lemma dedup_filter (f : SignalRow -> bool) l :
  (forall a b, a ∈ l -> b ∈ l -> ident a = ident b -> f a = f b) ->
  signalDedupQualify (List.filter f l) = List.filter f (signalDedupQualify l).
Proof. apply qualify_filter. Qed.

(** ** Aggregates *)

Section aggregates.
Context {A : Type} (ts : A -> Z).

(** The row [arg_max] takes its value from: the greatest timestamp. *)
Fixpoint top (l : list A) : option A :=
  match l with
  | [] => None
  | a :: rest => match top rest with Some b => if ts a <? ts b then Some b else Some a | None => Some a end
  end.

Definition sql_arg_max {B} (f : A -> B) (l : list A) : option B := f <$> top l.
Definition sql_max (l : list A) : option Z :=
  fold_right (fun a m => match m with Some x => Some (Z.max (ts a) x) | None => Some (ts a) end) None l.
Definition sql_min (l : list A) : option Z :=
  fold_right (fun a m => match m with Some x => Some (Z.min (ts a) x) | None => Some (ts a) end) None l.

Lemma top_spec l a : top l = Some a -> a ∈ l /\ forall b, b ∈ l -> ts b <= ts a.
Proof.
  revert a; induction l as [|x l IH]; intros a; [done|]. cbn [top].
  destruct (top l) as [b|] eqn:E.
  - destruct (IH b eq_refl) as [Hb Hmax]. destruct (Z.ltb_spec (ts x) (ts b)); intros [= <-].
    + split; [by right|]. intros c [->|Hc]%elem_of_cons; [lia|by apply Hmax].
    + split; [left|]. intros c [->|Hc]%elem_of_cons; [lia|]. specialize (Hmax c Hc). lia.
  - intros [= <-]. split; [left|]. intros c [->|Hc]%elem_of_cons; [lia|].
    destruct l as [|y l]; [by apply elem_of_nil in Hc|]. cbn [top] in E.
    destruct (top l); [destruct (_ <? _)|]; discriminate.
Qed.

Lemma top_none l : top l = None <-> l = [].
Proof.
  destruct l as [|a l]; [done|]. cbn [top]. split; [|done].
  destruct (top l); [destruct (_ <? _)|]; discriminate.
Qed.

Lemma sql_max_top l : sql_max l = ts <$> top l.
Proof.
  induction l as [|a l IH]; [done|]. cbn [sql_max fold_right top]. fold (sql_max l). rewrite IH.
  destruct (top l) as [b|]; [|done]. simpl. destruct (Z.ltb_spec (ts a) (ts b)); simpl; f_equal; lia.
Qed.

Lemma sql_max_spec l m : sql_max l = Some m -> (exists a, a ∈ l /\ ts a = m) /\ forall b, b ∈ l -> ts b <= m.
Proof.
  rewrite sql_max_top. intros (a & Ha & ->)%fmap_Some. apply top_spec in Ha as [Ha H].
  split; [by exists a|done].
Qed.

Lemma sql_min_spec l m : sql_min l = Some m -> (exists a, a ∈ l /\ ts a = m) /\ forall b, b ∈ l -> m <= ts b.
Proof.
  revert m; induction l as [|x l IH]; intros m; [done|]. cbn [sql_min fold_right]. fold (sql_min l).
  destruct (sql_min l) as [y|] eqn:E.
  - intros [= <-]. destruct (IH y eq_refl) as [(a & Ha & <-) Hmin]. split.
    + destruct (Z.min_spec (ts x) (ts a)) as [[_ ->]|[_ ->]]; [exists x|exists a]; split; try done; [left|by right].
    + intros b [->|Hb]%elem_of_cons; [lia|]. specialize (Hmin b Hb). lia.
  - intros [= <-]. split; [exists x; split; [left|done]|]. intros b [->|Hb]%elem_of_cons; [lia|].
    destruct l as [|z l]; [by apply elem_of_nil in Hb|]. cbn in E. destruct (fold_right _ _ _); discriminate.
Qed.

Lemma sql_max_none l : sql_max l = None <-> l = [].
Proof. rewrite sql_max_top, fmap_None. apply top_none. Qed.

Lemma sql_min_none l : sql_min l = None <-> l = [].
Proof. destruct l; [done|]. cbn. split; [|done]. destruct (fold_right _ _ _); discriminate. Qed.

Lemma sql_max_unique l m :
  (exists a, a ∈ l /\ ts a = m) -> (forall b, b ∈ l -> ts b <= m) -> sql_max l = Some m.
Proof.
  intros (a & Ha & <-) Hmax. destruct (sql_max l) as [m'|] eqn:E.
  - apply sql_max_spec in E as [(b & Hb & <-) Hm]. f_equal. specialize (Hm a Ha). specialize (Hmax b Hb). lia.
  - apply sql_max_none in E as ->. by apply elem_of_nil in Ha.
Qed.

Lemma sql_min_unique l m :
  (exists a, a ∈ l /\ ts a = m) -> (forall b, b ∈ l -> m <= ts b) -> sql_min l = Some m.
Proof.
  intros (a & Ha & <-) Hmin. destruct (sql_min l) as [m'|] eqn:E.
  - apply sql_min_spec in E as [(b & Hb & <-) Hm]. f_equal. specialize (Hm a Ha). specialize (Hmin b Hb). lia.
  - apply sql_min_none in E as ->. by apply elem_of_nil in Ha.
Qed.

Lemma top_unique l a :
  (forall x y, x ∈ l -> y ∈ l -> ts x = ts y -> x = y) ->
  a ∈ l -> (forall b, b ∈ l -> ts b <= ts a) -> top l = Some a.
Proof.
  intros Hinj Ha Hmax. destruct (top l) as [b|] eqn:E.
  - apply top_spec in E as [Hb Hm]. f_equal. apply Hinj; [done..|].
    specialize (Hm a Ha). specialize (Hmax b Hb). lia.
  - apply top_none in E as ->. by apply elem_of_nil in Ha.
Qed.

(** With distinct timestamps an aggregate depends on the set of rows. *)
Lemma top_set l1 l2 :
  (forall x y, x ∈ l2 -> y ∈ l2 -> ts x = ts y -> x = y) ->
  (forall x, x ∈ l1 <-> x ∈ l2) -> top l1 = top l2.
Proof.
  intros Hinj Hset. destruct (top l1) as [a|] eqn:E.
  - apply top_spec in E as [Ha Hm]. symmetry. apply top_unique; [done|by apply Hset|].
    intros b Hb. apply Hm, Hset, Hb.
  - apply top_none in E as ->. symmetry. apply top_none. destruct l2 as [|b l2]; [done|].
    exfalso. apply (elem_of_nil b), Hset. left.
Qed.

(** [max] and [min] depend on the set of times alone. *)
Definition same_times (l1 l2 : list A) : Prop :=
  forall t, (exists a, a ∈ l1 /\ ts a = t) <-> (exists a, a ∈ l2 /\ ts a = t).

Lemma sql_max_times l1 l2 : same_times l1 l2 -> sql_max l1 = sql_max l2.
Proof.
  intros Hset. destruct (sql_max l1) as [m|] eqn:E.
  - apply sql_max_spec in E as [Ha Hm]. symmetry. apply sql_max_unique; [by apply Hset|].
    intros b Hb. destruct (proj2 (Hset (ts b))) as (a & Ha' & <-); [by exists b|by apply Hm].
  - apply sql_max_none in E as ->. symmetry. apply sql_max_none. destruct l2 as [|b l2]; [done|].
    destruct (proj2 (Hset (ts b))) as (a & Ha & _); [exists b; split; [left|done]|by apply elem_of_nil in Ha].
Qed.

Lemma sql_min_times l1 l2 : same_times l1 l2 -> sql_min l1 = sql_min l2.
Proof.
  intros Hset. destruct (sql_min l1) as [m|] eqn:E.
  - apply sql_min_spec in E as [Ha Hm]. symmetry. apply sql_min_unique; [by apply Hset|].
    intros b Hb. destruct (proj2 (Hset (ts b))) as (a & Ha' & <-); [by exists b|by apply Hm].
  - apply sql_min_none in E as ->. symmetry. apply sql_min_none. destruct l2 as [|b l2]; [done|].
    destruct (proj2 (Hset (ts b))) as (a & Ha & _); [exists b; split; [left|done]|by apply elem_of_nil in Ha].
Qed.

(** Aggregates of a table cut in two. *)
Lemma sql_max_split (f : A -> bool) l :
  sql_max l = match sql_max (List.filter (fun a => negb (f a)) l), sql_max (List.filter f l) with
              | Some x, Some y => Some (Z.max x y) | Some x, None => Some x | None, o => o end.
Proof.
  induction l as [|a l IH]; [done|]. cbn [List.filter]. change (sql_max (a :: l)) with
    (match sql_max l with Some x => Some (Z.max (ts a) x) | None => Some (ts a) end). rewrite IH.
  destruct (f a); cbn [negb];
  [change (sql_max (a :: List.filter f l)) with (match sql_max (List.filter f l) with
     Some x => Some (Z.max (ts a) x) | None => Some (ts a) end)
  |change (sql_max (a :: List.filter (fun a => negb (f a)) l)) with
     (match sql_max (List.filter (fun a => negb (f a)) l) with
     Some x => Some (Z.max (ts a) x) | None => Some (ts a) end)];
  destruct (sql_max (List.filter f l)), (sql_max (List.filter (fun a => negb (f a)) l)); f_equal; lia.
Qed.

Lemma sql_min_split (f : A -> bool) l :
  sql_min l = match sql_min (List.filter (fun a => negb (f a)) l), sql_min (List.filter f l) with
              | Some x, Some y => Some (Z.min x y) | Some x, None => Some x | None, o => o end.
Proof.
  induction l as [|a l IH]; [done|]. cbn [List.filter]. change (sql_min (a :: l)) with
    (match sql_min l with Some x => Some (Z.min (ts a) x) | None => Some (ts a) end). rewrite IH.
  destruct (f a); cbn [negb];
  [change (sql_min (a :: List.filter f l)) with (match sql_min (List.filter f l) with
     Some x => Some (Z.min (ts a) x) | None => Some (ts a) end)
  |change (sql_min (a :: List.filter (fun a => negb (f a)) l)) with
     (match sql_min (List.filter (fun a => negb (f a)) l) with
     Some x => Some (Z.min (ts a) x) | None => Some (ts a) end)];
  destruct (sql_min (List.filter f l)), (sql_min (List.filter (fun a => negb (f a)) l)); f_equal; lia.
Qed.
End aggregates.

(** [SELECT DISTINCT name ... ORDER BY name], and the groups of [GROUP BY name]. *)
Definition distinct_names (l : list SignalRow) : list string :=
  order_by (fun n => n) sleb (remove_dups (map sr_Name l)).

Definition named_rows (n : string) (l : list SignalRow) : list SignalRow :=
  List.filter (fun r => String.eqb (sr_Name r) n) l.

Lemma elem_of_distinct_names n l : n ∈ distinct_names l <-> exists r, r ∈ l /\ sr_Name r = n.
Proof.
  unfold distinct_names. rewrite order_by_perm, elem_of_remove_dups, list_elem_of_fmap.
  split; intros (r & H1 & H2); exists r; done.
Qed.

Lemma distinct_names_NoDup l : NoDup (distinct_names l).
Proof. unfold distinct_names. rewrite order_by_perm. apply NoDup_remove_dups. Qed.

Lemma elem_of_named_rows n l r : r ∈ named_rows n l <-> r ∈ l /\ sr_Name r = n.
Proof. unfold named_rows. rewrite !list_elem_of_In, filter_In, String.eqb_eq. done. Qed.

Lemma distinct_names_sorted l : StronglySorted (fun a b => sleb a b = true) (distinct_names l).
Proof. apply (order_by_sorted (fun n : string => n) sleb); [exact sleb_total|exact sleb_trans]. Qed.

(** Two lists with the same members have the same sorted names. *)
Lemma distinct_names_set l1 l2 :
  (forall n, (exists r, r ∈ l1 /\ sr_Name r = n) <-> (exists r, r ∈ l2 /\ sr_Name r = n)) ->
  distinct_names l1 = distinct_names l2.
Proof.
  intros H. unfold distinct_names. apply order_by_perm_ext.
  - exact sleb_total.
  - exact sleb_trans.
  - exact sleb_antisym.
  - rewrite map_id. apply NoDup_remove_dups.
  - apply NoDup_Permutation; [apply NoDup_remove_dups..|]. intros n.
    rewrite !elem_of_remove_dups, !list_elem_of_fmap. destruct (H n) as [H1 H2].
    split; intros (r & Hn & Hr); [destruct H1 as (q & ? & ?)|destruct H2 as (q & ? & ?)]; eauto.
Qed.
