(* ===== verification/Backfill.v ===== *)
(** * internal/materializer/ducklake.go: the backfill of a time range

    [BackfillTimeRange] re-decodes the raw rows of a time range from the base table,
    out of band: it does not look at the change feed or its cursor, and writes
    through an anti-join that probes the true range of the batch. Proved here: a
    backfill that returns has every raw row of the range decoded, the ones the decode
    loop skipped included, whatever fails and whatever others add to the lake meanwhile;
    and writing a batch of whole-microsecond timestamps twice writes it once. *)

From S2P Require Import Prelude Model Coordinates Base64 Blobcrypt Decode Blobs Ingest IngestInv IngestLogic IngestSafe Sql.

Section backfill.
Context {A : AEAD} (blobs : option (string -> result s3_error s3_object)) (blobCipher : option Key).
(** [eventDecoder.decodeEvents] *)
Context (dec : Z -> list RawEvent -> decodedBatch).
Context (now : Z).

(** [WHERE "time" >= from AND "time" < to], over the base table: the rows of the
    feed, expired from it or not. *)
Definition in_time (from to : Z) (r : rawRow) : bool :=
  (sqlTimestampLit from <=? rk_ts (row_key r)) && (rk_ts (row_key r) <? sqlTimestampLit to).

Definition readRawByTime (from to : Z) : M (list RawEvent) :=
  do! x <- call;
  match x with
  | Fine =>
      do! l <- get_lake;
      if negb (lk_raw_exists l) then fail_with ErrTransient
      else
        match resolveBlobs blobs blobCipher
                (map (fun r => (rw_ev r, rw_blob r)) (List.filter (in_time from to) (lk_feed l))) with
        | Err _ => fail_with ErrTransient
        | Ok evs => ret evs
        end
  | _ => fail_with ErrTransient
  end.

(** The two inserts of [backfillWrite]: the range of the batch, not clamped. *)
Definition backfill_insert (d : decodedBatch) (l : lake) : lake :=
  let s := match b_signals d with
           | [] => lk_signals l
           | rows => antiJoinInsert same_signal sr_Timestamp (lk_signals l) rows
                       (minMaxTime (map sr_Timestamp rows)) false
           end in
  let e := match b_events d with
           | [] => lk_events l
           | rows => antiJoinInsert same_event er_Timestamp (lk_events l) rows
                       (minMaxTime (map er_Timestamp rows)) false
           end in
  set_tables s e l.

Definition mark_backfilled (d : decodedBatch) (m : mat) : mat :=
  mkMat (lastProgressReport m) (lastReportedSnapshot m)
    (list_to_set (map sr_Subject (b_signals d)) ∪ dirtySubjects m) (rollupFullRebuild m)
    (list_to_set (map er_Subject (b_events d)) ∪ dirtyEventSubjects m) (eventRollupFullRebuild m)
    (published m) (latestPub m).

Definition backfillWrite (d : decodedBatch) : M unit :=
  settling d (
    do! x <- call;
    match x with
    | Fine => do! _ <- mod_lake (backfill_insert d); mod_mat (mark_backfilled d)
    | LostAck => do! _ <- mod_lake (backfill_insert d); fail_with ErrTransient
    | _ => fail_with ErrTransient
    end).

(** The number of raw events decoded. An empty or inverted range is an error. *)
Definition BackfillTimeRange (from to : Z) : M Z :=
  if negb (before from to) then fail_with ErrTransient
  else
    do! events <- readRawByTime from to;
    match events with
    | [] => ret 0
    | _ => do! _ <- backfillWrite (dec now events); ret (Z.of_nat (length events))
    end.
End backfill.

(** ** What a write adds *)

Lemma backfill_signals d l :
  lk_signals l ⊆ lk_signals (backfill_insert d l) /\
  forall s, has same_signal (lk_signals l ++ b_signals d) s -> has same_signal (lk_signals (backfill_insert d l)) s.
Proof.
  unfold backfill_insert. cbn [lk_signals set_tables]. destruct (b_signals d) as [|x rows].
  - rewrite app_nil_r. set_solver.
  - split; [apply antiJoinInsert_keeps|intros s; apply antiJoinInsert_has].
Qed.

Lemma backfill_events d l :
  lk_events l ⊆ lk_events (backfill_insert d l) /\
  forall s, has same_event (lk_events l ++ b_events d) s -> has same_event (lk_events (backfill_insert d l)) s.
Proof.
  unfold backfill_insert. cbn [lk_events set_tables]. destruct (b_events d) as [|x rows].
  - rewrite app_nil_r. set_solver.
  - split; [apply antiJoinInsert_keeps|intros s; apply antiJoinInsert_has].
Qed.

Lemma backfill_trans d l : trans l (backfill_insert d l).
Proof.
  split; [exists []; by rewrite app_nil_r|done|done|apply (backfill_signals d)|apply (backfill_events d)].
Qed.

(** ** Every row of the range *)

Section safe.
Context {A : AEAD} (blobs : option (string -> result s3_error s3_object)) (blobCipher : option Key).
Context (dec : Z -> list RawEvent -> decodedBatch) (now : Z).
Context {K : Type} (HKey : RawEvent -> K) (decodable : RawEvent -> bool)
        (rows_of : Z -> RawEvent -> list SignalRow * list EventRow).
Context {laws : DecoderLaws HKey decodable rows_of dec}.
Context (from to : Z) (feed : list rawRow).

Local Notation good := (good blobs blobCipher HKey decodable rows_of).
Local Notation accounted := (accounted blobs blobCipher HKey decodable rows_of).
Local Notation spec := (spec good).

Definition still_there (l : lake) : Prop := feed ⊆ lk_feed l.

Lemma still_there_stable : stable still_there.
Proof. intros l l' T H r Hr. eapply trans_feed_in; [exact T|by apply H]. Qed.

(** The events read stand for the rows of the range. *)
Definition have_read (evs : list RawEvent) (l : lake) : Prop :=
  (forall r, r ∈ feed -> in_time from to r = true ->
     ~ transient blobs blobCipher (payload r) /\ forall ev, ev ∈ resolved_row blobs blobCipher (payload r) -> ev ∈ evs) /\
  (forall ev, ev ∈ evs -> exists r, r ∈ lk_feed l /\ ev ∈ resolved_row blobs blobCipher (payload r)).

Lemma have_read_stable evs : stable (have_read evs).
Proof.
  intros l l' T [H1 H2]. split; [done|]. intros ev Hev. destruct (H2 ev Hev) as (r & Hr & E).
  exists r. split; [by eapply trans_feed_in|done].
Qed.

Definition repaired (l : lake) : Prop :=
  forall r, r ∈ feed -> in_time from to r = true -> accounted (lk_signals l) (lk_events l) l r.

Lemma repaired_write evs l : have_read evs l -> repaired (backfill_insert (dec now evs) l).
Proof.
  intros [H1 H2] r Hr Ht. destruct (H1 r Hr Ht) as [Hn Hev]. split; [done|]. intros ev He Hd.
  destruct (dec_covers now evs ev (Hev _ He) Hd) as (j & Hj & HK & Hs & Hv).
  destruct (H2 j Hj) as (r' & Hr' & Hj'). exists r', j, now. split; [done|]. split; [done|]. split; [done|]. split.
  - intros s Hin. apply (backfill_signals (dec now evs) l). exists s. split; [|apply same_refl]. set_solver.
  - intros e Hin. apply (backfill_events (dec now evs) l). exists e. split; [|apply same_refl]. set_solver.
Qed.

Lemma good_backfill d l : good l -> good (backfill_insert d l).
Proof. intros H. apply (good_keep _ _ _ _ _ l); [apply backfill_trans|done|done|done]. Qed.

Lemma spec_readRawByTime :
  spec still_there (readRawByTime blobs blobCipher from to)
    (fun r l => match r with Ok evs => have_read evs l | Err e => e <> OutOfFuel end).
Proof.
  unfold readRawByTime. apply spec_call_bind; [apply still_there_stable|]. intros []; try by apply spec_fail.
  apply spec_get_lake. intros l. destruct (negb (lk_raw_exists l)); [by apply spec_fail|].
  change (map _ _) with (map payload (List.filter (in_time from to) (lk_feed l))).
  destruct (resolveBlobs blobs blobCipher (map payload (List.filter (in_time from to) (lk_feed l)))) as [evs|e] eqn:E;
    [|by apply spec_fail].
  apply resolveBlobs_ok in E as [-> Hnt]. apply spec_ret. intros l' (-> & Hst). split.
  - intros r Hr Ht.
    assert (Hin : payload r ∈ map payload (List.filter (in_time from to) (lk_feed l))).
    { apply list_elem_of_fmap_2, elem_of_list_filter. split; [by apply Hst|done]. }
    split; [rewrite Forall_forall in Hnt; by apply Hnt|]. intros ev He.
    apply list_elem_of_In, in_flat_map. exists (payload r). split; by apply list_elem_of_In.
  - intros ev (p & Hp & He)%list_elem_of_In%in_flat_map. apply in_map_iff in Hp as (r & <- & Hr).
    exists r. split; [|by apply list_elem_of_In]. by apply list_elem_of_In, elem_of_list_filter in Hr as [Hr _].
Qed.

Lemma spec_backfillWrite evs :
  spec (have_read evs) (backfillWrite (dec now evs))
    (fun r l => match r with Ok _ => repaired l | Err e => e <> OutOfFuel end).
Proof.
  unfold backfillWrite. apply spec_settling. apply spec_call_bind; [apply have_read_stable|].
  intros []; try by apply spec_fail.
  - apply (spec_bind _ _ _ _ (fun _ => repaired)); [|intros _; by apply spec_mod_mat].
    apply spec_mod_lake. intros l H Hg.
    split_and!; [by apply good_backfill|apply backfill_trans|by apply repaired_write].
  - apply (spec_bind _ _ _ _ (fun _ _ => True)); [|intros _; by apply spec_fail].
    apply spec_mod_lake. intros l _ Hg. split_and!; [by apply good_backfill|apply backfill_trans|done].
Qed.

Lemma repaired_nothing l : have_read [] l -> repaired l.
Proof.
  intros [H _] r Hr Ht. destruct (H r Hr Ht) as [Hn Hev]. split; [done|]. intros ev He _.
  exfalso. by apply Hev, elem_of_nil in He.
Qed.

Lemma spec_BackfillTimeRange :
  spec still_there (BackfillTimeRange blobs blobCipher dec now from to)
    (fun r l => match r with Ok _ => repaired l | Err e => e <> OutOfFuel end).
Proof.
  unfold BackfillTimeRange. destruct (negb (before from to)); [by apply spec_fail|].
  eapply spec_bind; [apply spec_readRawByTime|]. intros [|ev evs].
  - apply spec_ret. apply repaired_nothing.
  - apply (spec_bind _ _ _ _ (fun _ => repaired)); [|intros b; by apply spec_ret].
    eapply spec_conseq; [apply spec_backfillWrite|done|]. by intros [].
Qed.
End safe.

(** ** Twice is once *)

Lemma minMax_loop_spec ts : forall i r, (i <> 0)%nat ->
  (minMaxTime_loop i ts r).1 <= r.1 /\ r.2 <= (minMaxTime_loop i ts r).2 /\
  Forall (fun t => (minMaxTime_loop i ts r).1 <= t <= (minMaxTime_loop i ts r).2) ts.
Proof.
  induction ts as [|t ts IH]; intros i r Hi; cbn [minMaxTime_loop]; [split; [lia|split; [lia|constructor]]|].
  destruct (Nat.eqb_spec i 0) as [|_]; [lia|]. cbn [orb].
  specialize (IH (S i) (if before t r.1 then t else r.1, if after t r.2 then t else r.2) ltac:(lia)).
  cbn [fst snd] in IH. destruct IH as (H1 & H2 & H3).
  unfold before, after in *. destruct (Z.ltb_spec t r.1), (Z.ltb_spec r.2 t);
    (split; [lia|]); (split; [lia|]); constructor; done || lia.
Qed.

Lemma minMax_covers ts t : t ∈ ts -> (minMaxTime ts).1 <= t <= (minMaxTime ts).2.
Proof.
  destruct ts as [|x ts]; [by intros ?%elem_of_nil|]. unfold minMaxTime. cbn [minMaxTime_loop Nat.eqb orb].
  destruct (minMax_loop_spec ts 1 (x, x) ltac:(done)) as (H1 & H2 & H3). cbn [fst snd] in *.
  rewrite Forall_forall in H3. by intros [->|Ht]%elem_of_cons; [lia|apply H3].
Qed.

Lemma lit_id t : whole_micro t -> sqlTimestampLit t = t.
Proof. intros H. unfold sqlTimestampLit. rewrite <- micro_floor. by apply micro_floor_id. Qed.

Lemma lit_mono x y : x <= y -> sqlTimestampLit x <= sqlTimestampLit y.
Proof.
  intros H. unfold sqlTimestampLit. rewrite <- !micro_floor. unfold make_timestamp, UnixMicro.
  assert (x / Microsecond <= y / Microsecond) by (by apply Z.div_le_mono). unfold Microsecond, Nanosecond in *. lia.
Qed.

Section again.
Context {A : Type} {same : A -> A -> bool} (time : A -> Z).
Context (Hsame : forall a b, same a b = true -> time a = time b).

(** A row that is at rest under its key is not inserted again. *)
Lemma antiJoin_again table src : Forall (fun r => whole_micro (time r)) src ->
  (forall s, s ∈ src -> has same table s) ->
  antiJoinInsert same time table src (minMaxTime (map time src)) false = table.
Proof using Hsame.
  intros Hw Hin. unfold antiJoinInsert. rewrite list_filter_none; [by rewrite app_nil_r|].
  intros s Hs. apply negb_false_iff, existsb_exists. destruct (Hin s Hs) as (t & Ht & E).
  exists t. split; [by apply list_elem_of_In|]. rewrite E, andb_true_r, (Hsame _ _ E).
  rewrite Forall_forall in Hw. specialize (Hw s Hs).
  destruct (minMax_covers (map time src) (time s)) as [H1 H2]; [by apply list_elem_of_fmap_2|].
  apply lit_mono in H1, H2. rewrite (lit_id _ Hw) in H1, H2. lia.
Qed.
End again.

Definition micro_batch (d : decodedBatch) : Prop :=
  Forall (fun r => whole_micro (sr_Timestamp r)) (b_signals d) /\
  Forall (fun r => whole_micro (er_Timestamp r)) (b_events d).

Lemma backfill_twice d l : micro_batch d -> backfill_insert d (backfill_insert d l) = backfill_insert d l.
Proof.
  intros [Hs He]. set (l1 := backfill_insert d l).
  assert (E1 : lk_signals (backfill_insert d l1) = lk_signals l1).
  { unfold backfill_insert at 1. cbn [lk_signals set_tables]. destruct (b_signals d) as [|x rows] eqn:E; [done|].
    rewrite <- E. apply antiJoin_again; [|by rewrite E|].
    - intros a b (_ & _ & _ & ?)%same_signal_eq. done.
    - intros s Hin. apply (backfill_signals d l). exists s. split; [|apply same_refl].
      rewrite E in Hin |- *. set_solver. }
  assert (E2 : lk_events (backfill_insert d l1) = lk_events l1).
  { unfold backfill_insert at 1. cbn [lk_events set_tables]. destruct (b_events d) as [|x rows] eqn:E; [done|].
    rewrite <- E. apply antiJoin_again; [|by rewrite E|].
    - intros a b (_ & _ & _ & ?)%same_event_eq. done.
    - intros s Hin. apply (backfill_events d l). exists s. split; [|apply same_refl].
      rewrite E in Hin |- *. set_solver. }
  change (set_tables (lk_signals (backfill_insert d l1)) (lk_events (backfill_insert d l1)) l1 = l1).
  rewrite E1, E2. by destruct l1.
Qed.

Section property.
Context {A : AEAD} (blobs : option (string -> result s3_error s3_object)) (blobCipher : option Key).
Context (dec : Z -> list RawEvent -> decodedBatch) (now : Z).
Context {K : Type} (HKey : RawEvent -> K) (decodable : RawEvent -> bool)
        (rows_of : Z -> RawEvent -> list SignalRow * list EventRow).
Context {laws : DecoderLaws HKey decodable rows_of dec}.

(** C15. A backfill repairs its range. Let the lake satisfy the decode pass's invariant
    ([good]: every raw row at or before the cursor is handled and paging keys tell raw
    rows apart), and let the other actors keep it so and only add while the backfill runs
    ([trans]: new raw rows come with new snapshots, snapshots may expire, no raw, signal or
    event row is deleted, so no retention meanwhile). Then, whichever of its own calls
    fail, the backfill keeps the invariant and loses no row, and if it returns, every
    raw row that was there at the start and lies in its time range is decoded, those the
    decode loop skipped when their snapshots expired included: the payload is permanently
    gone, or the event is not one to decode, or its rows are in the decoded tables. For a
    batch whose timestamps are whole microseconds ([micro_batch]) writing it again adds
    nothing. *)
Theorem backfill_repairs from to w :
  good blobs blobCipher HKey decodable rows_of (w_lake w) ->
  Forall (env_ok (good blobs blobCipher HKey decodable rows_of)) (w_future w) ->
  let '(r, w') := BackfillTimeRange blobs blobCipher dec now from to w in
  let l := w_lake w' in
  good blobs blobCipher HKey decodable rows_of l /\ trans (w_lake w) l /\
  (forall n, r = Ok n -> forall row, row ∈ lk_feed (w_lake w) -> in_time from to row = true ->
     accounted blobs blobCipher HKey decodable rows_of (lk_signals l) (lk_events l) l row) /\
  (forall d, micro_batch d -> backfill_insert d (backfill_insert d l) = backfill_insert d l).
Proof.
  intros Hg He.
  pose proof (spec_BackfillTimeRange blobs blobCipher dec now HKey decodable rows_of from to (lk_feed (w_lake w)) w
    (conj Hg He) (fun r H => H)) as H.
  destruct (BackfillTimeRange _ _ _ _ _ _ w) as [r w']. destruct H as ((Hg' & _) & T & Hr).
  split; [done|]. split; [done|]. split; [|by intros d; apply backfill_twice]. by intros n ->.
Qed.
End property.

(** The range of the demonstration holds two uploads, their snapshot gone from the
    feed and behind the cursor: the pass that found it expired skipped them. *)
#[local] Instance demo_key_is_covered : key_covers demo_key := demo_key_covers.

Definition skipped_world : world :=
  mkWorld (mkLake true [demo_row 1 TypeStatus "e1"; demo_row 1 TypeStatus "e3"] 5 5 [] [] (Some 5) None) new_mat
    [calm; calm].

Lemma skipped_good : demo_good (w_lake skipped_world).
Proof.
  split.
  - intros r [-> | ->%list_elem_of_singleton]%elem_of_cons _; by left.
  - intros r r' [-> | ->%list_elem_of_singleton]%elem_of_cons
      [-> | ->%list_elem_of_singleton]%elem_of_cons; vm_compute; congruence.
Qed.

Example backfill_repairs_witness :
  let '(r, w') := BackfillTimeRange (A := toy_aead) None None demo_dec 0 0 (1000 * Second) skipped_world in
  r = Ok 2 /\ length (lk_signals (w_lake w')) = 2%nat /\ demo_good (w_lake w') /\
  accounted (A := toy_aead) None None demo_key (decodable (fun _ => None) None 137) demo_rows_of
    (lk_signals (w_lake w')) (lk_events (w_lake w')) (w_lake w') (demo_row 1 TypeStatus "e3").
Proof.
  assert (He : Forall (env_ok demo_good) (w_future skipped_world)).
  { repeat (apply Forall_cons; split); try apply Forall_nil; try done; intros l Hl; (split; [exact Hl|reflexivity]). }
  pose proof (backfill_repairs (A := toy_aead) None None demo_dec 0 demo_key (decodable (fun _ => None) None 137)
    demo_rows_of 0 (1000 * Second) skipped_world skipped_good He) as H.
  destruct (BackfillTimeRange (A := toy_aead) None None demo_dec 0 0 (1000 * Second) skipped_world) as [r w'] eqn:E.
  destruct H as (Hg & T & Hr & _).
  assert (E2 : r = Ok 2 /\ length (lk_signals (w_lake w')) = 2%nat).
  { vm_compute in E. injection E as <- <-. by split. }
  destruct E2 as [E2 E3]. split; [exact E2|]. split; [exact E3|]. split; [exact Hg|].
  apply (Hr 2 E2); [right; left|vm_compute; reflexivity].
Defined.
