(* ===== verification/LakeSource.v ===== *)
(** * internal/service/duck/segments_source.go

    The data access of segment detection over lake.signals. Each method is the
    relation its statement computes, over the rows of the table; [now] and the
    detectors are elsewhere. Proved: the implementation obeys the laws the
    detectors rely on, the idle runs found in the store are those of the
    in-process loop, and the bounded ignition lookback is invisible. The values
    stored are finite (Decode.v), so a comparison of the database is the
    comparison of Go. *)

From S2P Require Import Prelude FloatFacts Model SegUtil Source Decode Sql Windows Idling RechargeDet.

#[local] Set Default Proof Using "Type*".

Definition of_subject (subject : string) (r : SignalRow) : bool :=
  String.eqb (sr_Subject r) subject && (sr_SubjectBucket r =? HashBucket subject).

Definition in_range (fromUS toUS : Z) (r : SignalRow) : bool :=
  (make_timestamp fromUS <=? sr_Timestamp r) && (sr_Timestamp r <? make_timestamp toUS).

Definition by_time : list SignalRow -> list SignalRow := order_by sr_Timestamp Z.leb.

Section source.
(** The table; an error of the database for a query, if any; [AddDate(0, 0, -30)]
    of a time, which depends on the time's location. *)
Context (lake : list SignalRow) (db_error : string -> option string) (minus30days : Z -> Z).

Definition run_query {A} (what : string) (a : A) : result string A :=
  match db_error what with
  | Some e => Err (what +:+ ": " +:+ e)%string
  | None => Ok a
  end.

(** The rows of one subject in a range, and those of one name. *)
Definition scan_subject (subject : string) (fromUS toUS : Z) : list SignalRow :=
  List.filter (fun r => of_subject subject r && in_range fromUS toUS r) lake.

Definition scan_name (subject name : string) (fromUS toUS : Z) : list SignalRow :=
  List.filter (fun r => of_subject subject r && String.eqb (sr_Name r) name && in_range fromUS toUS r) lake.

(** ** WindowedSignalCounts *)

(** [(epoch_us(timestamp) // winUS) * winUS]. *)
Definition window_start (winUS : Z) (r : SignalRow) : Z :=
  make_timestamp (Z.quot (UnixMicro (sr_Timestamp r)) winUS * winUS).

Definition window_of (winUS : Z) (rows : list SignalRow) (ws : Z) : ActiveWindow :=
  let g := List.filter (fun r => window_start winUS r =? ws) rows in
  mkActiveWindow ws (make_timestamp (UnixMicro ws + winUS)) (Z.of_nat (length g))
    (Z.of_nat (length (remove_dups (map sr_Name g)))).

Definition lake_WindowedSignalCounts (subject : string) (from to win sig dist : Z)
  : result string (list ActiveWindow) :=
  let winUS := wrap64 (win * 1000000) in
  let rows := signalDedupQualify (scan_subject subject (UnixMicro from) (UnixMicro to)) in
  let groups := map (window_of winUS rows) (remove_dups (map (window_start winUS) rows)) in
  run_query "lake windowed signal counts"
    (order_by WindowStart Z.leb
       (List.filter (fun w => (sig <=? SignalCount w) && (dist <=? DistinctSignalCount w)) groups)).

(** ** LevelSamples *)

Definition sample_of (r : SignalRow) : LevelSample := mkLevelSample (sr_Timestamp r) (sr_ValueNumber r).

Definition lake_LevelSamples (subject name : string) (from to : Z) : result string (list LevelSample) :=
  run_query "lake level samples"
    (map sample_of (by_time (signalDedupQualify (scan_name subject name (UnixMicro from) (UnixMicro to))))).

(** ** IgnitionStateChanges *)

Definition isIgnitionOn : string := "isIgnitionOn".

(** [value_number AS new_state, coalesce(lag(value_number), seed, 0) AS prev_state]. *)
Fixpoint lag_loop (prev : float64) (l : list SignalRow) : list StateChange :=
  match l with
  | [] => []
  | r :: rest => mkStateChange (sr_Timestamp r) (sr_ValueNumber r) prev :: lag_loop (sr_ValueNumber r) rest
  end.

(** [ORDER BY timestamp DESC, cloud_event_id ASC]. *)
Definition latest_first (a b : SignalRow) : bool :=
  (sr_Timestamp b <? sr_Timestamp a) ||
  ((sr_Timestamp a =? sr_Timestamp b) && sleb (sr_CloudEventID a) (sr_CloudEventID b)).

(** The last reading before the window, and the default. *)
Definition seed_state (subject : string) (lookbackUS : Z) : float64 :=
  match isort latest_first
          (List.filter (fun r => of_subject subject r && String.eqb (sr_Name r) isIgnitionOn &&
                                 (sr_Timestamp r <? make_timestamp lookbackUS)) lake) with
  | r :: _ => sr_ValueNumber r
  | [] => f64_zero
  end.

Definition changed (c : StateChange) : bool := negb (f64_eqb (NewState c) (PrevState c)).

Definition transitions (subject : string) (lookbackUS toUS : Z) : list StateChange :=
  List.filter changed
    (lag_loop (seed_state subject lookbackUS)
       (by_time (signalDedupQualify (scan_name subject isIgnitionOn lookbackUS toUS)))).

(** The range arm and the seed arm of the [UNION ALL]. *)
Definition state_changes (subject : string) (from to : Z) : list StateChange :=
  let fromUS := UnixMicro from in
  let tr := transitions subject (UnixMicro (minus30days from)) (UnixMicro to) in
  let range := List.filter (fun c => (make_timestamp fromUS <=? sc_TS c) &&
                                     (sc_TS c <? make_timestamp (UnixMicro to))) tr in
  let seed := take 1 (order_by sc_TS Z.geb
                        (List.filter (fun c => sc_TS c <? make_timestamp fromUS) tr)) in
  order_by sc_TS Z.leb (range ++ seed).

(** [min(timestamp), arg_max(value_number, timestamp)] of the rows as stored. *)
Definition ongoing_trip (subject : string) (from to : Z) : list StateChange :=
  let rows := scan_name subject isIgnitionOn (UnixMicro (minus30days from)) (UnixMicro to) in
  match sql_min sr_Timestamp rows, sql_arg_max sr_Timestamp sr_ValueNumber rows with
  | Some firstTS, Some latest =>
      if f64_eqb latest (f64_of_Z 1) then [mkStateChange firstTS (f64_of_Z 1) f64_zero] else []
  | _, _ => []
  end.

Definition lake_IgnitionStateChanges (subject : string) (from to : Z) : result string (list StateChange) :=
  let* out := run_query "lake ignition state changes" (state_changes subject from to) in
  match out with
  | [] => run_query "lake ignition current state" (ongoing_trip subject from to)
  | _ => Ok out
  end.

(** ** IdleRuns *)

Definition sql_idle (maxIdleRpm : Z) (v : float64) : bool :=
  f64_ltb (f64_of_Z 0) v && f64_leb v (f64_of_Z maxIdleRpm).

(** The rows of [isl]: timestamp, idle, island. *)
Fixpoint island_loop (maxIdleRpm maxGapUS : Z) (prev : option (bool * Z)) (island : Z)
    (l : list LevelSample) : list (Z * bool * Z) :=
  match l with
  | [] => []
  | s :: rest =>
      let idle := sql_idle maxIdleRpm (Value s) in
      let opens := idle && match prev with
                           | None => true
                           | Some (prev_idle, prev_ts) =>
                               negb prev_idle || (maxGapUS <? UnixMicro (TS s) - UnixMicro prev_ts)
                           end in
      let island' := if opens then island + 1 else island in
      (TS s, idle, island') :: island_loop maxIdleRpm maxGapUS (Some (idle, TS s)) island' rest
  end.

(** [SELECT min(timestamp), max(timestamp) ... GROUP BY island ORDER BY 1]. *)
Definition island_run (rows : list (Z * bool * Z)) (k : Z) : timeRange :=
  let g := List.filter (fun r => r.2 =? k) rows in
  mkRange (default 0 (sql_min (fun r => r.1.1) g)) (default 0 (sql_max (fun r => r.1.1) g)).

Definition grouped (rows : list (Z * bool * Z)) : list timeRange :=
  order_by start Z.leb (map (island_run rows) (remove_dups (map snd rows))).

Definition idle_rows (maxIdleRpm maxGapUS : Z) (prev : option (bool * Z)) (island : Z)
    (l : list LevelSample) : list (Z * bool * Z) :=
  List.filter (fun r => r.1.2) (island_loop maxIdleRpm maxGapUS prev island l).

Definition lake_IdleRuns (subject name : string) (from to maxIdleRpm maxGapSeconds : Z)
  : result string (list timeRange) :=
  let s := map sample_of (by_time (signalDedupQualify
             (scan_name subject name (UnixMicro from) (UnixMicro to)))) in
  run_query "lake idle runs"
    (grouped (idle_rows maxIdleRpm (wrap64 (maxGapSeconds * 1000000)) None 0 s)).

Definition LakeSignalSource : SignalSource := {|
  WindowedSignalCounts := lake_WindowedSignalCounts;
  LevelSamples := lake_LevelSamples;
  IgnitionStateChanges := lake_IgnitionStateChanges;
  IdleRuns := Some lake_IdleRuns;
|}.

(** lake_segments.go: [LakeSegments.GetSegments]; [now] is the clock. *)
Definition LakeSegments_GetSegments (now : Z) (subject : string) (from to : Z)
    (mechanism : DetectionMechanism) (config : option SegmentConfig) : result string (list Segment) :=
  match @NewDetector LakeSignalSource now mechanism with
  | Err e => Err e
  | Ok detect => detect subject from to config
  end.

(** ** Order and uniqueness of what a query returns *)

Lemma Zleb_total a b : (a <=? b) = true \/ (b <=? a) = true.
Proof. rewrite !Z.leb_le. lia. Qed.

Lemma Zleb_trans a b c : (a <=? b) = true -> (b <=? c) = true -> (a <=? c) = true.
Proof. rewrite !Z.leb_le. lia. Qed.

Lemma Zleb_antisym a b : (a <=? b) = true -> (b <=? a) = true -> a = b.
Proof. rewrite !Z.leb_le. lia. Qed.

Lemma order_by_strict {A} (key : A -> Z) (l : list A) :
  NoDup (map key l) -> StronglySorted (fun a b => key a < key b) (order_by key Z.leb l).
Proof.
  intros Hnd. pose proof (order_by_sorted key Z.leb Zleb_total Zleb_trans l) as Hs.
  assert (Hnd' : NoDup (map key (order_by key Z.leb l))).
  { by rewrite (Permutation_map key (order_by_perm key Z.leb l)). }
  revert Hs Hnd'. generalize (order_by key Z.leb l). clear.
  induction 1 as [|x l Hs IH Hall]; intros Hnd; [constructor|]. inversion Hnd; subst.
  constructor; [by apply IH|]. rewrite Forall_forall in *. intros y Hy.
  specialize (Hall y Hy). apply Z.leb_le in Hall.
  assert (key x <> key y); [|lia]. intros E. apply H1. rewrite E. by apply list_elem_of_fmap_2.
Qed.

(** Deduplicated rows of one subject and name have distinct timestamps. *)
Lemma dedup_times l :
  (forall a b, a ∈ l -> b ∈ l -> sr_Subject a = sr_Subject b /\ sr_Name a = sr_Name b) ->
  NoDup (map sr_Timestamp (signalDedupQualify l)).
Proof.
  intros Hone. pose proof (dedup_NoDup l) as Hnd.
  assert (Hin : forall x, x ∈ signalDedupQualify l -> x ∈ l) by (intros; by apply dedup_incl).
  revert Hnd Hin. generalize (signalDedupQualify l). induction l0 as [|x d IH]; intros Hnd Hin; [constructor|].
  cbn [map] in *. inversion Hnd; subst. constructor.
  - intros (y & Hy & Hyd)%list_elem_of_fmap. apply H1. apply list_elem_of_fmap. exists y.
    split; [|done]. unfold ident. destruct (Hone x y) as [-> ->]; [apply Hin; left|apply Hin; by right|].
    by rewrite Hy.
  - apply IH; [done|]. intros y Hy. apply Hin. by right.
Qed.

Lemma elem_of_scan_name subject name f t r :
  r ∈ scan_name subject name f t <->
  r ∈ lake /\ of_subject subject r = true /\ sr_Name r = name /\ in_range f t r = true.
Proof.
  unfold scan_name. rewrite !list_elem_of_In, filter_In, !andb_true_iff, String.eqb_eq. clear db_error minus30days. tauto.
Qed.

Lemma of_subject_true subject r : of_subject subject r = true -> sr_Subject r = subject.
Proof. unfold of_subject. rewrite andb_true_iff, String.eqb_eq. clear db_error minus30days. tauto. Qed.

Lemma scan_name_one subject name f t a b :
  a ∈ scan_name subject name f t -> b ∈ scan_name subject name f t ->
  sr_Subject a = sr_Subject b /\ sr_Name a = sr_Name b.
Proof.
  rewrite !elem_of_scan_name. intros (_ & Ha & -> & _) (_ & Hb & -> & _).
  by rewrite (of_subject_true _ _ Ha), (of_subject_true _ _ Hb).
Qed.

Definition readings (subject name : string) (f t : Z) : list SignalRow :=
  by_time (signalDedupQualify (scan_name subject name f t)).

Lemma readings_sorted subject name f t :
  StronglySorted (fun a b => sr_Timestamp a < sr_Timestamp b) (readings subject name f t).
Proof. apply order_by_strict, dedup_times. intros a b. apply scan_name_one. Qed.

Lemma elem_of_readings subject name f t r :
  r ∈ readings subject name f t <-> r ∈ signalDedupQualify (scan_name subject name f t).
Proof. unfold readings, by_time. by rewrite order_by_perm. Qed.

Lemma readings_range subject name f t r :
  r ∈ readings subject name f t -> make_timestamp f <= sr_Timestamp r < make_timestamp t.
Proof.
  rewrite elem_of_readings. intros Hr%dedup_incl. apply elem_of_scan_name in Hr as (_ & _ & _ & Hr).
  unfold in_range in Hr. bools. lia.
Qed.

Lemma SSorted_map {A B} (f : A -> B) (R : B -> B -> Prop) l :
  StronglySorted (fun a b => R (f a) (f b)) l -> StronglySorted R (map f l).
Proof.
  induction 1 as [|x l Hs IH Hall]; cbn [map]; [constructor|]. constructor; [done|].
  apply Forall_map. eapply Forall_impl; [exact Hall|]. done.
Qed.

Lemma SSorted_impl {A} (R S : A -> A -> Prop) l :
  (forall a b, R a b -> S a b) -> StronglySorted R l -> StronglySorted S l.
Proof.
  intros HRS. induction 1 as [|x l Hs IH Hall]; [constructor|]. constructor; [done|].
  eapply Forall_impl; [exact Hall|]. auto.
Qed.

Lemma run_query_ok {A} what (a b : A) : run_query what a = Ok b -> b = a.
Proof. unfold run_query. destruct (db_error what); congruence. Qed.

Lemma window_of_start w rows ks :
  map WindowStart (map (window_of w rows) ks) = ks.
Proof. induction ks as [|k ks IH]; [done|]. cbn [map]. by rewrite IH. Qed.

Lemma NoDup_map_filter {A B} (key : A -> B) f l :
  NoDup (map key l) -> NoDup (map key (List.filter f l)).
Proof.
  induction l as [|x l IH]; intros Hnd; [constructor|]. cbn [map List.filter] in *. inversion Hnd; subst.
  destruct (f x); [|by apply IH]. cbn [map]. constructor; [|by apply IH].
  intros (y & Hy & Hin)%list_elem_of_fmap. apply H1. rewrite Hy. apply list_elem_of_fmap_2.
  by apply list_elem_of_In, filter_In, proj1, list_elem_of_In in Hin.
Qed.

Lemma state_changes_sorted subject from to :
  StronglySorted (fun a b => sc_TS a <= sc_TS b) (state_changes subject from to).
Proof.
  unfold state_changes. eapply SSorted_impl; [|apply order_by_sorted; [exact Zleb_total|exact Zleb_trans]].
  intros a b H. by apply Z.leb_le in H.
Qed.

Lemma ongoing_trip_one subject from to : (length (ongoing_trip subject from to) <= 1)%nat.
Proof.
  unfold ongoing_trip. set (rows := scan_name _ _ _ _).
  destruct (sql_min sr_Timestamp rows), (sql_arg_max sr_Timestamp sr_ValueNumber rows); simpl; try lia.
  destruct (f64_eqb _ _); simpl; lia.
Qed.

(** ** The laws of the interface *)

(** The canonical row of a reading: no row of the reading has a smaller id. *)
Definition canonical (l : list SignalRow) (r : SignalRow) : Prop :=
  r ∈ l /\ forall r', r' ∈ l -> ident r' = ident r ->
                      String.ltb (sr_CloudEventID r') (sr_CloudEventID r) = false.

Lemma of_subject_iff subject r : lake_ok lake -> r ∈ lake ->
  of_subject subject r = true <-> sr_Subject r = subject.
Proof.
  intros Hok Hr. split; [apply of_subject_true|]. intros <-. unfold of_subject.
  by rewrite (lo_bucket _ Hok r Hr), String.eqb_refl, Z.eqb_refl.
Qed.

Lemma scan_name_canonical subject name f t r : lake_ok lake ->
  r ∈ signalDedupQualify (scan_name subject name f t) <->
  canonical lake r /\ sr_Subject r = subject /\ sr_Name r = name /\ in_range f t r = true.
Proof.
  intros Hok. rewrite dedup_iff, elem_of_scan_name.
  2:{ intros a b [Ha _]%elem_of_scan_name [Hb _]%elem_of_scan_name. by apply (lo_id _ Hok). }
  unfold canonical. split.
  - intros [(Hr & Hs & Hn & Hi) Hmin]. apply (of_subject_iff _ _ Hok Hr) in Hs.
    split_and!; [done| |done..]. intros r' Hr' Hid. apply Hmin; [|done].
    unfold ident in Hid. injection Hid as E1 E2 E3. apply elem_of_scan_name.
    split_and!; [done| |congruence|].
    + apply (of_subject_iff _ _ Hok Hr'). congruence.
    + unfold in_range in *. by rewrite E3.
  - intros ([Hr Hmin] & Hs & Hn & Hi). split.
    + split_and!; [done|by apply of_subject_iff|done..].
    + intros r' Hr'. apply elem_of_scan_name in Hr' as (Hr' & _). by apply Hmin.
Qed.

Lemma LevelSamples_laws subject name from to l :
  lake_LevelSamples subject name from to = Ok l ->
  StronglySorted (fun a b => TS a < TS b) l /\
  Forall (fun s => time_truncate from Microsecond <= TS s < to) l.
Proof.
  intros ->%run_query_ok. fold (readings subject name (UnixMicro from) (UnixMicro to)). split.
  - apply SSorted_map, readings_sorted.
  - apply Forall_map, Forall_forall. intros r Hr%readings_range. cbn [TS sample_of].
    rewrite <- micro_floor. pose proof (micro_floor_bounds to). lia.
Qed.

(** C31. The lake obeys the laws the detectors rely on, whatever the table holds:
    windows meet both thresholds and come in strict order, samples come in
    order within the requested range read to the microsecond, state changes in
    order. Moreover the samples of a signal are exactly its canonical readings
    in the range, one per instant, the row of the smallest cloud event id, when
    the table is as the materializer writes it. *)
Theorem lake_source_laws :
  SignalSourceLaws LakeSignalSource /\
  (lake_ok lake -> forall subject name from to l,
     lake_LevelSamples subject name from to = Ok l ->
     StronglySorted (fun a b => TS a < TS b) l /\
     forall s, s ∈ l <-> exists r, s = sample_of r /\ canonical lake r /\ sr_Subject r = subject /\
                           sr_Name r = name /\ in_range (UnixMicro from) (UnixMicro to) r = true).
Proof.
  split; [split; cbn [LakeSignalSource WindowedSignalCounts LevelSamples IgnitionStateChanges]|].
  - intros subject from to w st dt ws. unfold lake_WindowedSignalCounts.
    set (rows := signalDedupQualify _). intros ->%run_query_ok. split.
    + apply Forall_forall. intros x. rewrite order_by_perm, list_elem_of_In, filter_In.
      intros [_ [H1 H2]%andb_true_iff]. bools. done.
    + apply order_by_strict, NoDup_map_filter. rewrite window_of_start. apply NoDup_remove_dups.
  - intros subject name from to l H. apply LevelSamples_laws in H as [Hs Hr]. split; [|done].
    eapply SSorted_impl; [|exact Hs]. intros a b Hab. cbv beta in *. lia.
  - intros subject from to l. unfold lake_IgnitionStateChanges.
    destruct (run_query _ (state_changes _ _ _)) as [out|e] eqn:E; [|done].
    apply run_query_ok in E as ->. cbn [result_bind].
    pose proof (state_changes_sorted subject from to) as Hs.
    destruct (state_changes subject from to) as [|c cs]; [|by intros [= <-]].
    intros ->%run_query_ok. pose proof (ongoing_trip_one subject from to) as Hlen.
    destruct (ongoing_trip subject from to) as [|c [|d cs]]; simpl in Hlen; [constructor| |lia].
    repeat constructor.
  - intros Hok subject name from to l Hl. split; [by eapply LevelSamples_laws|].
    apply run_query_ok in Hl as ->. intros s. rewrite list_elem_of_fmap.
    split; intros (r & -> & Hr); exists r; (split; [done|]); fold (readings subject name (UnixMicro from) (UnixMicro to)) in *.
    + apply scan_name_canonical; [done|]. by apply elem_of_readings.
    + apply elem_of_readings, scan_name_canonical; done.
Qed.

End source.

(** ** Idle runs: gaps and islands *)

Lemma remove_dups_run (k : Z) n l : k ∉ l -> remove_dups (repeat k (S n) ++ l) = k :: remove_dups l.
Proof.
  intros Hk. induction n as [|n IH]; cbn [repeat app remove_dups].
  - by case_decide.
  - case_decide as Hin; [exact IH|]. destruct Hin. left.
Qed.

Lemma order_by_least {A} (key : A -> Z) x l :
  Forall (fun y => key x <= key y) l -> order_by key Z.leb (x :: l) = x :: order_by key Z.leb l.
Proof.
  intros Hx. unfold order_by. cbn [isort]. destruct (isort _ l) as [|y l'] eqn:E; [done|].
  cbn [insert_sorted]. unfold by_key at 1. rewrite (proj2 (Z.leb_le _ _)); [done|].
  rewrite Forall_forall in Hx. apply Hx. rewrite <- (isort_perm (by_key key Z.leb) l), E. left.
Qed.

Definition row_ts (r : Z * bool * Z) : Z := r.1.1.

(** The rows of the first island form the first run. *)
Lemma grouped_first G H k st en :
  (exists r, r ∈ G /\ row_ts r = st) -> (exists r, r ∈ G /\ row_ts r = en) ->
  Forall (fun r => r.2 = k /\ st <= row_ts r <= en) G ->
  Forall (fun r => r.2 <> k /\ st < row_ts r) H ->
  grouped (G ++ H) = mkRange st en :: grouped H.
Proof.
  intros Hst Hen HG HH. rewrite Forall_forall in HG, HH.
  assert (EG : map snd G = repeat k (length G)).
  { clear -HG. induction G as [|r G IH]; [done|]. cbn. rewrite IH by (intros x Hx; apply HG; by right).
    by rewrite (proj1 (HG r ltac:(left))). }
  assert (HkH : k ∉ map snd H).
  { intros (r & -> & Hr)%list_elem_of_fmap. by destruct (HH r Hr). }
  unfold grouped. rewrite map_app, EG.
  destruct (length G) as [|n] eqn:El; [apply length_zero_iff_nil in El as ->;
    destruct Hst as (r & Hr%elem_of_nil & _); done|].
  rewrite remove_dups_run by done. cbn [map].
  assert (Hfirst : island_run (G ++ H) k = mkRange st en).
  { unfold island_run. rewrite List.filter_app, (list_filter_all _ G), (list_filter_none _ H), app_nil_r.
    - destruct Hst as (a & Ha & Est). destruct Hen as (b & Hb & Een).
      rewrite (sql_min_unique _ G st), (sql_max_unique _ G en); [done|..]; eauto.
      all: intros r Hr; apply HG in Hr as [_ Hr]; unfold row_ts in Hr; lia.
    - intros r Hr. apply HH in Hr as [Hr _]. bools. done.
    - intros r Hr. apply HG in Hr as [Hr _]. bools. done. }
  rewrite Hfirst.
  assert (Hrest : map (island_run (G ++ H)) (remove_dups (map snd H)) =
                  map (island_run H) (remove_dups (map snd H))).
  { apply map_ext_in. intros k' Hk'. unfold island_run.
    rewrite List.filter_app, (list_filter_none _ G); [done|].
    intros r Hr. apply HG in Hr as [-> _]. bools. intros ->.
    apply HkH. by apply elem_of_remove_dups, list_elem_of_In. }
  rewrite Hrest. apply order_by_least. apply Forall_map, Forall_forall. intros k' Hk'.
  apply elem_of_remove_dups, list_elem_of_fmap in Hk' as (r & -> & Hr).
  unfold island_run. cbn [start]. set (g := List.filter _ H).
  assert (Hg : forall x, x ∈ g -> x ∈ H).
  { intros x Hx. by apply list_elem_of_In, filter_In, proj1, list_elem_of_In in Hx. }
  destruct (sql_min _ g) as [mn|] eqn:Em; simpl.
  - apply sql_min_spec in Em as [(x & Hx & <-) _]. apply Hg, HH in Hx as [_ Hx]. unfold row_ts in Hx. lia.
  - apply sql_min_none in Em. assert (Hrg : r ∈ g); [|rewrite Em in Hrg; by apply elem_of_nil in Hrg].
    apply list_elem_of_In, filter_In. split; [by apply list_elem_of_In|apply Z.eqb_refl].
Qed.

Section islands.
(** Two ways to compare a gap with the maximum, the same on the times at hand. *)
Context (m g gUS : Z) (T : Z -> Prop).
Context (agree : forall a b, T a -> T b -> (gUS <? UnixMicro a - UnixMicro b) = (g <? time_sub a b)).

Notation rows := (idle_rows m gUS).
Notation ascending := (StronglySorted (fun a b => TS a < TS b)).

(** An idle first sample of [l] would open an island after [prev]. *)
Definition opens_next (prev : option (bool * Z)) (l : list LevelSample) : Prop :=
  match l, prev with
  | s :: _, Some (pi, pt) => isIdle m s = true -> pi = false \/ (gUS <? UnixMicro (TS s) - UnixMicro pt) = true
  | _, _ => True
  end.

Lemma rows_idle prev n s l : isIdle m s = true -> opens_next prev (s :: l) ->
  rows prev n (s :: l) = (TS s, true, n + 1) :: rows (Some (true, TS s)) (n + 1) l.
Proof.
  intros Hi Ho. unfold idle_rows. cbn [island_loop]. change (sql_idle m (Value s)) with (isIdle m s).
  rewrite Hi. simpl andb.
  replace (match prev with None => true | _ => _ end) with true; [done|].
  destruct prev as [[pi pt]|]; [|done]. destruct (Ho Hi) as [->| ->]; [done|by rewrite orb_true_r].
Qed.

Lemma rows_more last n s l : isIdle m s = true -> (gUS <? UnixMicro (TS s) - UnixMicro last) = false ->
  rows (Some (true, last)) n (s :: l) = (TS s, true, n) :: rows (Some (true, TS s)) n l.
Proof.
  intros Hi Hg. unfold idle_rows. cbn [island_loop]. change (sql_idle m (Value s)) with (isIdle m s).
  by rewrite Hi, Hg.
Qed.

Lemma rows_busy prev n s l : isIdle m s = false ->
  rows prev n (s :: l) = rows (Some (false, TS s)) n l.
Proof.
  intros Hi. unfold idle_rows. cbn [island_loop]. change (sql_idle m (Value s)) with (isIdle m s).
  by rewrite Hi.
Qed.

Lemma rows_from l : forall prev n r, r ∈ rows prev n l -> exists s, s ∈ l /\ TS s = row_ts r.
Proof.
  unfold idle_rows. intros prev n r Hr. apply list_elem_of_In, filter_In, proj1, list_elem_of_In in Hr.
  revert prev n Hr. induction l as [|s l IH]; intros prev n Hr; [by apply elem_of_nil in Hr|].
  cbn [island_loop] in Hr. apply elem_of_cons in Hr as [->|Hr]; [exists s; split; [left|done]|].
  apply IH in Hr as (x & Hx & Ex). exists x. split; [by right|done].
Qed.

Lemma idle_prefix_rows l : forall last n, ascending l -> Forall (fun s => last < TS s) l ->
  T last -> Forall (fun s => T (TS s)) l ->
  let '(re, rest) := idle_prefix m g last l in
  exists G prev', rows (Some (true, last)) n l = G ++ rows prev' n rest /\
    Forall (fun r => r.2 = n /\ last < row_ts r <= re) G /\
    (re = last \/ exists r, r ∈ G /\ row_ts r = re) /\ last <= re /\
    opens_next prev' rest /\ ascending rest /\ Forall (fun s => re < TS s) rest /\
    Forall (fun s => T (TS s)) rest /\ (forall s, s ∈ rest -> s ∈ l).
Proof.
  induction l as [|s l IH]; intros last n Hs Hlt HT HTl.
  { exists [], None. split_and!; try done. by left. }
  inversion Hs as [|? ? Hs' Hall]; subst. inversion Hlt; subst. inversion HTl; subst.
  cbn [idle_prefix]. destruct (isIdle m s && negb (g <? time_sub (TS s) last)) eqn:E.
  - apply andb_true_iff in E as [Hi Hg]. apply negb_true_iff in Hg. rewrite <- agree in Hg by done.
    specialize (IH (TS s) n Hs' Hall ltac:(done) ltac:(done)).
    destruct (idle_prefix m g (TS s) l) as [re rest].
    destruct IH as (G & prev' & E & HG & Hre & Hle & Ho & Hsr & Hlr & HTr & Hin).
    exists ((TS s, true, n) :: G), prev'. split_and!; try done; try lia; [| |right|].
    + rewrite rows_more by done. by rewrite E.
    + constructor; [split; [done|unfold row_ts; simpl; lia]|].
      eapply Forall_impl; [exact HG|]. intros r [? ?]. split; [done|lia].
    + destruct Hre as [->|(r & Hr & Er)]; [exists (TS s, true, n); split; [left|done]|].
      exists r. split; [by right|done].
    + intros x Hx. right. by apply Hin.
  - exists [], (Some (true, last)). split_and!; try done; [by left|].
    intros Hi. right. rewrite Hi in E. simpl in E. apply negb_false_iff in E. by rewrite agree.
Qed.

Lemma islands_are_runs fuel : forall l prev n, (length l <= fuel)%nat -> ascending l ->
  Forall (fun s => T (TS s)) l -> opens_next prev l ->
  grouped (rows prev n l) = idle_runs fuel m g l /\ Forall (fun r => n < r.2) (rows prev n l).
Proof.
  induction fuel as [|fuel IH]; intros [|s l] prev n Hf Hs HT Ho; try (simpl in Hf; lia); try (by split).
  simpl in Hf. inversion Hs as [|? ? Hs' Hall]; subst. inversion HT; subst. cbn [idle_runs].
  destruct (isIdle m s) eqn:Hi.
  - rewrite rows_idle by done.
    pose proof (idle_prefix_rows l (TS s) (n + 1) Hs' Hall ltac:(done) ltac:(done)) as Hp.
    pose proof (idle_prefix_length m g (TS s) l) as Hlen.
    destruct (idle_prefix m g (TS s) l) as [re rest]. simpl in Hlen.
    destruct Hp as (G & prev' & E & HG & Hre & Hle & Ho' & Hsr & Hlr & HTr & Hin).
    destruct (IH rest prev' (n + 1)) as [Hrec Hrows]; [lia|done..|]. rewrite E.
    rewrite Forall_forall in Hrows. rewrite Forall_forall in Hlr.
    split.
    + rewrite <- Hrec. apply (grouped_first ((TS s, true, n + 1) :: G) _ (n + 1)).
      * exists (TS s, true, n + 1). split; [left|done].
      * destruct Hre as [->|(r & Hr & Er)]; [exists (TS s, true, n + 1); split; [left|done]|].
        exists r. split; [by right|done].
      * constructor; [split; [done|unfold row_ts; simpl; lia]|].
        eapply Forall_impl; [exact HG|]. intros r [? ?]. split; [done|lia].
      * apply Forall_forall. intros r Hr. apply rows_from in Hr as Hx. destruct Hx as (x & Hx & Ex).
        specialize (Hrows r Hr). specialize (Hlr x Hx). cbv beta in *. lia.
    + constructor; [simpl; lia|]. apply Forall_app. split.
      * eapply Forall_impl; [exact HG|]. intros r [-> _]. lia.
      * apply Forall_forall. intros r Hr. specialize (Hrows r Hr). cbv beta in *. lia.
  - rewrite rows_busy by done. destruct (IH l (Some (false, TS s)) n) as [Hrec Hrows]; [lia|done..| |].
    { destruct l as [|s' l']; [done|]. intros _. by left. }
    by split.
Qed.
End islands.


Lemma gap_agree gap lo hi a b :
  0 <= gap <= 9 * 10 ^ 9 -> hi - lo <= max_int64 ->
  whole_micro a /\ lo <= a < hi -> whole_micro b /\ lo <= b < hi ->
  (wrap64 (gap * 1000000) <? UnixMicro a - UnixMicro b) = (duration_of gap Second <? time_sub a b).
Proof.
  intros Hg Hw [Ha Hra] [Hb Hrb]. unfold duration_of.
  assert (HS : Second = 1000000000) by reflexivity. rewrite HS.
  rewrite (wrap64_id (gap * 1000000)), (wrap64_id (gap * 1000000000))
    by (unfold in_int64, min_int64, max_int64; lia).
  unfold max_int64 in Hw. rewrite time_sub_exact by (unfold in_int64, min_int64, max_int64; lia).
  unfold whole_micro, UnixMicro, Microsecond, Nanosecond in *.
  apply Bool.eq_iff_eq_true. rewrite !Z.ltb_lt. Z.to_euclidean_division_equations. lia.
Qed.

Section idle_theorem.
Context (lake : list SignalRow) (db_error : string -> option string) (minus30days : Z -> Z).

(** The idle runs found in the store (a gaps-and-islands query) are those the
    in-process loop of [findIdleRpmRanges] finds in the samples of the same
    range, so the idling detector over the lake returns what its streaming
    fallback would: for readings stored in microseconds, a gap of at most 9e9
    seconds and a range within the reach of a duration. *)
Theorem lake_idle_runs subject from to config samples :
  let rc := resolveBaseConfig config in
  let lb := lookback from (maxGapSeconds rc) in
  let rpm := match config with Some c => default defaultMaxIdleRpm (MaxIdleRpm c)
                             | None => defaultMaxIdleRpm end in
  (forall r, r ∈ lake -> whole_micro (sr_Timestamp r)) ->
  0 <= maxGapSeconds rc <= 9 * 10 ^ 9 ->
  to - lb <= max_int64 - Microsecond ->
  db_error "lake idle runs" = None ->
  lake_LevelSamples lake db_error subject FieldPowertrainCombustionEngineSpeed lb to = Ok samples ->
  lake_IdleRuns lake db_error subject FieldPowertrainCombustionEngineSpeed lb to rpm (maxGapSeconds rc) =
    Ok (raw_idle_runs rpm (duration_of (maxGapSeconds rc) Second) samples) /\
  @IdlingDetector_DetectSegments (LakeSignalSource lake db_error minus30days) subject from to config =
    Ok (timeRangesToSegments
          (findIdleRpmRanges samples rpm (maxGapSeconds rc) (minDuration rc) from to) from).
Proof.
  intros rc lb rpm Hmicro Hgap Hspan Hdb Hl.
  assert (Hruns : lake_IdleRuns lake db_error subject FieldPowertrainCombustionEngineSpeed lb to rpm
            (maxGapSeconds rc) = Ok (raw_idle_runs rpm (duration_of (maxGapSeconds rc) Second) samples)).
  { apply run_query_ok in Hl. unfold lake_IdleRuns, run_query. rewrite Hdb, <- Hl. f_equal.
    set (lo := make_timestamp (UnixMicro lb)). set (hi := make_timestamp (UnixMicro to)).
    pose proof (micro_floor_bounds lb). pose proof (micro_floor_bounds to).
    apply (islands_are_runs rpm _ _ (fun t => whole_micro t /\ lo <= t < hi)).
    - intros a b Ha Hb. eapply (gap_agree _ lo hi); [done| |done|done]. unfold lo, hi. lia.
    - done.
    - rewrite Hl. apply SSorted_map, readings_sorted.
    - rewrite Hl. apply Forall_map, Forall_forall. intros r Hr. split.
      + apply Hmicro. apply elem_of_readings, dedup_incl, elem_of_scan_name in Hr. tauto.
      + by apply readings_range in Hr.
    - by destruct samples. }
  split; [done|]. unfold IdlingDetector_DetectSegments.
  cbn [LakeSignalSource IdleRuns]. fold rc lb rpm. rewrite Hruns. f_equal.
  unfold appendIdleRange.
  rewrite (flat_map_emit (fun r => clipTimeRange (mkRange (start r) (end_ r)) from to (minDuration rc))).
  by rewrite findIdleRpmRanges_eq.
Qed.
End idle_theorem.

(** ** Ignition: the bounded lookback *)

Section ignition.
Context (lake : list SignalRow).

(** All readings of the signal before [to], without a lower bound. *)
Definition history (subject : string) (toUS : Z) : list SignalRow :=
  by_time (signalDedupQualify
    (List.filter (fun r => of_subject subject r && String.eqb (sr_Name r) isIgnitionOn &&
                           (sr_Timestamp r <? make_timestamp toUS)) lake)).

Definition all_transitions (subject : string) (toUS : Z) : list StateChange :=
  List.filter changed (lag_loop f64_zero (history subject toUS)).

(** A sorted list is what is below a bound followed by the rest. *)
Lemma sorted_cut {A} (key : A -> Z) l b :
  StronglySorted (fun x y => key x < key y) l ->
  l = List.filter (fun x => key x <? b) l ++ List.filter (fun x => b <=? key x) l.
Proof.
  induction 1 as [|x l Hs IH Hall]; [done|]. cbn [List.filter].
  destruct (Z.ltb_spec (key x) b), (Z.leb_spec b (key x)); try lia.
  - cbn [app]. by f_equal.
  - rewrite list_filter_none; [rewrite list_filter_all; [done|]|];
      rewrite Forall_forall in Hall; intros y Hy; specialize (Hall y Hy); bools; lia.
Qed.

Definition last_value (p : float64) (l : list SignalRow) : float64 :=
  match last l with Some r => sr_ValueNumber r | None => p end.

Lemma lag_loop_app p l1 l2 : lag_loop p (l1 ++ l2) = lag_loop p l1 ++ lag_loop (last_value p l1) l2.
Proof.
  revert p; induction l1 as [|r l1 IH]; intros p; [done|]. cbn [app lag_loop]. rewrite IH.
  cbn [app]. do 3 f_equal. unfold last_value.
  destruct l1 as [|x l1]; [done|]. change (last (r :: x :: l1)) with (last (x :: l1)).
  destruct (last (x :: l1)) eqn:E; [done|]. by apply last_None in E.
Qed.

Lemma lag_loop_from p l c : c ∈ lag_loop p l -> exists r, r ∈ l /\ sr_Timestamp r = sc_TS c.
Proof.
  revert p; induction l as [|x l IH]; intros p Hc; [by apply elem_of_nil in Hc|].
  cbn [lag_loop] in Hc. apply elem_of_cons in Hc as [->|Hc]; [exists x; split; [left|done]|].
  apply IH in Hc as (r & Hr & Er). exists r. split; [by right|done].
Qed.

Lemma latest_first_total a b : latest_first a b = true \/ latest_first b a = true.
Proof.
  unfold latest_first. destruct (Z.ltb_spec (sr_Timestamp b) (sr_Timestamp a)); [by left|].
  destruct (Z.ltb_spec (sr_Timestamp a) (sr_Timestamp b)); [by right|].
  assert (sr_Timestamp a = sr_Timestamp b) as -> by lia. rewrite !Z.eqb_refl. simpl. apply sleb_total.
Qed.

Lemma latest_first_trans a b c :
  latest_first a b = true -> latest_first b c = true -> latest_first a c = true.
Proof.
  unfold latest_first. rewrite !orb_true_iff, !andb_true_iff, !Z.ltb_lt, !Z.eqb_eq.
  intros [?|[? H1]] [?|[? H2]]; [left; lia..|]. right. split; [lia|by eapply sleb_trans].
Qed.

(** The seed is the value of the last canonical reading before the window. *)
Lemma seed_is_last subject lbUS toUS : lake_ok lake -> lbUS <= toUS ->
  seed_state lake subject lbUS =
  last_value f64_zero (List.filter (fun r => sr_Timestamp r <? make_timestamp lbUS) (history subject toUS)).
Proof.
  intros Hok Hle. unfold seed_state. set (raw := List.filter _ lake).
  set (sub := List.filter (fun r => of_subject subject r && String.eqb (sr_Name r) isIgnitionOn &&
                (sr_Timestamp r <? make_timestamp toUS)) lake).
  assert (Hmk : make_timestamp lbUS <= make_timestamp toUS)
    by (unfold make_timestamp, Microsecond, Nanosecond; lia).
  assert (Hraw : forall r, r ∈ raw <-> r ∈ lake /\ of_subject subject r = true /\
            sr_Name r = isIgnitionOn /\ sr_Timestamp r < make_timestamp lbUS).
  { intros r. unfold raw. rewrite !list_elem_of_In, filter_In, !andb_true_iff, String.eqb_eq, Z.ltb_lt. tauto. }
  assert (Hsub : forall r, r ∈ sub <-> r ∈ lake /\ of_subject subject r = true /\
            sr_Name r = isIgnitionOn /\ sr_Timestamp r < make_timestamp toUS).
  { intros r. unfold sub. rewrite !list_elem_of_In, filter_In, !andb_true_iff, String.eqb_eq, Z.ltb_lt. tauto. }
  assert (Hone : one_row_per_id sub).
  { intros a b [Ha _]%Hsub [Hb _]%Hsub. by apply (lo_id _ Hok). }
  set (h := List.filter _ (history subject toUS)).
  assert (Hh : forall r, r ∈ h <-> r ∈ signalDedupQualify sub /\ sr_Timestamp r < make_timestamp lbUS).
  { intros r. unfold h. rewrite list_elem_of_In, filter_In, <- list_elem_of_In, Z.ltb_lt.
    unfold history, by_time. by rewrite order_by_perm. }
  assert (Hsorted : StronglySorted (fun a b => sr_Timestamp a < sr_Timestamp b) h).
  { apply list_filter_sorted, order_by_strict, dedup_times. intros a b Ha Hb.
    apply Hsub in Ha as (_ & Ha & -> & _). apply Hsub in Hb as (_ & Hb & -> & _).
    by rewrite (of_subject_true _ _ Ha), (of_subject_true _ _ Hb). }
  pose proof (isort_perm latest_first raw) as Hp.
  pose proof (isort_sorted latest_first latest_first_total latest_first_trans raw) as Hs.
  destruct (isort latest_first raw) as [|r rest] eqn:E.
  - unfold last_value. destruct (last h) as [x|] eqn:El; [|done]. exfalso.
    assert (Hx : x ∈ h) by (by apply last_Some_elem_of).
    apply Hh in Hx as [Hx Hlt]. apply dedup_incl, Hsub in Hx as (H1 & H2 & H3 & _).
    assert (x ∈ raw) as Hxr by (by apply Hraw). rewrite <- Hp in Hxr. by apply elem_of_nil in Hxr.
  - assert (Hr : r ∈ raw) by (rewrite <- Hp; left).
    assert (Hfirst : forall y, y ∈ raw -> latest_first r y = true).
    { intros y Hy. rewrite <- Hp in Hy. apply elem_of_cons in Hy as [->|Hy].
      - by destruct (latest_first_total r r).
      - inversion Hs; subst. rewrite Forall_forall in H2. by apply H2. }
    apply Hraw in Hr as (H1 & H2 & H3 & H4).
    assert (Hrd : r ∈ h).
    { apply Hh. split; [|done]. apply dedup_iff; [done|]. split; [apply Hsub; split_and!; [done..|lia]|].
      intros y Hy Hid. apply Hsub in Hy as (Hy1 & Hy2 & Hy3 & Hy4). unfold ident in Hid.
      injection Hid as _ _ Et. specialize (Hfirst y). rewrite Hraw in Hfirst.
      assert (Hf : latest_first r y = true) by (apply Hfirst; split_and!; [done..|lia]).
      unfold latest_first in Hf. rewrite Et, Z.ltb_irrefl, Z.eqb_refl in Hf. simpl in Hf.
      unfold sleb in Hf. by apply negb_true_iff in Hf. }
    unfold last_value. destruct (last h) as [x|] eqn:El.
    + assert (Hx : x ∈ h) by (by apply last_Some_elem_of).
      assert (Hmax : sr_Timestamp r <= sr_Timestamp x).
      { apply last_Some in El as [h' Eh]. rewrite Eh in Hrd, Hsorted.
        apply elem_of_app in Hrd as [Hrd|Hrd%list_elem_of_singleton]; [|by subst].
        apply list_elem_of_lookup in Hrd as [i Hi].
        pose proof (sorted_lookup _ _ i (length h') r x Hsorted) as Hlt.
        rewrite lookup_app_l in Hlt by (by eapply lookup_lt_Some). rewrite list_lookup_middle in Hlt by done.
        apply lookup_lt_Some in Hi as Hl. specialize (Hlt Hi eq_refl Hl). cbv beta in Hlt. lia. }
      apply Hh in Hx as [Hx Hxlt]. pose proof (proj1 (Hsub x) (dedup_incl _ _ Hx)) as (X1 & X2 & X3 & _).
      assert (Hf : latest_first r x = true) by (apply Hfirst, Hraw; done).
      assert (Et : sr_Timestamp r = sr_Timestamp x).
      { unfold latest_first in Hf. apply orb_true_iff in Hf as [Hf|[Hf _]%andb_true_iff]; bools; lia. }
      apply Hh in Hrd as [Hrd _]. f_equal. eapply dedup_inj; [exact Hrd|exact Hx|].
      unfold ident. rewrite (of_subject_true _ _ H2), (of_subject_true _ _ X2). congruence.
    + apply last_None in El. rewrite El in Hrd. by apply elem_of_nil in Hrd.
Qed.

(** The readings of the window are the end of the history. *)
Lemma window_is_suffix subject lbUS toUS :
  readings lake subject isIgnitionOn lbUS toUS =
  List.filter (fun r => make_timestamp lbUS <=? sr_Timestamp r) (history subject toUS).
Proof.
  unfold readings, history, by_time. rewrite <- order_by_filter by (exact Zleb_total || exact Zleb_trans || exact Zleb_antisym). f_equal.
  rewrite <- dedup_filter.
  - f_equal. unfold scan_name. rewrite list_filter_andb. apply List.filter_ext. intros r.
    unfold in_range. by destruct (of_subject subject r), (String.eqb _ _), (_ <=? _), (_ <? _).
  - intros a b _ _ Hid. unfold ident in Hid. by injection Hid as _ _ ->.
Qed.

Lemma history_sorted subject toUS :
  StronglySorted (fun a b => sr_Timestamp a < sr_Timestamp b) (history subject toUS).
Proof.
  apply order_by_strict, dedup_times. intros a b. rewrite !list_elem_of_In, !filter_In, !andb_true_iff.
  intros (_ & [Ha Ea] & _) (_ & [Hb Eb] & _).
  rewrite (of_subject_true _ _ Ha), (of_subject_true _ _ Hb).
  apply String.eqb_eq in Ea as ->. by apply String.eqb_eq in Eb as ->.
Qed.

Lemma changes_sorted p l :
  StronglySorted (fun a b => sr_Timestamp a < sr_Timestamp b) l ->
  StronglySorted (fun a b => sc_TS a < sc_TS b) (lag_loop p l).
Proof.
  intros Hs. revert p. induction Hs as [|r l Hs IH Hall]; intros p; [constructor|].
  cbn [lag_loop]. constructor; [apply IH|].
  rewrite Forall_forall in Hall. apply Forall_forall.
  intros c (x & Hx & <-)%lag_loop_from. by apply Hall.
Qed.

Lemma all_transitions_sorted subject toUS :
  StronglySorted (fun a b => sc_TS a < sc_TS b) (all_transitions subject toUS).
Proof. apply list_filter_sorted, changes_sorted, history_sorted. Qed.

(** The transitions of the window are those of the history. *)
Lemma transitions_suffix subject lbUS toUS : lake_ok lake -> lbUS <= toUS ->
  exists pre, all_transitions subject toUS = pre ++ transitions lake subject lbUS toUS /\
              Forall (fun c => sc_TS c < make_timestamp lbUS) pre /\
              Forall (fun c => make_timestamp lbUS <= sc_TS c) (transitions lake subject lbUS toUS).
Proof.
  intros Hok Hle. set (b := make_timestamp lbUS).
  assert (Hts : forall p l (P : Z -> Prop), Forall (fun r => P (sr_Timestamp r)) l ->
            Forall (fun c => P (sc_TS c)) (List.filter changed (lag_loop p l))).
  { intros p l P HP. apply Forall_forall. intros c Hc.
    apply list_elem_of_In, filter_In, proj1, list_elem_of_In in Hc.
    apply lag_loop_from in Hc as (x & Hx & <-). rewrite Forall_forall in HP. by apply HP. }
  unfold transitions. fold (readings lake subject isIgnitionOn lbUS toUS).
  rewrite window_is_suffix, (seed_is_last subject lbUS toUS) by done. fold b.
  set (h := history subject toUS).
  exists (List.filter changed (lag_loop f64_zero (List.filter (fun r => sr_Timestamp r <? b) h))).
  split_and!.
  - unfold all_transitions. fold h. rewrite <- List.filter_app, <- lag_loop_app.
    by rewrite <- (sorted_cut sr_Timestamp h b) by apply history_sorted.
  - apply (Hts _ _ (fun t => t < b)). apply Forall_forall. intros r Hr.
    apply list_elem_of_In, filter_In in Hr as [_ Hr]. bools. done.
  - apply (Hts _ _ (fun t => b <= t)). apply Forall_forall. intros r Hr.
    apply list_elem_of_In, filter_In in Hr as [_ Hr]. bools. done.
Qed.

Lemma rev_sorted_geb (l : list StateChange) :
  StronglySorted (fun a b => sc_TS a < sc_TS b) l -> order_by sc_TS Z.geb l = rev l.
Proof.
  intros Hs. unfold order_by. induction Hs as [|x l Hs IH Hall]; [done|]. cbn [isort rev]. rewrite IH.
  assert (Hall' : Forall (fun y => sc_TS x < sc_TS y) (rev l)) by (by rewrite <- Permutation_rev).
  clear -Hall'. revert Hall'. generalize (rev l) as k. induction 1 as [|y k Hy _ IH]; [done|]. cbn [insert_sorted app]. unfold by_key at 1.
  destruct (Z.geb_spec (sc_TS x) (sc_TS y)); [lia|]. by rewrite IH.
Qed.

Lemma exists_last_or {A} (l : list A) : l = [] \/ exists l' x, l = l' ++ [x].
Proof. destruct l as [|y l]; [by left|right]. destruct (@exists_last _ (y :: l)) as (l' & x & ->); eauto. Qed.

(** The two arms together: the last transition before [from] and those after. *)
Lemma union_arms (tr : list StateChange) b :
  StronglySorted (fun x y => sc_TS x < sc_TS y) tr ->
  exists pre seed,
    tr = pre ++ seed ++ List.filter (fun c => b <=? sc_TS c) tr /\
    Forall (fun c => sc_TS c < b) (pre ++ seed) /\ (length seed <= 1)%nat /\ (seed = [] -> pre = []) /\
    order_by sc_TS Z.leb (List.filter (fun c => b <=? sc_TS c) tr ++
      take 1 (order_by sc_TS Z.geb (List.filter (fun c => sc_TS c <? b) tr))) =
    seed ++ List.filter (fun c => b <=? sc_TS c) tr.
Proof.
  intros Hs. set (lo := List.filter (fun c => sc_TS c <? b) tr). set (hi := List.filter _ tr).
  assert (Etr : tr = lo ++ hi) by (by apply sorted_cut).
  assert (Hlo : StronglySorted (fun x y => sc_TS x < sc_TS y) lo) by (by apply list_filter_sorted).
  assert (Hhi : StronglySorted (fun x y => sc_TS x < sc_TS y) hi) by (by apply list_filter_sorted).
  assert (Hb : Forall (fun c => sc_TS c < b) lo).
  { apply Forall_forall. intros c Hc. apply list_elem_of_In, filter_In in Hc as [_ Hc]. bools. done. }
  assert (Hid : forall l, StronglySorted (fun x y => sc_TS x < sc_TS y) l -> order_by sc_TS Z.leb l = l).
  { intros l Hl. apply isort_id. eapply SSorted_impl; [|exact Hl]. intros x y Hxy.
    cbv beta in Hxy. unfold by_key. bools. lia. }
  rewrite rev_sorted_geb by done.
  destruct (exists_last_or lo) as [E|(pre & x & E)].
  - exists [], []. rewrite E. cbn [app rev take]. rewrite app_nil_r. split_and!; try done.
    + rewrite Etr at 1. by rewrite E.
    + simpl. lia.
    + by apply Hid.
  - exists pre, [x]. rewrite E in *. rewrite rev_app_distr. cbn [rev app take]. split_and!; try done.
    + rewrite Etr at 1. by rewrite <- app_assoc.
    + rewrite (order_by_perm_ext sc_TS Z.leb Zleb_total Zleb_trans Zleb_antisym _ (x :: hi)).
      * apply Hid. rewrite Etr, <- app_assoc in Hs. by eapply SSorted_suffix.
      * rewrite Permutation_app_comm. change (take 0 _) with (@nil StateChange). cbn [app].
        apply strict_NoDup. rewrite Etr, <- app_assoc in Hs. by eapply SSorted_suffix.
      * by rewrite Permutation_app_comm.
Qed.
End ignition.

(** The ignition changes the lake returns: when the signal changed state since
    the start of the thirty-day lookback, they are the end of the list of all
    its transitions before [to], computed over the whole history from the state
    zero, and start with the last transition before [from] when there is one
    within the lookback; the bound is otherwise invisible. When it did not change, the answer is empty or a
    single transition to ON, at the first stored reading of the lookback. *)
Theorem lake_ignition_changes lake db_error minus30days subject from to l :
  lake_ok lake -> minus30days from <= from -> from <= to ->
  lake_IgnitionStateChanges lake db_error minus30days subject from to = Ok l ->
  let lb := make_timestamp (UnixMicro (minus30days from)) in
  let fr := make_timestamp (UnixMicro from) in
  let all := all_transitions lake subject (UnixMicro to) in
  (exists pre, all = pre ++ l /\ Forall (fun c => sc_TS c < fr) pre /\
     (length (List.filter (fun c => (sc_TS c <? fr)%Z) l) <= 1)%nat /\
     (forall c, c ∈ l -> lb <= sc_TS c) /\
     (Exists (fun c => lb <= sc_TS c < fr) all -> exists c rest, l = c :: rest /\ sc_TS c < fr)) \/
  (Forall (fun c => sc_TS c < lb) all /\
   exists t, l = [mkStateChange t (f64_of_Z 1) f64_zero] /\
             sql_min sr_Timestamp (scan_name lake subject isIgnitionOn
                (UnixMicro (minus30days from)) (UnixMicro to)) = Some t).
Proof.
  intros Hok Hlb Hft Hres lb fr all.
  assert (HU : forall x y, x <= y -> UnixMicro x <= UnixMicro y).
  { intros x y Hxy. unfold UnixMicro. apply Z.div_le_mono; [reflexivity|done]. }
  assert (Hmk : lb <= fr).
  { unfold lb, fr, make_timestamp. apply Z.mul_le_mono_nonneg_r; [discriminate|by apply HU]. }
  destruct (transitions_suffix lake subject (UnixMicro (minus30days from)) (UnixMicro to))
    as (pre & Eall & Hpre & Hge); [done|apply HU; lia|]. fold all in Eall. fold lb in Hpre, Hge.
  set (tr := transitions lake subject (UnixMicro (minus30days from)) (UnixMicro to)) in *.
  pose proof (all_transitions_sorted lake subject (UnixMicro to)) as Hsall. fold all in Hsall.
  assert (Hstr : StronglySorted (fun a b => sc_TS a < sc_TS b) tr).
  { rewrite Eall in Hsall. by eapply SSorted_suffix. }
  assert (Hto : forall c, c ∈ tr -> sc_TS c < make_timestamp (UnixMicro to)).
  { intros c Hc. unfold tr, transitions in Hc.
    apply list_elem_of_In, filter_In, proj1, list_elem_of_In in Hc.
    apply lag_loop_from in Hc as (x & Hx & <-). apply (readings_range lake) in Hx. apply Hx. }
  destruct (union_arms tr fr Hstr) as (pre' & seed & Etr & Hlo & Hlen & Hnil & Eu).
  assert (Esc : state_changes lake minus30days subject from to =
                seed ++ List.filter (fun c => fr <=? sc_TS c) tr).
  { rewrite <- Eu. unfold state_changes. cbv zeta. fold tr fr. do 2 f_equal.
    rewrite <- (list_filter_all (fun c => sc_TS c <? make_timestamp (UnixMicro to)) tr) at 2
      by (intros c Hc; bools; by apply Hto).
    rewrite list_filter_andb. apply List.filter_ext. intros c. apply andb_comm. }
  assert (Eall' : all = (pre ++ pre') ++ state_changes lake minus30days subject from to).
  { rewrite Eall, Esc, <- app_assoc. f_equal. exact Etr. }
  apply Forall_app in Hlo as [Hlo1 Hlo2].
  assert (Hcommon : l = state_changes lake minus30days subject from to -> exists pre0, all = pre0 ++ l /\
     Forall (fun c => sc_TS c < fr) pre0 /\ (length (List.filter (fun c => (sc_TS c <? fr)%Z) l) <= 1)%nat /\
     (forall c, c ∈ l -> lb <= sc_TS c) /\
     (Exists (fun c => lb <= sc_TS c < fr) all -> exists c rest, l = c :: rest /\ sc_TS c < fr)).
  { intros ->. exists (pre ++ pre'). split_and!; [done| | | |].
    - apply Forall_app. split; [|done]. eapply Forall_impl; [exact Hpre|]. intros c Hc. cbv beta in Hc. lia.
    - rewrite Esc, List.filter_app, length_app, (list_filter_none _ (List.filter _ tr)).
      + rewrite list_filter_all; [simpl; lia|]. intros c Hc. rewrite Forall_forall in Hlo2.
        specialize (Hlo2 c Hc). bools. done.
      + intros c Hc. apply list_elem_of_In, filter_In in Hc as [_ Hc]. bools. done.
    - intros c Hc. rewrite Forall_forall in Hge. apply Hge. rewrite Esc in Hc. rewrite Etr.
      apply elem_of_app. by right.
    - rewrite Esc. rewrite Eall. intros (c & Hc & Hr)%Exists_exists. apply elem_of_app in Hc as [Hc|Hc].
      { rewrite Forall_forall in Hpre. specialize (Hpre c Hc). lia. }
      destruct seed as [|x seed].
      + rewrite Etr, (Hnil eq_refl) in Hc. simpl in Hc.
        apply list_elem_of_In, filter_In in Hc as [_ Hc]. bools. lia.
      + exists x, (seed ++ List.filter (fun c => fr <=? sc_TS c) tr). split; [done|].
        by inversion Hlo2. }
  unfold lake_IgnitionStateChanges in Hres.
  destruct (run_query _ _ (state_changes _ _ _ _ _)) as [out|e] eqn:E; [|done].
  apply run_query_ok in E as ->. cbn [result_bind] in Hres.
  destruct (state_changes lake minus30days subject from to) as [|c cs] eqn:Es.
  - apply run_query_ok in Hres. unfold ongoing_trip in Hres.
    set (rows := scan_name _ _ _ _ _) in *.
    destruct (sql_min sr_Timestamp rows) as [t|]; [|left; apply Hcommon; done].
    destruct (sql_arg_max _ _ rows) as [v|]; [|left; apply Hcommon; done].
    destruct (f64_eqb v (f64_of_Z 1)); [|left; apply Hcommon; done]. right.
    split; [|by exists t]. symmetry in Esc. apply app_eq_nil in Esc as [-> Ehi].
    rewrite Eall'. rewrite (Hnil eq_refl), !app_nil_r. exact Hpre.
  - injection Hres as <-. left. by apply Hcommon.
Qed.

(** ** At concrete tables *)

Definition demo_subject : string := "did:x".

Definition lake_row (name : string) (ts : Z) (ceid : string) (v : float64) : SignalRow :=
  mkSignalRow demo_subject (HashBucket demo_subject) name ts "src" "prod" ceid v ""
    f64_zero f64_zero f64_zero f64_zero.

Lemma demo_lake_ok (l : list SignalRow) :
  Forall (fun r => sr_SubjectBucket r = HashBucket (sr_Subject r)) l ->
  NoDup (map sr_CloudEventID l) -> lake_ok l.
Proof.
  intros Hb Hnd. split; [by apply Forall_forall|]. intros a b Ha Hb' _ Hid.
  apply list_elem_of_lookup in Ha as [i Hi]. apply list_elem_of_lookup in Hb' as [j Hj].
  assert (i = j) as ->; [|congruence].
  eapply NoDup_lookup; [exact Hnd|..]; rewrite list_lookup_fmap.
  - by rewrite Hi.
  - rewrite Hj. simpl. by rewrite Hid.
Qed.

Definition rpm_table : list SignalRow :=
  map (fun p => lake_row FieldPowertrainCombustionEngineSpeed (p.1.1 * Second) p.1.2 (f64_of_Z p.2))
    [(300, "d", 900); (0, "a", 700); (100, "b", 800); (100, "z", 5000); (200, "c", 3000);
     (900, "e", 900); (1000, "f", 0)]%string.

Definition rpm_samples : list LevelSample :=
  map (fun p => mkLevelSample (p.1 * Second) (f64_of_Z p.2))
    [(0, 700); (100, 800); (200, 3000); (300, 900); (900, 900); (1000, 0)].

Example lake_idle_runs_witness :
  let src := LakeSignalSource rpm_table (fun _ => None) (fun t => t - 30 * 24 * Hour) in
  let cfg := Some (mkSegmentConfig (Some 900) (Some 60) None None None) in
  match @IdlingDetector_DetectSegments src demo_subject (50 * Second) (2000 * Second) cfg with
  | Ok l => map seg_Duration l = [50; 600]
  | Err _ => False
  end.
Proof.
  intros src cfg.
  pose proof (lake_idle_runs rpm_table (fun _ => None) (fun t => t - 30 * 24 * Hour) demo_subject
    (50 * Second) (2000 * Second) cfg rpm_samples) as Hspec. cbv zeta in Hspec.
  destruct Hspec as [_ E].
  - apply (proj1 (Forall_forall _ _)). repeat constructor.
  - split; vm_compute; discriminate.
  - vm_compute. discriminate.
  - reflexivity.
  - vm_compute. reflexivity.
  - fold src in E. rewrite E. vm_compute. reflexivity.
Defined.

Definition ignition_table : list SignalRow :=
  map (fun p => lake_row isIgnitionOn (p.1.1 * 24 * Hour) p.1.2 (f64_of_Z p.2))
    [(0, "a", 1); (20, "b", 1); (40, "c", 0); (45, "d", 0); (50, "e", 1)]%string.

Definition day_of (c : StateChange) : Z := sc_TS c / (24 * Hour).

(** The vehicle was switched on before the lookback: no transition is made up. *)
Example lake_ignition_changes_witness :
  exists l, lake_IgnitionStateChanges ignition_table (fun _ => None) (fun t => t - 30 * 24 * Hour) demo_subject
      (48 * 24 * Hour) (60 * 24 * Hour) = Ok l /\
    map day_of l = [40; 50] /\
    exists pre, all_transitions ignition_table demo_subject (UnixMicro (60 * 24 * Hour)) = pre ++ l /\
      map day_of pre = [0].
Proof.
  pose proof (lake_ignition_changes ignition_table (fun _ => None) (fun t => t - 30 * 24 * Hour)
    demo_subject (48 * 24 * Hour) (60 * 24 * Hour)) as Hspec.
  eexists. split; [vm_compute; reflexivity|]. split; [vm_compute; reflexivity|].
  edestruct Hspec as [(pre & Hall & _)|(_ & t & Ht & _)].
  - apply demo_lake_ok; [repeat constructor|]. apply (bool_decide_unpack _). vm_compute. exact I.
  - vm_compute. discriminate.
  - vm_compute. discriminate.
  - vm_compute. reflexivity.
  - exists pre. split; [exact Hall|].
    assert (Ha : map day_of (all_transitions ignition_table demo_subject (UnixMicro (60 * 24 * Hour))) = [0; 40; 50])
      by (vm_compute; reflexivity).
    rewrite Hall, map_app in Ha. by apply (app_inv_tail [40; 50] _ [0]).
  - discriminate.
Defined.

(** Two rows of one reading, the smaller id OFF. *)
Definition tied_on : SignalRow := lake_row isIgnitionOn 10000 "b" (f64_of_Z 1).
Definition tied_off : SignalRow := lake_row isIgnitionOn 10000 "a" (f64_of_Z 0).

(** The fallback for a trip without transitions reads the latest value of the
    rows as stored, without the deduplication every other statement applies:
    with two rows of one reading that disagree, the answer depends on the order
    of the table, and can be an ongoing trip for a vehicle whose canonical
    reading is OFF. *)
Theorem ignition_depends_on_row_order :
  lake_ok [tied_off; tied_on] /\ [tied_off; tied_on] ≡ₚ [tied_on; tied_off] /\
  map sr_ValueNumber (history [tied_on; tied_off] demo_subject 100) = [f64_of_Z 0] /\
  lake_IgnitionStateChanges [tied_off; tied_on] (fun _ => None) (fun t => t - 1000) demo_subject 5000 20000 = Ok [] /\
  lake_IgnitionStateChanges [tied_on; tied_off] (fun _ => None) (fun t => t - 1000) demo_subject 5000 20000 =
    Ok [mkStateChange 10000 (f64_of_Z 1) f64_zero].
Proof.
  split; [|split; [apply Permutation_swap|vm_compute; done]].
  apply demo_lake_ok; [repeat constructor|]. apply (bool_decide_unpack _). vm_compute. exact I.
Qed.
