(* ===== verification/LakeLatest.v ===== *)
(** * internal/service/duck: the latest, summary and point-location queries

    lake_latest.go, lake_rollup.go, lake_rollup_union.go and the row scanners of
    latest.go: what each statement computes over lake.signals, or over the rollup
    table lake.signals_latest. [rollupSelectSQL] (materializer/ducklake.go) is
    the definition of a rollup row. Proved: the rollup answers what the scan
    answers, the union of a rollup up to a watermark and the rows since is the
    scan's summary, and the batched location lookup is the point lookup. *)

From S2P Require Import Prelude Model Validate SignalsRepo Decode Sql LakeSource.

#[local] Set Default Proof Using "Type*".

Definition epochTime : Z := 0.

(** ** Scanned rows (latest.go) *)

(** The nine columns every statement of [querySignals] emits. *)
Record sigRow := mkSigRow {
  q_name : string;
  q_ts : Z;
  q_value_number : float64;
  q_value_string : string;
  q_loc_lat : float64;
  q_loc_lon : float64;
  q_loc_hdop : float64;
  q_loc_heading : float64;
  q_loc_ts : Z;
}.

Definition nonzero_fix (lat lon : float64) : bool :=
  negb (f64_eqb lat f64_zero) || negb (f64_eqb lon f64_zero).

Definition lakeNonZeroLoc (r : SignalRow) : bool := nonzero_fix (sr_LocLat r) (sr_LocLon r).

(** One round of the loop of [querySignals]. *)
Definition scanSignal (r : sigRow) : vssSignal :=
  mkVssSignal (q_name r) (if nonzero_fix (q_loc_lat r) (q_loc_lon r) then q_loc_ts r else q_ts r)
    (q_value_number r) (q_value_string r)
    (mkVssLocation (q_loc_lat r) (q_loc_lon r) (q_loc_hdop r) (q_loc_heading r)).

(** [query ... ORDER BY name]. *)
Definition querySignals (db_error : option string) (rows : list sigRow) : result string (list vssSignal) :=
  match db_error with
  | Some e => Err ("failed querying duckdb: " +:+ e)%string
  | None => Ok (map scanSignal (order_by q_name sleb rows))
  end.

Definition scanSignalSummary (name : string) (count first last : Z) : SignalDataSummary :=
  mkSignalDataSummary name count first last.

(** ** The rollup table (ducklake.go) *)

Record LatestRow := mkLatestRow {
  lr_subject : string;
  lr_subject_bucket : Z;
  lr_name : string;
  lr_timestamp : Z;
  lr_value_number : float64;
  lr_value_string : string;
  lr_loc_lat : float64;
  lr_loc_lon : float64;
  lr_loc_hdop : float64;
  lr_loc_heading : float64;
  (** NULL in rows written before the column existed. *)
  lr_loc_ts : option Z;
  lr_count : Z;
  lr_first_seen : Z;
  lr_last_seen : Z;
}.

(** The rows of one group, and the row the [SELECT] makes of them. *)
Definition group_of (s n : string) (rows : list SignalRow) : list SignalRow :=
  List.filter (fun r => String.eqb (sr_Subject r) s && String.eqb (sr_Name r) n) rows.

Definition arg_max_of {A} (d : A) (f : SignalRow -> A) (g : list SignalRow) : A :=
  default d (sql_arg_max sr_Timestamp f g).

Definition rollup_row (d : list SignalRow) (key : string * string) : LatestRow :=
  let g := group_of key.1 key.2 d in
  let fixes := List.filter lakeNonZeroLoc g in
  mkLatestRow key.1 (default 0 (sr_SubjectBucket <$> head g)) key.2
    (default 0 (sql_max sr_Timestamp g))
    (arg_max_of f64_zero sr_ValueNumber g) (arg_max_of ""%string sr_ValueString g)
    (arg_max_of f64_zero sr_LocLat fixes) (arg_max_of f64_zero sr_LocLon fixes)
    (arg_max_of f64_zero sr_LocHDOP fixes) (arg_max_of f64_zero sr_LocHeading fixes)
    (Some (default (make_timestamp 0) (sql_max sr_Timestamp fixes)))
    (Z.of_nat (length g)) (default 0 (sql_min sr_Timestamp g)) (default 0 (sql_max sr_Timestamp g)).

Definition rollup_keys (d : list SignalRow) : list (string * string) :=
  remove_dups (map (fun r => (sr_Subject r, sr_Name r)) d).

Definition rollupSelectSQL (where_ : SignalRow -> bool) (lake : list SignalRow) : list LatestRow :=
  let d := signalDedupQualify (List.filter where_ lake) in map (rollup_row d) (rollup_keys d).

(** ** Queries over lake.signals (lake_latest.go) *)

Section queries.
(** [cloudevent.DecodeEthrDID]: the contract address of a DID, in hex. *)
Context (DecodeEthrDID : string -> option string).
Context (lake : list SignalRow) (db_error : option string).

Definition signalSourceCond (filter_ : option SignalFilter) : option string :=
  match filter_ with
  | Some f => match sf_Source f with
              | Some source => Some (default source (DecodeEthrDID source))
              | None => None
              end
  | None => None
  end.

Definition source_matches (src : option string) (r : SignalRow) : bool :=
  match src with Some s => String.eqb (sr_Source r) s | None => true end.

(** [name IN (...)]; no names, no restriction. *)
Definition signalNameInCond (names : list string) (r : SignalRow) : bool :=
  match names with [] => true | _ => existsb (String.eqb (sr_Name r)) names end.

Definition LakeSignalsDeduped (subject : string) (src : option string) (names : list string)
  : list SignalRow :=
  signalDedupQualify
    (List.filter (fun r => (sr_SubjectBucket r =? HashBucket subject) && source_matches src r &&
                           signalNameInCond names r) lake).

(** [... FROM <deduped> WHERE subject = ?]. *)
Definition subject_rows (subject : string) (src : option string) : list SignalRow :=
  List.filter (fun r => String.eqb (sr_Subject r) subject) (LakeSignalsDeduped subject src []).

(** The three arms of the [UNION ALL]. *)
Definition named_row (rows : list SignalRow) (n : string) : sigRow :=
  let g := named_rows n rows in
  mkSigRow n (default 0 (sql_max sr_Timestamp g))
    (arg_max_of f64_zero sr_ValueNumber g) (arg_max_of ""%string sr_ValueString g)
    f64_zero f64_zero f64_zero f64_zero epochTime.

Definition location_row (rows : list SignalRow) (n : string) : sigRow :=
  let fixes := List.filter lakeNonZeroLoc (named_rows n rows) in
  let ts := default epochTime (sql_max sr_Timestamp fixes) in
  mkSigRow n ts f64_zero ""
    (arg_max_of f64_zero sr_LocLat fixes) (arg_max_of f64_zero sr_LocLon fixes)
    (arg_max_of f64_zero sr_LocHDOP fixes) (arg_max_of f64_zero sr_LocHeading fixes) ts.

Definition any_row (rows : list SignalRow) (n : string) : sigRow :=
  let g := named_rows n rows in
  let fixes := List.filter lakeNonZeroLoc g in
  mkSigRow n (default 0 (sql_max sr_Timestamp g))
    (arg_max_of f64_zero sr_ValueNumber g) (arg_max_of ""%string sr_ValueString g)
    (arg_max_of f64_zero sr_LocLat fixes) (arg_max_of f64_zero sr_LocLon fixes)
    (arg_max_of f64_zero sr_LocHDOP fixes) (arg_max_of f64_zero sr_LocHeading fixes)
    (default epochTime (sql_max sr_Timestamp fixes)).

Definition lastSeen_row (m : option Z) : sigRow :=
  mkSigRow LastSeenField (default epochTime m) f64_zero "" f64_zero f64_zero f64_zero f64_zero epochTime.

Definition lakeLastSeenQuery (subject : string) (src : option string) : list sigRow :=
  [lastSeen_row (sql_max sr_Timestamp (subject_rows subject src))].

Definition requested (names : gset string) (n : string) : bool := bool_decide (n ∈ names).

Definition nothing_requested (args : LatestSignalsArgs) : bool :=
  bool_decide (la_SignalNames args = ∅) && bool_decide (la_LocationSignalNames args = ∅) &&
  negb (la_IncludeLastSeen args).

Definition getLatestSignalsLake (subject : string) (args : LatestSignalsArgs)
  : result string (list vssSignal) :=
  if nothing_requested args then Ok []
  else
    let src := signalSourceCond (sia_Filter (la_SignalArgs args)) in
    let rows := subject_rows subject src in
    querySignals db_error
      (map (named_row rows) (List.filter (requested (la_SignalNames args)) (distinct_names rows)) ++
       map (location_row rows) (List.filter (requested (la_LocationSignalNames args)) (distinct_names rows)) ++
       if la_IncludeLastSeen args then lakeLastSeenQuery subject src else []).

Definition getAllLatestSignalsLake (subject : string) (filter_ : option SignalFilter)
  : result string (list vssSignal) :=
  let src := signalSourceCond filter_ in
  let rows := subject_rows subject src in
  querySignals db_error (map (any_row rows) (distinct_names rows) ++ lakeLastSeenQuery subject src).

Definition getAvailableSignalsLake (subject : string) (filter_ : option SignalFilter)
  : result string (list string) :=
  match db_error with
  | Some e => Err ("querying lake available signals: " +:+ e)%string
  | None => Ok (distinct_names (subject_rows subject (signalSourceCond filter_)))
  end.

Definition summary_row (rows : list SignalRow) (n : string) : SignalDataSummary :=
  let g := named_rows n rows in
  scanSignalSummary n (Z.of_nat (length g)) (default 0 (sql_min sr_Timestamp g))
    (default 0 (sql_max sr_Timestamp g)).

Definition getSignalSummariesLake (subject : string) (filter_ : option SignalFilter)
  : result string (list SignalDataSummary) :=
  match db_error with
  | Some e => Err ("querying lake signal summaries: " +:+ e)%string
  | None =>
      let rows := subject_rows subject (signalSourceCond filter_) in
      Ok (map (summary_row rows) (distinct_names rows))
  end.

(** ** Point locations *)

Definition locationGapFillLookback : Z := 10 * 365 * 24 * Hour.

Definition FieldCurrentLocationCoordinates : string := "currentLocationCoordinates".

Definition fix_of (r : SignalRow) : Location := mkLocation (sr_LocLat r) (sr_LocLon r) (sr_LocHDOP r).

(** A non-origin fix of the subject at or after a floor. *)
Definition is_fix (subject : string) (floorUS : Z) (r : SignalRow) : bool :=
  of_subject subject r && String.eqb (sr_Name r) FieldCurrentLocationCoordinates &&
  lakeNonZeroLoc r && (make_timestamp floorUS <=? sr_Timestamp r).

Definition location_at (subject : string) (ts : Z) : option Location :=
  let floorMicro := UnixMicro (time_add ts (- locationGapFillLookback)) in
  fix_of <$> head (isort latest_first
    (List.filter (fun r => is_fix subject floorMicro r &&
                           (sr_Timestamp r <=? make_timestamp (UnixMicro ts))) lake)).

Definition LocationAt (subject : string) (ts : Z) : result string (option Location) :=
  match db_error with
  | Some e => Err ("lake location at: " +:+ e)%string
  | None => Ok (location_at subject ts)
  end.

(** The loop over [tss] that finds [minTS]. *)
Fixpoint min_ts (m : Z) (tss : list Z) : Z :=
  match tss with
  | [] => m
  | t :: rest => min_ts (if before t m then t else m) rest
  end.

(** The [ASOF LEFT JOIN] of one probe and the [WHERE] on its result: the row of
    the probe, or none. *)
Definition asof_row (right_ : list SignalRow) (lookbackMicro : Z) (ts_us : Z) : option (option SignalRow) :=
  match top sr_Timestamp (List.filter (fun r => sr_Timestamp r <=? make_timestamp ts_us) right_) with
  | None => Some None
  | Some r => if make_timestamp (ts_us - lookbackMicro) <=? sr_Timestamp r then Some (Some r) else None
  end.

(** The rows [(idx, fix)], and the loop that stores them. *)
Definition asof_rows (right_ : list SignalRow) (lookbackMicro : Z) (tss : list Z)
  : list (nat * option SignalRow) :=
  omap (fun p => (fun o => (p.1, o)) <$> asof_row right_ lookbackMicro p.2)
       (imap (fun i t => (i, UnixMicro t)) tss).

Definition store_fix (out : list (option Location)) (row : nat * option SignalRow) : list (option Location) :=
  match row.2 with
  | None => out
  | Some r => <[row.1 := Some (fix_of r)]> out
  end.

Definition LocationsAt (subject : string) (tss : list Z) : result string (list (option Location)) :=
  let out := replicate (length tss) None in
  match tss with
  | [] => Ok out
  | t0 :: _ =>
      let minTS := min_ts t0 tss in
      let floorMicro := UnixMicro (time_add minTS (- locationGapFillLookback)) in
      let right_ := signalDedupQualify (List.filter (is_fix subject floorMicro) lake) in
      match db_error with
      | Some e => Err ("lake locations at: " +:+ e)%string
      | None => Ok (fold_left store_fix
                      (asof_rows right_ (locationGapFillLookback / Microsecond) tss) out)
      end
  end.
End queries.

(** ** Queries over the rollup (lake_rollup.go) *)

Definition noSourceFilter (f : option SignalFilter) : bool :=
  match f with
  | None => true
  | Some f => match sf_Source f with None => true | Some _ => false end
  end.

Section rollup_queries.
Context (table : list LatestRow) (db_error : option string).

Definition rollup_of (subject : string) : list LatestRow :=
  List.filter (fun r => String.eqb (lr_subject r) subject && (lr_subject_bucket r =? HashBucket subject)) table.

Definition rollup_lastSeen (subject : string) : list sigRow :=
  [lastSeen_row (sql_max lr_last_seen (rollup_of subject))].

Definition rollup_any_row (r : LatestRow) : sigRow :=
  mkSigRow (lr_name r) (lr_timestamp r) (lr_value_number r) (lr_value_string r)
    (lr_loc_lat r) (lr_loc_lon r) (lr_loc_hdop r) (lr_loc_heading r) (default epochTime (lr_loc_ts r)).

Definition rollup_named_row (r : LatestRow) : sigRow :=
  mkSigRow (lr_name r) (lr_timestamp r) (lr_value_number r) (lr_value_string r)
    f64_zero f64_zero f64_zero f64_zero epochTime.

Definition rollup_location_row (r : LatestRow) : sigRow :=
  mkSigRow (lr_name r) (default epochTime (lr_loc_ts r)) f64_zero ""
    (lr_loc_lat r) (lr_loc_lon r) (lr_loc_hdop r) (lr_loc_heading r) (default epochTime (lr_loc_ts r)).

Definition getAllLatestSignalsRollup (subject : string) : result string (list vssSignal) :=
  querySignals db_error (map rollup_any_row (rollup_of subject) ++ rollup_lastSeen subject).

Definition getLatestSignalsRollup (subject : string) (args : LatestSignalsArgs)
  : result string (list vssSignal) :=
  if nothing_requested args then Ok []
  else
    let wanted names := List.filter (fun r => requested names (lr_name r)) (rollup_of subject) in
    querySignals db_error
      (map rollup_named_row (wanted (la_SignalNames args)) ++
       map rollup_location_row (wanted (la_LocationSignalNames args)) ++
       if la_IncludeLastSeen args then rollup_lastSeen subject else []).

Definition getSignalSummariesRollup (subject : string) : result string (list SignalDataSummary) :=
  match db_error with
  | Some e => Err ("querying rollup signal summaries: " +:+ e)%string
  | None => Ok (order_by sds_Name sleb
                  (map (fun r => scanSignalSummary (lr_name r) (lr_count r) (lr_first_seen r) (lr_last_seen r))
                       (rollup_of subject)))
  end.

Definition getAvailableSignalsRollup (subject : string) : result string (list string) :=
  match db_error with
  | Some e => Err ("querying rollup available signals: " +:+ e)%string
  | None => Ok (order_by (fun n => n) sleb (remove_dups (map lr_name (rollup_of subject))))
  end.

(** ** The union with the rows since the watermark (lake_rollup_union.go) *)

Context (lake : list SignalRow).

Definition tail_rows (subject : string) (watermark : Z) : list SignalRow :=
  List.filter (fun r => of_subject subject r &&
                        (make_timestamp (UnixMicro watermark) <=? sr_Timestamp r)) lake.

(** [count(DISTINCT timestamp)], [min], [max] of the rows as stored. *)
Definition tail_summary (rows : list SignalRow) (n : string) : SignalDataSummary :=
  let g := named_rows n rows in
  mkSignalDataSummary n (Z.of_nat (length (remove_dups (map sr_Timestamp g))))
    (default 0 (sql_min sr_Timestamp g)) (default 0 (sql_max sr_Timestamp g)).

(** One row of [r FULL OUTER JOIN t]. *)
Definition joined_summary (r : option LatestRow) (t : option SignalDataSummary) : list SignalDataSummary :=
  match r, t with
  | Some r, Some t =>
      [mkSignalDataSummary (lr_name r) (lr_count r + sds_NumberOfSignals t)
         (Z.min (lr_first_seen r) (sds_FirstSeen t)) (Z.max (lr_last_seen r) (sds_LastSeen t))]
  | Some r, None => [mkSignalDataSummary (lr_name r) (lr_count r) (lr_first_seen r) (lr_last_seen r)]
  | None, Some t => [t]
  | None, None => []
  end.

Definition full_outer_join (R : list LatestRow) (T : list SignalDataSummary) : list SignalDataSummary :=
  flat_map (fun r => match List.filter (fun t => String.eqb (sds_Name t) (lr_name r)) T with
                     | [] => joined_summary (Some r) None
                     | ts => flat_map (fun t => joined_summary (Some r) (Some t)) ts
                     end) R ++
  flat_map (fun t => if existsb (fun r => String.eqb (sds_Name t) (lr_name r)) R then []
                     else joined_summary None (Some t)) T.

Definition getSignalSummariesUnion (subject : string) (watermark : Z)
  : result string (list SignalDataSummary) :=
  match db_error with
  | Some e => Err ("querying union signal summaries: " +:+ e)%string
  | None =>
      let t := tail_rows subject watermark in
      Ok (order_by sds_Name sleb
            (full_outer_join (rollup_of subject) (map (tail_summary t) (distinct_names t))))
  end.
End rollup_queries.

(** ** The cached watermark *)

Definition rollupWatermarkTTL : Z := Minute.

(** [wmVal] and [wmAt]; [read] is the row of lake.ingest_progress. *)
Record wmCache := mkWmCache { wmVal : Z; wmAt : Z }.

Definition cachedRollupWatermark (parseRFC3339 : string -> option Z) (now1 now2 : Z)
    (read : result string (option string)) (c : wmCache) : result string Z * wmCache :=
  if negb (is_zero (wmAt c)) && (time_sub now1 (wmAt c) <? rollupWatermarkTTL) then (Ok (wmVal c), c)
  else
    match read with
    | Ok None => let c' := mkWmCache zero_time now2 in (Ok (wmVal c'), c')
    | Err e => (Err ("reading daily rollup watermark: " +:+ e)%string, c)
    | Ok (Some raw) =>
        match parseRFC3339 raw with
        | None => (Err ("unparseable daily rollup watermark " +:+ raw)%string, c)
        | Some w => let c' := mkWmCache w now2 in (Ok w, c')
        end
    end.

(** ** What a subject's rows are *)

(** The canonical readings of a subject. *)
Definition subject_readings (lake : list SignalRow) (subject : string) : list SignalRow :=
  List.filter (fun r => String.eqb (sr_Subject r) subject) (signalDedupQualify lake).

Lemma ident_subject a b : ident a = ident b -> sr_Subject a = sr_Subject b.
Proof. unfold ident. congruence. Qed.

Lemma ident_ts a b : ident a = ident b -> sr_Timestamp a = sr_Timestamp b.
Proof. unfold ident. congruence. Qed.

(** Cutting the scan to the bucket changes nothing. *)
Lemma subject_rows_eq lake subject : lake_ok lake ->
  subject_rows lake subject None = subject_readings lake subject.
Proof.
  intros Hok. unfold subject_rows, subject_readings, LakeSignalsDeduped.
  rewrite <- !dedup_filter by (intros a b _ _ H; by rewrite (ident_subject _ _ H)).
  f_equal. rewrite list_filter_andb. apply filter_ext_in. intros r Hr. cbn [source_matches signalNameInCond].
  apply list_elem_of_In in Hr. rewrite (lo_bucket _ Hok r Hr).
  destruct (String.eqb_spec (sr_Subject r) subject) as [->|]; [by rewrite Z.eqb_refl|by rewrite !andb_false_r].
Qed.

Lemma elem_of_subject_readings lake subject r :
  r ∈ subject_readings lake subject <-> r ∈ signalDedupQualify lake /\ sr_Subject r = subject.
Proof. unfold subject_readings. rewrite !list_elem_of_In, filter_In, String.eqb_eq. done. Qed.

(** One reading per name and time. *)
Lemma subject_readings_inj lake subject n x y :
  x ∈ named_rows n (subject_readings lake subject) -> y ∈ named_rows n (subject_readings lake subject) ->
  sr_Timestamp x = sr_Timestamp y -> x = y.
Proof.
  rewrite !elem_of_named_rows, !elem_of_subject_readings. intros [[Hx Ex] Nx] [[Hy Ey] Ny] Et.
  eapply dedup_inj; [exact Hx|exact Hy|]. unfold ident. congruence.
Qed.

Lemma list_filter_NoDup {A} (f : A -> bool) l : NoDup l -> NoDup (List.filter f l).
Proof.
  intros Hnd. rewrite <- (map_id (List.filter f l)). apply (NoDup_map_filter (fun x => x)).
  by rewrite map_id.
Qed.

(** ** Rollup rows *)

(** Every row is in its subject's bucket. *)
Definition bucketed (lake : list SignalRow) : Prop :=
  forall r, r ∈ lake -> sr_SubjectBucket r = HashBucket (sr_Subject r).

Definition row_of_subject (subject : string) (r : SignalRow) : bool := String.eqb (sr_Subject r) subject.

Section rollup.
Context (lake : list SignalRow) (where_ : SignalRow -> bool).

Definition kept : list SignalRow := signalDedupQualify (List.filter where_ lake).

Definition kept_readings (subject : string) : list SignalRow :=
  List.filter where_ (subject_readings lake subject).

(** The rows of a subject among the kept ones: the deduplication of its rows. *)
Definition kept_rows (subject : string) : list SignalRow := List.filter (row_of_subject subject) kept.

Lemma kept_rows_dedup subject :
  kept_rows subject =
  signalDedupQualify (List.filter (fun r => where_ r && row_of_subject subject r) lake).
Proof.
  unfold kept_rows, kept. rewrite <- dedup_filter.
  - by rewrite list_filter_andb.
  - intros a b _ _ Hid. unfold row_of_subject. by rewrite (ident_subject _ _ Hid).
Qed.

Lemma group_kept_rows subject n : group_of subject n kept = named_rows n (kept_rows subject).
Proof. unfold group_of, named_rows, kept_rows. by rewrite list_filter_andb. Qed.

Lemma kept_subject subject : (forall a b, ident a = ident b -> where_ a = where_ b) ->
  kept_rows subject = kept_readings subject.
Proof.
  intros Hwhere. unfold kept_rows, kept, kept_readings, subject_readings.
  rewrite dedup_filter by (intros; by apply Hwhere).
  rewrite !list_filter_andb. apply List.filter_ext. intros r. apply andb_comm.
Qed.

Lemma group_kept subject n : (forall a b, ident a = ident b -> where_ a = where_ b) ->
  group_of subject n kept = named_rows n (kept_readings subject).
Proof. intros Hwhere. by rewrite group_kept_rows, kept_subject. Qed.

Lemma kept_lake r : r ∈ kept -> r ∈ lake.
Proof. intros Hr%dedup_incl. by apply list_elem_of_In, filter_In, proj1, list_elem_of_In in Hr. Qed.

Context (Hbucket : bucketed lake).

Lemma rollup_row_bucket s n : (s, n) ∈ rollup_keys kept ->
  lr_subject_bucket (rollup_row kept (s, n)) = HashBucket s.
Proof.
  intros (r & E & Hr)%elem_of_remove_dups%list_elem_of_fmap. injection E as -> ->.
  cbn [rollup_row lr_subject_bucket fst snd].
  assert (Hg : r ∈ group_of (sr_Subject r) (sr_Name r) kept).
  { unfold group_of. apply list_elem_of_In, filter_In. rewrite !String.eqb_refl.
    split; [by apply list_elem_of_In|done]. }
  destruct (group_of _ _ kept) as [|x g] eqn:Eg; [by apply elem_of_nil in Hg|]. simpl.
  assert (Hx : x ∈ group_of (sr_Subject r) (sr_Name r) kept) by (rewrite Eg; left).
  unfold group_of in Hx. apply list_elem_of_In, filter_In in Hx as [Hx [Hs _]%andb_true_iff].
  apply String.eqb_eq in Hs. rewrite <- Hs. apply Hbucket, kept_lake. by apply list_elem_of_In.
Qed.

(** The rows of a subject in the table: one per name. *)
Lemma rollup_of_rows subject :
  rollup_of (rollupSelectSQL where_ lake) subject ≡ₚ
  map (fun n => rollup_row kept (subject, n)) (distinct_names (kept_rows subject)).
Proof.
  unfold rollup_of, rollupSelectSQL. fold kept.
  assert (Hkeys : List.filter (fun r => String.eqb (lr_subject r) subject &&
                     (lr_subject_bucket r =? HashBucket subject)) (map (rollup_row kept) (rollup_keys kept)) =
                  map (rollup_row kept) (List.filter (fun k => String.eqb k.1 subject) (rollup_keys kept))).
  { assert (Hin : forall k, k ∈ rollup_keys kept -> k ∈ rollup_keys kept) by done.
    revert Hin. generalize (rollup_keys kept) at 1 3 4. induction l as [|[s n] l IH]; intros Hin; [done|].
    cbn [map List.filter]. rewrite IH by (intros k Hk; apply Hin; by right).
    rewrite rollup_row_bucket by (apply Hin; left). cbn [rollup_row lr_subject fst].
    destruct (String.eqb_spec s subject) as [->|]; [|done]. by rewrite Z.eqb_refl. }
  rewrite Hkeys. rewrite <- (map_map (pair subject) (rollup_row kept)). apply Permutation_map.
  apply NoDup_Permutation.
  - apply list_filter_NoDup, NoDup_remove_dups.
  - apply NoDup_fmap_2; [intros a b [= ?]; done|apply distinct_names_NoDup].
  - intros [s n]. rewrite list_elem_of_In, filter_In, <- list_elem_of_In, String.eqb_eq.
    unfold rollup_keys. rewrite elem_of_remove_dups, !list_elem_of_fmap. split.
    + intros [(r & [= -> ->] & Hr) Hs]. cbn [fst] in Hs. exists (sr_Name r). split; [by rewrite Hs|].
      apply elem_of_distinct_names. exists r. split; [|done]. unfold kept_rows.
      apply list_elem_of_In, filter_In. split; [by apply list_elem_of_In|by apply String.eqb_eq].
    + intros (m & [= -> ->] & Hm). apply elem_of_distinct_names in Hm as (r & Hr & <-).
      apply list_elem_of_In, filter_In in Hr as [Hr Hs].
      apply String.eqb_eq in Hs. split; [|done]. exists r. split; [by rewrite <- Hs|by apply list_elem_of_In].
Qed.

Lemma rollup_of_select table subject : (forall a b, ident a = ident b -> where_ a = where_ b) ->
  table ≡ₚ rollupSelectSQL where_ lake ->
  rollup_of table subject ≡ₚ
  map (fun n => rollup_row kept (subject, n)) (distinct_names (kept_readings subject)).
Proof.
  intros Hwhere Ht. rewrite <- kept_subject by done. etrans; [apply (list_filter_perm _ _ _ Ht)|].
  apply rollup_of_rows.
Qed.
End rollup.

(** ** The rollup answers what the scan answers *)

Lemma filter_map_comm {A B} (f : A -> B) (p : B -> bool) l :
  List.filter p (map f l) = map f (List.filter (fun a => p (f a)) l).
Proof. induction l as [|a l IH]; [done|]. cbn. destruct (p (f a)); cbn; by rewrite IH. Qed.

Definition everything (r : SignalRow) : bool := true.

Section full_rollup.
Context (lake : list SignalRow) (Hok : lake_ok lake) (table : list LatestRow).
Context (Htable : table ≡ₚ rollupSelectSQL everything lake).
Context (subject : string).

Notation S := (subject_readings lake subject).

Lemma full_kept : kept_readings lake everything subject = S.
Proof using. unfold kept_readings. by apply list_filter_all. Qed.

Lemma full_rollup_of :
  rollup_of table subject ≡ₚ
  map (fun n => rollup_row (kept lake everything) (subject, n)) (distinct_names S).
Proof. rewrite <- full_kept. apply rollup_of_select; [exact (lo_bucket _ Hok)|done|done]. Qed.

Lemma full_group n : group_of subject n (kept lake everything) = named_rows n S.
Proof. rewrite <- full_kept. by apply group_kept. Qed.

(** An arm over the rollup against the arm over the scan. *)
Lemma rollup_arm (req : string -> bool) (f : LatestRow -> sigRow) (g : string -> sigRow) :
  (forall n, f (rollup_row (kept lake everything) (subject, n)) = g n) ->
  map f (List.filter (fun r => req (lr_name r)) (rollup_of table subject)) ≡ₚ
  map g (List.filter req (distinct_names S)).
Proof.
  intros Hfg. etrans; [apply Permutation_map, list_filter_perm, full_rollup_of|].
  rewrite filter_map_comm, map_map. cbn [rollup_row lr_name snd].
  by rewrite (map_ext _ _ Hfg).
Qed.

Lemma rollup_arm_names (req : string -> bool) (f : LatestRow -> sigRow) :
  (forall r, q_name (f r) = lr_name r) ->
  NoDup (map q_name (map f (List.filter (fun r => req (lr_name r)) (rollup_of table subject)))).
Proof.
  intros Hf. rewrite map_map, (map_ext _ _ Hf).
  rewrite (Permutation_map lr_name (list_filter_perm _ _ _ full_rollup_of)), filter_map_comm, map_map.
  cbn [rollup_row lr_name snd]. rewrite map_id. apply list_filter_NoDup, distinct_names_NoDup.
Qed.

Lemma rollup_max_last_seen : sql_max lr_last_seen (rollup_of table subject) = sql_max sr_Timestamp S.
Proof.
  destruct (sql_max sr_Timestamp S) as [m|] eqn:E.
  - apply sql_max_spec in E as [(r & Hr & Er) Hmax].
    assert (Hls : forall n, n ∈ distinct_names S -> exists x,
              sql_max sr_Timestamp (named_rows n S) = Some x).
    { intros n (q & Hq & Eq)%elem_of_distinct_names.
      destruct (sql_max sr_Timestamp (named_rows n S)) as [x|] eqn:Ex; [by exists x|].
      apply sql_max_none in Ex. assert (Hq' : q ∈ named_rows n S) by (by apply elem_of_named_rows).
      rewrite Ex in Hq'. by apply elem_of_nil in Hq'. }
    apply sql_max_unique.
    + exists (rollup_row (kept lake everything) (subject, sr_Name r)). split.
      * rewrite full_rollup_of. apply list_elem_of_fmap. exists (sr_Name r). split; [done|].
        apply elem_of_distinct_names. by exists r.
      * cbn [rollup_row lr_last_seen fst snd]. rewrite full_group.
        erewrite sql_max_unique; [reflexivity| |].
        -- exists r. split; [by apply elem_of_named_rows|exact Er].
        -- intros b [Hb _]%elem_of_named_rows. by apply Hmax.
    + intros b Hb. rewrite full_rollup_of in Hb. apply list_elem_of_fmap in Hb as (n & -> & Hn).
      cbn [rollup_row lr_last_seen fst snd]. rewrite full_group. destruct (Hls n Hn) as (x & Ex). rewrite Ex. simpl.
      apply sql_max_spec in Ex as [(q & Hq & <-) _]. apply elem_of_named_rows in Hq as [Hq _]. by apply Hmax.
  - apply sql_max_none in E. apply sql_max_none.
    apply Permutation_nil_r. rewrite full_rollup_of, E. done.
Qed.

Lemma named_group n : rollup_named_row (rollup_row (kept lake everything) (subject, n)) = named_row S n.
Proof. unfold rollup_named_row, named_row. cbn [rollup_row lr_name lr_timestamp lr_value_number
  lr_value_string fst snd]. by rewrite full_group. Qed.

Lemma location_group n : rollup_location_row (rollup_row (kept lake everything) (subject, n)) = location_row S n.
Proof. unfold rollup_location_row, location_row. cbn [rollup_row lr_name lr_loc_ts lr_loc_lat lr_loc_lon
  lr_loc_hdop lr_loc_heading fst snd default]. by rewrite full_group. Qed.

Lemma any_group n : rollup_any_row (rollup_row (kept lake everything) (subject, n)) = any_row S n.
Proof. unfold rollup_any_row, any_row. cbn [rollup_row lr_name lr_timestamp lr_value_number lr_value_string
  lr_loc_ts lr_loc_lat lr_loc_lon lr_loc_hdop lr_loc_heading fst snd default]. by rewrite full_group. Qed.

Lemma rollup_latest_eq dec args : noSourceFilter (sia_Filter (la_SignalArgs args)) = true ->
  getLatestSignalsRollup table None subject args = getLatestSignalsLake dec lake None subject args.
Proof.
  intros Hns. unfold getLatestSignalsRollup, getLatestSignalsLake. destruct (nothing_requested args); [done|].
  replace (signalSourceCond dec (sia_Filter (la_SignalArgs args))) with (@None string)
    by (destruct (la_SignalArgs args) as [[[[?|]]|] ?]; done).
  cbv zeta. unfold rollup_lastSeen, lakeLastSeenQuery. rewrite subject_rows_eq, rollup_max_last_seen by done.
  unfold querySignals. do 2 f_equal. apply (order_by_union q_name sleb sleb_total sleb_trans sleb_antisym).
  - by apply rollup_arm_names.
  - apply rollup_arm, named_group.
  - by apply rollup_arm_names.
  - apply rollup_arm, location_group.
Qed.

Lemma rollup_all_eq dec :
  getAllLatestSignalsRollup table None subject = getAllLatestSignalsLake dec lake None subject None.
Proof.
  unfold getAllLatestSignalsRollup, getAllLatestSignalsLake. cbv zeta. cbn [signalSourceCond].
  unfold rollup_lastSeen, lakeLastSeenQuery. rewrite subject_rows_eq, rollup_max_last_seen by done.
  unfold querySignals. do 2 f_equal.
  pose proof (rollup_arm (fun _ => true) rollup_any_row (any_row S) any_group) as P.
  pose proof (rollup_arm_names (fun _ => true) rollup_any_row (fun _ => eq_refl)) as N.
  rewrite !(list_filter_all (fun _ => true)) in P by done.
  rewrite (list_filter_all (fun _ => true)) in N by done.
  apply (order_by_union q_name sleb sleb_total sleb_trans sleb_antisym _ _ [] []); [done..|constructor|done].
Qed.

(** Rows with the names of a sorted list, in the order of their names. *)
Lemma order_by_names {A} (key : A -> string) (f : string -> A) l ns :
  (forall n, key (f n) = n) -> l ≡ₚ map f (distinct_names ns) ->
  order_by key sleb l = map f (distinct_names ns).
Proof using.
  intros Hf Hp.
  rewrite (order_by_perm_ext key sleb sleb_total sleb_trans sleb_antisym _ (map f (distinct_names ns))); [|..|done].
  - apply order_by_id. apply SSorted_map. eapply SSorted_impl; [|apply distinct_names_sorted].
    intros a b Hab. unfold by_key. by rewrite !Hf.
  - rewrite Hp, map_map, (map_ext _ _ Hf), map_id. apply distinct_names_NoDup.
Qed.

Lemma rollup_summaries_eq dec :
  getSignalSummariesRollup table None subject = getSignalSummariesLake dec lake None subject None.
Proof.
  unfold getSignalSummariesRollup, getSignalSummariesLake. f_equal. cbv zeta. cbn [signalSourceCond].
  rewrite subject_rows_eq by done. apply order_by_names; [done|].
  etrans; [apply Permutation_map, full_rollup_of|]. rewrite map_map.
  erewrite map_ext; [reflexivity|]. intros n. unfold summary_row. cbn [rollup_row lr_name lr_count
    lr_first_seen lr_last_seen fst snd]. by rewrite full_group.
Qed.

Lemma rollup_available_eq dec :
  getAvailableSignalsRollup table None subject = getAvailableSignalsLake dec lake None subject None.
Proof.
  unfold getAvailableSignalsRollup, getAvailableSignalsLake. f_equal. cbn [signalSourceCond].
  rewrite subject_rows_eq by done. rewrite <- (map_id (distinct_names S)). apply order_by_names; [done|].
  assert (Hp : map lr_name (rollup_of table subject) ≡ₚ distinct_names S).
  { etrans; [apply Permutation_map, full_rollup_of|]. rewrite map_map. cbn [rollup_row lr_name snd].
    by rewrite map_id. }
  rewrite map_id. apply NoDup_Permutation; [apply NoDup_remove_dups|apply distinct_names_NoDup|].
  intros n. by rewrite elem_of_remove_dups, Hp.
Qed.
End full_rollup.

(** C21. The rollup answers what the scan answers: when lake.signals_latest holds
    [rollupSelectSQL] of the whole table, the latest-value, all-latest, summary
    and available-signal queries read from it equal those computed by the
    deduplicating scan of lake.signals, for every subject and every request
    without a source filter. *)
Theorem rollup_serves_scan dec lake table subject args :
  lake_ok lake -> table ≡ₚ rollupSelectSQL everything lake ->
  noSourceFilter (sia_Filter (la_SignalArgs args)) = true ->
  getLatestSignalsRollup table None subject args = getLatestSignalsLake dec lake None subject args /\
  getAllLatestSignalsRollup table None subject = getAllLatestSignalsLake dec lake None subject None /\
  getSignalSummariesRollup table None subject = getSignalSummariesLake dec lake None subject None /\
  getAvailableSignalsRollup table None subject = getAvailableSignalsLake dec lake None subject None.
Proof.
  intros Hok Htable Hns. split_and!.
  - by apply rollup_latest_eq.
  - by apply rollup_all_eq.
  - by apply rollup_summaries_eq.
  - by apply rollup_available_eq.
Qed.

(** ** The rollup up to a watermark and the rows since *)

(** The bound of the daily refresh: [timestamp < W]. *)
Definition before_watermark (w : Z) (r : SignalRow) : bool :=
  sr_Timestamp r <? make_timestamp (UnixMicro w).

Lemma before_watermark_ident w a b : ident a = ident b -> before_watermark w a = before_watermark w b.
Proof. intros Hid. unfold before_watermark. by rewrite (ident_ts _ _ Hid). Qed.

Lemma flat_map_singletons {A B} (f : A -> list B) (g : A -> B) l :
  (forall a, a ∈ l -> f a = [g a]) -> flat_map f l = map g l.
Proof.
  induction l as [|a l IH]; intros H; [done|]. cbn. rewrite (H a) by left.
  rewrite IH by (intros x Hx; apply H; by right). done.
Qed.

Lemma flat_map_drop {A B} (p : A -> bool) (g : A -> B) l :
  flat_map (fun a => if p a then [] else [g a]) l = map g (List.filter (fun a => negb (p a)) l).
Proof. induction l as [|a l IH]; [done|]. cbn. rewrite IH. by destruct (p a). Qed.

Lemma filter_one (n : string) l : NoDup l ->
  List.filter (fun x => String.eqb x n) l = if decide (n ∈ l) then [n] else [].
Proof.
  induction 1 as [|x l Hx Hnd IH]; [done|]. cbn [List.filter]. rewrite IH.
  destruct (String.eqb_spec x n) as [->|Hne].
  - rewrite decide_False by done. by rewrite decide_True by left.
  - destruct (decide (n ∈ l)) as [H|H]; [by rewrite decide_True by (by right)|].
    rewrite decide_False; [done|]. intros [->|?]%elem_of_cons; done.
Qed.

Lemma named_filter n p l : named_rows n (List.filter p l) = List.filter p (named_rows n l).
Proof. unfold named_rows. rewrite !list_filter_andb. apply List.filter_ext. intros r. apply andb_comm. Qed.

Lemma length_split {A} (f : A -> bool) (l : list A) :
  length l = (length (List.filter (fun a => negb (f a)) l) + length (List.filter f l))%nat.
Proof. induction l as [|a l IH]; [done|]. cbn. destruct (f a); cbn; lia. Qed.

Section union.
Context (lake : list SignalRow) (Hok : lake_ok lake) (w : Z) (table : list LatestRow) (subject : string).
Context (Htable : rollup_of table subject ≡ₚ rollup_of (rollupSelectSQL (before_watermark w) lake) subject).

Notation S := (subject_readings lake subject).

Definition since (r : SignalRow) : bool := make_timestamp (UnixMicro w) <=? sr_Timestamp r.

Lemma before_since r : before_watermark w r = negb (since r).
Proof using. unfold before_watermark, since. apply Z.ltb_antisym. Qed.

Definition hi : list SignalRow := List.filter since S.
Definition lo : list SignalRow := List.filter (fun r => negb (since r)) S.

Lemma kept_lo : kept_readings lake (before_watermark w) subject = lo.
Proof using. unfold kept_readings, lo. apply List.filter_ext. apply before_since. Qed.

(** The stored rows since the watermark have the times of the canonical ones. *)
Lemma tail_times n :
  same_times sr_Timestamp (named_rows n (tail_rows lake subject w)) (named_rows n hi).
Proof using Hok.
  assert (HT : forall r, r ∈ tail_rows lake subject w <-> r ∈ lake /\ sr_Subject r = subject /\ since r = true).
  { intros r. unfold tail_rows. rewrite list_elem_of_In, filter_In, andb_true_iff, <- list_elem_of_In.
    split; [intros (H1 & H2 & H3)|intros (H1 & H2 & H3)]; split_and!; try done.
    - by apply of_subject_true.
    - by apply (of_subject_iff lake). }
  assert (HH : forall r, r ∈ hi <-> r ∈ S /\ since r = true).
  { intros r. unfold hi. by rewrite list_elem_of_In, filter_In, <- list_elem_of_In. }
  intros t. split; intros (r & Hr & <-); apply elem_of_named_rows in Hr as [Hr Hn].
  - apply HT in Hr as (Hr & Hs & Hge). destruct (dedup_winner lake r Hr) as (q & Hq & Hid & _).
    exists q. split; [|by apply ident_ts]. apply elem_of_named_rows. unfold ident in Hid.
    injection Hid as E1 E2 E3. split; [|congruence]. apply HH. split.
    + apply elem_of_subject_readings. split; [done|congruence].
    + unfold since in *. by rewrite E3.
  - apply HH in Hr as [[Hr Hs]%elem_of_subject_readings Hge]. exists r. split; [|done].
    apply elem_of_named_rows. split; [|done]. apply HT. split; [by apply dedup_incl|done].
Qed.

Lemma named_times_NoDup n p : NoDup (map sr_Timestamp (named_rows n (List.filter p S))).
Proof using.
  rewrite named_filter. apply NoDup_map_filter.
  pose proof (subject_readings_inj lake subject n) as Hinj.
  assert (Hnd : NoDup (named_rows n S)).
  { apply list_filter_NoDup, list_filter_NoDup, dedup_NoDup'. }
  revert Hnd Hinj. generalize (named_rows n S). clear. induction 1 as [|x l Hx Hnd IH]; intros Hinj; [constructor|].
  cbn [map]. constructor.
  - rewrite list_elem_of_fmap. intros (y & Hy & Hyl). apply Hx.
    rewrite (Hinj x y); [done|left|by right|done].
  - apply IH. intros a b Ha Hb. apply Hinj; by right.
Qed.

Lemma tail_summary_eq n : tail_summary (tail_rows lake subject w) n = summary_row hi n.
Proof using Hok.
  pose proof (tail_times n) as Ht. unfold tail_summary, summary_row, scanSignalSummary.
  rewrite (sql_min_times _ _ _ Ht), (sql_max_times _ _ _ Ht). f_equal. f_equal.
  rewrite <- (length_map sr_Timestamp (named_rows n hi)). apply Permutation_length.
  apply NoDup_Permutation; [apply NoDup_remove_dups|apply named_times_NoDup|].
  intros t. rewrite elem_of_remove_dups, !list_elem_of_fmap. specialize (Ht t).
  split; intros (r & H1 & H2); [destruct (proj1 Ht) as (q & ? & ?)|destruct (proj2 Ht) as (q & ? & ?)]; eauto.
Qed.

Lemma tail_names : distinct_names (tail_rows lake subject w) = distinct_names hi.
Proof using Hok.
  apply distinct_names_set. intros n. split; intros (r & Hr & En).
  - destruct (proj1 (tail_times n (sr_Timestamp r))) as (q & Hq & _).
    + exists r. split; [by apply elem_of_named_rows|done].
    + apply elem_of_named_rows in Hq as [Hq Hn]. by exists q.
  - destruct (proj2 (tail_times n (sr_Timestamp r))) as (q & Hq & _).
    + exists r. split; [by apply elem_of_named_rows|done].
    + apply elem_of_named_rows in Hq as [Hq Hn]. by exists q.
Qed.

(** A summary is the sum of the summaries of the two parts. *)
Lemma named_nonempty n l : n ∈ distinct_names l -> exists x y,
  sql_min sr_Timestamp (named_rows n l) = Some x /\ sql_max sr_Timestamp (named_rows n l) = Some y.
Proof using.
  intros (r & Hr & En)%elem_of_distinct_names.
  assert (Hg : r ∈ named_rows n l) by (by apply elem_of_named_rows).
  destruct (sql_min sr_Timestamp (named_rows n l)) as [x|] eqn:E1,
    (sql_max sr_Timestamp (named_rows n l)) as [y|] eqn:E2; [by exists x, y|..]; exfalso.
  - apply sql_max_none in E2. rewrite E2 in Hg. by apply elem_of_nil in Hg.
  - apply sql_min_none in E1. rewrite E1 in Hg. by apply elem_of_nil in Hg.
  - apply sql_min_none in E1. rewrite E1 in Hg. by apply elem_of_nil in Hg.
Qed.

Lemma named_empty n l : n ∉ distinct_names l -> named_rows n l = [].
Proof using.
  intros Hn. apply list_filter_none. intros r Hr. destruct (String.eqb_spec (sr_Name r) n); [|done].
  destruct Hn. apply elem_of_distinct_names. by exists r.
Qed.

Lemma summary_split n :
  summary_row S n = mkSignalDataSummary n
    (Z.of_nat (length (named_rows n lo)) + Z.of_nat (length (named_rows n hi)))
    (default 0 (match sql_min sr_Timestamp (named_rows n lo), sql_min sr_Timestamp (named_rows n hi) with
                | Some x, Some y => Some (Z.min x y) | Some x, None => Some x | None, o => o end))
    (default 0 (match sql_max sr_Timestamp (named_rows n lo), sql_max sr_Timestamp (named_rows n hi) with
                | Some x, Some y => Some (Z.max x y) | Some x, None => Some x | None, o => o end)).
Proof using.
  unfold summary_row, scanSignalSummary, lo, hi. rewrite !named_filter.
  rewrite (sql_min_split sr_Timestamp since (named_rows n S)).
  rewrite (sql_max_split sr_Timestamp since (named_rows n S)).
  rewrite (length_split since (named_rows n S)). f_equal. lia.
Qed.

(** What the join makes of a row of the rollup. *)
Lemma join_left n : n ∈ distinct_names lo ->
  match List.filter (fun t => String.eqb (sds_Name t) n) (map (summary_row hi) (distinct_names hi)) with
  | [] => joined_summary (Some (rollup_row (kept lake (before_watermark w)) (subject, n))) None
  | ts => flat_map (fun t => joined_summary (Some (rollup_row (kept lake (before_watermark w)) (subject, n)))
                               (Some t)) ts
  end = [summary_row S n].
Proof using Hok.
  intros Hn. rewrite filter_map_comm. cbn [summary_row scanSignalSummary sds_Name].
  rewrite filter_one by apply distinct_names_NoDup.
  assert (Hg : group_of subject n (kept lake (before_watermark w)) = named_rows n lo).
  { rewrite <- kept_lo. apply group_kept, before_watermark_ident. }
  destruct (named_nonempty n lo Hn) as (x & y & Ex & Ey). rewrite summary_split, Ex, Ey.
  destruct (decide (n ∈ distinct_names hi)) as [Hh|Hh]; cbn [map flat_map app joined_summary];
    cbn [rollup_row lr_name lr_count lr_first_seen lr_last_seen fst snd]; rewrite Hg, Ex, Ey.
  - destruct (named_nonempty n hi Hh) as (x' & y' & Ex' & Ey'). cbn [summary_row scanSignalSummary
      sds_NumberOfSignals sds_FirstSeen sds_LastSeen]. by rewrite Ex', Ey'.
  - rewrite (named_empty n hi Hh). simpl. by rewrite Z.add_0_r.
Qed.

Lemma join_right n : n ∉ distinct_names lo -> summary_row hi n = summary_row S n.
Proof using. intros Hn. rewrite summary_split, (named_empty n lo Hn). done. Qed.

Lemma union_rows :
  full_outer_join (rollup_of table subject)
    (map (tail_summary (tail_rows lake subject w)) (distinct_names (tail_rows lake subject w))) ≡ₚ
  map (summary_row S) (distinct_names S).
Proof.
  rewrite tail_names, (map_ext _ _ tail_summary_eq).
  pose proof (rollup_of_rows lake (before_watermark w) (lo_bucket _ Hok) subject) as HR.
  rewrite <- Htable, (kept_subject _ _ _ (before_watermark_ident w)), kept_lo in HR.
  assert (Hnames : map lr_name (rollup_of table subject) ≡ₚ distinct_names lo).
  { rewrite HR, map_map. cbn [rollup_row lr_name snd]. by rewrite map_id. }
  unfold full_outer_join.
  rewrite (flat_map_singletons _ (fun r => summary_row S (lr_name r))).
  2:{ intros r Hr. rewrite HR in Hr. apply list_elem_of_fmap in Hr as (n & -> & Hn). by apply join_left. }
  change (joined_summary None) with (fun t : option SignalDataSummary => match t with Some t => [t] | None => [] end).
  cbv beta iota. rewrite flat_map_drop, map_id, filter_map_comm. cbn [summary_row scanSignalSummary sds_Name].
  rewrite <- (map_map lr_name (summary_row S)).
  set (fresh := List.filter _ (distinct_names hi)).
  assert (Hfresh : forall n, n ∈ fresh <-> n ∈ distinct_names hi /\ n ∉ distinct_names lo).
  { intros n. unfold fresh. rewrite list_elem_of_In, filter_In, <- list_elem_of_In, negb_true_iff.
    rewrite <- not_true_iff_false, existsb_exists. apply and_iff_compat_l.
    rewrite <- Hnames. split; intros H Hc; apply H.
    - apply list_elem_of_fmap in Hc as (r & -> & Hr). exists r. split; [by apply list_elem_of_In|apply String.eqb_refl].
    - destruct Hc as (r & Hr & E%String.eqb_eq). apply list_elem_of_fmap. exists r.
      split; [done|by apply list_elem_of_In]. }
  rewrite (map_ext_in (summary_row hi) (summary_row S) fresh).
  2:{ intros n Hn. apply join_right. apply list_elem_of_In, Hfresh in Hn as [_ Hn]. done. }
  rewrite <- map_app. apply Permutation_map. rewrite Hnames. apply NoDup_Permutation.
  - apply NoDup_app. split_and!; [apply distinct_names_NoDup| |apply list_filter_NoDup, distinct_names_NoDup].
    intros n Hn Hf. by apply Hfresh in Hf as [_ Hf].
  - apply distinct_names_NoDup.
  - intros n. rewrite elem_of_app, Hfresh, !elem_of_distinct_names. unfold lo, hi. split.
    + intros [(r & Hr & En)|[(r & Hr & En) _]]; exists r; (split; [|done]);
        by apply list_elem_of_In, filter_In, proj1, list_elem_of_In in Hr.
    + intros (r & Hr & En). destruct (decide (n ∈ distinct_names lo)) as [Hl|Hl].
      * left. by apply elem_of_distinct_names.
      * right. rewrite elem_of_distinct_names in Hl. unfold lo in Hl. split; [|done]. exists r. split; [|done].
        apply list_elem_of_In, filter_In. split; [by apply list_elem_of_In|].
        apply not_false_iff_true. intros Hf. apply Hl. exists r. split; [|done].
        apply list_elem_of_In, filter_In. split; [by apply list_elem_of_In|by rewrite Hf].
Qed.
End union.

Lemma union_summaries_eq dec lake w table subject :
  lake_ok lake ->
  rollup_of table subject ≡ₚ rollup_of (rollupSelectSQL (before_watermark w) lake) subject ->
  getSignalSummariesUnion table None lake subject w = getSignalSummariesLake dec lake None subject None.
Proof.
  intros Hok Ht. unfold getSignalSummariesUnion, getSignalSummariesLake. f_equal. cbv zeta.
  cbn [signalSourceCond]. rewrite subject_rows_eq by done. apply order_by_names; [done|].
  by apply union_rows.
Qed.

(** The summaries under the daily rollup are exact: when the rollup holds, of
    the subject, [rollupSelectSQL] of the rows before the watermark, joining it with the
    counts of the distinct times of the rows as stored since the watermark gives
    the summaries of the deduplicating scan, names first seen after the
    watermark included, although the second part is not deduplicated. *)
Theorem union_summaries_exact dec lake w table subject :
  lake_ok lake ->
  rollup_of table subject ≡ₚ rollup_of (rollupSelectSQL (before_watermark w) lake) subject ->
  getSignalSummariesUnion table None lake subject w = getSignalSummariesLake dec lake None subject None.
Proof. apply union_summaries_eq. Qed.

(** ** The batched location lookup is the point lookup *)

(** The fix a probe of the join yields. *)
Definition asof_fix (right_ : list SignalRow) (lb ts_us : Z) : option Location :=
  match asof_row right_ lb ts_us with Some (Some r) => Some (fix_of r) | _ => None end.

Lemma store_rows right_ lb tss : forall (pre : list (option Location)) k, length pre = k ->
  fold_left store_fix
    (omap (fun p : nat * Z => (fun o => (p.1, o)) <$> asof_row right_ lb p.2)
       (imap (fun i t => ((k + i)%nat, UnixMicro t)) tss)) (pre ++ replicate (length tss) None) =
  pre ++ map (fun t => asof_fix right_ lb (UnixMicro t)) tss.
Proof.
  induction tss as [|t tss IH]; intros pre k Hk; [done|].
  rewrite imap_cons. cbn [omap list_omap length replicate map]. rewrite Nat.add_0_r. cbn [fst snd].
  assert (Hcons : forall (x : option Location) l, pre ++ x :: l = (pre ++ [x]) ++ l)
    by (intros; by rewrite <- app_assoc).
  assert (Hnext : forall x : option Location, length (pre ++ [x]) = S k) by (intros; rewrite length_app; simpl; lia).
  rewrite (imap_ext _ (fun i t => ((S k + i)%nat, UnixMicro t))) by (intros; cbn; f_equal; lia).
  unfold asof_fix at 1.
  destruct (asof_row right_ lb (UnixMicro t)) as [[r|]|]; cbn [fmap option_fmap option_map fold_left store_fix fst snd].
  - rewrite (Hcons (Some _) (map _ _)). rewrite <- (IH (pre ++ [Some (fix_of r)]) (S k)) by apply Hnext.
    rewrite <- (Hcons (Some _)). f_equal. rewrite <- Hk.
    rewrite insert_app_r_alt by lia. by rewrite Nat.sub_diag.
  - rewrite (Hcons None (replicate _ _)), (Hcons None (map _ _)). by apply IH.
  - rewrite (Hcons None (replicate _ _)), (Hcons None (map _ _)). by apply IH.
Qed.

Lemma min_ts_le m tss : min_ts m tss <= m /\ Forall (fun t => min_ts m tss <= t) tss.
Proof.
  revert m; induction tss as [|t tss IH]; intros m; [split; [reflexivity|constructor]|]. cbn [min_ts].
  destruct (IH (if before t m then t else m)) as [H1 H2]. unfold before in *.
  destruct (Z.ltb_spec t m); (split; [lia|]); (constructor; [lia|done]).
Qed.

Lemma lookback_micro t :
  make_timestamp (UnixMicro t - locationGapFillLookback / Microsecond) =
  make_timestamp (UnixMicro (time_add t (- locationGapFillLookback))).
Proof.
  unfold make_timestamp, UnixMicro, time_add. f_equal.
  change locationGapFillLookback with (315360000000000 * Microsecond).
  rewrite Z.div_mul by discriminate. rewrite <- Z.mul_opp_l, Z.div_add by discriminate. lia.
Qed.

Lemma asof_is_point lake subject floorUS t : lake_ok lake ->
  floorUS <= UnixMicro (time_add t (- locationGapFillLookback)) ->
  asof_fix (signalDedupQualify (List.filter (is_fix subject floorUS) lake))
    (locationGapFillLookback / Microsecond) (UnixMicro t) = location_at lake subject t.
Proof.
  intros Hok Hfloor. set (fl := UnixMicro (time_add t (- locationGapFillLookback))) in *.
  set (b := make_timestamp (UnixMicro t)).
  unfold asof_fix, asof_row, location_at. fold fl. rewrite lookback_micro. fold fl b.
  set (F := List.filter (fun r => is_fix subject fl r && _) lake).
  set (fixes := List.filter (is_fix subject floorUS) lake).
  assert (Hfl : make_timestamp floorUS <= make_timestamp fl).
  { unfold make_timestamp, Microsecond, Nanosecond. lia. }
  assert (Hfix : forall u r, is_fix subject u r = true <->
            is_fix subject 0 (mkSignalRow (sr_Subject r) (sr_SubjectBucket r) (sr_Name r) 0 "" "" ""
              (sr_ValueNumber r) "" (sr_LocLat r) (sr_LocLon r) (sr_LocHDOP r) (sr_LocHeading r)) = true /\
            make_timestamp u <= sr_Timestamp r).
  { intros u r. unfold is_fix, of_subject, lakeNonZeroLoc. cbn [sr_Subject sr_SubjectBucket sr_Name sr_LocLat
      sr_LocLon sr_Timestamp]. rewrite !andb_true_iff, Z.leb_le. intuition. }
  assert (HF : forall r, r ∈ F <-> r ∈ lake /\ is_fix subject fl r = true /\ sr_Timestamp r <= b).
  { intros r. unfold F. rewrite list_elem_of_In, filter_In, andb_true_iff, Z.leb_le, <- list_elem_of_In. done. }
  assert (Hfixes : forall r, r ∈ fixes <-> r ∈ lake /\ is_fix subject floorUS r = true).
  { intros r. unfold fixes. by rewrite list_elem_of_In, filter_In, <- list_elem_of_In. }
  assert (HFf : forall r, r ∈ F -> r ∈ fixes).
  { intros r (Hr & Hi & _)%HF. apply Hfixes. split; [done|]. apply Hfix in Hi as [Hi Hge].
    apply Hfix. split; [done|lia]. }
  assert (Hkey : forall r, r ∈ fixes -> sr_Subject r = subject /\ sr_Name r = FieldCurrentLocationCoordinates).
  { intros r [_ Hi]%Hfixes. unfold is_fix in Hi. rewrite !andb_true_iff, String.eqb_eq in Hi.
    destruct Hi as [[[Hs Hn] _] _]. split; [by apply of_subject_true|done]. }
  set (cand := List.filter (fun r => sr_Timestamp r <=? b) (signalDedupQualify fixes)).
  assert (Hcand : forall r, r ∈ cand <-> r ∈ signalDedupQualify fixes /\ sr_Timestamp r <= b).
  { intros r. unfold cand. by rewrite list_elem_of_In, filter_In, Z.leb_le, <- list_elem_of_In. }
  (* a fix of the point query has its winner among the candidates *)
  assert (Hwin : forall r, r ∈ F -> exists q, q ∈ cand /\ ident q = ident r).
  { intros r Hr. destruct (dedup_winner fixes r (HFf r Hr)) as (q & Hq & Hid & _).
    exists q. split; [|done]. apply Hcand. split; [done|]. apply HF in Hr as (_ & _ & Hr).
    by rewrite (ident_ts _ _ Hid). }
  pose proof (isort_perm latest_first F) as Hp.
  pose proof (isort_sorted latest_first latest_first_total latest_first_trans F) as Hs.
  destruct (top sr_Timestamp cand) as [r1|] eqn:Et.
  2:{ apply top_none in Et. destruct (isort latest_first F) as [|r0 l] eqn:Es; [done|].
      destruct (Hwin r0) as (q & Hq & _); [rewrite <- Hp; left|]. rewrite Et in Hq. by apply elem_of_nil in Hq. }
  apply top_spec in Et as [Hr1 Hmax].
  destruct (Z.leb_spec (make_timestamp fl) (sr_Timestamp r1)) as [Hge|Hlt].
  - pose proof (proj1 (Hcand r1) Hr1) as [Hd1 Hb1].
    pose proof (proj1 (Hfixes r1) (dedup_incl _ _ Hd1)) as [Hl1 Hi1].
    assert (HF1 : r1 ∈ F).
    { apply HF. split_and!; [done| |done]. apply Hfix in Hi1 as [Hi1 _]. by apply Hfix. }
    destruct (isort latest_first F) as [|r0 l] eqn:Es; [rewrite <- Hp in HF1; by apply elem_of_nil in HF1|].
    assert (HF0 : r0 ∈ F) by (rewrite <- Hp; left).
    assert (Hfirst : latest_first r0 r1 = true).
    { rewrite <- Hp in HF1. apply elem_of_cons in HF1 as [->|HF1]; [by destruct (latest_first_total r0 r0)|].
      inversion Hs; subst. rewrite Forall_forall in H2. by apply H2. }
    simpl. do 2 f_equal.
    destruct (Hwin r0 HF0) as (q & Hq & Hid). specialize (Hmax q Hq). apply ident_ts in Hid as Hqt.
    assert (Ett : sr_Timestamp r0 = sr_Timestamp r1).
    { unfold latest_first in Hfirst. apply orb_true_iff in Hfirst as [H|[H _]%andb_true_iff]; bools; lia. }
    destruct (Hkey r0 (HFf _ HF0)) as [S0 N0]. destruct (Hkey r1 (dedup_incl _ _ Hd1)) as [S1 N1].
    assert (Eid : ident r0 = ident r1) by (unfold ident; congruence).
    apply (lo_id _ Hok); [done|by apply HF in HF0 as (? & _)|done|].
    pose proof (dedup_minimal fixes r1 r0 Hd1 (HFf _ HF0) (eq_sym Eid)) as Hmin.
    unfold latest_first in Hfirst. rewrite Ett, Z.ltb_irrefl, Z.eqb_refl in Hfirst. simpl in Hfirst.
    apply sleb_antisym; [unfold sleb; by rewrite Hmin|done].
  - destruct (isort latest_first F) as [|r0 l] eqn:Es; [done|].
    assert (HF0 : r0 ∈ F) by (rewrite <- Hp; left).
    destruct (Hwin r0 HF0) as (q & Hq & Hid). specialize (Hmax q Hq). apply ident_ts in Hid.
    apply HF in HF0 as (_ & Hi & _). apply Hfix in Hi as [_ Hi]. lia.
Qed.

(** The batched location lookup is the point lookup: [LocationsAt] answers, at
    each index, what [LocationAt] answers for that time, for any number of
    times in any order, although it scans once with the floor of the earliest
    time and lets the join pick the row. *)
Theorem LocationsAt_is_LocationAt lake subject tss :
  lake_ok lake ->
  LocationsAt lake None subject tss = Ok (map (location_at lake subject) tss) /\
  (forall t, LocationAt lake None subject t = Ok (location_at lake subject t)).
Proof.
  intros Hok. split; [|done]. unfold LocationsAt. destruct tss as [|t0 rest]; [done|].
  set (tss := t0 :: rest). cbv zeta. f_equal. unfold asof_rows.
  pose proof (store_rows (signalDedupQualify (List.filter (is_fix subject
    (UnixMicro (time_add (min_ts t0 tss) (- locationGapFillLookback)))) lake))
    (locationGapFillLookback / Microsecond) tss [] 0 eq_refl) as Hs. cbn [app Nat.add] in Hs.
  rewrite Hs. apply map_ext_in. intros t Ht. apply asof_is_point; [done|].
  destruct (min_ts_le t0 tss) as [_ Hall]. rewrite Forall_forall in Hall.
  specialize (Hall t (proj2 (list_elem_of_In _ _) Ht)). cbv beta in Hall.
  unfold UnixMicro. apply Z.div_le_mono; [reflexivity|]. unfold time_add. lia.
Qed.

(** ** The deduplicated scan *)

Lemma name_pushdown lake subject src names :
  LakeSignalsDeduped lake subject src names =
  List.filter (signalNameInCond names) (LakeSignalsDeduped lake subject src []).
Proof.
  unfold LakeSignalsDeduped. rewrite <- dedup_filter.
  - rewrite list_filter_andb. f_equal. apply List.filter_ext. intros r. by rewrite andb_true_r.
  - intros a b _ _ Hid. unfold ident in Hid. injection Hid as _ Hn _. unfold signalNameInCond.
    destruct names; [done|]. by rewrite Hn.
Qed.

(** The deduplicated scan of a subject: restricting it to names gives the rows
    of those names; with a source filter, every stored row of the source has the
    row of the smallest cloud event id of the same reading among the source's
    own rows, and the scan has nothing else; without one likewise among all
    rows. No reading appears twice. *)
Theorem LakeSignalsDeduped_spec lake subject src names :
  lake_ok lake ->
  LakeSignalsDeduped lake subject src names =
    List.filter (signalNameInCond names) (LakeSignalsDeduped lake subject src []) /\
  NoDup (map ident (LakeSignalsDeduped lake subject src names)) /\
  (forall r, r ∈ subject_rows lake subject src <->
     r ∈ lake /\ sr_Subject r = subject /\ source_matches src r = true /\
     forall r', r' ∈ lake -> source_matches src r' = true -> ident r' = ident r ->
                String.ltb (sr_CloudEventID r') (sr_CloudEventID r) = false) /\
  (forall r, r ∈ lake -> sr_Subject r = subject -> source_matches src r = true ->
     exists q, q ∈ subject_rows lake subject src /\ ident q = ident r).
Proof.
  intros Hok. split_and!; [apply name_pushdown|apply dedup_NoDup| |].
  all: unfold subject_rows, LakeSignalsDeduped; set (base := List.filter _ lake).
  all: assert (Hbase : forall r, r ∈ base <-> r ∈ lake /\ sr_SubjectBucket r = HashBucket subject /\
         source_matches src r = true)
    by (intros r; unfold base; rewrite list_elem_of_In, filter_In, <- list_elem_of_In, !andb_true_iff, Z.eqb_eq;
        cbn [signalNameInCond]; tauto).
  all: assert (Hone : one_row_per_id base)
    by (intros a b Ha Hb; apply (lo_id _ Hok); [by destruct (proj1 (Hbase a) Ha)|by destruct (proj1 (Hbase b) Hb)]).
  - intros r. rewrite list_elem_of_In, filter_In, <- list_elem_of_In, String.eqb_eq, dedup_iff, Hbase by done.
    split.
    + intros [[(Hr & Hb & Hs) Hmin] E]. split_and!; [done..|]. intros r' Hr' Hs' Hid. apply Hmin; [|done].
      apply Hbase. split_and!; [done| |done].
      rewrite (lo_bucket _ Hok r' Hr'), (ident_subject _ _ Hid). by rewrite E.
    + intros (Hr & E & Hs & Hmin). split; [|done]. split.
      * split_and!; [done| |done]. by rewrite (lo_bucket _ Hok r Hr), E.
      * intros r' (Hr' & _ & Hs')%Hbase. by apply Hmin.
  - intros r Hr E Hs. destruct (dedup_winner base r) as (q & Hq & Hid & _).
    { apply Hbase. split_and!; [done| |done]. by rewrite (lo_bucket _ Hok r Hr), E. }
    exists q. split; [|done]. rewrite list_elem_of_In, filter_In, <- list_elem_of_In, String.eqb_eq.
    split; [done|]. by rewrite (ident_subject _ _ Hid).
Qed.

(** ** At concrete tables *)

Definition loc_row (ts : Z) (ceid src : string) (lat lon : Z) : SignalRow :=
  mkSignalRow demo_subject (HashBucket demo_subject) FieldCurrentLocationCoordinates (ts * Second) src "prod"
    ceid f64_zero "" (f64_of_Z lat) (f64_of_Z lon) (f64_of_Z 1) f64_zero.

Definition speed_row (ts : Z) (ceid : string) (v : Z) : SignalRow :=
  lake_row "speed" (ts * Second) ceid (f64_of_Z v).

(** Duplicates, a trailing (0,0), a name seen once. *)
Definition latest_table : list SignalRow :=
  [speed_row 20 "g" 50; loc_row 10 "a" "x" 52 4; speed_row 10 "f" 30; loc_row 30 "c" "x" 0 0;
   speed_row 20 "e" 40; loc_row 20 "b" "y" 53 5; lake_row "soc" (25 * Second) "h" (f64_of_Z 80)].

Lemma latest_table_ok : lake_ok latest_table.
Proof. apply demo_lake_ok; [repeat constructor|]. apply (bool_decide_unpack _). vm_compute. exact I. Qed.

Definition latest_args : LatestSignalsArgs :=
  mkLatestArgs (mkSignalArgs None demo_subject) {["speed"; "fuel"]}
    {[FieldCurrentLocationCoordinates]} true.

Definition no_did (s : string) : option string := None.

Definition brief (s : vssSignal) : string * Z * float64 * float64 :=
  (vs_Name s, vs_Timestamp s / Second, vs_ValueNumber s, vl_Latitude (vs_ValueLocation s)).

Example rollup_serves_scan_witness :
  exists l, getLatestSignalsRollup (rollupSelectSQL everything latest_table) None demo_subject latest_args = Ok l /\
    getLatestSignalsLake no_did latest_table None demo_subject latest_args = Ok l /\
    map brief l = [(FieldCurrentLocationCoordinates, 20, f64_zero, f64_of_Z 53);
                   (LastSeenField, 30, f64_zero, f64_zero); ("speed"%string, 20, f64_of_Z 40, f64_zero)].
Proof.
  destruct (rollup_serves_scan no_did latest_table (rollupSelectSQL everything latest_table) demo_subject latest_args
    latest_table_ok (Permutation_refl _) eq_refl) as [E _].
  eexists. split; [rewrite E; vm_compute; reflexivity|]. split; [vm_compute; reflexivity|]. vm_compute. reflexivity.
Defined.

Example union_summaries_exact_witness :
  exists l, getSignalSummariesUnion (rollupSelectSQL (before_watermark (20 * Second)) latest_table) None
      latest_table demo_subject (20 * Second) = Ok l /\
    map (fun s => (sds_Name s, sds_NumberOfSignals s, sds_FirstSeen s / Second, sds_LastSeen s / Second)) l =
    [(FieldCurrentLocationCoordinates, 3, 10, 30); ("soc"%string, 1, 25, 25); ("speed"%string, 2, 10, 20)].
Proof.
  eexists. rewrite (union_summaries_exact no_did latest_table (20 * Second)
    (rollupSelectSQL (before_watermark (20 * Second)) latest_table) demo_subject latest_table_ok (Permutation_refl _)).
  split; [vm_compute; reflexivity|]. vm_compute. reflexivity.
Defined.

Example LocationsAt_is_LocationAt_witness :
  exists l, LocationsAt latest_table None demo_subject [35 * Second; 5 * Second; 15 * Second] = Ok l /\
    map (fun o => Latitude <$> o) l = [Some (f64_of_Z 53); None; Some (f64_of_Z 52)].
Proof.
  eexists. rewrite (proj1 (LocationsAt_is_LocationAt latest_table demo_subject
    [35 * Second; 5 * Second; 15 * Second] latest_table_ok)).
  split; [vm_compute; reflexivity|]. vm_compute. reflexivity.
Defined.

Example LakeSignalsDeduped_spec_witness :
  map sr_CloudEventID (subject_rows latest_table demo_subject (Some "y"%string)) = ["b"%string] /\
  exists q, q ∈ subject_rows latest_table demo_subject None /\ ident q = ident (speed_row 20 "g" 50).
Proof.
  split; [vm_compute; reflexivity|].
  apply (LakeSignalsDeduped_spec latest_table demo_subject None [] latest_table_ok); [left|done|done].
Defined.
