(* ===== verification/KvLatest.v ===== *)
(** * internal/service/duck: latest signals served from the cache

    kv_latest.go, kv_latest_ext.go and the dispatch of latest.go: the answers
    built from a subject's cache entry, the rules for a miss, the shadow
    comparison, and which path answers a query. Proved: the entry folded from
    the readings of a subject gives the answer of the deduplicating scan, and the
    dispatch never gives another one -- except where a (0,0) row hides a fix of
    the same reading from the scan, or two readings share a microsecond. *)

From S2P Require Import Prelude Model Validate SignalsRepo Decode Sql LakeSource LakeLatest.
From S2P Require Import LatestFold LatestStore Ingest.

#[local] Set Default Proof Using "Type*".

(** ** Modes *)

Inductive KVReadMode := KVReadOff | KVReadShadow | KVReadServe.

Definition ParseKVReadMode (s : string) : KVReadMode * bool :=
  if String.eqb s "" || String.eqb s "off" then (KVReadOff, true)
  else if String.eqb s "shadow" then (KVReadShadow, true)
  else if String.eqb s "serve" then (KVReadServe, true)
  else (KVReadOff, false).

Inductive KVNegativeMode := KVNegativeOff | KVNegativeShadow | KVNegativeServe.

Definition ParseKVNegativeMode (s : string) : KVNegativeMode * bool :=
  if String.eqb s "" || String.eqb s "off" then (KVNegativeOff, true)
  else if String.eqb s "shadow" then (KVNegativeShadow, true)
  else if String.eqb s "serve" then (KVNegativeServe, true)
  else (KVNegativeOff, false).

Inductive kvOutcome :=
  | kvOutcomeHit | kvOutcomeMiss | kvOutcomeError | kvOutcomeVersion | kvOutcomeMissAuthoritative.

(** What the counters see, in order. *)
Inductive kvEvent :=
  | KvRead (o : kvOutcome)
  | KvShadow (class : string)
  | KvFalseNegative
  | KvTrueNegative.

#[export] Instance KVReadMode_eq_dec : EqDecision KVReadMode.
Proof. solve_decision. Defined.
#[export] Instance KVNegativeMode_eq_dec : EqDecision KVNegativeMode.
Proof. solve_decision. Defined.
#[export] Instance kvOutcome_eq_dec : EqDecision kvOutcome.
Proof. solve_decision. Defined.

(** ** Rows from an entry *)

Definition vss_loc (l : option LocValue) : vssLocation :=
  match l with
  | Some l => mkVssLocation (lv_Lat l) (lv_Lon l) (lv_HDOP l) (lv_Heading l)
  | None => mkVssLocation f64_zero f64_zero f64_zero f64_zero
  end.

Definition kv_named (e : Entry) (name : string) : option vssSignal :=
  (fun v => mkVssSignal name (sv_TS v) (sv_Num v) (sv_Str v) (vss_loc None)) <$> e_Signals e !! name.

Definition kv_location (e : Entry) (name : string) : option vssSignal :=
  (fun v => mkVssSignal name (match sv_Loc v with Some l => lv_TS l | None => epochTime end)
              f64_zero "" (vss_loc (sv_Loc v))) <$> e_Signals e !! name.

Definition kv_lastSeen (e : Entry) : vssSignal :=
  mkVssSignal LastSeenField (if is_zero (LastSeen e) then epochTime else LastSeen e) f64_zero "" (vss_loc None).

(** [sort.SliceStable] by name. *)
Definition sort_by_name : list vssSignal -> list vssSignal := order_by vs_Name sleb.

Definition signalsFromKVEntry (e : Entry) (args : LatestSignalsArgs) : list vssSignal :=
  sort_by_name
    (omap (kv_named e) (elements (la_SignalNames args)) ++
     omap (kv_location e) (elements (la_LocationSignalNames args)) ++
     if la_IncludeLastSeen args then [kv_lastSeen e] else []).

Definition kv_any (p : string * SignalValue) : vssSignal :=
  let '(name, v) := p in
  mkVssSignal name (match sv_Loc v with Some l => lv_TS l | None => sv_TS v end)
    (sv_Num v) (sv_Str v) (vss_loc (sv_Loc v)).

Definition allSignalsFromKVEntry (e : Entry) : list vssSignal :=
  sort_by_name (map kv_any (map_to_list (e_Signals e)) ++ [kv_lastSeen e]).

Definition availableSignalsFromKVEntry (e : Entry) : list string :=
  order_by (fun n => n) sleb (map fst (map_to_list (e_Signals e))).

Definition empty_entry : Entry := mkEntry 0 ∅.

(** ** One read of the cache *)

(** What [Store.GetEntry] gives within the timeout. *)
Definition fetched : Type := result unit (option Entry).

Definition readKVEntry (f : fetched) : option Entry * kvOutcome :=
  match f with
  | Err _ => (None, kvOutcomeError)
  | Ok None => (None, kvOutcomeMiss)
  | Ok (Some e) => if negb (e_V e =? EntryVersion) then (None, kvOutcomeVersion) else (Some e, kvOutcomeHit)
  end.

Inductive negativeDisposition := negativeFallback | negativeShadow | negativeServe.

Record kvAttempt (A : Type) := mkAttempt { att_answer : A; att_served : bool; att_shadowNegative : bool }.
Arguments mkAttempt {A}.
Arguments att_answer {A}.
Arguments att_served {A}.
Arguments att_shadowNegative {A}.

(** The state of [Queries] a latest query reads: the cache, its modes, and what
    [kvCoverage.Trusted()] returns, [None] without a watcher. *)
Record Queries := mkQueries {
  kvStore : option fetched;
  kvMode : KVReadMode;
  kvExtMode : KVReadMode;
  kvNegMode : KVNegativeMode;
  kvCoverage : option bool;
  dailyServing : bool;
}.

Definition negative_disposition (q : Queries) : negativeDisposition :=
  match kvNegMode q, kvCoverage q with
  | KVNegativeOff, _ | _, None => negativeFallback
  | m, Some trusted => if negb trusted then negativeFallback
                       else if bool_decide (m = KVNegativeServe) then negativeServe else negativeShadow
  end.

(** The shape the three [attempt...KV] methods share. *)
Definition attempt_kv {A} (q : Queries) (f : fetched) (of_entry : Entry -> list A)
  : kvAttempt (list A) * list kvEvent :=
  let '(entry, outcome) := readKVEntry f in
  let counted := match entry with
                 | Some e => (mkAttempt (of_entry e) true false, [KvRead outcome])
                 | None => (mkAttempt [] false false, [KvRead outcome])
                 end in
  match outcome with
  | kvOutcomeMiss =>
      match negative_disposition q with
      | negativeServe => (mkAttempt (of_entry empty_entry) true false, [KvRead kvOutcomeMissAuthoritative])
      | negativeShadow => (mkAttempt [] false true, [KvRead kvOutcomeMiss])
      | negativeFallback => counted
      end
  | _ => counted
  end.

Definition attemptLatestSignalsKV (q : Queries) (f : fetched) (args : LatestSignalsArgs) :=
  attempt_kv q f (fun e => signalsFromKVEntry e args).

Definition attemptAllLatestKV (q : Queries) (f : fetched) := attempt_kv q f allSignalsFromKVEntry.

Definition attemptAvailableSignalsKV (q : Queries) (f : fetched) := attempt_kv q f availableSignalsFromKVEntry.

(** ** Shadow comparisons *)

Fixpoint observeShadowNegative (rollup : list vssSignal) : kvEvent :=
  match rollup with
  | [] => KvTrueNegative
  | s :: rest =>
      if String.eqb (vs_Name s) LastSeenField && tequal (vs_Timestamp s) epochTime
      then observeShadowNegative rest else KvFalseNegative
  end.

Definition observeShadowNegativeNames (names : list string) : kvEvent :=
  match names with [] => KvTrueNegative | _ => KvFalseNegative end.

Definition byName (rows : list vssSignal) : gmap string vssSignal :=
  fold_left (fun m r => <[vs_Name r := r]> m) rows ∅.

Definition loc_eqb (a b : vssLocation) : bool :=
  f64_eqb (vl_Latitude a) (vl_Latitude b) && f64_eqb (vl_Longitude a) (vl_Longitude b) &&
  f64_eqb (vl_HDOP a) (vl_HDOP b) && f64_eqb (vl_Heading a) (vl_Heading b).

Definition rows_match (r k : vssSignal) : bool :=
  tequal (time_truncate (vs_Timestamp r) Microsecond) (time_truncate (vs_Timestamp k) Microsecond) &&
  f64_eqb (vs_ValueNumber r) (vs_ValueNumber k) && String.eqb (vs_ValueString r) (vs_ValueString k) &&
  loc_eqb (vs_ValueLocation r) (vs_ValueLocation k).

(** The first loop: [None] is the early "mismatch"; otherwise [(diff, kvNewerOnly)]. *)
Fixpoint shadow_loop (km : gmap string vssSignal) (rm : list (string * vssSignal)) (st : bool * bool)
  : option (bool * bool) :=
  match rm with
  | [] => Some st
  | (name, r) :: rest =>
      match km !! name with
      | None => None
      | Some k =>
          if rows_match r k then shadow_loop km rest st
          else shadow_loop km rest
                 (true, if negb (after (time_truncate (vs_Timestamp k) Microsecond)
                                       (time_truncate (vs_Timestamp r) Microsecond)) then false else st.2)
      end
  end.

Definition classifyShadowDiff (rollup kv : list vssSignal) : string :=
  let rm := byName rollup in
  let km := byName kv in
  match shadow_loop km (map_to_list rm) (false, true) with
  | None => "mismatch"
  | Some (diff, kvNewerOnly) =>
      let diff' := diff || negb (forallb (fun p => bool_decide (is_Some (rm !! p.1))) (map_to_list km)) in
      if negb diff' then "match" else if kvNewerOnly then "kv_newer" else "mismatch"
  end.

Definition shadowCompareLatest (f : fetched) (args : LatestSignalsArgs) (rollup : list vssSignal)
  : list kvEvent :=
  let '(entry, outcome) := readKVEntry f in
  KvRead outcome ::
  match entry with
  | None => if bool_decide (outcome = kvOutcomeMiss) && negb (Nat.eqb (length rollup) 0)
            then [KvShadow "kv_miss"] else []
  | Some e => [KvShadow (classifyShadowDiff rollup (signalsFromKVEntry e args))]
  end.

Definition shadowCompareAllLatest (f : fetched) (rollup : list vssSignal) : list kvEvent :=
  let '(entry, outcome) := readKVEntry f in
  KvRead outcome ::
  match entry with
  | None => if bool_decide (outcome = kvOutcomeMiss) && Nat.ltb 1 (length rollup)
            then [KvShadow "kv_miss"] else []
  | Some e => [KvShadow (classifyShadowDiff rollup (allSignalsFromKVEntry e))]
  end.

Definition shadowCompareAvailable (f : fetched) (rollup : list string) : list kvEvent :=
  let '(entry, outcome) := readKVEntry f in
  KvRead outcome ::
  match entry with
  | None => if bool_decide (outcome = kvOutcomeMiss) && negb (Nat.eqb (length rollup) 0)
            then [KvShadow "kv_miss"] else []
  | Some e =>
      [KvShadow (if existsb (fun n => negb (bool_decide (is_Some (e_Signals e !! n)))) rollup then "mismatch"
                 else if negb (Nat.eqb (size (e_Signals e)) (length rollup)) then "kv_newer" else "match")]
  end.

(** ** The dispatch (latest.go) *)

Section dispatch.
Context (DecodeEthrDID : string -> option string).
Context (lake : list SignalRow) (table : list LatestRow) (db_error : option string).

(** The shape of [GetLatestSignals], [GetAllLatestSignals], [GetAvailableSignals]. *)
Definition serve {A} (q : Queries) (mode : KVReadMode) (rollup kvWanted : bool)
    (attempt : fetched -> kvAttempt (list A) * list kvEvent) (fromRollup fromLake : result string (list A))
    (shadowCompare : fetched -> list A -> list kvEvent) (shadowNeg : list A -> kvEvent)
  : result string (list A) * list kvEvent :=
  let kv := if rollup && kvWanted then kvStore q else None in
  let '(answer, shadowNegative, ev) :=
    match kv with
    | Some f =>
        if bool_decide (mode = KVReadServe) then
          let '(att, ev) := attempt f in
          (if att_served att then Some (att_answer att) else None, att_shadowNegative att, ev)
        else (None, false, [])
    | None => (None, false, [])
    end in
  match answer with
  | Some a => (Ok a, ev)
  | None =>
      if rollup then
        (fromRollup,
         ev ++ match fromRollup with
               | Ok rows =>
                   (match kv with
                    | Some f => if bool_decide (mode = KVReadShadow) then shadowCompare f rows else []
                    | None => []
                    end) ++ (if shadowNegative then [shadowNeg rows] else [])
               | Err _ => []
               end)
      else (fromLake, ev)
  end.

Definition GetLatestSignals (q : Queries) (subject : string) (args : LatestSignalsArgs) :=
  serve q (kvMode q) (noSourceFilter (sia_Filter (la_SignalArgs args))) (negb (nothing_requested args))
    (fun f => attemptLatestSignalsKV q f args)
    (getLatestSignalsRollup table db_error subject args)
    (getLatestSignalsLake DecodeEthrDID lake db_error subject args)
    (fun f rows => shadowCompareLatest f args rows) observeShadowNegative.

Definition GetAllLatestSignals (q : Queries) (subject : string) (filter_ : option SignalFilter) :=
  serve q (kvExtMode q) (noSourceFilter filter_) true
    (attemptAllLatestKV q)
    (getAllLatestSignalsRollup table db_error subject)
    (getAllLatestSignalsLake DecodeEthrDID lake db_error subject filter_)
    shadowCompareAllLatest observeShadowNegative.

Definition GetAvailableSignals (q : Queries) (subject : string) (filter_ : option SignalFilter) :=
  serve q (kvExtMode q) (noSourceFilter filter_) true
    (attemptAvailableSignalsKV q)
    (getAvailableSignalsRollup table db_error subject)
    (getAvailableSignalsLake DecodeEthrDID lake db_error subject filter_)
    shadowCompareAvailable observeShadowNegativeNames.

(** [watermark] is what [cachedRollupWatermark] returns. *)
Definition GetSignalSummaries (q : Queries) (watermark : result string Z) (subject : string)
    (filter_ : option SignalFilter) : result string (list SignalDataSummary) :=
  if noSourceFilter filter_ then
    if dailyServing q then
      match watermark with
      | Err e => Err e
      | Ok w => if negb (is_zero w) then getSignalSummariesUnion table db_error lake subject w
                else getSignalSummariesRollup table db_error subject
      end
    else getSignalSummariesRollup table db_error subject
  else getSignalSummariesLake DecodeEthrDID lake db_error subject filter_.
End dispatch.

(** ** What the cache is fed (app/backend.go, [PublishLatest]) *)

Definition kv_row (r : SignalRow) : Row :=
  mkRow (sr_Subject r) (sr_Name r) (sr_Timestamp r) (sr_CloudEventID r) (sr_ValueNumber r) (sr_ValueString r)
    (sr_LocLat r) (sr_LocLon r) (sr_LocHDOP r) (sr_LocHeading r).

(** The row the insert stores: the literal has six decimals. *)
Definition stored (r : SignalRow) : SignalRow :=
  mkSignalRow (sr_Subject r) (sr_SubjectBucket r) (sr_Name r) (sqlTimestampLit (sr_Timestamp r)) (sr_Source r)
    (sr_Producer r) (sr_CloudEventID r) (sr_ValueNumber r) (sr_ValueString r) (sr_LocLat r) (sr_LocLon r)
    (sr_LocHDOP r) (sr_LocHeading r).

(** The readings of a subject, as the cache gets them. *)
Definition published (decoded : list SignalRow) (subject : string) : list Row :=
  map kv_row (List.filter (fun r => String.eqb (sr_Subject r) subject) decoded).

(** ** An entry holds the answer of the scan *)

(** No (0,0) row of a reading has a smaller cloud event id than a fix of it. *)
Definition fixes_first (lake : list SignalRow) : Prop :=
  forall r z, r ∈ lake -> z ∈ lake -> ident r = ident z ->
    lakeNonZeroLoc r = true -> lakeNonZeroLoc z = false ->
    String.ltb (sr_CloudEventID r) (sr_CloudEventID z) = true.

Lemma kv_row_loc r :
  sv_Loc (row_value (kv_row r)) =
  if lakeNonZeroLoc r
  then Some (mkLocValue (sr_Timestamp r) (sr_CloudEventID r) (sr_LocLat r) (sr_LocLon r) (sr_LocHDOP r) (sr_LocHeading r))
  else None.
Proof. done. Qed.

Lemma newerThan_same_ts ts c c' : newerThan ts c ts c' = String.ltb c c'.
Proof. unfold newerThan, after, tequal. by rewrite Z.ltb_irrefl, Z.eqb_refl. Qed.

Lemma newerThan_false_le ts c ts' c' : newerThan ts c ts' c' = false -> ts <= ts'.
Proof. rewrite newerThan_false. intros [?|[? _]]; lia. Qed.

Section entry.
Context (lake : list SignalRow) (Hok : lake_ok lake) (subject : string) (e : Entry).
Context (He : entry_of (published lake subject) e).

Notation S := (subject_readings lake subject).

Lemma elem_of_published q :
  q ∈ published lake subject <-> exists r, q = kv_row r /\ r ∈ lake /\ sr_Subject r = subject.
Proof using.
  unfold published. rewrite list_elem_of_fmap. split; intros (r & -> & Hr); exists r; (split; [done|]).
  - by apply list_elem_of_In, filter_In in Hr as [?%list_elem_of_In ?%String.eqb_eq].
  - destruct Hr as [Hr Hs]. apply list_elem_of_In, filter_In. split; [by apply list_elem_of_In|by apply String.eqb_eq].
Qed.

Lemma entry_not_older n c r : e_Signals e !! n = Some c -> r ∈ lake -> sr_Subject r = subject -> sr_Name r = n ->
  newerThan (sr_Timestamp r) (sr_CloudEventID r) (sv_TS c) (sv_CEID c) = false /\
  (lakeNonZeroLoc r = true -> exists l, sv_Loc c = Some l /\
     newerThan (sr_Timestamp r) (sr_CloudEventID r) (lv_TS l) (lv_CEID l) = false).
Proof.
  intros Hc Hr Hs Hn. destruct He as [HA _].
  destruct (HA (kv_row r)) as (c' & Hc' & H1 & H2); [apply elem_of_published; eauto|].
  cbn [kv_row r_Name] in Hc'. rewrite Hn, Hc in Hc'. injection Hc' as <-. split; [exact H1|].
  intros Hz. rewrite kv_row_loc, Hz in H2. destruct (H2 _ eq_refl) as (l & Hl & Hnew). by exists l.
Qed.

(** A row nothing in the table beats is its reading's canonical row and the latest. *)
Lemma top_of_unbeaten n r :
  r ∈ lake -> sr_Subject r = subject -> sr_Name r = n ->
  (forall x, x ∈ lake -> sr_Subject x = subject -> sr_Name x = n ->
     newerThan (sr_Timestamp x) (sr_CloudEventID x) (sr_Timestamp r) (sr_CloudEventID r) = false) ->
  top sr_Timestamp (named_rows n S) = Some r.
Proof using Hok.
  intros Hr Hs Hn Hbest. apply top_unique.
  - intros x y. apply subject_readings_inj.
  - apply elem_of_named_rows. split; [|done]. apply elem_of_subject_readings. split; [|done].
    apply dedup_iff; [by apply lo_id|]. split; [done|]. intros x Hx Hid.
    unfold ident in Hid. injection Hid as E1 E2 E3.
    specialize (Hbest x Hx ltac:(congruence) ltac:(congruence)). by rewrite E3, newerThan_same_ts in Hbest.
  - intros b [[Hb Hbs]%elem_of_subject_readings Hbn]%elem_of_named_rows.
    eapply newerThan_false_le, Hbest; [by apply dedup_incl|done|done].
Qed.

Lemma fix_top_of_unbeaten n w :
  fixes_first lake -> w ∈ lake -> sr_Subject w = subject -> sr_Name w = n -> lakeNonZeroLoc w = true ->
  (forall x, x ∈ lake -> sr_Subject x = subject -> sr_Name x = n -> lakeNonZeroLoc x = true ->
     newerThan (sr_Timestamp x) (sr_CloudEventID x) (sr_Timestamp w) (sr_CloudEventID w) = false) ->
  top sr_Timestamp (List.filter lakeNonZeroLoc (named_rows n S)) = Some w.
Proof using Hok.
  intros Hff Hw Hs Hn Hz Hbest.
  assert (Hin : forall x, x ∈ List.filter lakeNonZeroLoc (named_rows n S) <->
            x ∈ named_rows n S /\ lakeNonZeroLoc x = true).
  { intros x. by rewrite list_elem_of_In, filter_In, <- list_elem_of_In. }
  apply top_unique.
  - intros x y [Hx _]%Hin [Hy _]%Hin. by eapply subject_readings_inj.
  - apply Hin. split; [|done]. apply elem_of_named_rows. split; [|done].
    apply elem_of_subject_readings. split; [|done].
    apply dedup_iff; [by apply lo_id|]. split; [done|]. intros x Hx Hid.
    destruct (lakeNonZeroLoc x) eqn:Ez; [|by apply sltb_asym, Hff].
    unfold ident in Hid. injection Hid as E1 E2 E3.
    specialize (Hbest x Hx ltac:(congruence) ltac:(congruence) Ez). by rewrite E3, newerThan_same_ts in Hbest.
  - intros b [[[Hb Hbs]%elem_of_subject_readings Hbn]%elem_of_named_rows Hbz]%Hin.
    eapply newerThan_false_le, Hbest; [by apply dedup_incl|done..].
Qed.

(** The value part of an entry is the scan's; the location part too, if fixes win. *)
Lemma entry_value n c : e_Signals e !! n = Some c ->
  exists r, top sr_Timestamp (named_rows n S) = Some r /\
    sv_TS c = sr_Timestamp r /\ sv_Num c = sr_ValueNumber r /\ sv_Str c = sr_ValueString r.
Proof.
  intros Hc. destruct (proj2 He n c Hc) as [(v & Hv & E1 & E2 & E3 & E4) _].
  apply in_named in Hv as (q & Hq & -> & ->). apply elem_of_published in Hq as (r & -> & Hr & Hs).
  exists r. split; [|done]. apply top_of_unbeaten; [done..|]. intros x Hx Hxs Hxn.
  destruct (entry_not_older _ c x Hc Hx Hxs Hxn) as [H _].
  change (sr_Timestamp r) with (sv_TS (row_value (kv_row r))).
  change (sr_CloudEventID r) with (sv_CEID (row_value (kv_row r))). by rewrite E1, E2.
Qed.

Lemma entry_loc n c : fixes_first lake -> e_Signals e !! n = Some c ->
  match sv_Loc c with
  | Some l => exists w, top sr_Timestamp (List.filter lakeNonZeroLoc (named_rows n S)) = Some w /\
                lakeNonZeroLoc w = true /\ Some l = sv_Loc (row_value (kv_row w))
  | None => List.filter lakeNonZeroLoc (named_rows n S) = []
  end.
Proof.
  intros Hff Hc. destruct (proj2 He n c Hc) as [_ Hl].
  destruct (sv_Loc c) as [l|] eqn:El.
  - destruct (Hl l eq_refl) as (v & Hv & Hvl). apply in_named in Hv as (q & Hq & -> & ->).
    apply elem_of_published in Hq as (w & -> & Hw & Hs). exists w.
    rewrite kv_row_loc in Hvl. destruct (lakeNonZeroLoc w) eqn:Ez; [|done].
    split_and!; [|done|by rewrite kv_row_loc, Ez].
    apply fix_top_of_unbeaten; [done..|]. intros x Hx Hxs Hxn Hxz.
    destruct (entry_not_older _ c x Hc Hx Hxs Hxn) as [_ H]. destruct (H Hxz) as (l' & El' & Hnew).
    rewrite El in El'. injection El' as <-. injection Hvl as <-. exact Hnew.
  - apply list_filter_none. intros x [[Hx Hxs]%elem_of_subject_readings Hxn]%elem_of_named_rows.
    apply not_true_iff_false. intros Hz.
    destruct (entry_not_older n c x Hc (dedup_incl _ _ Hx) Hxs Hxn) as [_ H].
    destruct (H Hz) as (l & El' & _). congruence.
Qed.

Lemma entry_names n : is_Some (e_Signals e !! n) <-> n ∈ distinct_names S.
Proof.
  rewrite elem_of_distinct_names. split.
  - intros [c Hc]. destruct (entry_value n c Hc) as (r & Ht & _).
    apply top_spec in Ht as [[Hr Hn]%elem_of_named_rows _]. by exists r.
  - intros (r & [Hr Hs]%elem_of_subject_readings & Hn). destruct (proj1 He (kv_row r)) as (c & Hc & _).
    + apply elem_of_published. exists r. split; [done|]. split; [by apply dedup_incl|done].
    + cbn [kv_row r_Name] in Hc. rewrite Hn in Hc. by exists c.
Qed.
End entry.

(** ** The answers agree *)

Lemma order_by_map {A B} (f : A -> B) (k1 : A -> string) (k2 : B -> string) l :
  (forall a, k2 (f a) = k1 a) -> map f (order_by k1 sleb l) = order_by k2 sleb (map f l).
Proof.
  intros Hf. unfold order_by. induction l as [|a l IH]; [done|]. cbn [isort map]. rewrite <- IH.
  generalize (isort (by_key k1 sleb) l) as s. clear -Hf. induction s as [|b s IH]; [done|].
  cbn [insert_sorted map]. unfold by_key at 1 3. rewrite !Hf.
  destruct (sleb (k1 a) (k1 b)); cbn [map]; [done|]. by rewrite IH.
Qed.

Lemma omap_requested {B} (f : string -> option B) (g : string -> B) (names : gset string) ns :
  (forall n, n ∈ distinct_names ns -> f n = Some (g n)) ->
  (forall n, n ∉ distinct_names ns -> f n = None) ->
  omap f (elements names) ≡ₚ map g (List.filter (requested names) (distinct_names ns)).
Proof.
  intros H1 H2.
  assert (Ho : forall l : list string,
    omap f l = map g (List.filter (fun n => bool_decide (n ∈ distinct_names ns)) l)).
  { induction l as [|n l IH]; [done|]. cbn [omap list_omap List.filter]. case_bool_decide as Hn.
    - rewrite (H1 n Hn). cbn [map]. by rewrite <- IH.
    - by rewrite (H2 n Hn). }
  rewrite Ho. apply Permutation_map, NoDup_Permutation.
  - apply list_filter_NoDup, NoDup_elements.
  - apply list_filter_NoDup, distinct_names_NoDup.
  - intros n. rewrite !list_elem_of_In, !filter_In, <- !list_elem_of_In. unfold requested.
    rewrite !bool_decide_eq_true, elem_of_elements. tauto.
Qed.

Lemma fold_last_seen l z :
  let m := fold_left (fun last (p : string * SignalValue) =>
             if after (sv_TS p.2) last then sv_TS p.2 else last) l z in
  z <= m /\ Forall (fun p => sv_TS p.2 <= m) l /\ (m = z \/ Exists (fun p => sv_TS p.2 = m) l).
Proof.
  revert z; induction l as [|p l IH]; intros z; cbn [fold_left]; [split_and!; [reflexivity|constructor|by left]|].
  destruct (IH (if after (sv_TS p.2) z then sv_TS p.2 else z)) as (H1 & H2 & H3). unfold after in *.
  destruct (Z.ltb_spec z (sv_TS p.2)); (split_and!; [lia|constructor; [lia|done]|]).
  - destruct H3 as [H3|H3]; right; [left; lia|by right].
  - destruct H3 as [H3|H3]; [by left|right; by right].
Qed.

Section agree.
Context (lake : list SignalRow) (Hok : lake_ok lake) (Hff : fixes_first lake) (subject : string) (e : Entry).
Context (He : entry_of (published lake subject) e).
Context (Hpos : forall r, r ∈ lake -> zero_time < sr_Timestamp r).

Notation S := (subject_readings lake subject).

Lemma no_entry n : n ∉ distinct_names S -> e_Signals e !! n = None.
Proof.
  intros Hn. apply eq_None_not_Some. intros H. apply Hn. by apply (entry_names lake Hok subject e He).
Qed.

Lemma some_entry n : n ∈ distinct_names S -> exists c, e_Signals e !! n = Some c.
Proof. intros Hn. by apply (entry_names lake Hok subject e He). Qed.

Lemma kv_named_row n : n ∈ distinct_names S -> kv_named e n = Some (scanSignal (named_row S n)).
Proof.
  intros Hn. destruct (some_entry n Hn) as [c Hc]. unfold kv_named. rewrite Hc. simpl. f_equal.
  destruct (entry_value lake Hok subject e He n c Hc) as (r & Ht & E1 & E2 & E3).
  unfold named_row, arg_max_of, sql_arg_max. rewrite sql_max_top, Ht, E1, E2, E3. done.
Qed.

Lemma location_part n c : e_Signals e !! n = Some c ->
  match sv_Loc c with
  | Some l =>
      nonzero_fix (lv_Lat l) (lv_Lon l) = true /\
      let fixes := List.filter lakeNonZeroLoc (named_rows n S) in
      sql_max sr_Timestamp fixes = Some (lv_TS l) /\ arg_max_of f64_zero sr_LocLat fixes = lv_Lat l /\
      arg_max_of f64_zero sr_LocLon fixes = lv_Lon l /\ arg_max_of f64_zero sr_LocHDOP fixes = lv_HDOP l /\
      arg_max_of f64_zero sr_LocHeading fixes = lv_Heading l
  | None => List.filter lakeNonZeroLoc (named_rows n S) = []
  end.
Proof.
  intros Hc. pose proof (entry_loc lake Hok subject e He n c Hff Hc) as Hl.
  destruct (sv_Loc c) as [l|]; [|done]. destruct Hl as (w & Ht & Hz & El).
  rewrite kv_row_loc, Hz in El. injection El as ->. split; [exact Hz|].
  unfold arg_max_of, sql_arg_max. cbv zeta. rewrite sql_max_top, Ht. done.
Qed.

Lemma kv_location_row n : n ∈ distinct_names S -> kv_location e n = Some (scanSignal (location_row S n)).
Proof.
  intros Hn. destruct (some_entry n Hn) as [c Hc]. unfold kv_location. rewrite Hc. simpl. f_equal.
  pose proof (location_part n c Hc) as Hl. unfold location_row. destruct (sv_Loc c) as [l|].
  - destruct Hl as (Hz & E1 & E2 & E3 & E4 & E5). rewrite E1, E2, E3, E4, E5.
    unfold scanSignal. cbn [q_name q_ts q_loc_lat q_loc_lon q_loc_ts q_loc_hdop q_loc_heading q_value_number
      q_value_string default]. by rewrite Hz.
  - by rewrite Hl.
Qed.

Lemma kv_any_row n c : e_Signals e !! n = Some c -> kv_any (n, c) = scanSignal (any_row S n).
Proof.
  intros Hc. destruct (entry_value lake Hok subject e He n c Hc) as (r & Ht & E1 & E2 & E3).
  pose proof (location_part n c Hc) as Hl. unfold any_row, kv_any.
  rewrite (sql_max_top sr_Timestamp (named_rows n S)), Ht.
  unfold arg_max_of at 1 2. unfold sql_arg_max at 1 2. rewrite Ht. cbn [fmap option_fmap option_map default].
  rewrite E1, E2, E3. destruct (sv_Loc c) as [l|].
  - destruct Hl as (Hz & F1 & F2 & F3 & F4 & F5). rewrite F1, F2, F3, F4, F5.
    unfold scanSignal. cbn [q_name q_ts q_loc_lat q_loc_lon q_loc_ts q_loc_hdop q_loc_heading q_value_number
      q_value_string default]. by rewrite Hz.
  - by rewrite Hl.
Qed.

Lemma kv_lastSeen_row : kv_lastSeen e = scanSignal (lastSeen_row (sql_max sr_Timestamp S)).
Proof.
  unfold kv_lastSeen, scanSignal, lastSeen_row. cbn [q_name q_ts q_loc_lat q_loc_lon q_loc_ts q_loc_hdop
    q_loc_heading q_value_number q_value_string]. change (nonzero_fix f64_zero f64_zero) with false. cbv iota.
  f_equal. unfold LastSeen. destruct (fold_last_seen (map_to_list (e_Signals e)) zero_time) as (H1 & H2 & H3).
  cbv zeta in *. set (m := fold_left _ (map_to_list (e_Signals e)) zero_time) in *.
  rewrite Forall_forall in H2.
  destruct (sql_max sr_Timestamp S) as [t|] eqn:Et.
  - apply sql_max_spec in Et as [(r & Hr & Er) Hmax].
    destruct (some_entry (sr_Name r)) as [c Hc]; [apply elem_of_distinct_names; by exists r|].
    destruct (entry_value lake Hok subject e He _ c Hc) as (q & Hq & Eq & _).
    apply top_spec in Hq as [_ Hqmax].
    assert (Hge : t <= m).
    { rewrite <- Er. etrans; [apply Hqmax; by apply elem_of_named_rows|]. rewrite <- Eq.
      apply (H2 (sr_Name r, c)). by apply elem_of_map_to_list. }
    assert (Hle : m <= t).
    { destruct H3 as [->|(p & Hp & <-)%Exists_exists].
      - rewrite <- Er. apply Z.lt_le_incl, Hpos. apply elem_of_subject_readings in Hr as [Hr _]. by apply dedup_incl.
      - destruct p as [n d]. apply elem_of_map_to_list in Hp.
        destruct (entry_value lake Hok subject e He n d Hp) as (x & Hx & Ex & _). simpl. rewrite Ex.
        apply top_spec in Hx as [[Hx _]%elem_of_named_rows _]. by apply Hmax. }
    assert (zero_time < t).
    { rewrite <- Er. apply Hpos. apply elem_of_subject_readings in Hr as [Hr _]. by apply dedup_incl. }
    unfold is_zero. destruct (Z.eqb_spec m zero_time); simpl; lia.
  - apply sql_max_none in Et.
    assert (Hm : m = zero_time).
    { destruct H3 as [->|(p & Hp & _)%Exists_exists]; [done|]. destruct p as [n d].
      apply elem_of_map_to_list in Hp.
      assert (Hn : n ∈ distinct_names S) by (apply (entry_names lake Hok subject e He); by exists d).
      rewrite Et in Hn. apply elem_of_distinct_names in Hn as (x & Hx & _). by apply elem_of_nil in Hx. }
    unfold is_zero. by rewrite Hm, Z.eqb_refl.
Qed.

Lemma signals_agree dec args : nothing_requested args = false ->
  noSourceFilter (sia_Filter (la_SignalArgs args)) = true ->
  Ok (signalsFromKVEntry e args) = getLatestSignalsLake dec lake None subject args.
Proof.
  intros Hnr Hns. unfold getLatestSignalsLake. rewrite Hnr.
  replace (signalSourceCond dec (sia_Filter (la_SignalArgs args))) with (@None string)
    by (destruct (la_SignalArgs args) as [[[[?|]]|] ?]; done).
  cbv zeta. unfold lakeLastSeenQuery. rewrite subject_rows_eq by done. unfold querySignals. f_equal.
  rewrite (order_by_map scanSignal q_name vs_Name) by done. rewrite !map_app, !map_map.
  unfold signalsFromKVEntry, sort_by_name.
  replace (map scanSignal (if la_IncludeLastSeen args then [lastSeen_row (sql_max sr_Timestamp S)] else []))
    with (if la_IncludeLastSeen args then [kv_lastSeen e] else [])
    by (rewrite kv_lastSeen_row; by destruct (la_IncludeLastSeen args)).
  apply (order_by_union vs_Name sleb sleb_total sleb_trans sleb_antisym).
  - rewrite omap_requested; [|apply kv_named_row|intros n Hn; unfold kv_named; by rewrite no_entry].
    rewrite map_map. cbn [scanSignal named_row q_name vs_Name]. rewrite map_id.
    apply list_filter_NoDup, distinct_names_NoDup.
  - apply omap_requested; [apply kv_named_row|intros n Hn; unfold kv_named; by rewrite no_entry].
  - rewrite omap_requested; [|apply kv_location_row|intros n Hn; unfold kv_location; by rewrite no_entry].
    rewrite map_map. cbn [scanSignal location_row q_name vs_Name]. rewrite map_id.
    apply list_filter_NoDup, distinct_names_NoDup.
  - apply omap_requested; [apply kv_location_row|intros n Hn; unfold kv_location; by rewrite no_entry].
Qed.

Lemma entry_list : map fst (map_to_list (e_Signals e)) ≡ₚ distinct_names S.
Proof.
  apply NoDup_Permutation; [apply NoDup_fst_map_to_list|apply distinct_names_NoDup|].
  intros n. rewrite list_elem_of_fmap. rewrite <- (entry_names lake Hok subject e He). split.
  - intros ([m c] & -> & Hc). apply elem_of_map_to_list in Hc. by exists c.
  - intros [c Hc]. exists (n, c). split; [done|]. by apply elem_of_map_to_list.
Qed.

Lemma all_agree dec :
  Ok (allSignalsFromKVEntry e) = getAllLatestSignalsLake dec lake None subject None.
Proof.
  unfold getAllLatestSignalsLake. cbv zeta. cbn [signalSourceCond]. unfold lakeLastSeenQuery.
  rewrite subject_rows_eq by done. unfold querySignals. f_equal.
  rewrite (order_by_map scanSignal q_name vs_Name) by done. rewrite map_app, map_map.
  unfold allSignalsFromKVEntry, sort_by_name. cbn [map]. rewrite <- kv_lastSeen_row.
  assert (E : map kv_any (map_to_list (e_Signals e)) =
              map (fun n => scanSignal (any_row S n)) (map fst (map_to_list (e_Signals e)))).
  { rewrite map_map. apply map_ext_in. intros [n c] Hc. apply kv_any_row.
    by apply elem_of_map_to_list, list_elem_of_In. }
  rewrite E.
  apply (order_by_union vs_Name sleb sleb_total sleb_trans sleb_antisym _ _ [] []); [..|constructor|done].
  - rewrite map_map. cbn [scanSignal any_row q_name vs_Name]. rewrite map_id. apply NoDup_fst_map_to_list.
  - apply Permutation_map, entry_list.
Qed.

Lemma available_agree dec :
  Ok (availableSignalsFromKVEntry e) = getAvailableSignalsLake dec lake None subject None.
Proof.
  unfold getAvailableSignalsLake, availableSignalsFromKVEntry. f_equal. cbn [signalSourceCond].
  rewrite subject_rows_eq by done. rewrite <- (map_id (distinct_names S)). apply order_by_names; [done|].
  rewrite map_id. apply entry_list.
Qed.
End agree.

Lemma stored_id l : (forall r, r ∈ l -> whole_micro (sr_Timestamp r)) -> map stored l = l.
Proof.
  intros Hm. rewrite <- (map_id l) at 2. apply map_ext_in. intros r Hr.
  specialize (Hm r (proj2 (list_elem_of_In _ _) Hr)). unfold stored, sqlTimestampLit.
  rewrite <- micro_floor, (micro_floor_id _ Hm). by destruct r.
Qed.

(** C10. The cache entry of a subject gives the scan's answers: for the readings
    decoded for a fleet, stored in lake.signals and folded into the subject's
    entry in any order, the latest-value, all-latest and available-signal
    answers built from the entry equal those of the deduplicating scan without
    a source filter -- provided ids are unambiguous, times are whole
    microseconds after the zero time, and no (0,0) row of a reading has a
    smaller id than a fix of it. *)
Theorem kv_answers_scan dec decoded rows subject args :
  let lake := map stored decoded in
  let e := (fold_rows (mkEntry EntryVersion ∅) false rows).1 in
  lake_ok lake -> fixes_first lake ->
  (forall r, r ∈ decoded -> whole_micro (sr_Timestamp r) /\ zero_time < sr_Timestamp r) ->
  (forall q, q ∈ rows <-> q ∈ published decoded subject) ->
  nothing_requested args = false -> noSourceFilter (sia_Filter (la_SignalArgs args)) = true ->
  Ok (signalsFromKVEntry e args) = getLatestSignalsLake dec lake None subject args /\
  Ok (allSignalsFromKVEntry e) = getAllLatestSignalsLake dec lake None subject None /\
  Ok (availableSignalsFromKVEntry e) = getAvailableSignalsLake dec lake None subject None.
Proof.
  intros lake e Hok Hff Htimes Hrows Hnr Hns.
  assert (El : lake = decoded) by (apply stored_id; intros r Hr; by apply Htimes).
  assert (Hpos : forall r, r ∈ lake -> zero_time < sr_Timestamp r) by (rewrite El; intros r Hr; by apply Htimes).
  assert (He : entry_of (published lake subject) e).
  { rewrite El. pose proof (fold_rows_entry_of EntryVersion rows) as [HA HS]. split.
    - intros q Hq. by apply HA, Hrows.
    - intros n c Hc. eapply value_of_incl; [|by apply HS]. intros [m v] Hp.
      apply list_elem_of_fmap in Hp as (q & Eq & Hq). apply list_elem_of_fmap. exists q.
      split; [done|by apply Hrows]. }
  split_and!; [by apply signals_agree|by apply all_agree|by apply available_agree].
Qed.

(** ** The dispatch *)

(** The cache's contract for a subject (LatestStore.v, Coverage.v): an entry of
    this version is the fold of the readings, and under trusted coverage a
    missing key means there are none. *)
Definition cache_contract (lake : list SignalRow) (subject : string) (q : Queries) : Prop :=
  match kvStore q with
  | Some (Ok (Some e)) => e_V e = EntryVersion -> entry_of (published lake subject) e
  | Some (Ok None) => kvCoverage q = Some true -> published lake subject = []
  | _ => True
  end.

Lemma attempt_served {A} (q : Queries) f (of_entry : Entry -> list A) (lake : list SignalRow) subject answer :
  kvStore q = Some f -> cache_contract lake subject q ->
  (forall e, entry_of (published lake subject) e -> Ok (of_entry e) = answer) ->
  att_served (attempt_kv q f of_entry).1 = true ->
  @Ok string _ (att_answer (attempt_kv q f of_entry).1) = answer.
Proof.
  intros Hq Hc Hans. unfold cache_contract in Hc. rewrite Hq in Hc. unfold attempt_kv, readKVEntry.
  destruct f as [[e|]|[]]; [|destruct (negative_disposition q) eqn:Ed; try done|done].
  - destruct (Z.eqb_spec (e_V e) EntryVersion) as [Ev|]; cbn [negb]; [|done]. intros _. by apply Hans, Hc.
  - intros _. apply Hans. unfold negative_disposition in Ed.
    destruct (kvNegMode q), (kvCoverage q) as [[]|]; try done; rewrite Hc by done.
    all: split; [intros r Hr; by apply elem_of_nil in Hr|intros n c Hn; change (e_Signals empty_entry) with (∅ : gmap string SignalValue) in Hn;
    by rewrite lookup_empty in Hn].
Qed.

Lemma serve_exact {A} q mode rollup wanted attempt (answer fromRollup : result string (list A)) sc sn :
  (rollup = true -> fromRollup = answer) ->
  (forall f, kvStore q = Some f -> rollup = true -> wanted = true ->
     att_served (attempt f).1 = true -> Ok (att_answer (attempt f).1) = answer) ->
  (serve q mode rollup wanted attempt fromRollup answer sc sn).1 = answer.
Proof.
  intros Hr Ha. unfold serve. destruct rollup, wanted; cbn [andb]; [|by rewrite Hr|done..].
  destruct (kvStore q) as [f|] eqn:Eq; [|by rewrite Hr].
  case_bool_decide; [|by rewrite Hr]. specialize (Ha f eq_refl eq_refl eq_refl).
  destruct (attempt f) as [att ev]. cbn [fst] in Ha. destruct (att_served att); cbn [fst snd]; [by apply Ha|by rewrite Hr].
Qed.

(** An unreachable cache is as good as none. *)
Lemma serve_without {A} q mode rollup wanted (of_entry : fetched -> Entry -> list A)
    (fromRollup fromLake : result string (list A)) sc sn :
  kvStore q = Some (Err tt) ->
  (serve q mode rollup wanted (fun f => attempt_kv q f (of_entry f)) fromRollup fromLake sc sn).1 =
  if rollup then fromRollup else fromLake.
Proof.
  intros Hq. unfold serve. rewrite Hq. destruct rollup, wanted; cbn [andb]; try done.
  case_bool_decide; done.
Qed.

(** C20. Which path answers never matters: with the rollup equal to its definition
    and the cache true to its contract, the three latest queries return the
    scan's answer in every mode, for every filter and request, whether the
    cache hits, misses with or without trusted coverage, holds an entry of
    another version or fails; and when the cache fails the answer is the one
    the configuration without a cache gives, errors of the database included. *)
Theorem dispatch_exact dec lake table q subject args filter_ :
  lake_ok lake -> fixes_first lake -> (forall r, r ∈ lake -> zero_time < sr_Timestamp r) ->
  table ≡ₚ rollupSelectSQL everything lake -> cache_contract lake subject q ->
  (GetLatestSignals dec lake table None q subject args).1 = getLatestSignalsLake dec lake None subject args /\
  (GetAllLatestSignals dec lake table None q subject filter_).1 =
    getAllLatestSignalsLake dec lake None subject filter_ /\
  (GetAvailableSignals dec lake table None q subject filter_).1 =
    getAvailableSignalsLake dec lake None subject filter_ /\
  (kvStore q = Some (Err tt) -> forall db_error,
     (GetLatestSignals dec lake table db_error q subject args).1 =
       if noSourceFilter (sia_Filter (la_SignalArgs args)) then getLatestSignalsRollup table db_error subject args
       else getLatestSignalsLake dec lake db_error subject args).
Proof.
  intros Hok Hff Hpos Ht Hc.
  assert (Hnf : noSourceFilter filter_ = true -> signalSourceCond dec filter_ = None)
    by (destruct filter_ as [[[?|]]|]; done).
  split_and!.
  - apply serve_exact; [by apply rollup_latest_eq|]. intros f Hf Hns Hnr.
    apply negb_true_iff in Hnr. eapply attempt_served; [done..|]. intros e He. apply (signals_agree lake Hok Hff subject e He Hpos dec args Hnr Hns).
  - apply serve_exact.
    + intros Hns. unfold getAllLatestSignalsLake. rewrite (Hnf Hns). apply (rollup_all_eq lake Hok table Ht subject dec).
    + intros f Hf Hns _. eapply attempt_served; [done..|]. intros e He.
      unfold getAllLatestSignalsLake. rewrite (Hnf Hns). apply (all_agree lake Hok Hff subject e He Hpos dec).
  - apply serve_exact.
    + intros Hns. unfold getAvailableSignalsLake. rewrite (Hnf Hns). apply (rollup_available_eq lake Hok table Ht subject dec).
    + intros f Hf Hns _. eapply attempt_served; [done..|]. intros e He.
      unfold getAvailableSignalsLake. rewrite (Hnf Hns). apply (available_agree lake Hok Hff subject e He Hpos dec).
  - intros Hq db_error. by apply (serve_without q _ _ _ (fun _ e => signalsFromKVEntry e args)).
Qed.

(** ** The shadow comparison *)

Lemma shadow_loop_clean km rm : shadow_loop km rm (false, true) = Some (false, true) ->
  Forall (fun p => exists k, km !! p.1 = Some k /\ rows_match p.2 k = true) rm.
Proof.
  assert (Hdiff : forall rm st, st.1 = true -> forall st', shadow_loop km rm st = Some st' -> st'.1 = true).
  { induction rm0 as [|[n r] rm0 IH]; intros st Hst st'; cbn [shadow_loop]; [congruence|].
    destruct (km !! n) as [k|]; [|done]. destruct (rows_match r k); apply IH; done. }
  induction rm as [|[n r] rm IH]; intros H; [constructor|]. cbn [shadow_loop] in H.
  destruct (km !! n) as [k|] eqn:Ek; [|done]. destruct (rows_match r k) eqn:Em.
  - constructor; [by exists k|by apply IH].
  - apply Hdiff in H; done.
Qed.

(** A "match" of the shadow comparison is agreement: the two answers have the
    same names and, per name, times equal to the microsecond and equal values;
    a name of the rollup that the cache lacks is never a match nor reported as
    the cache being newer. *)
Theorem classifyShadowDiff_spec rollup kv :
  (classifyShadowDiff rollup kv = "match"%string ->
     dom (byName rollup) = dom (byName kv) /\
     forall n r, byName rollup !! n = Some r -> exists k, byName kv !! n = Some k /\ rows_match r k = true) /\
  (forall n, is_Some (byName rollup !! n) -> byName kv !! n = None ->
     classifyShadowDiff rollup kv = "mismatch"%string).
Proof.
  unfold classifyShadowDiff. set (rm := byName rollup). set (km := byName kv). split.
  - destruct (shadow_loop km (map_to_list rm) (false, true)) as [[diff newer]|] eqn:E; [|done].
    destruct diff; [by destruct newer|]. cbn [orb].
    destruct (forallb _ (map_to_list km)) eqn:Ef; [|by destruct newer]. intros _.
    assert (newer = true) as ->.
    { assert (Hn : forall l st st', shadow_loop km l st = Some st' -> st'.1 = false -> st' = st).
      { induction l as [|[n r] l IH]; intros st st'; cbn [shadow_loop]; [congruence|].
        destruct (km !! n) as [k|]; [|done]. destruct (rows_match r k); [apply IH|].
        intros H Hf. specialize (IH _ _ H Hf). subst st'. done. }
      by specialize (Hn _ _ _ E eq_refl) as [= ->]. }
    apply shadow_loop_clean in E. rewrite Forall_forall in E.
    assert (Hlk : forall n r, rm !! n = Some r -> exists k, km !! n = Some k /\ rows_match r k = true).
    { intros n r Hr. by apply (E (n, r)), elem_of_map_to_list. }
    split; [|exact Hlk]. apply set_eq. intros n. rewrite !elem_of_dom. split.
    + intros [r Hr]. destruct (Hlk n r Hr) as (k & Hk & _). by exists k.
    + intros [k Hk]. rewrite forallb_forall in Ef. specialize (Ef (n, k)).
      apply bool_decide_eq_true in Ef; [done|]. by apply list_elem_of_In, elem_of_map_to_list.
  - intros n [r Hr] Hk. assert (Hnone : shadow_loop km (map_to_list rm) (false, true) = None); [|by rewrite Hnone].
    apply elem_of_map_to_list in Hr. revert Hr. generalize (false, true) as st.
    induction (map_to_list rm) as [|[m x] l IH]; intros st Hin; [by apply elem_of_nil in Hin|].
    cbn [shadow_loop]. apply elem_of_cons in Hin as [[= <- <-]|Hin]; [by rewrite Hk|].
    destruct (km !! m); [|done]. by destruct (rows_match x v); apply IH.
Qed.

(** ** At concrete tables *)

Definition fixes_firstb (lake : list SignalRow) : bool :=
  forallb (fun r => forallb (fun z =>
    negb (same_ident ident r z && lakeNonZeroLoc r && negb (lakeNonZeroLoc z)) ||
    String.ltb (sr_CloudEventID r) (sr_CloudEventID z)) lake) lake.

Lemma fixes_firstb_true lake : fixes_firstb lake = true -> fixes_first lake.
Proof.
  unfold fixes_firstb. rewrite forallb_forall. intros H r z Hr Hz Hid Hn Hzz.
  specialize (H r (proj1 (list_elem_of_In _ _) Hr)). rewrite forallb_forall in H.
  specialize (H z (proj1 (list_elem_of_In _ _) Hz)).
  rewrite (proj2 (same_ident_true ident r z) Hid), Hn, Hzz in H. exact H.
Qed.

Definition positive_times (l : list SignalRow) : Prop :=
  forall r, r ∈ l -> whole_micro (sr_Timestamp r) /\ zero_time < sr_Timestamp r.

Lemma latest_table_times : positive_times latest_table.
Proof.
  refine (proj1 (Forall_forall (fun r => whole_micro (sr_Timestamp r) /\ zero_time < sr_Timestamp r) latest_table) _).
  repeat constructor.
Qed.

Lemma latest_table_stored : map stored latest_table = latest_table.
Proof. apply stored_id. intros r Hr. by apply latest_table_times. Qed.

Definition latest_entry : Entry :=
  (fold_rows (mkEntry EntryVersion ∅) false (rev (published latest_table demo_subject))).1.

Example kv_answers_scan_witness :
  getLatestSignalsLake no_did latest_table None demo_subject latest_args =
    Ok (signalsFromKVEntry latest_entry latest_args) /\
  map brief (signalsFromKVEntry latest_entry latest_args) =
    [(FieldCurrentLocationCoordinates, 20, f64_zero, f64_of_Z 53);
     (LastSeenField, 30, f64_zero, f64_zero); ("speed"%string, 20, f64_of_Z 40, f64_zero)].
Proof.
  split; [|vm_compute; reflexivity].
  pose proof (kv_answers_scan no_did latest_table (rev (published latest_table demo_subject)) demo_subject
    latest_args) as H. cbv zeta in H. rewrite latest_table_stored in H.
  destruct H as [E _]; [exact latest_table_ok|by apply fixes_firstb_true|exact latest_table_times| |done|done|].
  - intros q. by rewrite <- Permutation_rev.
  - symmetry. exact E.
Defined.

Definition serving (f : fetched) : Queries :=
  mkQueries (Some f) KVReadServe KVReadServe KVNegativeServe (Some true) false.

Example dispatch_exact_witness :
  exists l, (GetAllLatestSignals no_did latest_table (rollupSelectSQL everything latest_table) None
      (serving (Ok (Some latest_entry))) demo_subject None) = (Ok l, [KvRead kvOutcomeHit]) /\
    getAllLatestSignalsLake no_did latest_table None demo_subject None = Ok l /\ length l = 4%nat.
Proof.
  destruct (dispatch_exact no_did latest_table (rollupSelectSQL everything latest_table)
    (serving (Ok (Some latest_entry))) demo_subject latest_args None latest_table_ok) as (_ & E & _).
  - by apply fixes_firstb_true.
  - intros r Hr. by apply latest_table_times.
  - reflexivity.
  - intros _. unfold latest_entry. pose proof (fold_rows_entry_of EntryVersion
      (rev (published latest_table demo_subject))) as [HA HS]. split.
    + intros r Hr. apply HA. by rewrite <- Permutation_rev.
    + intros n c Hc. eapply value_of_incl; [|by apply HS]. intros p Hp. unfold named in *.
      by rewrite <- Permutation_rev in Hp.
  - eexists. split; [vm_compute; reflexivity|]. rewrite <- E. split; vm_compute; reflexivity.
Defined.

Example classifyShadowDiff_spec_witness :
  let r := mkVssSignal "speed" 1000 (f64_of_Z 1) "" (vss_loc None) in
  classifyShadowDiff [r] [] = "mismatch"%string /\ classifyShadowDiff [r] [r] = "match"%string.
Proof.
  intros r. split; [|vm_compute; reflexivity].
  apply (proj2 (classifyShadowDiff_spec [r] []) "speed"); [exists r; reflexivity|reflexivity].
Defined.

(** One reading of two sources, the (0,0) row with the smaller id. *)
Definition masked : list SignalRow := [loc_row 20 "a" "x" 0 0; loc_row 20 "b" "y" 52 4].

(** Two readings of one microsecond. *)
Definition same_micro : list SignalRow :=
  [lake_row "speed" 1500 "a" (f64_of_Z 1); lake_row "speed" 1700 "b" (f64_of_Z 2)].

Definition folded (decoded : list SignalRow) : Entry :=
  (fold_rows (mkEntry EntryVersion ∅) false (published decoded demo_subject)).1.

Definition ask (names locs : gset string) : LatestSignalsArgs :=
  mkLatestArgs (mkSignalArgs None demo_subject) names locs false.

(** C38. Where the conditions of [kv_answers_scan] fail the cache and the lake
    disagree on the same readings. The scan and the rollup deduplicate a reading
    before they exclude (0,0) rows, so a fix whose reading has a (0,0) row of a
    smaller id is hidden from them: they answer the origin at the epoch, while
    the cache, and the point lookup, answer the fix. And the cache orders two
    readings of one microsecond by their nanoseconds while the lake takes the
    smaller id: the shadow comparison calls the difference a mismatch. *)
Theorem cache_and_lake_disagree :
  lake_ok (map stored masked) /\ lake_ok (map stored same_micro) /\
  (exists s k, getLatestSignalsLake no_did (map stored masked) None demo_subject
       (ask ∅ {[FieldCurrentLocationCoordinates]}) = Ok [s] /\
     getLatestSignalsRollup (rollupSelectSQL everything (map stored masked)) None demo_subject
       (ask ∅ {[FieldCurrentLocationCoordinates]}) = Ok [s] /\
     signalsFromKVEntry (folded masked) (ask ∅ {[FieldCurrentLocationCoordinates]}) = [k] /\
     brief s = (FieldCurrentLocationCoordinates, 0, f64_zero, f64_zero) /\
     brief k = (FieldCurrentLocationCoordinates, 20, f64_zero, f64_of_Z 52) /\
     Latitude <$> location_at (map stored masked) demo_subject (20 * Second) = Some (f64_of_Z 52)) /\
  (exists s k, getLatestSignalsLake no_did (map stored same_micro) None demo_subject (ask {["speed"]} ∅) = Ok [s] /\
     signalsFromKVEntry (folded same_micro) (ask {["speed"]} ∅) = [k] /\
     vs_ValueNumber s = f64_of_Z 1 /\ vs_ValueNumber k = f64_of_Z 2 /\
     classifyShadowDiff [s] [k] = "mismatch"%string).
Proof.
  split; [|split; [|split]].
  1,2: apply demo_lake_ok; [repeat constructor|apply (bool_decide_unpack _); vm_compute; exact I].
  - do 2 eexists. split; [vm_compute; reflexivity|]. split; [vm_compute; reflexivity|].
    split; [vm_compute; reflexivity|]. vm_compute. done.
  - do 2 eexists. split; [vm_compute; reflexivity|]. split; [vm_compute; reflexivity|]. vm_compute. done.
Qed.
