(* ===== verification/Rollup.v ===== *)
(** * internal/materializer/daily_rollup.go: the daily refresh of the rollup

    lake.signals_latest is brought, once a day, up to a UTC midnight: seeded by a
    bounded recompute, or folded from the previous boundary, with the subjects
    that received late rows recomputed. The catalog is a state of tables; each
    statement outside a transaction and each transaction is one call, which may
    succeed, fail, conflict, or take effect and report a failure. The fields of
    the materializer that the refresh reads are a second state. Proved here: the
    boundary chosen, and that the merge of a tail into the table is the recompute;
    RollupInv.v has the runs. *)

From S2P Require Import Prelude Model SignalsRepo Decode Ingest Sql LakeSource LakeLatest.

#[local] Set Default Proof Using "Type*".

(** ** Modes and boundaries *)

Definition DailyRollupMode : Type := string.
Definition DailyRollupOff : DailyRollupMode := "off".
Definition DailyRollupOn : DailyRollupMode := "on".

Definition ParseDailyRollupMode (s : string) : DailyRollupMode * bool :=
  if String.eqb s "" || String.eqb s DailyRollupOn then (DailyRollupOn, true)
  else if String.eqb s DailyRollupOff then (DailyRollupOff, true)
  else (DailyRollupOff, false).

Definition defaultDailyRollupDelay : Z := 3 * Hour + 30 * Minute.

Definition Day : Z := 24 * Hour.

(** The boundary a refresh targets, the zero time when none is due. *)
Definition dailyRefreshBoundary (now watermark delay : Z) : Z :=
  let boundary := time_truncate now Day in
  let boundary := if time_sub now boundary <? delay then time_add boundary (- Day) else boundary in
  if negb (is_zero watermark) && negb (before watermark boundary) then zero_time else boundary.

(** ** State *)

(** A cursor of lake.ingest_progress, as [time.Parse] sees it. *)
Inductive cursor_cell := RFC3339 (t : Z) | Unparseable (raw : string).

(** [t.Format(time.RFC3339)] has whole seconds. *)
Definition Format (t : Z) : cursor_cell := RFC3339 (time_truncate t Second).

Record catalog := mkCatalog {
  (** lake.signals, lake.signals_latest *)
  db_signals : list SignalRow;
  db_latest : list LatestRow;
  (** lake.signals_latest_daily, when it exists *)
  db_shadow : option (list LatestRow);
  (** lake.rollup_late_subjects *)
  db_late : list string;
  (** the row of lake.ingest_progress of [dailyWatermarkPartition] *)
  db_mark : option cursor_cell;
}.

Definition set_signals (x : list SignalRow) (db : catalog) : catalog :=
  mkCatalog x (db_latest db) (db_shadow db) (db_late db) (db_mark db).
Definition set_latest (x : list LatestRow) (db : catalog) : catalog :=
  mkCatalog (db_signals db) x (db_shadow db) (db_late db) (db_mark db).
Definition set_shadow (x : option (list LatestRow)) (db : catalog) : catalog :=
  mkCatalog (db_signals db) (db_latest db) x (db_late db) (db_mark db).
Definition set_late (x : list string) (db : catalog) : catalog :=
  mkCatalog (db_signals db) (db_latest db) (db_shadow db) x (db_mark db).
Definition set_mark (x : option cursor_cell) (db : catalog) : catalog :=
  mkCatalog (db_signals db) (db_latest db) (db_shadow db) (db_late db) x.

(** The fields of the materializer. *)
Record daily := mkDaily {
  dailyMode : DailyRollupMode;
  dailyDelay : Z;
  dailyWatermark : Z;
  dailyStateLoaded : bool;
  dailyLateSeen : gset string;
  d_dirtySubjects : gset string;
  d_rollupFullRebuild : bool;
  d_backfillMode : bool;
  d_maxDirtySubjects : Z;
}.

Definition set_watermark (w : Z) (d : daily) : daily :=
  mkDaily (dailyMode d) (dailyDelay d) w (dailyStateLoaded d) (dailyLateSeen d) (d_dirtySubjects d)
    (d_rollupFullRebuild d) (d_backfillMode d) (d_maxDirtySubjects d).
Definition set_loaded (d : daily) : daily :=
  mkDaily (dailyMode d) (dailyDelay d) (dailyWatermark d) true (dailyLateSeen d) (d_dirtySubjects d)
    (d_rollupFullRebuild d) (d_backfillMode d) (d_maxDirtySubjects d).
Definition set_lateSeen (s : gset string) (d : daily) : daily :=
  mkDaily (dailyMode d) (dailyDelay d) (dailyWatermark d) (dailyStateLoaded d) s (d_dirtySubjects d)
    (d_rollupFullRebuild d) (d_backfillMode d) (d_maxDirtySubjects d).
Definition set_dirty (s : gset string) (full : bool) (d : daily) : daily :=
  mkDaily (dailyMode d) (dailyDelay d) (dailyWatermark d) (dailyStateLoaded d) (dailyLateSeen d) s
    full (d_backfillMode d) (d_maxDirtySubjects d).

(** [WithDailyRollup] on a new materializer. *)
Definition WithDailyRollup (mode : DailyRollupMode) (delay : Z) (backfill : bool) (maxDirty : Z) : daily :=
  mkDaily mode (if delay <=? 0 then defaultDailyRollupDelay else delay) zero_time false ∅ ∅ false
    backfill maxDirty.

Definition dailyConfigured (d : daily) : bool :=
  negb (String.eqb (dailyMode d) "") && negb (String.eqb (dailyMode d) DailyRollupOff).

Definition dailyActive (d : daily) : bool :=
  dailyConfigured d && dailyStateLoaded d && negb (is_zero (dailyWatermark d)).

(** ** Calls *)

(** What befalls a call, and the rows of lake.signals_latest that its [DELETE]
    leaves behind when a compaction has just moved them. *)
Record call_event := mkCall { c_fate : fate; c_missed : LatestRow -> bool }.

Definition none_missed (r : LatestRow) : bool := false.
Definition goes (f : fate) : call_event := mkCall f none_missed.

Record proc := mkProc { p_db : catalog; p_daily : daily; p_future : list call_event }.

Inductive rollup_error :=
  | ErrDb
  | ErrConflict
  | ErrWatermarkMoved
  | ErrNotMidnight
  | ErrBadWatermark
  | ErrVerification
  | ErrDisabled.

Definition P (A : Type) : Type := prog proc rollup_error A.

Definition next_call : P call_event := fun w =>
  match p_future w with
  | [] => (Ok (goes Fine), w)
  | e :: rest => (Ok e, mkProc (p_db w) (p_daily w) rest)
  end.
Definition get_db : P catalog := fun w => (Ok (p_db w), w).
Definition put_db (db : catalog) : P unit := fun w => (Ok tt, mkProc db (p_daily w) (p_future w)).
Definition get_daily : P daily := fun w => (Ok (p_daily w), w).
Definition mod_daily (f : daily -> daily) : P unit := fun w =>
  (Ok tt, mkProc (p_db w) (f (p_daily w)) (p_future w)).

(** A query; [ctx.Err()]. *)
Definition db_query {A} (q : catalog -> A) : P A :=
  do! c <- next_call;
  match c_fate c with Fine => do! db <- get_db; ret (q db) | _ => fail_with ErrDb end.

Definition checkCtx : P unit := db_query (fun _ => tt).

(** A transaction, or a statement on its own: [tx] gives the new catalog, or the
    error that rolls it back, from the rows its [DELETE] misses. *)
Definition transact (tx : (LatestRow -> bool) -> catalog -> result rollup_error catalog) : P unit :=
  do! c <- next_call;
  match c_fate c with
  | Fails => fail_with ErrDb
  | f =>
      do! db <- get_db;
      match tx (c_missed c) db with
      | Err e => fail_with e
      | Ok db' =>
          match f with
          | Fine => put_db db'
          | LostAck => do! _ <- put_db db'; fail_with ErrDb
          | Conflict => fail_with ErrConflict
          | _ => fail_with ErrDb
          end
      end
  end.

Definition exec_stmt (f : (LatestRow -> bool) -> catalog -> catalog) : P unit :=
  transact (fun missed db => Ok (f missed db)).

(** [execRetryConflict]; the sleep between attempts ends early with the context. *)
Fixpoint retry_loop (attempts : nat) (f : (LatestRow -> bool) -> catalog -> catalog) : P unit :=
  match attempts with
  | O => fail_with ErrConflict
  | S n =>
      try_ (exec_stmt f) (fun r =>
        match r with
        | Ok _ => ret tt
        | Err ErrConflict => do! _ <- checkCtx; retry_loop n f
        | Err e => fail_with e
        end)
  end.

Definition execRetryConflict (f : (LatestRow -> bool) -> catalog -> catalog) : P unit := retry_loop 5 f.

(** ** Statements *)

(** [DELETE FROM lake.signals_latest WHERE p]. *)
Definition delete_latest (p : LatestRow -> bool) (missed : LatestRow -> bool) (t : list LatestRow)
  : list LatestRow :=
  List.filter (fun r => negb (p r) || missed r) t.

Definition all_rows (r : LatestRow) : bool := true.

(** [timestamp >= from AND timestamp < to]. *)
Definition in_window (from to : Z) (r : SignalRow) : bool :=
  (make_timestamp (UnixMicro from) <=? sr_Timestamp r) && (sr_Timestamp r <? make_timestamp (UnixMicro to)).

Definition in_bucket (b : Z) (r : SignalRow) : bool := sr_SubjectBucket r =? b.
Definition one_of (subjects : list string) (s : string) : bool := existsb (String.eqb s) subjects.

Definition same_key (a b : LatestRow) : bool :=
  (lr_subject_bucket a =? lr_subject_bucket b) && String.eqb (lr_subject a) (lr_subject b) &&
  String.eqb (lr_name a) (lr_name b).

(** [loc_ts > make_timestamp(0)], NULL being no. *)
Definition saw_fix (t : LatestRow) : bool :=
  match lr_loc_ts t with Some x => make_timestamp 0 <? x | None => false end.

(** A row of [_daily_merged]. *)
Definition merge_row (t : LatestRow) (p : option LatestRow) : LatestRow :=
  let or_stored {A} (mine stored : LatestRow -> A) (d : A) : A :=
    if saw_fix t then mine t else match p with Some p => stored p | None => d end in
  mkLatestRow (lr_subject t) (lr_subject_bucket t) (lr_name t)
    (lr_timestamp t) (lr_value_number t) (lr_value_string t)
    (or_stored lr_loc_lat lr_loc_lat f64_zero) (or_stored lr_loc_lon lr_loc_lon f64_zero)
    (or_stored lr_loc_hdop lr_loc_hdop f64_zero) (or_stored lr_loc_heading lr_loc_heading f64_zero)
    (or_stored lr_loc_ts (fun p => Some (default (make_timestamp 0) (lr_loc_ts p))) (Some (make_timestamp 0)))
    ((match p with Some p => lr_count p | None => 0 end) + lr_count t)
    (Z.min (match p with Some p => lr_first_seen p | None => lr_first_seen t end) (lr_first_seen t))
    (lr_last_seen t).

(** [_daily_tail t LEFT JOIN lake.signals_latest p]. *)
Definition daily_merged (tail_ table : list LatestRow) : list LatestRow :=
  flat_map (fun t => match List.filter (same_key t) table with
                     | [] => [merge_row t None]
                     | ps => map (fun p => merge_row t (Some p)) ps
                     end) tail_.

Definition fold_table (missed : LatestRow -> bool) (tail_ table : list LatestRow) : list LatestRow :=
  let merged := daily_merged tail_ table in
  delete_latest (fun r => existsb (same_key r) merged) missed table ++ merged.

(** ** The refresh *)

Definition bucket_list : list Z := map Z.of_nat (seq 0 (Z.to_nat NumLatestBuckets)).

Fixpoint seed_buckets (boundary : Z) (buckets : list Z) : P unit :=
  match buckets with
  | [] => ret tt
  | b :: rest =>
      do! _ <- checkCtx;
      do! _ <- exec_stmt (fun _ db =>
        set_latest (db_latest db ++
          rollupSelectSQL (fun r => in_bucket b r && before_watermark boundary r) (db_signals db)) db);
      seed_buckets boundary rest
  end.

Definition seedDailyRollup (boundary : Z) : P unit :=
  do! _ <- execRetryConflict (fun missed db => set_latest (delete_latest all_rows missed (db_latest db)) db);
  do! _ <- seed_buckets boundary bucket_list;
  exec_stmt (fun _ db => set_late [] (set_mark (Some (Format boundary)) db)).

Definition rollupSubjectChunk : nat := 500.

Definition chunks {A} (l : list A) : list (list A) := cut (length l) rollupSubjectChunk l.

Definition recomputeDailyChunk (bucket : Z) (subjects : list string) (boundary : Z) : P unit :=
  exec_stmt (fun missed db =>
    set_late (List.filter (fun s => negb (one_of subjects s)) (db_late db))
      (set_latest
         (delete_latest (fun r => (lr_subject_bucket r =? bucket) && one_of subjects (lr_subject r)) missed
            (db_latest db) ++
          rollupSelectSQL (fun r => in_bucket bucket r && one_of subjects (sr_Subject r) &&
                                    before_watermark boundary r) (db_signals db)) db)).

Fixpoint chunks_loop (bucket boundary : Z) (cs : list (list string)) : P unit :=
  match cs with
  | [] => ret tt
  | c :: rest =>
      do! _ <- checkCtx;
      do! _ <- recomputeDailyChunk bucket c boundary;
      chunks_loop bucket boundary rest
  end.

Definition buckets_of (subjects : list string) : list Z := isort Z.leb (remove_dups (map HashBucket subjects)).

Definition of_bucket (subjects : list string) (b : Z) : list string :=
  isort sleb (List.filter (fun s => HashBucket s =? b) subjects).

Fixpoint late_buckets (boundary : Z) (subjects : list string) (buckets : list Z) : P unit :=
  match buckets with
  | [] => ret tt
  | b :: rest =>
      do! _ <- chunks_loop b boundary (chunks (of_bucket subjects b));
      late_buckets boundary subjects rest
  end.

Definition recomputeLateDailySubjects (boundary : Z) : P unit :=
  do! subjects <- db_query (fun db => remove_dups (db_late db));
  do! d <- get_daily;
  match subjects with
  | [] => ret tt
  | _ =>
      if d_maxDirtySubjects d <? Z.of_nat (length subjects) then
        do! _ <- execRetryConflict (fun _ => set_late []);
        seedDailyRollup boundary
      else late_buckets boundary subjects (buckets_of subjects)
  end.

Definition fold_tx (from to : Z) (missed : LatestRow -> bool) (db : catalog) : result rollup_error catalog :=
  let tail_ := rollupSelectSQL (in_window from to) (db_signals db) in
  match db_mark db with
  | Some (RFC3339 w) =>
      if w =? time_truncate from Second
      then Ok (set_mark (Some (Format to)) (set_latest (fold_table missed tail_ (db_latest db)) db))
      else Err ErrWatermarkMoved
  | _ => Err ErrWatermarkMoved
  end.

Definition foldDailyRollup (from to : Z) : P unit :=
  do! _ <- transact (fold_tx from to);
  recomputeLateDailySubjects to.

(** Keys, rows, keys with duplicates, rows of those. *)
Definition rollup_cardinality (t : list LatestRow) : Z * Z * Z * Z :=
  let keys := remove_dups (map (fun r => (lr_subject r, lr_name r)) t) in
  let n k := Z.of_nat (length (List.filter (fun r => bool_decide ((lr_subject r, lr_name r) = k)) t)) in
  let dups := List.filter (fun k => 1 <? n k) keys in
  (Z.of_nat (length keys), Z.of_nat (length t), Z.of_nat (length dups), fold_right (fun k z => n k + z) 0 dups).

Definition observeRollupCardinality : P (Z * Z * Z * Z) := db_query (fun db => rollup_cardinality (db_latest db)).

(** Errors of the probe are logged. *)
Definition probe : P unit := try_ observeRollupCardinality (fun _ => ret tt).

Definition loadDailyWatermark : P Z :=
  do! c <- db_query db_mark;
  match c with
  | None => ret zero_time
  | Some (RFC3339 w) => ret w
  | Some (Unparseable _) => fail_with ErrBadWatermark
  end.

Definition promoteDailyRollup : P unit :=
  do! _ <- transact (fun missed db =>
    match db_shadow db with
    | None => Err ErrDb
    | Some t => Ok (set_latest (delete_latest all_rows missed (db_latest db) ++ t) db)
    end);
  do! n <- db_query (fun db => rollup_cardinality (db_latest db));
  if negb (n.1.1.1 =? n.1.1.2) then fail_with ErrVerification
  else execRetryConflict (fun _ => set_shadow None).

Definition LoadDailyRollupState : P unit :=
  do! d <- get_daily;
  if negb (dailyConfigured d) || dailyStateLoaded d then ret tt
  else
    do! shadow <- db_query (fun db => match db_shadow db with Some _ => true | None => false end);
    do! _ <- execRetryConflict (fun _ db => db);
    do! w <- loadDailyWatermark;
    do! _ <- (if shadow : bool
              then if is_zero w then execRetryConflict (fun _ => set_shadow None) else promoteDailyRollup
              else ret tt);
    do! _ <- mod_daily (fun d => set_loaded (set_lateSeen ∅ (set_watermark w d)));
    probe.

(** What the refresh does once the state is loaded. *)
Definition run_body (boundary : Z) : P unit :=
  if negb (tequal boundary (time_truncate boundary Day)) then fail_with ErrNotMidnight
  else
    do! d <- get_daily;
    if negb (is_zero (dailyWatermark d)) && negb (after boundary (dailyWatermark d)) then ret tt
    else
      do! _ <- (if is_zero (dailyWatermark d) then seedDailyRollup boundary
                else foldDailyRollup (dailyWatermark d) boundary);
      do! _ <- mod_daily (fun d => set_lateSeen ∅ (set_watermark boundary d));
      probe.

Definition RunDailyRollupRefresh (boundary : Z) : P unit :=
  do! _ <- LoadDailyRollupState;
  run_body boundary.

Definition MaybeDailyRollupRefresh (now : Z) : P unit :=
  do! d <- get_daily;
  if negb (dailyConfigured d) || d_backfillMode d then ret tt
  else
    do! _ <- LoadDailyRollupState;
    do! d <- get_daily;
    let boundary := dailyRefreshBoundary now (dailyWatermark d) (dailyDelay d) in
    if is_zero boundary then ret tt else RunDailyRollupRefresh boundary.

(** ** Late rows *)

Fixpoint late_loop (d : daily) (seen : gset string) (signals : list SignalRow) : list string :=
  match signals with
  | [] => []
  | r :: rest =>
      let s := sr_Subject r in
      if negb (before (sr_Timestamp r) (dailyWatermark d)) then late_loop d seen rest
      else if bool_decide (s ∈ dailyLateSeen d) then late_loop d seen rest
      else if bool_decide (s ∈ seen) then late_loop d seen rest
      else s :: late_loop d ({[s]} ∪ seen) rest
  end.

Definition lateDailyInsert (d : daily) (signals : list SignalRow) : list string := late_loop d ∅ signals.

Definition markLateDailySeen (signals : list SignalRow) (d : daily) : daily :=
  let seen := list_to_set (map sr_Subject
                (List.filter (fun r => before (sr_Timestamp r) (dailyWatermark d)) signals)) ∪ dailyLateSeen d in
  set_lateSeen (if d_maxDirtySubjects d <? Z.of_nat (size seen) then ∅ else seen) d.

(** The signals of [insertDecodedSteady], the marks in the same transaction. *)
Definition insertSignals (now : Z) (d : daily) (rows : list SignalRow) (db : catalog) : catalog :=
  match rows with
  | [] => db
  | _ =>
      let db := set_signals (antiJoinInsert same_signal sr_Timestamp (db_signals db) rows
                  (timeRange now (map sr_Timestamp rows)) (d_backfillMode d)) db in
      if dailyActive d then set_late (db_late db ++ lateDailyInsert d rows) db else db
  end.

(** The signals of [markDirtyFromBatch]. *)
Definition addDirtySignals (rows : list SignalRow) (d : daily) : daily :=
  if d_backfillMode d
  then let '(ds, full) := add_dirty (d_maxDirtySubjects d) (map sr_Subject rows)
                            (d_dirtySubjects d) (d_rollupFullRebuild d) in set_dirty ds full d
  else d.

Definition markDirtySignals (rows : list SignalRow) (d : daily) : daily :=
  let d := addDirtySignals rows d in
  if dailyActive d then markLateDailySeen rows d else d.

(** A commit as the rollup sees it. Its error is resolved by reading the cursor,
    which advanced with it. *)
Definition commitSignals (now : Z) (rows : list SignalRow) : P unit :=
  do! d <- get_daily;
  do! c <- next_call;
  do! db <- get_db;
  do! _ <-
    match c_fate c with
    | Fine => put_db (insertSignals now d rows db)
    | LostAck => do! _ <- put_db (insertSignals now d rows db); checkCtx
    | _ => fail_with ErrDb
    end;
  mod_daily (markDirtySignals rows).

Fixpoint persist_loop (cs : list (list string)) : P unit :=
  match cs with
  | [] => ret tt
  | c :: rest => do! _ <- exec_stmt (fun _ db => set_late (db_late db ++ c) db); persist_loop rest
  end.

Definition PersistDailyLateSubjects : P unit :=
  do! d <- get_daily;
  if negb (dailyConfigured d) then ret tt
  else
    do! _ <- LoadDailyRollupState;
    do! d <- get_daily;
    if d_rollupFullRebuild d then
      do! _ <- execRetryConflict (fun _ => set_mark None);
      mod_daily (set_watermark zero_time)
    else persist_loop (chunks (isort sleb (elements (d_dirtySubjects d)))).

(** ** The rows of a subject *)

(** The row the [SELECT] of the rollup makes of a group. *)
Definition group_row (s n : string) (g : list SignalRow) : LatestRow :=
  let fixes := List.filter lakeNonZeroLoc g in
  mkLatestRow s (default 0 (sr_SubjectBucket <$> head g)) n
    (default 0 (sql_max sr_Timestamp g))
    (arg_max_of f64_zero sr_ValueNumber g) (arg_max_of ""%string sr_ValueString g)
    (arg_max_of f64_zero sr_LocLat fixes) (arg_max_of f64_zero sr_LocLon fixes)
    (arg_max_of f64_zero sr_LocHDOP fixes) (arg_max_of f64_zero sr_LocHeading fixes)
    (Some (default (make_timestamp 0) (sql_max sr_Timestamp fixes)))
    (Z.of_nat (length g)) (default 0 (sql_min sr_Timestamp g)) (default 0 (sql_max sr_Timestamp g)).

Definition subject_table (s : string) (K : list SignalRow) : list LatestRow :=
  map (fun n => group_row s n (named_rows n K)) (distinct_names K).

Lemma rollup_of_table lake w s : bucketed lake ->
  rollup_of (rollupSelectSQL w lake) s ≡ₚ subject_table s (kept_rows lake w s).
Proof.
  intros Hb. etrans; [by apply rollup_of_rows|]. unfold subject_table.
  erewrite map_ext; [reflexivity|]. intros n. unfold rollup_row. cbn [fst snd].
  by rewrite group_kept_rows.
Qed.

(** A subject's rows in the rollup depend on its kept rows alone. *)
Lemma rollup_of_ext lake1 lake2 w1 w2 s : bucketed lake1 -> bucketed lake2 ->
  List.filter (fun r => w1 r && row_of_subject s r) lake1 =
  List.filter (fun r => w2 r && row_of_subject s r) lake2 ->
  rollup_of (rollupSelectSQL w1 lake1) s ≡ₚ rollup_of (rollupSelectSQL w2 lake2) s.
Proof.
  intros H1 H2 E. rewrite !rollup_of_table by done. by rewrite !kept_rows_dedup, E.
Qed.

Lemma rollup_of_none lake w s : bucketed lake ->
  (forall r, r ∈ lake -> sr_Subject r = s -> w r = false) -> rollup_of (rollupSelectSQL w lake) s = [].
Proof.
  intros Hb Hw. apply Permutation_nil_r. rewrite rollup_of_table, kept_rows_dedup by done.
  rewrite list_filter_none; [done|]. intros r Hr. unfold row_of_subject.
  destruct (String.eqb_spec (sr_Subject r) s); [by rewrite Hw|by rewrite andb_false_r].
Qed.

Lemma rollup_of_app t1 t2 s : rollup_of (t1 ++ t2) s = rollup_of t1 s ++ rollup_of t2 s.
Proof. apply List.filter_app. Qed.

Lemma elem_of_kept_rows lake w s r : r ∈ kept_rows lake w s ->
  r ∈ lake /\ w r = true /\ sr_Subject r = s.
Proof.
  rewrite kept_rows_dedup. intros Hr%dedup_incl. apply list_elem_of_In, filter_In in Hr as [Hr Hw].
  apply andb_true_iff in Hw as [Hw Hs%String.eqb_eq]. apply list_elem_of_In in Hr. done.
Qed.

(** One reading per name and time. *)
Lemma kept_rows_inj lake w s n x y :
  x ∈ named_rows n (kept_rows lake w s) -> y ∈ named_rows n (kept_rows lake w s) ->
  sr_Timestamp x = sr_Timestamp y -> x = y.
Proof.
  rewrite !elem_of_named_rows. intros [Hx Nx] [Hy Ny] Et.
  pose proof (elem_of_kept_rows _ _ _ _ Hx) as (_ & _ & Sx).
  pose proof (elem_of_kept_rows _ _ _ _ Hy) as (_ & _ & Sy).
  rewrite kept_rows_dedup in Hx, Hy. eapply dedup_inj; [exact Hx|exact Hy|].
  unfold ident. congruence.
Qed.

(** ** Merging a tail is recomputing *)

Section merge.
Context (s n : string) (g : list SignalRow) (p : SignalRow -> bool).
Context (Hinj : forall x y, x ∈ g -> y ∈ g -> sr_Timestamp x = sr_Timestamp y -> x = y).
Context (Hbucket : forall x, x ∈ g -> sr_SubjectBucket x = HashBucket s).
Context (Hcut : forall x y, x ∈ g -> y ∈ g -> p x = true -> p y = false -> sr_Timestamp x < sr_Timestamp y).
Context (Hpos : forall y, y ∈ g -> p y = false -> 0 < sr_Timestamp y).

Notation old := (List.filter p g).
Notation new := (List.filter (fun r => negb (p r)) g).

Lemma elem_of_old x : x ∈ old <-> x ∈ g /\ p x = true.
Proof using. apply elem_of_list_filter. Qed.

Lemma elem_of_new x : x ∈ new <-> x ∈ g /\ p x = false.
Proof using. by rewrite elem_of_list_filter, negb_true_iff. Qed.

(** The tail wins. *)
Lemma top_new f : List.filter f new <> [] -> top sr_Timestamp (List.filter f g) = top sr_Timestamp (List.filter f new).
Proof using Hinj Hcut.
  intros Hne. pose proof (@elem_of_list_filter _ f) as Hf.
  destruct (top sr_Timestamp (List.filter f new)) as [a|] eqn:E; [|by apply top_none in E].
  apply top_spec in E as [Ha Hmax]. pose proof (proj1 (Hf _ _) Ha) as [[Hg Hp]%elem_of_new Hfa].
  apply top_unique.
  - intros x y [Hx _]%Hf [Hy _]%Hf. by apply Hinj.
  - by apply Hf.
  - intros b [Hb Hfb]%Hf. destruct (p b) eqn:Ep.
    + specialize (Hcut b a Hb Hg Ep Hp). lia.
    + apply Hmax, Hf. split; [by apply elem_of_new|done].
Qed.

Lemma filter_old f : List.filter f new = [] -> List.filter f g = List.filter f old.
Proof using.
  intros Hn. rewrite list_filter_andb. apply filter_ext_in. intros r Hr. destruct (p r) eqn:Ep; [done|].
  apply not_true_iff_false. intros Hfr. assert (Hin : r ∈ List.filter f new).
  { apply list_elem_of_In, filter_In. split; [|done]. apply filter_In. by rewrite Ep. }
  rewrite Hn in Hin. by apply elem_of_nil in Hin.
Qed.

Lemma saw_fix_new : saw_fix (group_row s n new) =
  match List.filter lakeNonZeroLoc new with [] => false | _ => true end.
Proof using Hpos.
  unfold saw_fix. cbn [group_row lr_loc_ts]. rewrite sql_max_top.
  destruct (List.filter lakeNonZeroLoc new) as [|x l] eqn:E; [done|].
  destruct (top sr_Timestamp (x :: l)) as [a|] eqn:Et; [|by apply top_none in Et].
  apply top_spec in Et as [Ha _]. rewrite <- E in Ha.
  apply list_elem_of_In, filter_In, proj1, list_elem_of_In, elem_of_new in Ha as [Hg Hp].
  cbn [fmap option_fmap option_map default]. apply Z.ltb_lt. by apply Hpos.
Qed.

Lemma bucket_head l : l <> [] -> (forall x, x ∈ l -> x ∈ g) ->
  default 0 (sr_SubjectBucket <$> head l) = HashBucket s.
Proof using Hbucket. destruct l as [|x l]; [done|]. intros _ Hin. simpl. apply Hbucket, Hin. left. Qed.

Lemma new_nonempty_min l : l <> [] -> exists m, sql_min sr_Timestamp l = Some m.
Proof using. intros Hne. destruct (sql_min _ l) eqn:E; [eauto|]. by apply sql_min_none in E. Qed.

Lemma merge_group : new <> [] ->
  merge_row (group_row s n new) (match old with [] => None | _ => Some (group_row s n old) end) = group_row s n g.
Proof.
  intros Hne.
  assert (Hg : g <> []) by (intros ->; done).
  pose proof (top_new (fun _ => true)) as Ht. rewrite !(list_filter_all (fun _ => true)) in Ht by done.
  specialize (Ht Hne).
  pose proof (top_new lakeNonZeroLoc) as Hft. pose proof (filter_old lakeNonZeroLoc) as Hfo.
  unfold merge_row. rewrite saw_fix_new. cbn [group_row lr_subject lr_subject_bucket lr_name lr_timestamp
    lr_value_number lr_value_string lr_loc_lat lr_loc_lon lr_loc_hdop lr_loc_heading lr_loc_ts lr_count
    lr_first_seen lr_last_seen].
  unfold group_row, arg_max_of, sql_arg_max. rewrite !sql_max_top, Ht.
  rewrite (bucket_head new) by (done || by intros x [? _]%elem_of_new). rewrite (bucket_head g) by done.
  rewrite (length_split p g), (sql_min_split sr_Timestamp p g).
  destruct (new_nonempty_min new Hne) as [m Em]. rewrite Em.
  destruct (List.filter lakeNonZeroLoc new) as [|x l] eqn:Ef.
  - rewrite (Hfo eq_refl). destruct old as [|y o] eqn:Eo.
    + cbn. f_equal; lia.
    + destruct (new_nonempty_min (y :: o)) as [m' Em']; [done|]. rewrite Em'.
      cbn [lr_count lr_first_seen lr_loc_lat lr_loc_lon lr_loc_hdop lr_loc_heading lr_loc_ts default].
      f_equal; cbn; lia.
  - rewrite Hft by done. destruct old as [|y o] eqn:Eo.
    + f_equal; cbn; lia.
    + destruct (new_nonempty_min (y :: o)) as [m' Em']; [done|]. rewrite Em'.
      cbn [lr_count lr_first_seen default]. f_equal; cbn; lia.
Qed.
End merge.

Definition key_of_subject (s : string) (r : LatestRow) : bool :=
  String.eqb (lr_subject r) s && (lr_subject_bucket r =? HashBucket s).

Lemma same_key_subject s a b : same_key a b = true -> key_of_subject s a = key_of_subject s b.
Proof.
  unfold same_key, key_of_subject. rewrite !andb_true_iff, Z.eqb_eq, !String.eqb_eq.
  intros [[-> ->] _]. done.
Qed.

Lemma merge_row_key s t p : key_of_subject s (merge_row t p) = key_of_subject s t.
Proof. done. Qed.

Lemma filter_flat_map {A B} (f : A -> list B) (q : B -> bool) (c : A -> bool) l :
  (forall a b, b ∈ f a -> q b = c a) -> List.filter q (flat_map f l) = flat_map f (List.filter c l).
Proof.
  intros Hq. induction l as [|a l IH]; [done|]. cbn [flat_map List.filter].
  rewrite List.filter_app, IH. destruct (c a) eqn:E; cbn [flat_map].
  - f_equal. apply list_filter_all. intros b Hb. by rewrite (Hq a b Hb).
  - rewrite list_filter_none; [done|]. intros b Hb. by rewrite (Hq a b Hb).
Qed.

Lemma flat_map_perm {A B} (f : A -> list B) l k : l ≡ₚ k -> flat_map f l ≡ₚ flat_map f k.
Proof. intros Hp. rewrite !flat_map_concat_map. by rewrite Hp. Qed.

(** The merge and the deletion act subject by subject. *)
Lemma merged_subject s T A : rollup_of (daily_merged T A) s = daily_merged (rollup_of T s) (rollup_of A s).
Proof.
  unfold rollup_of, daily_merged. fold (key_of_subject s).
  rewrite (filter_flat_map _ _ (key_of_subject s)).
  - rewrite !flat_map_concat_map. f_equal. apply map_ext_in. intros t Ht.
    apply filter_In in Ht as [_ Ht]. replace (List.filter (same_key t) (List.filter _ A)) with
      (List.filter (same_key t) A); [done|]. rewrite list_filter_andb. apply List.filter_ext. intros r.
    destruct (same_key t r) eqn:E; [|by rewrite andb_false_r]. rewrite (same_key_subject s t r E) in Ht.
    by rewrite Ht.
  - intros t r Hr. assert (Hm : exists p, r = merge_row t p) by
      (destruct (List.filter (same_key t) A) as [|p ps];
       [exists None; by apply list_elem_of_singleton in Hr|
        apply list_elem_of_fmap in Hr as (q & -> & _); by exists (Some q)]).
    destruct Hm as [p ->]. apply (merge_row_key s).
Qed.

Lemma fold_subject s T A :
  rollup_of (fold_table none_missed T A) s =
  fold_table none_missed (rollup_of T s) (rollup_of A s).
Proof.
  unfold fold_table. rewrite rollup_of_app, <- merged_subject. f_equal.
  unfold rollup_of, delete_latest. rewrite !list_filter_andb. fold (key_of_subject s).
  apply List.filter_ext. intros r. fold (key_of_subject s r). rewrite !orb_false_r.
  destruct (key_of_subject s r) eqn:Hk; [|by rewrite andb_false_r]. rewrite andb_true_r, andb_true_l. f_equal.
  apply eq_iff_eq_true. rewrite !existsb_exists. split.
  - intros (q & Hq & Hs). exists q. split; [|done]. apply filter_In. split; [done|].
    by rewrite <- (same_key_subject s _ _ Hs).
  - intros (q & [Hq _]%filter_In & Hs). by exists q.
Qed.

Lemma named_nonnil n l : n ∈ distinct_names l -> named_rows n l <> [].
Proof.
  intros (r & Hr & En)%elem_of_distinct_names E. assert (Hin : r ∈ named_rows n l) by (by apply elem_of_named_rows).
  rewrite E in Hin. by apply elem_of_nil in Hin.
Qed.

Lemma named_in n l x : x ∈ named_rows n l -> x ∈ l.
Proof. by intros [? _]%elem_of_named_rows. Qed.

(** Two tables with the same rows of each key. *)
Lemma same_key_group s n g t : lr_subject t = s -> lr_subject_bucket t = HashBucket s ->
  g <> [] -> (forall x, x ∈ g -> sr_SubjectBucket x = HashBucket s) ->
  same_key t (group_row s n g) = String.eqb n (lr_name t).
Proof.
  intros E1 E2 Hne Hb. unfold same_key. rewrite E1, E2. cbn [group_row lr_subject lr_subject_bucket lr_name].
  rewrite (bucket_head s g Hb g) by done. rewrite Z.eqb_refl, String.eqb_refl. apply String.eqb_sym.
Qed.

Lemma same_key_table s t K : lr_subject t = s -> lr_subject_bucket t = HashBucket s ->
  (forall x, x ∈ K -> sr_SubjectBucket x = HashBucket s) ->
  List.filter (same_key t) (subject_table s K) =
  if decide (lr_name t ∈ distinct_names K) then [group_row s (lr_name t) (named_rows (lr_name t) K)] else [].
Proof.
  intros E1 E2 Hb. unfold subject_table. rewrite filter_map_comm.
  rewrite (filter_ext_in _ (fun n => String.eqb n (lr_name t))).
  - rewrite filter_one by apply distinct_names_NoDup. by destruct (decide _).
  - intros n Hn%list_elem_of_In. apply same_key_group; [done..|by apply named_nonnil|].
    intros x Hx%named_in. by apply Hb.
Qed.

Section fold_subject.
Context (s : string) (K : list SignalRow) (p : SignalRow -> bool).
Context (Hinj : forall n x y, x ∈ named_rows n K -> y ∈ named_rows n K ->
  sr_Timestamp x = sr_Timestamp y -> x = y).
Context (Hbucket : forall x, x ∈ K -> sr_SubjectBucket x = HashBucket s).
Context (Hcut : forall x y, x ∈ K -> y ∈ K -> p x = true -> p y = false -> sr_Timestamp x < sr_Timestamp y).
Context (Hpos : forall y, y ∈ K -> p y = false -> 0 < sr_Timestamp y).

Notation old := (List.filter p K).
Notation new := (List.filter (fun r => negb (p r)) K).

Lemma distinct_filter (q : SignalRow -> bool) n : n ∈ distinct_names (List.filter q K) -> n ∈ distinct_names K.
Proof using.
  intros (r & [Hr _]%elem_of_list_filter & En)%elem_of_distinct_names.
  apply elem_of_distinct_names. by exists r.
Qed.

Lemma merge_named n : n ∈ distinct_names new ->
  merge_row (group_row s n (named_rows n new))
    (if decide (n ∈ distinct_names old) then Some (group_row s n (named_rows n old)) else None) =
  group_row s n (named_rows n K).
Proof using Hinj Hbucket Hcut Hpos.
  intros Hn. rewrite !(named_filter n).
  replace (if decide _ then _ else _) with
    (match List.filter p (named_rows n K) with
     | [] => None | _ => Some (group_row s n (List.filter p (named_rows n K))) end).
  - apply merge_group.
    + apply Hinj.
    + intros x Hx%named_in. by apply Hbucket.
    + intros x y Hx%named_in Hy%named_in. by apply Hcut.
    + intros y Hy%named_in. by apply Hpos.
    + rewrite <- named_filter. by apply named_nonnil.
  - destruct (decide (n ∈ distinct_names old)) as [Ho|Ho].
    + apply named_nonnil in Ho. rewrite named_filter in Ho. by destruct (List.filter p (named_rows n K)).
    + by rewrite <- named_filter, (named_empty n old Ho).
Qed.

Lemma row_of_new t : t ∈ subject_table s new ->
  t = group_row s (lr_name t) (named_rows (lr_name t) new) /\ lr_name t ∈ distinct_names new /\
  lr_subject t = s /\ lr_subject_bucket t = HashBucket s.
Proof using Hbucket.
  intros (n & -> & Hn)%list_elem_of_fmap. cbn [group_row lr_name lr_subject]. split_and!; [done..|].
  apply (bucket_head s new); [|by apply named_nonnil|apply named_in].
  intros x [Hx _]%elem_of_list_filter. by apply Hbucket.
Qed.

Lemma old_bucket x : x ∈ old -> sr_SubjectBucket x = HashBucket s.
Proof using Hbucket. intros [Hx _]%elem_of_list_filter. by apply Hbucket. Qed.

(** The merged rows. *)
Lemma merged_rows T A : T ≡ₚ subject_table s new -> A ≡ₚ subject_table s old ->
  daily_merged T A ≡ₚ map (fun n => group_row s n (named_rows n K)) (distinct_names new).
Proof.
  intros HT HA. unfold daily_merged. rewrite (flat_map_perm _ _ _ HT).
  rewrite (flat_map_singletons _ (fun t => group_row s (lr_name t) (named_rows (lr_name t) K))).
  - unfold subject_table. rewrite map_map. done.
  - intros t (Et & Hn & Es & Eb)%row_of_new. pose proof (merge_named _ Hn) as Hm. rewrite <- Et in Hm.
    pose proof (list_filter_perm (same_key t) _ _ HA) as Hf.
    rewrite (same_key_table s t old Es Eb old_bucket) in Hf.
    destruct (decide (lr_name t ∈ distinct_names old)) as [Ho|Ho].
    + apply Permutation_singleton_r in Hf. rewrite Hf. cbn [map]. by rewrite Hm.
    + apply Permutation_nil_r in Hf. rewrite Hf. by rewrite Hm.
Qed.

Lemma fold_rows T A : T ≡ₚ subject_table s new -> A ≡ₚ subject_table s old ->
  fold_table none_missed T A ≡ₚ subject_table s K.
Proof.
  intros HT HA. unfold fold_table. pose proof (merged_rows T A HT HA) as HM.
  set (M := daily_merged T A) in *.
  assert (Hkey : forall n, n ∈ distinct_names old ->
    existsb (same_key (group_row s n (named_rows n old))) M = bool_decide (n ∈ distinct_names new)).
  { intros n Hn%named_nonnil. set (a := group_row s n (named_rows n old)).
    assert (Ha : lr_subject_bucket a = HashBucket s).
    { apply (bucket_head s old); [apply old_bucket|done|apply named_in]. }
    assert (Hm : forall m, m ∈ distinct_names new -> same_key a (group_row s m (named_rows m K)) = String.eqb m n).
    { intros m Hmn%distinct_filter%named_nonnil. apply same_key_group; [done..|].
      intros x Hx%named_in. by apply Hbucket. }
    apply eq_iff_eq_true. rewrite existsb_exists, bool_decide_eq_true. split.
    - intros (q & Hq & Hs). apply list_elem_of_In in Hq. rewrite HM in Hq.
      apply list_elem_of_fmap in Hq as (m & -> & Hmn). rewrite Hm in Hs by done. by apply String.eqb_eq in Hs as <-.
    - intros Hmn. exists (group_row s n (named_rows n K)). rewrite Hm by done. split; [|apply String.eqb_refl].
      apply list_elem_of_In. rewrite HM. by apply (list_elem_of_fmap_2 (fun m => group_row s m (named_rows m K))). }
  unfold delete_latest. rewrite (list_filter_perm _ _ _ HA). rewrite HM.
  unfold subject_table at 1. rewrite filter_map_comm.
  rewrite (map_ext_in _ (fun n => group_row s n (named_rows n K))).
  - rewrite <- map_app. unfold subject_table. apply Permutation_map.
    rewrite (filter_ext_in _ (fun n => negb (bool_decide (n ∈ distinct_names new)))).
    2:{ intros n Hn%list_elem_of_In. by rewrite Hkey, orb_false_r. }
    apply NoDup_Permutation.
    + apply NoDup_app. split_and!; [apply list_filter_NoDup, distinct_names_NoDup| |apply distinct_names_NoDup].
      intros n Hn. apply list_elem_of_In, filter_In in Hn as [_ Hn]. by apply negb_true_iff, bool_decide_eq_false in Hn.
    + apply distinct_names_NoDup.
    + intros n. rewrite elem_of_app, elem_of_list_filter. split.
      * intros [[Hn _]|Hn]; by apply distinct_filter in Hn.
      * intros Hn. destruct (decide (n ∈ distinct_names new)) as [Hd|Hd]; [by right|left].
        split; [|by apply negb_true_iff, bool_decide_eq_false].
        apply elem_of_distinct_names in Hn as (r & Hr & En). apply elem_of_distinct_names. exists r.
        split; [|done]. apply elem_of_list_filter. split; [done|].
        apply not_false_iff_true. intros Hp. apply Hd, elem_of_distinct_names. exists r. split; [|done].
        apply elem_of_list_filter. by rewrite Hp.
  - intros n Hn. apply filter_In in Hn as [Hn Hf]. apply list_elem_of_In in Hn.
    rewrite Hkey in Hf by done. apply orb_true_iff in Hf as [Hf|Hf]; [|done].
    apply negb_true_iff, bool_decide_eq_false in Hf. f_equal.
    pose proof (named_empty n new Hf) as E. rewrite named_filter in E.
    rewrite named_filter. apply list_filter_all. intros r Hr.
    apply not_false_iff_true. intros Hp. assert (Hin : r ∈ List.filter (fun r => negb (p r)) (named_rows n K)).
    { apply elem_of_list_filter. by rewrite Hp. }
    rewrite E in Hin. by apply elem_of_nil in Hin.
Qed.
End fold_subject.

Lemma kept_rows_cut lake w v p s :
  (forall a b, ident a = ident b -> p a = p b) -> (forall r, v r = p r && w r) ->
  kept_rows lake v s = List.filter p (kept_rows lake w s).
Proof.
  intros Hp Hv. rewrite !kept_rows_dedup. rewrite <- dedup_filter by (intros; by apply Hp).
  rewrite list_filter_andb. f_equal. apply List.filter_ext. intros r. rewrite Hv.
  by destruct (p r), (w r), (row_of_subject s r).
Qed.

Lemma micro_mono a b : a <= b -> make_timestamp (UnixMicro a) <= make_timestamp (UnixMicro b).
Proof.
  intros. unfold make_timestamp, UnixMicro. apply Z.mul_le_mono_nonneg_r; [done|].
  by apply Z.div_le_mono.
Qed.

(** C29. Folding a tail into the rollup is the recompute: if the table holds, of a
    subject, [rollupSelectSQL] of the rows before the old watermark, then after the
    merge of the rows in [from, to) it holds [rollupSelectSQL] of the rows before the
    new one -- latest values, the latest fix even when the tail has none, counts
    and first and last times -- whatever the table holds of other subjects. *)
Theorem fold_is_recompute lake table s from to :
  bucketed lake -> from <= to -> 0 < make_timestamp (UnixMicro from) ->
  rollup_of table s ≡ₚ rollup_of (rollupSelectSQL (before_watermark from) lake) s ->
  rollup_of (fold_table none_missed (rollupSelectSQL (in_window from to) lake) table) s ≡ₚ
  rollup_of (rollupSelectSQL (before_watermark to) lake) s.
Proof.
  intros Hb Hle Hpos HA. rewrite fold_subject, (rollup_of_table lake (before_watermark to)) by done.
  rewrite rollup_of_table in HA by done.
  pose proof (rollup_of_table lake (in_window from to) s Hb) as HT.
  pose proof (micro_mono _ _ Hle) as Hm. set (K := kept_rows lake (before_watermark to) s).
  rewrite (kept_rows_cut lake (before_watermark to) _ (fun r => negb (before_watermark from r))) in HT.
  - rewrite (kept_rows_cut lake (before_watermark to) _ (before_watermark from)) in HA.
    + apply (fold_rows s K (before_watermark from)); [| | | |exact HT|exact HA].
      * apply kept_rows_inj.
      * intros x (Hx & _ & <-)%elem_of_kept_rows. by apply Hb.
      * unfold before_watermark. intros x y _ _ Hx Hy. bools. lia.
      * unfold before_watermark. intros y _ Hy. bools. lia.
    + apply before_watermark_ident.
    + intros r. unfold before_watermark. apply eq_iff_eq_true. rewrite andb_true_iff, !Z.ltb_lt. lia.
  - intros a b Hid. by rewrite (before_watermark_ident from a b Hid).
  - intros r. unfold in_window, before_watermark. by rewrite <- Z.leb_antisym.
Qed.

(** ** The boundary of a refresh *)

(** A midnight after the epoch. *)
Definition midnight (t : Z) : Prop := 0 < t /\ time_truncate t Day = t.

Lemma zero_time_day : zero_time mod Day = 0.
Proof. reflexivity. Qed.

Lemma truncate_day t : time_truncate t Day = t - t mod Day.
Proof.
  unfold time_truncate. change (Day <=? 0) with false. cbv iota. f_equal.
  rewrite Zminus_mod, zero_time_day, Z.sub_0_r. by apply Z.mod_mod.
Qed.

Lemma truncate_second t : time_truncate t Second = t - t mod Second.
Proof.
  unfold time_truncate. change (Second <=? 0) with false. cbv iota. f_equal.
  rewrite Zminus_mod. change (zero_time mod Second) with 0. rewrite Z.sub_0_r. by apply Z.mod_mod.
Qed.

Lemma midnight_div t : time_truncate t Day = t <-> t mod Day = 0.
Proof. rewrite truncate_day. lia. Qed.

Lemma midnight_format t : midnight t -> Format t = RFC3339 t.
Proof.
  intros [_ Ht%midnight_div]. unfold Format. f_equal. rewrite truncate_second.
  change Day with (86400 * Second) in Ht. unfold Second, Millisecond, Microsecond, Nanosecond in *.
  Z.to_euclidean_division_equations. lia.
Qed.

Lemma midnight_micro t : midnight t -> make_timestamp (UnixMicro t) = t.
Proof.
  intros [_ Ht%midnight_div]. apply micro_floor_id. unfold whole_micro.
  change Day with (86400000000 * Microsecond) in Ht. unfold Microsecond, Nanosecond in *.
  Z.to_euclidean_division_equations. lia.
Qed.

Lemma midnight_not_zero t : midnight t -> is_zero t = false.
Proof. intros [Ht _]. unfold is_zero, zero_time in *. lia. Qed.

(** The last midnight whose delay has passed. *)
Lemma boundary_candidate now delay : 0 < delay <= Day ->
  let b := if time_sub now (time_truncate now Day) <? delay
           then time_add (time_truncate now Day) (- Day) else time_truncate now Day in
  b mod Day = 0 /\ b + delay <= now < b + Day + delay.
Proof.
  intros Hd. rewrite truncate_day. assert (Hm : 0 <= now mod Day < Day) by (by apply Z.mod_pos_bound).
  assert (E : time_sub now (now - now mod Day) = now mod Day).
  { assert (Hb : Day < 2 ^ 63 - 1) by done.
    rewrite time_sub_exact; [lia|]. unfold in_int64, min_int64, max_int64. lia. }
  rewrite E. unfold time_add. assert (H0 : (now - now mod Day) mod Day = 0).
  { rewrite Zminus_mod, Z.mod_mod, Z.sub_diag by done. done. }
  destruct (Z.ltb_spec (now mod Day) delay); cbv zeta; (split; [|lia]); [|done].
  rewrite <- Z.add_opp_r in H0 |- *. rewrite Zplus_mod, H0. reflexivity.
Qed.

(** The boundary of the daily refresh: with a delay of at most a day, the target
    is the last UTC midnight whose delay has passed; none is due exactly until the
    delay after the day following the watermark has passed, so a refresh is due at
    most once a day, and the boundary is always later than the watermark. *)
Theorem dailyRefreshBoundary_spec now w delay :
  0 < delay <= Day -> 2 * Day <= now -> w = zero_time \/ midnight w ->
  let b := dailyRefreshBoundary now w delay in
  (b = zero_time <-> w <> zero_time /\ now < w + Day + delay) /\
  (b <> zero_time -> midnight b /\ w < b /\ b + delay <= now < b + Day + delay).
Proof.
  intros Hd Hnow Hw b. unfold b, dailyRefreshBoundary. clear b.
  destruct (boundary_candidate now delay Hd) as [Hc Hr].
  set (c := if _ <? delay then _ else _) in *. cbv zeta in Hc, Hr |- *.
  assert (Hday : 0 < Day) by done.
  assert (Hz : zero_time < 0) by done. assert (Hc0 : 0 < c) by lia. clearbody c.
  assert (Hcz : c <> zero_time) by lia.
  assert (Hcm : midnight c) by (split; [lia|by apply midnight_div]).
  unfold before. destruct Hw as [->|Hw].
  - change (is_zero zero_time) with true. cbn [negb andb]. split; [split; [done|by intros []]|].
    intros _. split_and!; [done|lia..].
  - rewrite (midnight_not_zero w Hw). cbn [negb andb].
    destruct Hw as [Hw0 Hwm%midnight_div].
    assert (Hcw : c < w + Day -> c <= w).
    { apply Z.mod_divide in Hc as [i ->]; [|done]. apply Z.mod_divide in Hwm as [j ->]; [|done].
      clear -Hday. intros. apply Z.mul_le_mono_nonneg_r; nia. }
    destruct (Z.ltb_spec w c); cbn [negb].
    + split; [split; [done|lia]|]. intros _. split_and!; [done|lia..].
    + split; [|done]. split; [intros _; lia|done].
Qed.

(** ** At concrete inputs *)

Example fold_is_recompute_witness :
  rollup_of (fold_table none_missed (rollupSelectSQL (in_window (20 * Second) (40 * Second)) latest_table)
    (rollupSelectSQL (before_watermark (20 * Second)) latest_table)) demo_subject ≡ₚ
  rollup_of (rollupSelectSQL (before_watermark (40 * Second)) latest_table) demo_subject.
Proof.
  apply (fold_is_recompute latest_table (rollupSelectSQL (before_watermark (20 * Second)) latest_table)
    demo_subject (20 * Second) (40 * Second)).
  - exact (lo_bucket _ latest_table_ok).
  - apply Z.leb_le. reflexivity.
  - apply Z.ltb_lt. reflexivity.
  - reflexivity.
Defined.

Example dailyRefreshBoundary_spec_witness :
  dailyRefreshBoundary (20 * Day + 4 * Hour) (19 * Day) defaultDailyRollupDelay = 20 * Day /\
  dailyRefreshBoundary (20 * Day + 3 * Hour) (19 * Day) defaultDailyRollupDelay = zero_time.
Proof.
  assert (Hm : midnight (19 * Day)) by (split; reflexivity). split; [reflexivity|].
  apply (proj1 (dailyRefreshBoundary_spec (20 * Day + 3 * Hour) (19 * Day) defaultDailyRollupDelay
    ltac:(by split) ltac:(done) (or_intror Hm))). by split.
Defined.
