(* ===== verification/RollupInv.v ===== *)
(** * Runs of the daily refresh

    What the catalog and the materializer's fields satisfy after each operation of
    Rollup.v, whatever befalls its calls, and after any sequence of commits,
    refreshes, hand-offs and restarts: a subject that is not marked late has, in
    the rollup, exactly the recompute of its rows before the stored watermark. A
    refresh from a state in order completes when its calls do. The disciplines
    the invariant needs are shown necessary: without them a subject is stale for
    good, or the refresh never runs again. *)

From S2P Require Import Prelude Model SignalsRepo Decode Ingest Sql LakeSource LakeLatest Rollup.

#[local] Set Default Proof Using "Type*".

(** ** Assertions on the catalog and the fields *)

Definition assertion : Type := catalog -> daily -> Prop.

(** No compaction races a [DELETE]; [calm]: nothing fails either. *)
Definition ok_call (calm : bool) (c : call_event) : Prop :=
  c_missed c = none_missed /\ (calm = true -> c_fate c = Fine).

(** [m] from [Pre]: [Good] when it succeeds, [Bad] when it fails, which it does not
    when the calls are calm. *)
Definition hoare {A} (calm : bool) (Pre : assertion) (m : P A) (Good : A -> assertion) (Bad : assertion) : Prop :=
  triple (fun w => Forall (ok_call calm) (p_future w) /\ Pre (p_db w) (p_daily w)) m
    (fun r w => Forall (ok_call calm) (p_future w) /\
       match r with
       | Ok a => Good a (p_db w) (p_daily w)
       | Err _ => calm = false /\ Bad (p_db w) (p_daily w)
       end).

Section rules.
Context (calm : bool).

Lemma hoare_conseq {A} (Pre Pre' : assertion) (m : P A) Good Good' (Bad Bad' : assertion) :
  hoare calm Pre m Good Bad -> (forall db d, Pre' db d -> Pre db d) ->
  (forall a db d, Good a db d -> Good' a db d) -> (forall db d, Bad db d -> Bad' db d) ->
  hoare calm Pre' m Good' Bad'.
Proof.
  intros Hm H1 H2 H3. eapply triple_conseq; [exact Hm|..].
  - intros w [Hf Hp]. split; [done|by apply H1].
  - intros [a|e] w [Hf Hq]; (split; [done|]); [by apply H2|]. destruct Hq. split; [done|by apply H3].
Qed.

Lemma hoare_pre {A} (Pre Pre' : assertion) (m : P A) Good Bad :
  hoare calm Pre m Good Bad -> (forall db d, Pre' db d -> Pre db d) -> hoare calm Pre' m Good Bad.
Proof. intros. by eapply hoare_conseq. Qed.

Lemma hoare_ret {A} (a : A) (Pre : assertion) Good Bad :
  (forall db d, Pre db d -> Good a db d) -> hoare calm Pre (ret a) Good Bad.
Proof. intros H. apply triple_ret. intros w [Hf Hp]. split; [done|by apply H]. Qed.

Lemma hoare_fail {A} e (Pre : assertion) (Good : A -> assertion) Bad :
  (forall db d, Pre db d -> calm = false /\ Bad db d) -> hoare calm Pre (fail_with e) Good Bad.
Proof. intros H. apply triple_fail. intros w [Hf Hp]. split; [done|by apply H]. Qed.

Lemma hoare_bind {A B} (m : P A) (k : A -> P B) Pre Mid Good Bad :
  hoare calm Pre m Mid Bad -> (forall a, hoare calm (Mid a) (k a) Good Bad) ->
  hoare calm Pre (bind m k) Good Bad.
Proof.
  intros Hm Hk. eapply triple_bind; [exact Hm|..]; [done|]. intros a. eapply triple_conseq; [apply Hk|..]; done.
Qed.

Lemma hoare_get_daily {B} (k : daily -> P B) Pre Good Bad :
  (forall d0, hoare calm (fun db d => d = d0 /\ Pre db d) (k d0) Good Bad) ->
  hoare calm Pre (bind get_daily k) Good Bad.
Proof. intros H w [Hf Hp]. unfold bind, get_daily. by apply (H (p_daily w)). Qed.

Lemma hoare_get_db {B} (k : catalog -> P B) Pre Good Bad :
  (forall db0, hoare calm (fun db d => db = db0 /\ Pre db d) (k db0) Good Bad) ->
  hoare calm Pre (bind get_db k) Good Bad.
Proof. intros H w [Hf Hp]. unfold bind, get_db. by apply (H (p_db w)). Qed.

Lemma hoare_put_db db' (Pre : assertion) (Good : unit -> assertion) Bad :
  (forall db d, Pre db d -> Good tt db' d) -> hoare calm Pre (put_db db') Good Bad.
Proof. intros H w [Hf Hp]. split; [done|]. by eapply H. Qed.

Lemma hoare_mod_daily f (Pre : assertion) (Good : unit -> assertion) Bad :
  (forall db d, Pre db d -> Good tt db (f d)) -> hoare calm Pre (mod_daily f) Good Bad.
Proof. intros H w [Hf Hp]. split; [done|]. by apply H. Qed.

Lemma hoare_next_call {B} (k : call_event -> P B) Pre Good Bad :
  (forall c, ok_call calm c -> hoare calm Pre (k c) Good Bad) -> hoare calm Pre (bind next_call k) Good Bad.
Proof.
  intros H w [Hf Hp]. unfold bind, next_call. destruct (p_future w) as [|c rest] eqn:E.
  - apply (H (goes Fine)); [done|]. by rewrite E.
  - apply Forall_cons in Hf as [Hc Hf]. by apply (H c).
Qed.

Lemma hoare_query {A} (q : catalog -> A) (Pre : assertion) Bad :
  (forall db d, Pre db d -> Bad db d) ->
  hoare calm Pre (db_query q) (fun a db d => a = q db /\ Pre db d) Bad.
Proof.
  intros Hb. apply hoare_next_call. intros c [_ Hc].
  assert (Hfail : c_fate c <> Fine -> hoare calm Pre (fail_with ErrDb) (fun a db d => a = q db /\ Pre db d) Bad).
  { intros Hn. apply hoare_fail. intros db d Hp. split; [|by apply Hb].
    destruct calm; [|done]. by destruct Hn; apply Hc. }
  destruct (c_fate c); try (by apply Hfail). apply hoare_get_db. intros db0. apply hoare_ret.
  intros db d [-> Hp]. done.
Qed.

Lemma hoare_ctx (Pre Bad : assertion) : (forall db d, Pre db d -> Bad db d) ->
  hoare calm Pre checkCtx (fun _ => Pre) Bad.
Proof. intros Hb. eapply hoare_conseq; [by apply hoare_query|done| |done]. by intros a db d [_ ?]. Qed.

(** A transaction may fail without effect, take effect, or both. *)
Lemma hoare_transact tx (Pre : assertion) (Good : unit -> assertion) (Bad : assertion) :
  (forall db d, Pre db d -> Bad db d) ->
  (forall db d, Pre db d ->
     match tx none_missed db with
     | Ok db' => Good tt db' d /\ (calm = false -> Bad db' d)
     | Err _ => calm = false
     end) ->
  hoare calm Pre (transact tx) Good Bad.
Proof.
  intros Hb Htx. apply hoare_next_call. intros c [Hmiss Hc]. rewrite Hmiss.
  assert (Hf : forall e, c_fate c <> Fine -> hoare calm Pre (fail_with e) Good Bad).
  { intros e Hn. apply hoare_fail. intros db d Hp. split; [|by apply Hb].
    destruct calm; [|done]. by destruct Hn; apply Hc. }
  destruct (c_fate c) eqn:Ef; try (by apply Hf).
  all: apply hoare_get_db; intros db0;
    (eapply hoare_pre with (Pre := fun db d => db = db0 /\ Pre db0 d); [|by intros db d [-> ?]]).
  all: destruct (tx none_missed db0) as [db'|e] eqn:Et.
  all: try (apply hoare_fail; intros db d [-> Hp]; specialize (Htx db0 d Hp); rewrite Et in Htx;
    split; [|by apply Hb]; first [done | destruct calm; [|done]; by specialize (Hc eq_refl)]).
  - apply hoare_put_db. intros db d [-> Hp]. specialize (Htx db0 d Hp). rewrite Et in Htx. by apply Htx.
  - assert (calm = false) as Hq by (destruct calm; [|done]; by specialize (Hc eq_refl)).
    apply (hoare_bind _ _ _ (fun _ => Bad)).
    + apply hoare_put_db. intros db d [-> Hp]. specialize (Htx db0 d Hp). rewrite Et in Htx. by apply Htx.
    + intros []. by apply hoare_fail.
Qed.

Lemma hoare_exec f (Pre : assertion) (Good : unit -> assertion) (Bad : assertion) :
  (forall db d, Pre db d -> Bad db d) ->
  (forall db d, Pre db d -> Good tt (f none_missed db) d /\ (calm = false -> Bad (f none_missed db) d)) ->
  hoare calm Pre (exec_stmt f) Good Bad.
Proof. intros. by apply hoare_transact. Qed.

(** A conflict has no effect, so the statement is tried again where it was. *)
Lemma exec_conflict f (Pre : assertion) (Good : unit -> assertion) (Bad : assertion) :
  (forall db d, Pre db d -> Bad db d) ->
  (forall db d, Pre db d -> Good tt (f none_missed db) d /\ (calm = false -> Bad (f none_missed db) d)) ->
  triple (fun w => Forall (ok_call calm) (p_future w) /\ Pre (p_db w) (p_daily w)) (exec_stmt f)
    (fun r w => Forall (ok_call calm) (p_future w) /\
       match r with
       | Ok a => Good a (p_db w) (p_daily w)
       | Err ErrConflict => calm = false /\ Pre (p_db w) (p_daily w)
       | Err _ => calm = false /\ Bad (p_db w) (p_daily w)
       end).
Proof.
  intros Hb Hf w [Hfut Hp]. unfold exec_stmt, transact, bind, next_call.
  assert (Hc : exists c rest, ok_call calm c /\ Forall (ok_call calm) rest /\
    (match p_future w with [] => (Ok (goes Fine), w) | e :: rest => (Ok e, mkProc (p_db w) (p_daily w) rest) end) =
    (Ok c, mkProc (p_db w) (p_daily w) rest) :> (result rollup_error call_event * proc)).
  { destruct w as [db d [|c rest]]; cbn in *; [by exists (goes Fine), []|].
    apply Forall_cons in Hfut as [Hc Hr]. by exists c, rest. }
  destruct Hc as (c & rest & [Hmiss Hc] & Hr & ->). rewrite Hmiss.
  assert (Hq : c_fate c <> Fine -> calm = false) by (intros Hn; destruct calm; [|done]; by destruct Hn; apply Hc).
  specialize (Hf _ _ Hp). destruct (c_fate c); cbn; (split; [done|]);
    (try (split; [by apply Hq|])); try by apply Hf. all: try by apply Hb.
  - done.
  - by apply Hf, Hq.
Qed.

Lemma hoare_retry_loop n f (Pre : assertion) (Good : unit -> assertion) (Bad : assertion) :
  (calm = true -> n <> O) -> (forall db d, Pre db d -> Bad db d) ->
  (forall db d, Pre db d -> Good tt (f none_missed db) d /\ (calm = false -> Bad (f none_missed db) d)) ->
  hoare calm Pre (retry_loop n f) Good Bad.
Proof.
  intros Hn Hb Hf. induction n as [|n IH].
  - apply hoare_fail. intros db d Hp. split; [by destruct calm; [destruct Hn|]|by apply Hb].
  - eapply triple_try; [by apply (exec_conflict f Pre Good Bad)|]. intros [[]|e].
    + apply triple_ret. done.
    + assert (He : e <> ErrConflict -> triple (fun w : proc => Forall (ok_call calm) (p_future w) /\ calm = false /\
        Bad (p_db w) (p_daily w)) (fail_with e : P unit) (fun r w => Forall (ok_call calm) (p_future w) /\
        match r with Ok a => Good a (p_db w) (p_daily w) | Err _ => calm = false /\ Bad (p_db w) (p_daily w) end)).
      { intros _. by apply triple_fail. }
      destruct e; try (by apply He). clear He.
      intros w (Hfut & Hq & Hp). revert w Hfut Hp.
      assert (Hloop : hoare calm Pre (bind checkCtx (fun _ => retry_loop n f)) Good Bad).
      { eapply hoare_bind; [by apply hoare_ctx|]. intros []. apply IH. by rewrite Hq. }
      intros w Hfut Hp. by apply Hloop.
Qed.

Lemma hoare_retry f (Pre : assertion) (Good : unit -> assertion) (Bad : assertion) :
  (forall db d, Pre db d -> Bad db d) ->
  (forall db d, Pre db d -> Good tt (f none_missed db) d /\ (calm = false -> Bad (f none_missed db) d)) ->
  hoare calm Pre (execRetryConflict f) Good Bad.
Proof. by apply hoare_retry_loop. Qed.

(** The probe changes nothing and cannot fail. *)
Lemma hoare_probe (Pre Bad : assertion) : hoare calm Pre probe (fun _ => Pre) Bad.
Proof.
  intros w [Hf Hp]. unfold probe, try_, observeRollupCardinality, db_query, bind, next_call.
  destruct (p_future w) as [|c rest] eqn:E; cbn.
  - by rewrite E.
  - apply Forall_cons in Hf as [_ Hf]. by destruct (c_fate c).
Qed.
End rules.

(** ** What the rollup holds *)

(** The table the watermark is about. *)
Definition governed (db : catalog) : list LatestRow := default (db_latest db) (db_shadow db).

(** A subject's rows are the recompute of its rows before [w]. *)
Definition exact_at (w : Z) (db : catalog) (s : string) : Prop :=
  rollup_of (governed db) s ≡ₚ rollup_of (rollupSelectSQL (before_watermark w) (db_signals db)) s.

Definition rollup_ok (db : catalog) : Prop :=
  bucketed (db_signals db) /\
  forall w, db_mark db = Some (RFC3339 w) -> midnight w /\ forall s, s ∈ db_late db \/ exact_at w db s.

(** The fields agree with the catalog. *)
Definition in_sync (db : catalog) (d : daily) : Prop :=
  dailyConfigured d = true /\ dailyStateLoaded d = true /\
  db_mark db = (if is_zero (dailyWatermark d) then None else Some (RFC3339 (dailyWatermark d))).

Record inv (db : catalog) (d : daily) : Prop := mkInv {
  inv_rollup : rollup_ok db;
  inv_watermark : dailyWatermark d = zero_time \/ midnight (dailyWatermark d);
  inv_shadow : dailyStateLoaded d = true -> db_shadow db = None;
  inv_seen : in_sync db d -> dailyWatermark d <> zero_time ->
    forall s, s ∈ dailyLateSeen d -> s ∈ db_late db;
}.

(** The late set has not overflowed. *)
Definition few_late (db : catalog) (d : daily) : Prop :=
  Z.of_nat (length (remove_dups (db_late db))) <= d_maxDirtySubjects d.

(** No watermark is stored when the fields have none. *)
Definition seedable (db : catalog) (d : daily) : Prop :=
  dailyStateLoaded d = true -> dailyWatermark d = zero_time -> db_mark db = None.

Lemma is_zero_true t : is_zero t = true <-> t = zero_time.
Proof. unfold is_zero. apply Z.eqb_eq. Qed.

Lemma inv_is_zero db d : inv db d -> is_zero (dailyWatermark d) = false -> midnight (dailyWatermark d).
Proof. intros [_ [Hz|Hm] _ _] H; [by rewrite (proj2 (is_zero_true _) Hz) in H|done]. Qed.

(** A mark names at most one boundary. *)
Lemma exact_unsynced db d w : dailyWatermark d <> w -> midnight w ->
  db_mark db = Some (RFC3339 w) -> ~ in_sync db d.
Proof.
  intros Hne Hw Hm (_ & _ & Hs). rewrite Hm in Hs. destruct (is_zero (dailyWatermark d)); [done|].
  injection Hs as ->. done.
Qed.

(** ** The seed *)

Definition seeded (boundary : Z) (sig : list SignalRow) (buckets : list Z) : list LatestRow :=
  flat_map (fun b => rollupSelectSQL (fun r => in_bucket b r && before_watermark boundary r) sig) buckets.

Lemma seeded_none boundary sig s bs : bucketed sig -> HashBucket s ∉ bs ->
  rollup_of (seeded boundary sig bs) s = [].
Proof.
  intros Hb. induction bs as [|b bs IH]; intros Hn; [done|]. unfold seeded in *. cbn [flat_map].
  rewrite rollup_of_app, IH by (intros ?; apply Hn; by right). rewrite app_nil_r.
  apply rollup_of_none; [done|]. intros r Hr E. unfold in_bucket. rewrite (Hb r Hr), E.
  apply andb_false_iff. left. apply Z.eqb_neq. intros <-. destruct Hn. left.
Qed.

Lemma seeded_all boundary sig s bs : bucketed sig -> NoDup bs -> HashBucket s ∈ bs ->
  rollup_of (seeded boundary sig bs) s ≡ₚ rollup_of (rollupSelectSQL (before_watermark boundary) sig) s.
Proof.
  intros Hb Hnd. induction Hnd as [|b bs Hn Hnd IH]; intros Hin; [by apply elem_of_nil in Hin|].
  unfold seeded in *. cbn [flat_map]. rewrite rollup_of_app.
  apply elem_of_cons in Hin as [<-|Hin].
  - pose proof (seeded_none boundary sig s bs Hb Hn) as E. unfold seeded in E. rewrite E, app_nil_r.
    apply rollup_of_ext; [done..|]. apply filter_ext_in. intros r Hr%list_elem_of_In.
    unfold row_of_subject. destruct (String.eqb_spec (sr_Subject r) s) as [Es|]; [|by rewrite !andb_false_r].
    unfold in_bucket. by rewrite (Hb r Hr), Es, Z.eqb_refl.
  - rewrite (rollup_of_none sig); [by apply IH|done|]. intros r Hr Es. unfold in_bucket.
    rewrite (Hb r Hr), Es. apply andb_false_iff. left. apply Z.eqb_neq. by intros <-.
Qed.

Lemma bucket_list_spec : NoDup bucket_list /\ forall s, HashBucket s ∈ bucket_list.
Proof.
  split.
  - unfold bucket_list. apply NoDup_fmap_2; [intros a b; lia|apply NoDup_seq].
  - intros s. pose proof (HashBucket_range s) as Hr. apply list_elem_of_fmap.
    exists (Z.to_nat (HashBucket s)). split; [lia|]. apply elem_of_seq. lia.
Qed.

Section seed.
Context (calm : bool) (boundary : Z) (sig : list SignalRow) (d0 : daily) (late0 : list string).
Context (Hbucket : bucketed sig) (Hmid : midnight boundary).

Definition seed_base (db : catalog) (d : daily) : Prop :=
  d = d0 /\ db_signals db = sig /\ db_shadow db = None /\ db_mark db = None /\ db_late db = late0.

Definition seed_done (db : catalog) (d : daily) : Prop :=
  d = d0 /\ db_signals db = sig /\ db_shadow db = None /\ db_mark db = Some (RFC3339 boundary) /\
  db_late db = [] /\ forall s, exact_at boundary db s.

Definition seed_bad (db : catalog) (d : daily) : Prop := seed_base db d \/ seed_done db d.

Lemma seed_buckets_spec bs : forall pre,
  hoare calm (fun db d => seed_base db d /\ db_latest db = seeded boundary sig pre) (seed_buckets boundary bs)
    (fun _ db d => seed_base db d /\ db_latest db = seeded boundary sig (pre ++ bs)) seed_bad.
Proof.
  induction bs as [|b bs IH]; intros pre.
  { apply hoare_ret. by rewrite app_nil_r. }
  eapply hoare_bind; [apply hoare_ctx; intros db d [H _]; by left|]. intros []. cbv beta.
  eapply hoare_bind.
  - apply (hoare_exec calm _ _ (fun _ db d => seed_base db d /\ db_latest db = seeded boundary sig (pre ++ [b])));
      [intros db d [H _]; by left|].
    intros db d [(-> & Hs & Hsh & Hm & Hl) Ht].
    assert (E : seed_base (set_latest (db_latest db ++ rollupSelectSQL
      (fun r => in_bucket b r && before_watermark boundary r) (db_signals db)) db) d0) by done.
    split; [|intros _; by left]. split; [done|]. cbn. rewrite Ht, Hs. unfold seeded.
    rewrite flat_map_app. cbn [flat_map]. by rewrite app_nil_r.
  - intros []. eapply hoare_conseq; [apply (IH (pre ++ [b]))|done| |done]. intros []. by rewrite <- app_assoc.
Qed.

Lemma seedDailyRollup_spec :
  hoare calm seed_base (seedDailyRollup boundary) (fun _ => seed_done) seed_bad.
Proof.
  unfold seedDailyRollup. eapply hoare_bind.
  { apply (hoare_retry calm _ _ (fun _ db d => seed_base db d /\ db_latest db = seeded boundary sig []));
      [by left|]. intros db d Hb. split; [|intros _; by left]. split; [done|]. cbn.
    apply list_filter_none. done. }
  intros []. eapply hoare_bind; [apply seed_buckets_spec|]. intros []. cbv beta. rewrite app_nil_l.
  apply hoare_exec; [intros db d [H _]; by left|]. intros db d [(-> & Hs & Hsh & Hm & Hl) Ht].
  enough (Hd : seed_done (set_late [] (set_mark (Some (Format boundary)) db)) d0).
  { split; [done|intros _; by right]. }
  split_and!; [done|done|done|by cbn; rewrite midnight_format|done|]. intros s.
  unfold exact_at, governed. cbn. rewrite Hsh, Ht, Hs. cbn [default].
  destruct bucket_list_spec. by apply seeded_all.
Qed.
End seed.

(** ** The recompute of the late subjects *)

Lemma concat_chunks {A} (l : list A) : concat (chunks l) = l.
Proof. apply concat_cut; [unfold rollupSubjectChunk; lia|done]. Qed.

Lemma one_of_true l s : one_of l s = true <-> s ∈ l.
Proof.
  unfold one_of. rewrite existsb_exists. split.
  - intros (x & Hx & ->%String.eqb_eq). by apply list_elem_of_In.
  - intros Hs. exists s. split; [by apply list_elem_of_In|apply String.eqb_refl].
Qed.

Lemma one_of_false l s : one_of l s = false <-> s ∉ l.
Proof. rewrite <- one_of_true. by destruct (one_of l s). Qed.

Lemma rollup_of_delete p t s :
  rollup_of (delete_latest p none_missed t) s = List.filter (fun r => negb (p r)) (rollup_of t s).
Proof.
  unfold delete_latest, rollup_of. rewrite !list_filter_andb. apply List.filter_ext. intros r.
  unfold none_missed. rewrite orb_false_r. apply andb_comm.
Qed.

Section late.
Context (calm : bool) (boundary : Z) (sig : list SignalRow) (d0 : daily).
Context (Hbucket : bucketed sig).

(** Every subject is exact or late, and the late ones are among [R]. *)
Definition late_base (R : string -> Prop) (db : catalog) (d : daily) : Prop :=
  d = d0 /\ db_signals db = sig /\ db_shadow db = None /\ db_mark db = Some (RFC3339 boundary) /\
  (forall s, s ∈ db_late db \/ exact_at boundary db s) /\ forall s, s ∈ db_late db -> R s.

Definition late_bad : assertion := late_base (fun _ => True).

Lemma late_weaken (R R' : string -> Prop) db d : (forall s, R s -> R' s) -> late_base R db d -> late_base R' db d.
Proof using. intros H (H1 & H2 & H3 & H4 & H5 & H6). split_and!; try done. intros s Hs. by apply H, H6. Qed.

Lemma recomputeDailyChunk_spec b cs R : (forall s, s ∈ cs -> HashBucket s = b) ->
  hoare calm (late_base R) (recomputeDailyChunk b cs boundary) (fun _ => late_base (fun s => R s /\ s ∉ cs)) late_bad.
Proof.
  intros Hcs. apply hoare_exec; [intros; by eapply late_weaken|].
  intros db d (-> & Hs & Hsh & Hm & Hex & HR).
  match goal with |- late_base _ ?x _ /\ _ => set (db' := x) end.
  enough (Hd : late_base (fun s => R s /\ s ∉ cs) db' d0) by (split; [done|intros _; by eapply late_weaken]).
  split_and!; try done.
  2:{ cbn. intros s [Hl Hn]%elem_of_list_filter. split; [by apply HR|]. apply negb_true_iff in Hn. by apply one_of_false. }
  intros s. specialize (Hex s). unfold exact_at, governed in *. unfold db'.
  cbn [set_late set_latest db_late db_latest db_signals db_shadow]. rewrite Hsh, Hs in *.
  cbn [default] in *. rewrite rollup_of_app, rollup_of_delete. destruct (decide (s ∈ cs)) as [Hin|Hin].
  - right. rewrite list_filter_none, app_nil_l.
    2:{ intros r [_ [E1%String.eqb_eq E2%Z.eqb_eq]%andb_true_iff]%elem_of_list_filter.
        rewrite E1, E2, (Hcs s Hin), Z.eqb_refl. by rewrite (proj2 (one_of_true cs s) Hin). }
    apply rollup_of_ext; [done..|]. apply filter_ext_in. intros r Hr%list_elem_of_In. unfold row_of_subject.
    destruct (String.eqb_spec (sr_Subject r) s) as [E|]; [|by rewrite !andb_false_r].
    unfold in_bucket. rewrite (Hbucket r Hr), E, (Hcs s Hin), Z.eqb_refl. by rewrite (proj2 (one_of_true cs s) Hin).
  - destruct Hex as [Hl|He].
    + left. apply elem_of_list_filter. split; [done|]. by rewrite (proj2 (one_of_false cs s) Hin).
    + right. rewrite (rollup_of_none sig); [|done|].
      * rewrite app_nil_r, list_filter_all; [done|].
        intros r [_ [E1%String.eqb_eq _]%andb_true_iff]%elem_of_list_filter.
        rewrite E1, (proj2 (one_of_false cs s) Hin). by rewrite andb_false_r.
      * intros r Hr E. rewrite E, (proj2 (one_of_false cs s) Hin). by rewrite andb_false_r.
Qed.

Lemma chunks_loop_spec b css : forall R, (forall s, s ∈ concat css -> HashBucket s = b) ->
  hoare calm (late_base R) (chunks_loop b boundary css)
    (fun _ => late_base (fun s => R s /\ s ∉ concat css)) late_bad.
Proof.
  induction css as [|cs css IH]; intros R Hcs.
  { apply hoare_ret. intros db d. apply late_weaken. intros s HR. split; [done|]. apply not_elem_of_nil. }
  eapply hoare_bind; [apply hoare_ctx; intros db d; by apply late_weaken|]. intros []. cbv beta.
  eapply hoare_bind.
  { apply recomputeDailyChunk_spec. intros s Hs. apply Hcs. cbn. rewrite elem_of_app. by left. }
  intros []. eapply hoare_conseq; [apply IH|done| |done].
  - intros s Hs. apply Hcs. cbn. rewrite elem_of_app. by right.
  - intros [] db d. apply late_weaken. intros s [[HR H1] H2]. split; [done|]. cbn. rewrite elem_of_app. tauto.
Qed.

Lemma elem_of_of_bucket subjects b s : s ∈ of_bucket subjects b <-> s ∈ subjects /\ HashBucket s = b.
Proof using. unfold of_bucket. rewrite isort_perm, elem_of_list_filter, Z.eqb_eq. done. Qed.

Lemma late_buckets_spec subjects bs : forall R,
  hoare calm (late_base R) (late_buckets boundary subjects bs)
    (fun _ => late_base (fun s => R s /\ (s ∈ subjects -> HashBucket s ∉ bs))) late_bad.
Proof.
  induction bs as [|b bs IH]; intros R.
  { apply hoare_ret. intros db d. apply late_weaken. intros s HR. split; [done|]. intros _. apply not_elem_of_nil. }
  eapply hoare_bind.
  { apply chunks_loop_spec. intros s. rewrite concat_chunks. by intros [_ ?]%elem_of_of_bucket. }
  intros []. eapply hoare_conseq; [apply IH|done| |done].
  intros [] db d. apply late_weaken. intros s [[HR H1] H2]. split; [done|]. intros Hs [E|Hb]%elem_of_cons.
  - apply H1. rewrite concat_chunks. by apply elem_of_of_bucket.
  - by apply H2.
Qed.

Lemma recomputeLate_spec :
  hoare calm (fun db d => late_base (fun _ => True) db d /\ few_late db d) (recomputeLateDailySubjects boundary)
    (fun _ => late_base (fun _ => False)) late_bad.
Proof.
  unfold recomputeLateDailySubjects. eapply hoare_bind; [apply hoare_query; by intros db d []|].
  intros subjects. apply hoare_get_daily. intros d1.
  assert (Hmem : forall db, subjects = remove_dups (db_late db) -> forall s, s ∈ db_late db <-> s ∈ subjects).
  { intros db -> s. by rewrite elem_of_remove_dups. }
  destruct subjects as [|s0 rest] eqn:Esub.
  { apply hoare_ret. intros db d (-> & E & Hb & _). destruct Hb as (H1 & H2 & H3 & H4 & H5 & H6).
    split_and!; try done. intros s Hs. apply (Hmem db E) in Hs. by apply elem_of_nil in Hs. }
  rewrite <- Esub in *. clear Esub. destruct (Z.ltb_spec (d_maxDirtySubjects d1) (Z.of_nat (length subjects))) as [Hlt|Hle].
  { intros w (Hf & Hd & E & Hb & Hfew). unfold few_late in Hfew. rewrite <- E, Hd in Hfew. lia. }
  eapply hoare_conseq; [apply (late_buckets_spec subjects (buckets_of subjects) (fun s => s ∈ subjects))|..]; [| |done].
  - intros db d (_ & E & (H1 & H2 & H3 & H4 & H5 & H6) & _). split_and!; try done. intros s. by apply (Hmem db E).
  - intros [] db d. apply late_weaken. intros s [Hs Hn]. apply (Hn Hs). unfold buckets_of.
    rewrite isort_perm, elem_of_remove_dups. by apply list_elem_of_fmap_2.
Qed.
End late.

(** ** Loading the state *)

Lemma unloaded_inv db d : dailyStateLoaded d = false -> rollup_ok db ->
  dailyWatermark d = zero_time \/ midnight (dailyWatermark d) -> inv db d.
Proof. intros Hl Hr Hw. split; [done|done|by rewrite Hl|]. intros (_ & E & _). by rewrite Hl in E. Qed.

Lemma delete_all t : delete_latest all_rows none_missed t = [].
Proof. by apply list_filter_none. Qed.

Section load.
Context (d1 : daily) (late1 : list string) (Hunloaded : dailyStateLoaded d1 = false).

Definition load_base (db : catalog) (d : daily) : Prop := d = d1 /\ rollup_ok db /\ db_late db = late1.

Definition load_done (db : catalog) (d : daily) : Prop :=
  rollup_ok db /\ db_late db = late1 /\ db_shadow db = None /\
  d = set_loaded (set_lateSeen ∅ (set_watermark (dailyWatermark d) d1)) /\
  db_mark db = (if is_zero (dailyWatermark d) then None else Some (RFC3339 (dailyWatermark d))).

Lemma promote_spec w t :
  hoare false (fun db d => load_base db d /\ db_shadow db = Some t /\ db_mark db = Some (RFC3339 w))
    promoteDailyRollup
    (fun _ db d => load_base db d /\ db_shadow db = None /\ db_mark db = Some (RFC3339 w)) load_base.
Proof using.
  unfold promoteDailyRollup. eapply hoare_bind.
  { apply (hoare_transact false _ _ (fun _ db d => load_base db d /\ db_latest db = t /\ db_shadow db = Some t /\
      db_mark db = Some (RFC3339 w))); [by intros db d []|].
    intros db d ((-> & [Hb Hex] & Hl) & Hsh & Hm). rewrite Hsh. rewrite delete_all.
    assert (Hr : rollup_ok (set_latest ([] ++ t) db)).
    { split; [done|]. intros w' Hw'. destruct (Hex w' Hw') as [Hmid Hs]. split; [done|].
      unfold exact_at, governed in *. cbn [set_latest db_latest db_shadow db_late db_signals]. by rewrite Hsh in *. }
    split; [|done]. by split_and!. }
  intros []. cbv beta. eapply hoare_bind; [apply hoare_query; by intros db d []|]. intros n.
  destruct (negb _); [apply hoare_fail; intros db d (_ & ? & _); done|].
  apply hoare_retry; [by intros db d (_ & ? & _)|]. intros db d (_ & (-> & [Hb Hex] & Hl) & Ht & Hsh & Hm).
  assert (Hr : rollup_ok (set_shadow None db)).
  { split; [done|]. intros w' Hw'. destruct (Hex w' Hw') as [Hmid Hs]. split; [done|].
    unfold exact_at, governed in *. cbn [set_shadow db_latest db_shadow db_late db_signals default].
    by rewrite Hsh, <- Ht in Hs. }
  by split_and!.
Qed.

Lemma load_unloaded :
  hoare false (fun db d => load_base db d /\ dailyConfigured d1 = true) LoadDailyRollupState
    (fun _ => load_done) load_base.
Proof.
  unfold LoadDailyRollupState. apply hoare_get_daily. intros d0.
  destruct (negb (dailyConfigured d0) || dailyStateLoaded d0) eqn:Ec.
  { intros w (_ & Hd & (E & _) & Hc). exfalso. rewrite E in Hd. subst d0. rewrite Hc, Hunloaded in Ec. done. }
  clear Ec. eapply hoare_pre with (Pre := load_base); [|by intros db d (_ & ? & _)].
  eapply hoare_bind; [by apply hoare_query|]. intros sh. cbv beta.
  set (sh_ok := fun db => sh = match db_shadow db with Some _ => true | None => false end).
  eapply hoare_bind.
  { apply (hoare_retry false _ _ (fun _ db d => sh_ok db /\ load_base db d)); [by intros db d []|].
    intros db d []. done. }
  intros []. cbv beta. eapply hoare_bind.
  { unfold loadDailyWatermark. eapply hoare_bind; [apply hoare_query; by intros db d []|]. intros [[w|raw]|]; cbv beta.
    - apply (hoare_ret false w _ (fun w db d => sh_ok db /\ load_base db d /\
        db_mark db = (if is_zero w then None else Some (RFC3339 w)))).
      intros db d (E & Hsh & (H1 & [Hb Hex] & H3)). split; [done|]. split; [by split_and!|].
      destruct (Hex w (eq_sym E)) as [Hm _]. by rewrite (midnight_not_zero w Hm).
    - apply hoare_fail. by intros db d (_ & _ & ?).
    - apply (hoare_ret false zero_time). intros db d (E & Hsh & Hb). done. }
  intros w. cbv beta. eapply hoare_bind.
  { instantiate (1 := fun _ db d => load_base db d /\ db_shadow db = None /\
      db_mark db = (if is_zero w then None else Some (RFC3339 w))).
    destruct sh; [destruct (is_zero w) eqn:Ez|].
    - apply hoare_retry; [by intros db d (_ & ? & _)|]. intros db d (_ & (-> & [Hb _] & Hl) & Hm).
      assert (Hr : rollup_ok (set_shadow None db)). { split; [done|]. intros w' E. cbn in E. by rewrite Hm in E. }
      by split_and!.
    - intros p (Hf & Hsh & Hb & Hm). unfold sh_ok in Hsh. destruct (db_shadow (p_db p)) as [t|] eqn:E; [|done].
      by apply (promote_spec w t).
    - apply hoare_ret. intros db d (Hsh & Hb & Hm). unfold sh_ok in Hsh. by destruct (db_shadow db). }
  intros []. cbv beta. apply (hoare_bind false _ _ _ (fun _ => load_done)); [|intros []; apply hoare_probe].
  apply hoare_mod_daily. intros db d ((-> & Hr & Hl) & Hsh & Hm). by split_and!.
Qed.
End load.

(** Loading again is nothing. *)
Lemma load_loaded w : dailyStateLoaded (p_daily w) = true -> LoadDailyRollupState w = (Ok tt, w).
Proof. intros Hl. unfold LoadDailyRollupState, bind, get_daily. by rewrite Hl, orb_true_r. Qed.

(** What the operations need, and what loading leaves. *)
Definition settled (db : catalog) (d : daily) : Prop :=
  inv db d /\ dailyConfigured d = true /\ seedable db d.

Definition ready (db : catalog) (d : daily) : Prop := settled db d /\ few_late db d.

Definition sized (late1 : list string) (max1 : Z) (db : catalog) (d : daily) : Prop :=
  db_late db = late1 /\ d_maxDirtySubjects d = max1.

Lemma load_spec late1 max1 :
  hoare false (fun db d => settled db d /\ sized late1 max1 db d) LoadDailyRollupState
    (fun _ db d => settled db d /\ sized late1 max1 db d /\ dailyStateLoaded d = true) inv.
Proof.
  intros w [Hf [Hr Hsz]]. destruct (dailyStateLoaded (p_daily w)) eqn:El.
  { rewrite load_loaded by done. done. }
  destruct Hr as ([Hro Hw Hs Hseen] & Hc & Hseed).
  pose proof (load_unloaded (p_daily w) (db_late (p_db w)) El w) as H. cbv beta in H.
  destruct H as [Hf' H]; [done|]. split; [done|].
  destruct (LoadDailyRollupState w) as [[[]|e] w'] eqn:E; cbn [fst snd] in *.
  - destruct H as (Hro' & Hl & Hsh & Hd & Hm). set (d' := p_daily w') in *. clearbody d'.
    assert (Hseen' : dailyLateSeen d' = ∅) by (by rewrite Hd).
    assert (Hwm : dailyWatermark d' = zero_time \/ midnight (dailyWatermark d')).
    { destruct (is_zero (dailyWatermark d')) eqn:Ez; [left; by apply is_zero_true|right].
      by apply (proj2 Hro'). }
    assert (Hld : dailyStateLoaded d' = true) by (by rewrite Hd).
    assert (Hsz' : sized late1 max1 (p_db w') d').
    { destruct Hsz as [<- <-]. split; [done|]. by rewrite Hd. }
    split_and!; [|done|done]. split_and!; [|by rewrite Hd|].
    + split; [done|done|done|]. intros _ _ s Hs'. by rewrite Hseen' in Hs'.
    + intros _ Hz. by rewrite Hm, (proj2 (is_zero_true _) Hz).
  - destruct H as [_ (Ed & Hro' & Hl)]. split; [done|]. apply unloaded_inv; [by rewrite Ed|done|by rewrite Ed].
Qed.

(** Loading keeps [ready]; if it was not needed it was nothing. *)
Lemma load_ready : hoare false ready LoadDailyRollupState
  (fun _ db d => ready db d /\ dailyStateLoaded d = true) inv.
Proof.
  intros w [Hf [Hr Hfew]].
  destruct (load_spec (db_late (p_db w)) (d_maxDirtySubjects (p_daily w)) w) as [H1 H2]; [done|].
  split; [done|]. match type of H2 with match ?x with Ok _ => _ | Err _ => _ end => destruct x; [|done] end.
  destruct H2 as (H2 & [E1 E2] & H3). split; [|done]. split; [done|]. unfold few_late. by rewrite E1, E2.
Qed.

(** ** The refresh *)

Lemma late_base_inv boundary sig d1 R db d : bucketed sig -> midnight boundary ->
  dailyWatermark d1 = zero_time \/ midnight (dailyWatermark d1) -> dailyWatermark d1 <> boundary ->
  late_base boundary sig d1 R db d -> inv db d.
Proof.
  intros Hb Hm Hw Hne (-> & Hs & Hsh & Hmk & Hex & _). split; [|done|done|].
  - split; [by rewrite Hs|]. rewrite Hmk. intros w' [= <-]. done.
  - intros Hsy. by destruct (exact_unsynced _ _ _ Hne Hm Hmk).
Qed.

(** The state after a refresh that ran. *)
Definition refreshed (boundary : Z) (db : catalog) (d : daily) : Prop :=
  db_late db = [] /\ db_mark db = Some (RFC3339 boundary) /\ dailyWatermark d = boundary.

Section refresh.
Context (calm : bool) (boundary : Z) (Hpos : 0 < boundary).

Lemma foldDailyRollup_spec d1 db0 :
  inv db0 d1 -> dailyStateLoaded d1 = true -> few_late db0 d1 -> midnight (dailyWatermark d1) ->
  midnight boundary -> dailyWatermark d1 < boundary -> (calm = true -> in_sync db0 d1) ->
  hoare calm (fun db d => db = db0 /\ d = d1) (foldDailyRollup (dailyWatermark d1) boundary)
    (fun _ => late_base boundary (db_signals db0) d1 (fun _ => False)) inv.
Proof using.
  intros Hinv Hld Hfew Hfrom Hto Hlt Hsync. set (from := dailyWatermark d1) in *.
  destruct (inv_rollup _ _ Hinv) as [Hb Hex].
  assert (Hbad : forall R db d, late_base boundary (db_signals db0) d1 R db d -> inv db d).
  { intros R db d. apply late_base_inv; [done..|by right|]. fold from. lia. }
  eapply hoare_bind.
  - apply (hoare_transact calm _ _ (fun _ db d => late_base boundary (db_signals db0) d1 (fun _ => True) db d /\ few_late db d));
      [by intros db d [-> ->]|].
    intros db d [-> ->]. unfold fold_tx. destruct (db_mark db0) as [[w|raw]|] eqn:Em.
    + replace (time_truncate from Second) with from by (pose proof (midnight_format from Hfrom) as [= E]; done).
      destruct (Z.eqb_spec w from) as [->|Hne].
      * enough (Hd : late_base boundary (db_signals db0) d1 (fun _ => True)
          (set_mark (Some (Format boundary)) (set_latest (fold_table none_missed
             (rollupSelectSQL (in_window from boundary) (db_signals db0)) (db_latest db0)) db0)) d1).
        { split; [|intros _; by eapply Hbad]. split; [done|]. done. }
        split_and!; [done|done|exact (inv_shadow _ _ Hinv Hld)|by cbn; rewrite midnight_format| |done].
        intros s. destruct (Hex from eq_refl) as [_ Hs]. destruct (Hs s) as [?|He]; [by left|right].
        unfold exact_at, governed in *. cbn [set_mark set_latest db_shadow db_latest db_signals].
        rewrite (inv_shadow _ _ Hinv Hld) in *. cbn [default] in *. apply fold_is_recompute; [done|lia| |done].
        rewrite (midnight_micro _ Hfrom). apply Hfrom.
      * destruct calm; [|done]. destruct (Hsync eq_refl) as (_ & _ & E). fold from in E.
        rewrite (midnight_not_zero _ Hfrom), Em in E. by injection E as ->.
    + destruct calm; [|done]. destruct (Hsync eq_refl) as (_ & _ & E). fold from in E.
      by rewrite (midnight_not_zero _ Hfrom), Em in E.
    + destruct calm; [|done]. destruct (Hsync eq_refl) as (_ & _ & E). fold from in E.
      by rewrite (midnight_not_zero _ Hfrom), Em in E.
  - intros []. eapply hoare_conseq; [by apply (recomputeLate_spec calm boundary (db_signals db0) d1)|done|done|].
    intros db d. apply Hbad.
Qed.

Lemma seed_inv d1 db0 db d : inv db0 d1 -> dailyWatermark d1 = zero_time -> midnight boundary ->
  dailyConfigured d1 = true -> dailyStateLoaded d1 = true -> db_mark db0 = None ->
  seed_bad boundary (db_signals db0) d1 (db_late db0) db d -> inv db d.
Proof using.
  intros [[Hb _] Hw _ Hseen] Hz Hm Hc Hl Hmk Hbad.
  assert (Hne : dailyWatermark d1 <> boundary) by (rewrite Hz; destruct Hm; unfold zero_time; lia).
  destruct Hbad as [(-> & Hs & Hsh & Hmk' & Hlate)|(-> & Hs & Hsh & Hmk' & Hlate & Hex)].
  - split; [|done|done|].
    + split; [by rewrite Hs|]. by rewrite Hmk'.
    + by rewrite Hz.
  - apply (late_base_inv boundary (db_signals db0) d1 (fun _ => True)); [done..|].
    split_and!; [done|done|done|done| |done]. intros s. by right.
Qed.

Lemma finish_inv d1 sig db d : bucketed sig -> midnight boundary -> dailyStateLoaded d1 = true ->
  late_base boundary sig d1 (fun _ => False) db d ->
  inv db (set_lateSeen ∅ (set_watermark boundary d)) /\ refreshed boundary db (set_lateSeen ∅ (set_watermark boundary d)).
Proof using.
  intros Hb Hm Hl (-> & Hs & Hsh & Hmk & Hex & Hlate). split.
  - split; [|by right|done|].
    + split; [by rewrite Hs|]. rewrite Hmk. intros w' [= <-]. done.
    + intros _ _ s Hin. cbn in Hin. by apply elem_of_empty in Hin.
  - split_and!; [|done|done]. destruct (db_late db) as [|s l]; [done|]. destruct (Hlate s). left.
Qed.

Definition run_pre (db : catalog) (d : daily) : Prop :=
  ready db d /\ dailyStateLoaded d = true /\ (calm = true -> in_sync db d /\ midnight boundary).

(** The same configuration, loaded. *)
Definition run_post (d0 : daily) (db : catalog) (d : daily) : Prop :=
  inv db d /\ dailyConfigured d = true /\ dailyStateLoaded d = true /\
  (refreshed boundary db d \/ boundary <= dailyWatermark d /\ d = d0).

Lemma run_body_spec db0 d0 :
  hoare calm (fun db d => db = db0 /\ d = d0 /\ run_pre db d) (run_body boundary)
    (fun _ db d => run_post d0 db d /\ (refreshed boundary db d \/ db = db0) /\ db_signals db = db_signals db0) inv.
Proof.
  unfold run_body. destruct (negb (tequal _ _)) eqn:Et.
  { apply hoare_fail. intros db d (_ & _ & ((Hinv & _) & _) & _ & Hc). split; [|done]. destruct calm; [|done].
    destruct (Hc eq_refl) as [_ [_ Hm]]. unfold tequal in Et. by rewrite Hm, Z.eqb_refl in Et. }
  apply negb_false_iff in Et. unfold tequal in Et. apply Z.eqb_eq in Et.
  assert (Hm : midnight boundary) by done.
  apply hoare_get_daily. intros d1. destruct (negb _ && negb _) eqn:Eb.
  { apply hoare_ret. intros db d (-> & -> & -> & ((Hinv & Hc & _) & _) & Hl & _). split; [|by split; [right|]].
    split_and!; [done..|]. right. split; [|done]. bools. unfold after in *. lia. }
  eapply hoare_pre with (Pre := fun db d => db = db0 /\ d = d1 /\ d0 = d1 /\ run_pre db0 d1); [|by intros db d (-> & -> & -> & ?)].
  intros w (Hf & Edb & Ed & Ed0 & (((Hinv & Hc & Hseed) & Hfew) & Hl & Hsync)). subst d0. revert w Hf Edb Ed.
  pose proof (inv_rollup _ _ Hinv) as [Hb _].
  assert (Hrun : hoare calm (fun db d => db = db0 /\ d = d1)
      (if is_zero (dailyWatermark d1) then seedDailyRollup boundary else foldDailyRollup (dailyWatermark d1) boundary)
      (fun _ => late_base boundary (db_signals db0) d1 (fun _ => False)) inv).
  { destruct (is_zero (dailyWatermark d1)) eqn:Ez.
    - apply is_zero_true in Ez. eapply hoare_conseq;
        [apply (seedDailyRollup_spec calm boundary (db_signals db0) d1 (db_late db0) Hb Hm)|..].
      + intros db d [-> ->]. split_and!; [done..|by apply (inv_shadow db0 d1)|by apply Hseed|done].
      + intros [] db d (-> & Hs & Hsh & Hmk & Hlate & Hex). split_and!; [done..|by right|].
        rewrite Hlate. intros s Hin. by apply elem_of_nil in Hin.
      + intros db d. apply seed_inv; [done..|by apply Hseed].
    - apply foldDailyRollup_spec; [done..|by eapply inv_is_zero|done| |by apply Hsync].
      cbn [negb andb] in Eb. bools. unfold after in *. lia. }
  intros w Hf Edb Ed.
  assert (Hall : hoare calm (fun db d => db = db0 /\ d = d1)
    (do! _ <- (if is_zero (dailyWatermark d1) then seedDailyRollup boundary else foldDailyRollup (dailyWatermark d1) boundary);
     do! _ <- mod_daily (fun d => set_lateSeen ∅ (set_watermark boundary d)); probe)
    (fun _ db d => inv db d /\ dailyConfigured d = true /\ dailyStateLoaded d = true /\ refreshed boundary db d /\
       db_signals db = db_signals db0) inv).
  { eapply hoare_bind; [exact Hrun|]. intros []. cbv beta.
    apply (hoare_bind calm _ _ _ (fun _ db d => inv db d /\ dailyConfigured d = true /\ dailyStateLoaded d = true /\
      refreshed boundary db d /\ db_signals db = db_signals db0)); [|intros []; apply hoare_probe].
    apply hoare_mod_daily. intros db d Hlb. pose proof Hlb as (-> & Hsig & _).
    destruct (finish_inv d1 (db_signals db0) db d1 Hb Hm Hl Hlb). done. }
  destruct (Hall w) as [H1 H2]; [done|]. split; [done|].
  match type of H2 with match ?x with Ok _ => _ | Err _ => _ end => destruct x; [|done] end.
  destruct H2 as (? & ? & ? & ? & ?). split; [|by split; [left|]]. split_and!; try done. by left.
Qed.
End refresh.

Lemma run_split boundary : RunDailyRollupRefresh boundary = bind LoadDailyRollupState (fun _ => run_body boundary).
Proof. done. Qed.

Lemma run_spec boundary : 0 < boundary ->
  hoare false ready (RunDailyRollupRefresh boundary)
    (fun _ db d => inv db d /\ dailyConfigured d = true /\ dailyStateLoaded d = true) inv.
Proof.
  intros Hpos. rewrite run_split. eapply hoare_bind; [apply load_ready|]. intros [] w [Hf [Hr Hl]].
  destruct (run_body_spec false boundary Hpos (p_db w) (p_daily w) w) as [H1 H2].
  { split; [done|]. done. }
  split; [done|]. match type of H2 with match ?x with Ok _ => _ | Err _ => _ end => destruct x; [|done] end.
  by destruct H2 as [(? & ? & ? & _) _].
Qed.

Lemma boundary_positive now w delay : 2 * Day <= now ->
  is_zero (dailyRefreshBoundary now w delay) = false -> 0 < dailyRefreshBoundary now w delay.
Proof.
  intros Hnow. unfold dailyRefreshBoundary. rewrite truncate_day.
  assert (Hm : Day <= now - now mod Day - Day).
  { assert (0 < Day) by done. assert (2 <= now / Day) by (apply Z.div_le_lower_bound; lia).
    pose proof (Z.div_mod now Day) as E. nia. }
  assert (0 < Day) by done. unfold time_add.
  destruct (negb _ && negb _); [done|]. intros _. destruct (_ <? _); lia.
Qed.

Lemma maybe_spec now : 2 * Day <= now ->
  hoare false (fun db d => inv db d /\ (dailyConfigured d = true -> ready db d)) (MaybeDailyRollupRefresh now)
    (fun _ => inv) inv.
Proof.
  intros Hnow. unfold MaybeDailyRollupRefresh. apply hoare_get_daily. intros d0.
  destruct (dailyConfigured d0) eqn:Ec; cbn [negb orb]; [|by apply hoare_ret; intros db d (_ & ? & _)].
  destruct (d_backfillMode d0); [by apply hoare_ret; intros db d (_ & ? & _)|].
  eapply hoare_pre with (Pre := ready); [|intros db d (-> & _ & H); by apply H].
  eapply hoare_bind; [apply load_ready|]. intros []. cbv beta. apply hoare_get_daily. intros d1. cbv zeta.
  destruct (is_zero _) eqn:Ez; [by apply hoare_ret; intros db d (_ & (([] & _) & _) & _)|].
  eapply hoare_conseq; [apply run_spec; by apply boundary_positive| | |done].
  - by intros db d (_ & ? & _).
  - by intros [] db d [].
Qed.

(** ** Commits *)

Lemma elem_of_late_loop d signals : forall seen s,
  (exists r, r ∈ signals /\ sr_Subject r = s /\ before (sr_Timestamp r) (dailyWatermark d) = true) ->
  s ∈ dailyLateSeen d \/ s ∈ seen \/ s ∈ late_loop d seen signals.
Proof.
  induction signals as [|q rest IH]; intros seen s (r & Hr & Es & Hb); [by apply elem_of_nil in Hr|].
  cbn [late_loop]. apply elem_of_cons in Hr as [->|Hr].
  - rewrite Hb. cbn [negb]. rewrite Es. case_bool_decide; [by left|]. case_bool_decide; [by right; left|].
    right. right. left.
  - assert (Hrec : forall seen', s ∈ dailyLateSeen d \/ s ∈ seen' \/ s ∈ late_loop d seen' rest)
      by (intros; apply IH; by exists r).
    destruct (negb _); [apply Hrec|]. case_bool_decide; [apply Hrec|]. case_bool_decide; [apply Hrec|].
    destruct (Hrec ({[sr_Subject q]} ∪ seen)) as [?|[[->%elem_of_singleton|?]%elem_of_union|?]];
      [by left|right; right; left|by right; left|right; right; by right].
Qed.

Lemma antiJoin_app {A} (same : A -> A -> bool) time table src range skip :
  exists extra, antiJoinInsert same time table src range skip = table ++ extra /\ forall r, r ∈ extra -> r ∈ src.
Proof.
  unfold antiJoinInsert. destruct skip; [by exists src|]. eexists. split; [done|].
  by intros r [? _]%elem_of_list_filter.
Qed.

Section commit.
Context (now : Z) (rows : list SignalRow) (db : catalog) (d : daily).
Context (Hinv : inv db d) (Hsync : in_sync db d) (Hrows : bucketed rows).

Lemma insert_late s : dailyWatermark d <> zero_time ->
  (exists r, r ∈ rows /\ sr_Subject r = s /\ before (sr_Timestamp r) (dailyWatermark d) = true) ->
  s ∈ db_late (insertSignals now d rows db).
Proof.
  intros Hz Hs. pose proof Hsync as (Hc & Hl & _).
  assert (Ha : dailyActive d = true).
  { unfold dailyActive. rewrite Hc, Hl. destruct (is_zero _) eqn:E; [by apply is_zero_true in E|done]. }
  destruct (elem_of_late_loop d rows ∅ s Hs) as [H|[H|H]].
  - apply (inv_seen _ _ Hinv Hsync Hz) in H. unfold insertSignals. destruct rows; [done|].
    rewrite Ha. cbn. apply elem_of_app. by left.
  - by apply elem_of_empty in H.
  - unfold insertSignals, lateDailyInsert. destruct rows; [by destruct Hs as (? & ?%elem_of_nil & _)|].
    rewrite Ha. cbn. apply elem_of_app. by right.
Qed.

Lemma insert_fields : db_mark (insertSignals now d rows db) = db_mark db /\
  db_shadow (insertSignals now d rows db) = db_shadow db /\
  db_latest (insertSignals now d rows db) = db_latest db /\
  (forall s, s ∈ db_late db -> s ∈ db_late (insertSignals now d rows db)) /\
  exists extra, db_signals (insertSignals now d rows db) = db_signals db ++ extra /\ forall r, r ∈ extra -> r ∈ rows.
Proof using.
  clear Hinv Hsync Hrows. unfold insertSignals. destruct rows as [|r0 rest]; [split_and!; try done; exists []; by rewrite app_nil_r|].
  destruct (antiJoin_app same_signal sr_Timestamp (db_signals db) (r0 :: rest)
    (timeRange now (map sr_Timestamp (r0 :: rest))) (d_backfillMode d)) as (extra & E & Hin).
  destruct (dailyActive d); cbn; split_and!; try done; try (by exists extra).
  intros s Hs. apply elem_of_app. by left.
Qed.

Lemma insert_rollup_ok : rollup_ok (insertSignals now d rows db).
Proof.
  destruct insert_fields as (Em & Esh & El & Hlate & extra & Es & Hin).
  destruct (inv_rollup _ _ Hinv) as [Hb Hex].
  assert (Hb' : bucketed (db_signals (insertSignals now d rows db))).
  { rewrite Es. intros r [Hr|Hr]%elem_of_app; [by apply Hb|by apply Hrows, Hin]. }
  split; [done|]. rewrite Em. intros w Hw. destruct (Hex w Hw) as [Hm Hs]. split; [done|]. intros s.
  pose proof Hsync as (_ & _ & Hmk). rewrite Hw in Hmk.
  destruct (is_zero (dailyWatermark d)) eqn:Ez; [done|]. injection Hmk as Hmk.
  destruct (decide (s ∈ db_late (insertSignals now d rows db))) as [|Hn]; [by left|right].
  destruct (Hs s) as [?|He]; [by destruct Hn; apply Hlate|].
  unfold exact_at, governed in *. rewrite Esh, El, He. apply rollup_of_ext; [done..|].
  rewrite Es, List.filter_app. rewrite (list_filter_none _ extra), app_nil_r; [done|].
  intros r Hr. unfold row_of_subject. destruct (String.eqb_spec (sr_Subject r) s) as [E|]; [|by rewrite andb_false_r].
  rewrite andb_true_r. apply not_true_iff_false. intros Hbf. apply Hn. apply insert_late.
  - intros E'. by rewrite (proj2 (is_zero_true _) E') in Ez.
  - exists r. split; [by apply Hin|]. split; [done|]. unfold before_watermark in Hbf. unfold before.
    by rewrite (midnight_micro w Hm), Hmk in Hbf.
Qed.

Lemma insert_inv : inv (insertSignals now d rows db) d.
Proof.
  destruct insert_fields as (Em & Esh & El & Hlate & _). split; [apply insert_rollup_ok|apply Hinv| |].
  - rewrite Esh. apply Hinv.
  - intros _ Hz s Hs. by apply Hlate, (inv_seen _ _ Hinv Hsync Hz).
Qed.

Lemma insert_marked : inv (insertSignals now d rows db) (markDirtySignals rows d).
Proof.
  pose proof insert_inv as [H1 H2 H3 H4]. destruct insert_fields as (Em & _).
  set (d1 := addDirtySignals rows d).
  assert (Hd1 : dailyWatermark d1 = dailyWatermark d /\ dailyStateLoaded d1 = dailyStateLoaded d /\
            dailyLateSeen d1 = dailyLateSeen d /\ dailyMode d1 = dailyMode d).
  { unfold d1, addDirtySignals. destruct (d_backfillMode d); [|done]. by destruct (add_dirty _ _ _ _). }
  destruct Hd1 as (E1 & E2 & E3 & E4).
  unfold markDirtySignals. fold d1. clearbody d1.
  assert (Hbase : inv (insertSignals now d rows db) d1).
  { split; rewrite ?E1, ?E2, ?E3; try done. intros (Hc & Hl & Hk). apply H4.
    unfold in_sync, dailyConfigured in *. by rewrite E1, E2, E4 in *. }
  destruct (dailyActive d1) eqn:Ea; [|done].
  split; [done|by cbn; rewrite E1|by cbn; rewrite E2|]. cbn [markLateDailySeen set_lateSeen dailyLateSeen].
  intros _ Hz s Hs. cbn in Hz. rewrite E1 in Hz. destruct (_ <? _); [by apply elem_of_empty in Hs|].
  apply elem_of_union in Hs as [Hs|Hs].
  - apply elem_of_list_to_set, list_elem_of_fmap in Hs as (r & -> & [Hr Hb]%elem_of_list_filter).
    rewrite E1 in Hb. apply insert_late; [done|by exists r].
  - rewrite E3 in Hs. apply H4; [|done..]. destruct Hsync as (Hc & Hl & Hk). split_and!; [done..|]. by rewrite Em.
Qed.
End commit.

Lemma commit_spec now rows : bucketed rows ->
  hoare false (fun db d => inv db d /\ in_sync db d) (commitSignals now rows) (fun _ => inv) inv.
Proof.
  intros Hrows. unfold commitSignals. apply hoare_get_daily. intros d0. apply hoare_next_call. intros c _.
  apply hoare_get_db. intros db0.
  pose (Mid := fun db d => inv db d /\ in_sync db0 d /\ d = d0 /\ inv db0 d /\ db = insertSignals now d0 rows db0).
  apply (hoare_bind false _ _ _ (fun _ => Mid)).
  - destruct (c_fate c); try (apply hoare_fail; by intros db d (-> & -> & ? & _)).
    + apply hoare_put_db. intros db d (-> & -> & Hi & Hs). split_and!; try done. by apply insert_inv.
    + apply (hoare_bind false _ _ _ (fun _ => Mid)); [|intros []; apply hoare_ctx; by intros db d []].
      apply hoare_put_db. intros db d (-> & -> & Hi & Hs). split_and!; try done. by apply insert_inv.
  - intros []. apply hoare_mod_daily. intros db d (_ & Hs & -> & Hi & ->). by apply insert_marked.
Qed.

(** ** The hand-off of a backfill *)

Lemma late_more db d l : inv db d -> inv (set_late (db_late db ++ l) db) d.
Proof.
  intros [[Hb Hex] H2 H3 H4]. split; [|done|done|].
  - split; [done|]. intros w Hw. destruct (Hex w Hw) as [Hm Hs]. split; [done|]. intros s.
    destruct (Hs s); [left; cbn; apply elem_of_app; by left|by right].
  - intros Hsy Hz s Hs. cbn. apply elem_of_app. left. by apply H4.
Qed.

Lemma persist_loop_spec cs : hoare false inv (persist_loop cs) (fun _ => inv) inv.
Proof.
  induction cs as [|c cs IH]; [by apply hoare_ret|]. apply (hoare_bind false _ _ _ (fun _ => inv)); [|intros []; exact IH].
  apply hoare_exec; [done|]. intros db d H. split; [|intros _]; by apply late_more.
Qed.

Lemma no_mark_inv db d : inv db d -> inv (set_mark None db) d.
Proof.
  intros [[Hb Hex] H2 H3 H4]. split; [done|done|done|]. intros (_ & _ & Hk) Hz. exfalso. cbn in Hk.
  destruct (is_zero (dailyWatermark d)) eqn:E; [by apply is_zero_true in E|done].
Qed.

Lemma persist_spec : hoare false (fun db d => inv db d /\ (dailyConfigured d = true -> seedable db d))
  PersistDailyLateSubjects (fun _ => inv) inv.
Proof.
  unfold PersistDailyLateSubjects. apply hoare_get_daily. intros d0.
  destruct (dailyConfigured d0) eqn:Ec; cbn [negb]; [|by apply hoare_ret; intros db d (_ & ? & _)].
  eapply hoare_bind with (Mid := fun _ => inv).
  { intros w (Hf & E & Hi & Hs). subst d0.
    destruct (load_spec (db_late (p_db w)) (d_maxDirtySubjects (p_daily w)) w) as [H1 H2].
    { split; [done|]. split; [|done]. split_and!; [done|done|by apply Hs]. }
    split; [done|]. match type of H2 with match ?x with Ok _ => _ | Err _ => _ end => destruct x; [|done] end.
    by destruct H2 as [[? _] _]. }
  intros []. apply hoare_get_daily. intros d1. destruct (d_rollupFullRebuild d1).
  - eapply hoare_bind with (Mid := fun _ db d => inv db d /\ db_mark db = None).
    + apply hoare_retry; [by intros db d []|]. intros db d [_ Hi]. split; [split; [|done]|intros _]; by apply no_mark_inv.
    + intros []. apply hoare_mod_daily. intros db d [[H1 H2 H3 H4] Hm]. split; [done|by left|done|].
      by intros _.
  - eapply hoare_pre; [apply persist_loop_spec|]. by intros db d [].
Qed.

(** ** Runs *)

(** The catalog, and the process that writes it. *)
Record site := mkSite { s_db : catalog; s_daily : daily }.

(** An operation, whatever befalls its calls. *)
Definition runs {A} (m : P A) (s s' : site) : Prop :=
  exists future, Forall (ok_call false) future /\
    let w := (m (mkProc (s_db s) (s_daily s) future)).2 in s' = mkSite (p_db w) (p_daily w).

Inductive rollup_step : site -> site -> Prop :=
  (** a batch, while the fields agree with the catalog *)
  | step_commit now rows s s' :
      in_sync (s_db s) (s_daily s) -> bucketed rows -> runs (commitSignals now rows) s s' -> rollup_step s s'
  (** a caught-up pass *)
  | step_refresh now s s' :
      2 * Day <= now -> few_late (s_db s) (s_daily s) -> seedable (s_db s) (s_daily s) ->
      runs (MaybeDailyRollupRefresh now) s s' -> rollup_step s s'
  (** a one-shot driver *)
  | step_run boundary s s' :
      0 < boundary -> dailyConfigured (s_daily s) = true ->
      few_late (s_db s) (s_daily s) -> seedable (s_db s) (s_daily s) ->
      runs (RunDailyRollupRefresh boundary) s s' -> rollup_step s s'
  (** the end of a backfill *)
  | step_persist s s' :
      seedable (s_db s) (s_daily s) -> runs PersistDailyLateSubjects s s' -> rollup_step s s'
  (** a crash, and the boot of the next process *)
  | step_restart mode delay backfill maxDirty s s' :
      runs LoadDailyRollupState (mkSite (s_db s) (WithDailyRollup mode delay backfill maxDirty)) s' ->
      rollup_step s s'.

Lemma hoare_runs {A} (Pre : assertion) (m : P A) (I : assertion) s s' :
  hoare false Pre m (fun _ => I) I -> Pre (s_db s) (s_daily s) -> runs m s s' -> I (s_db s') (s_daily s').
Proof.
  intros Hm Hp (future & Hf & ->). destruct (Hm (mkProc (s_db s) (s_daily s) future)) as [_ H]; [done|].
  cbn. match type of H with match ?x with Ok _ => _ | Err _ => _ end => destruct x; [done|by destruct H] end.
Qed.

Lemma boot_inv db mode delay backfill maxDirty : rollup_ok db -> inv db (WithDailyRollup mode delay backfill maxDirty).
Proof. intros H. apply unloaded_inv; [done|done|by left]. Qed.

Lemma step_inv s s' : rollup_step s s' -> inv (s_db s) (s_daily s) -> inv (s_db s') (s_daily s').
Proof.
  intros [now rows x x' Hs Hb Hr|now x x' Hn Hf Hs Hr|b x x' Hb Hc Hf Hs Hr|x x' Hs Hr|mode delay bf mx x x' Hr] Hi.
  - by apply (hoare_runs _ _ _ _ _ (commit_spec now rows Hb)) in Hr.
  - by apply (hoare_runs _ _ _ _ _ (maybe_spec now Hn)) in Hr.
  - apply (hoare_runs ready _ inv) in Hr; [done| |done]. eapply hoare_conseq; [by apply run_spec|done| |done].
    by intros [] db d [].
  - by apply (hoare_runs _ _ _ _ _ persist_spec) in Hr.
  - set (d := WithDailyRollup mode delay bf mx) in *.
    assert (Hd : inv (s_db x) d) by (apply boot_inv, Hi).
    destruct (dailyConfigured d) eqn:Ec.
    + apply (hoare_runs _ _ inv (mkSite _ d) _ (hoare_conseq _ _ _ _ _ _ _ _
        (load_spec (db_late (s_db x)) mx) (fun _ _ H => H) (fun _ _ _ H => proj1 (proj1 H)) (fun _ _ H => H))) in Hr; [done|].
      split; [|done]. by split_and!.
    + destruct Hr as (future & _ & ->).
      assert (E : LoadDailyRollupState (mkProc (s_db x) d future) = (Ok tt, mkProc (s_db x) d future)).
      { unfold LoadDailyRollupState, bind, get_daily. cbn [p_daily]. by rewrite Ec. }
      cbn [s_db s_daily]. by rewrite E.
Qed.

Lemma rtc_inv s s' : rtc rollup_step s s' -> inv (s_db s) (s_daily s) -> inv (s_db s') (s_daily s').
Proof. induction 1 as [s|s1 s2 s3 Hs _ IH]; [done|]. intros Hi. by apply IH, (step_inv s1). Qed.
