(* ===== verification/RollupRuns.v ===== *)
(** * The daily refresh over time

    The theorems about runs of the daily refresh: the summaries served from the
    rollup and the rows since its watermark are exact for every subject not marked
    late, at every point of a run; a refresh from a state in order completes and
    leaves nothing late; when the watermark in memory and the one stored differ the
    refresh never runs again; and three runs that leave the discipline, after which
    rows are missing though nothing is marked late. *)

From S2P Require Import Prelude Model SignalsRepo Decode Ingest Sql LakeSource LakeLatest Rollup RollupInv.

(** C8. The daily rollup is exact along every disciplined run ([rollup_step]). From a
    catalog with no watermark and a process just started, through any sequence of
    batches, refreshes, backfill hand-offs and restarts, whose calls may fail, conflict
    or lose their acknowledgment: once a watermark W is stored and no retired shadow
    table is pending, a subject not in the late set has in lake.signals_latest exactly
    [rollupSelectSQL] of its rows before W, and (on well formed rows) joining the rollup
    with the rows since W answers what the scan answers. The discipline: a batch is
    committed only with the rollup configured, loaded, and its watermark in memory the
    stored one; a refresh starts after 1970 with the late set below its bound; none, nor
    a hand-off, of a loaded process starts with a watermark stored and none in memory
    (which a seed whose last commit loses its acknowledgment leaves); no DELETE misses
    rows a compaction moves; rows are filed under their subject's bucket, none deleted. *)
Theorem daily_rollup_exact dec db0 d0 s w subject :
  bucketed (db_signals db0) -> db_mark db0 = None -> dailyStateLoaded d0 = false ->
  dailyWatermark d0 = zero_time ->
  rtc rollup_step (mkSite db0 d0) s ->
  db_mark (s_db s) = Some (RFC3339 w) -> db_shadow (s_db s) = None -> subject ∉ db_late (s_db s) ->
  midnight w /\
  rollup_of (db_latest (s_db s)) subject ≡ₚ
    rollup_of (rollupSelectSQL (before_watermark w) (db_signals (s_db s))) subject /\
  (lake_ok (db_signals (s_db s)) ->
   getSignalSummariesUnion (db_latest (s_db s)) None (db_signals (s_db s)) subject w =
   getSignalSummariesLake dec (db_signals (s_db s)) None subject None).
Proof.
  intros Hb Hm0 Hl0 Hz Hrun Hm Hsh Hn.
  assert (Hinv : inv (s_db s) (s_daily s)).
  { apply (rtc_inv _ _ Hrun). apply unloaded_inv; [done| |by left]. split; [done|]. cbn. by rewrite Hm0. }
  destruct (inv_rollup _ _ Hinv) as [_ Hex]. destruct (Hex w Hm) as [Hmid Hs].
  destruct (Hs subject) as [?|He]; [done|]. unfold exact_at, governed in He. rewrite Hsh in He.
  split_and!; [done..|]. intros Hok. by apply union_summaries_eq.
Qed.

(** C22. A refresh completes: from any state in order whose fields agree with the
    catalog, with the late set below its bound, if no call fails then the refresh to
    a later midnight succeeds, stores that midnight as the watermark, in memory too,
    leaves no subject late, and every subject's rows in lake.signals_latest are the
    recompute of all its rows before it, late ones included. *)
Theorem refresh_completes db d boundary :
  inv db d -> in_sync db d -> few_late db d -> midnight boundary -> dailyWatermark d < boundary ->
  exists w', RunDailyRollupRefresh boundary (mkProc db d []) = (Ok tt, w') /\
    let db' := p_db w' in let d' := p_daily w' in
    db_mark db' = Some (RFC3339 boundary) /\ dailyWatermark d' = boundary /\ in_sync db' d' /\ inv db' d' /\
    db_late db' = [] /\ db_signals db' = db_signals db /\
    forall s, rollup_of (db_latest db') s ≡ₚ
              rollup_of (rollupSelectSQL (before_watermark boundary) (db_signals db)) s.
Proof.
  intros Hinv Hsync Hfew Hm Hlt. pose proof Hsync as (Hc & Hl & Hk).
  assert (Hz : is_zero boundary = false) by (by apply midnight_not_zero).
  destruct (run_body_spec true boundary (proj1 Hm) db d (mkProc db d [])) as [Hf H].
  { split; [constructor|]. split_and!; [done|done|]. split; [|done]. split; [|done]. split_and!; [done..|].
    intros _ E. cbn in E |- *. by rewrite E in Hk. }
  rewrite run_split. unfold bind. rewrite load_loaded by done.
  destruct (run_body boundary (mkProc db d [])) as [[[]|e] [db' d' fut]] eqn:E; cbn [fst snd p_db p_daily p_future] in *;
    [|by destruct H].
  destruct H as ((Hinv' & Hc' & Hl' & Hdone) & _ & Hsig).
  destruct Hdone as [(Hlate & Hmk & Hw)|[Hle ->]]; [|lia].
  exists (mkProc db' d' fut). cbn [p_db p_daily].
  split_and!; try done.
  - split_and!; [done..|]. by rewrite Hw, Hz.
  - intros s. destruct (inv_rollup _ _ Hinv') as [_ Hex]. destruct (Hex boundary Hmk) as [_ Hs].
    destruct (Hs s) as [Hin|He]; [rewrite Hlate in Hin; by apply elem_of_nil in Hin|].
    unfold exact_at, governed in He. by rewrite (inv_shadow _ _ Hinv' Hl'), Hsig in He.
Qed.

(** ** A watermark that is not the stored one *)

Lemma fold_mismatch from boundary w : db_mark (p_db w) <> Some (Format from) ->
  exists e fut, foldDailyRollup from boundary w = (Err e, mkProc (p_db w) (p_daily w) fut).
Proof.
  intros Hne. assert (Htx : forall missed, fold_tx from boundary missed (p_db w) = Err ErrWatermarkMoved).
  { intros missed. unfold fold_tx. destruct (db_mark (p_db w)) as [[t|raw]|]; [|done..].
    destruct (Z.eqb_spec t (time_truncate from Second)) as [->|]; [|done]. by destruct Hne. }
  unfold foldDailyRollup, transact, bind, next_call.
  destruct w as [db d [|c rest]]; cbn in *; [rewrite Htx; by exists ErrWatermarkMoved, []|].
  destruct (c_fate c); cbn; rewrite ?Htx; eexists _, rest; reflexivity.
Qed.

Lemma run_mismatch boundary db d fut : dailyStateLoaded d = true -> is_zero (dailyWatermark d) = false ->
  db_mark db <> Some (Format (dailyWatermark d)) ->
  exists r fut', RunDailyRollupRefresh boundary (mkProc db d fut) = (r, mkProc db d fut') /\
    (midnight boundary -> dailyWatermark d < boundary -> exists e, r = Err e).
Proof.
  intros Hl Hz Hne. rewrite run_split. unfold bind. rewrite load_loaded by done. unfold run_body.
  destruct (tequal boundary (time_truncate boundary Day)) eqn:Et; cbn [negb].
  2:{ exists (Err ErrNotMidnight), fut. split; [done|]. by exists ErrNotMidnight. }
  unfold bind at 1, get_daily. cbn [p_daily]. rewrite Hz. cbn [negb andb].
  destruct (after boundary (dailyWatermark d)) eqn:Ea; cbn [negb].
  - destruct (fold_mismatch (dailyWatermark d) boundary (mkProc db d fut) Hne) as (e & fut' & E).
    unfold bind at 1. rewrite E. exists (Err e), fut'. split; [done|]. by exists e.
  - exists (Ok tt), fut. split; [done|]. unfold after in Ea. intros. apply Z.ltb_ge in Ea. lia.
Qed.

(** C32. When the watermark in memory is not the one stored -- the fold committed but its
    acknowledgment, or the recompute of the late subjects after it, failed; or a
    backfill or an operator removed the row to force a reseed -- no refresh of this
    process ever changes anything again: whatever the date and whatever befalls the
    calls, the catalog and the fields stay as they are, and a refresh that is due
    fails. *)
Theorem mismatch_wedges db d fut now boundary :
  dailyStateLoaded d = true -> is_zero (dailyWatermark d) = false ->
  db_mark db <> Some (Format (dailyWatermark d)) ->
  (exists r fut', RunDailyRollupRefresh boundary (mkProc db d fut) = (r, mkProc db d fut') /\
     (midnight boundary -> dailyWatermark d < boundary -> exists e, r = Err e)) /\
  (exists r fut', MaybeDailyRollupRefresh now (mkProc db d fut) = (r, mkProc db d fut')).
Proof.
  intros Hl Hz Hne. split; [by apply run_mismatch|].
  unfold MaybeDailyRollupRefresh. unfold bind at 1, get_daily. cbn [p_daily].
  destruct (negb (dailyConfigured d) || d_backfillMode d); [by eexists _, _|].
  unfold bind at 1. rewrite load_loaded by done. unfold bind at 1. cbv zeta. cbn [p_daily].
  destruct (is_zero (dailyRefreshBoundary _ _ _)); [by eexists _, _|].
  destruct (run_mismatch (dailyRefreshBoundary now (dailyWatermark d) (dailyDelay d)) db d fut Hl Hz Hne)
    as (r & fut' & E & _). by exists r, fut'.
Qed.

(** ** Runs that leave the discipline *)

(** The site after an operation with the given calls. *)
Definition next_site {A} (m : P A) (future : list call_event) (s : site) : site :=
  let w := (m (mkProc (s_db s) (s_daily s) future)).2 in mkSite (p_db w) (p_daily w).

Definition reboot (maxDirty : Z) (s : site) : site :=
  next_site LoadDailyRollupState [] (mkSite (s_db s) (WithDailyRollup DailyRollupOn 0 false maxDirty)).

(** No subject is late, and a subject's summaries are wrong for all that. *)
Definition loses (subject : string) (s : site) : Prop :=
  exists w, db_mark (s_db s) = Some (RFC3339 w) /\ db_late (s_db s) = [] /\
    lake_ok (db_signals (s_db s)) /\
    getSignalSummariesUnion (db_latest (s_db s)) None (db_signals (s_db s)) subject w <>
    getSignalSummariesLake no_did (db_signals (s_db s)) None subject None.

Definition midday (k : Z) : Z := k * Day + 12 * Hour.

Definition row_at (subject : string) (ts : Z) (ceid : string) : SignalRow :=
  mkSignalRow subject (HashBucket subject) "speed" ts "src" "prod" ceid (f64_of_Z 30) "" f64_zero f64_zero
    f64_zero f64_zero.

Definition day_zero : catalog := mkCatalog [row_at "a" (midday 9) "e1"; row_at "b" (midday 9) "e2"] [] None [] None.

Definition fresh_site (maxDirty : Z) : site := mkSite day_zero (WithDailyRollup DailyRollupOn 0 false maxDirty).

(** Booted and seeded up to day 10. *)
Definition day_ten (maxDirty : Z) : site :=
  next_site (RunDailyRollupRefresh (10 * Day)) [] (reboot maxDirty (fresh_site maxDirty)).

(** The refresh to day 11 commits its fold and fails to read the late set; a batch
    brings a row of day 10; the process restarts and the refresh to day 12 succeeds. *)
Definition unread_late : site :=
  next_site (RunDailyRollupRefresh (11 * Day)) (map goes [Fine; Fails]) (day_ten 10).
Definition unmarked_batch : site :=
  next_site (commitSignals (midday 11) [row_at "a" (midday 10) "e3"]) [] unread_late.
Definition unmarked_row : site := next_site (RunDailyRollupRefresh (12 * Day)) [] (reboot 10 unmarked_batch).

(** Two late rows overflow a late set of one; the reseed of the refresh to day 11
    clears the table and fails; the process restarts and the refresh to day 12 succeeds. *)
Definition overflown : site :=
  next_site (commitSignals (midday 10) [row_at "a" (midday 8) "e3"; row_at "b" (midday 8) "e4"]) [] (day_ten 1).
Definition reseed_stops : site :=
  next_site (RunDailyRollupRefresh (11 * Day)) (map goes [Fine; Fine; Fine; Fine; Fails]) overflown.
Definition half_seeded : site := next_site (RunDailyRollupRefresh (12 * Day)) [] (reboot 1 reseed_stops).

(** Then a late row of the vehicle itself arrives, and the refresh to day 13 succeeds. *)
Definition late_again : site :=
  next_site (commitSignals (midday 12) [row_at "a" (midday 11) "e5"]) [] unmarked_row.
Definition recomputed_row : site := next_site (RunDailyRollupRefresh (13 * Day)) [] late_again.

(** The first seed commits all, but the acknowledgment of its last commit, the
    watermark, is lost; the retry clears the table and fails; the process restarts and
    the refresh to day 11 succeeds. *)
Definition seed_calls : nat := 2 * Z.to_nat NumLatestBuckets + 1.
Definition unacked_seed : site :=
  next_site (RunDailyRollupRefresh (10 * Day)) (map goes (repeat Fine seed_calls ++ [LostAck]))
    (reboot 10 (fresh_site 10)).
Definition retry_stops : site :=
  next_site (RunDailyRollupRefresh (10 * Day)) (map goes [Fine; Fails]) unacked_seed.
Definition unseeded : site := next_site (RunDailyRollupRefresh (11 * Day)) [] (reboot 10 retry_stops).

(** The summaries of a subject are right, whatever the late set holds. *)
Definition serves (subject : string) (s : site) : Prop :=
  exists w, db_mark (s_db s) = Some (RFC3339 w) /\
    getSignalSummariesUnion (db_latest (s_db s)) None (db_signals (s_db s)) subject w =
    getSignalSummariesLake no_did (db_signals (s_db s)) None subject None.

Lemma runs_next {A} (m : P A) future s : Forall (fun c => c_missed c = none_missed) future ->
  runs m s (next_site m future s).
Proof. intros Hf. exists future. split; [|done]. eapply Forall_impl; [exact Hf|]. intros c Hc. by split. Qed.

Lemma calls_race_free fs : Forall (fun c => c_missed c = none_missed) (map goes fs).
Proof. by induction fs; constructor. Qed.

Lemma seeded_run maxDirty : 0 <= maxDirty -> rtc rollup_step (fresh_site maxDirty) (day_ten maxDirty).
Proof.
  intros Hm. eapply rtc_l; [apply (step_restart DailyRollupOn 0 false maxDirty), (runs_next _ []); constructor|].
  apply rtc_once, (step_run (10 * Day)).
  - done.
  - vm_compute. reflexivity.
  - unfold few_late. vm_compute. destruct maxDirty; done.
  - intros _ _. vm_compute. reflexivity.
  - apply (runs_next _ []). constructor.
Qed.

Lemma loses_by subject s w l : db_mark (s_db s) = Some (RFC3339 w) -> db_late (s_db s) = [] ->
  lake_ok (db_signals (s_db s)) ->
  getSignalSummariesUnion (db_latest (s_db s)) None (db_signals (s_db s)) subject w = Ok l ->
  getSignalSummariesLake no_did (db_signals (s_db s)) None subject None <> Ok l -> loses subject s.
Proof. intros H1 H2 H3 H4 H5. exists w. split_and!; [done..|]. rewrite H4. by intros E. Qed.

Lemma demo_signals_ok s l : db_signals (s_db s) = l ->
  forallb (fun r => sr_SubjectBucket r =? HashBucket (sr_Subject r)) l = true ->
  bool_decide (NoDup (map sr_CloudEventID l)) = true -> lake_ok (db_signals (s_db s)).
Proof.
  intros -> Hb Hnd. apply demo_lake_ok; [|by apply bool_decide_eq_true in Hnd].
  apply Forall_forall. intros r Hr%list_elem_of_In. rewrite forallb_forall in Hb. by apply Z.eqb_eq, Hb.
Qed.

Lemma unmarked_row_loses : loses "a" unmarked_row.
Proof.
  eapply (loses_by _ _ (12 * Day)); [vm_compute; reflexivity..| |vm_compute; reflexivity|vm_compute; discriminate].
  apply (demo_signals_ok _ [row_at "a" (midday 9) "e1"; row_at "b" (midday 9) "e2"; row_at "a" (midday 10) "e3"]);
    vm_compute; reflexivity.
Qed.

Lemma half_seeded_loses : loses "a" half_seeded.
Proof.
  eapply (loses_by _ _ (12 * Day)); [vm_compute; reflexivity..| |vm_compute; reflexivity|vm_compute; discriminate].
  apply (demo_signals_ok _ [row_at "a" (midday 9) "e1"; row_at "b" (midday 9) "e2";
    row_at "a" (midday 8) "e3"; row_at "b" (midday 8) "e4"]); vm_compute; reflexivity.
Qed.

Lemma unseeded_loses : loses "a" unseeded.
Proof.
  eapply (loses_by _ _ (11 * Day)); [vm_compute; reflexivity..| |vm_compute; reflexivity|vm_compute; discriminate].
  apply (demo_signals_ok _ [row_at "a" (midday 9) "e1"; row_at "b" (midday 9) "e2"]); vm_compute; reflexivity.
Qed.

Lemma recomputed_row_serves : serves "a" recomputed_row.
Proof. exists (13 * Day). split; vm_compute; reflexivity. Qed.

Lemma unacked_seed_run : rtc rollup_step (fresh_site 10) unacked_seed.
Proof.
  eapply rtc_l; [apply (step_restart DailyRollupOn 0 false 10), (runs_next _ []); constructor|].
  apply rtc_once, (step_run (10 * Day)).
  - done.
  - vm_compute. reflexivity.
  - unfold few_late. vm_compute. done.
  - intros _ _. vm_compute. reflexivity.
  - exact (runs_next _ _ (reboot 10 (fresh_site 10)) (calls_race_free (repeat Fine seed_calls ++ [LostAck]))).
Qed.

Lemma overflown_run : rtc rollup_step (day_ten 1) overflown.
Proof.
  apply rtc_once. apply (step_commit (midday 10) [row_at "a" (midday 8) "e3"; row_at "b" (midday 8) "e4"]).
  - split; [vm_compute; reflexivity|]. split; vm_compute; reflexivity.
  - intros r Hr. repeat (apply elem_of_cons in Hr as [->|Hr]; [reflexivity|]). by apply elem_of_nil in Hr.
  - exact (runs_next _ _ _ (calls_race_free [])).
Qed.

(** C34. The discipline is needed. (1) A refresh to day 11 whose fold commits and whose
    recompute of the late set fails leaves the stored watermark ahead of the one in
    memory: a row of day 10 arriving next is not marked late, and after a restart and a
    refresh to day 12 without faults the late set is empty and the summaries miss the
    row. What repairs them is another late row of the same vehicle: it is marked, and
    the refresh to day 13 recomputes the vehicle. (2) When the late set overflows, the
    refresh removes the marks and clears the table with the new watermark already
    stored: if the reseed stops there, after a restart and a refresh to day 12 without
    faults the table lacks the earlier days and no subject is marked. (3) The last commit
    of the first seed, a disciplined step, stores the watermark and loses its
    acknowledgment; the retry clears the table and fails: after a restart and a refresh
    to day 11 without faults the table lacks the earlier days and no subject is marked. *)
Theorem daily_rollup_gaps :
  (rtc rollup_step (fresh_site 10) (day_ten 10) /\
   exists s1 s2 s3 s4, runs (RunDailyRollupRefresh (11 * Day)) (day_ten 10) s1 /\
     runs (commitSignals (midday 11) [row_at "a" (midday 10) "e3"]) s1 s2 /\
     runs (RunDailyRollupRefresh (12 * Day)) (reboot 10 s2) s3 /\ loses "a" s3 /\
     runs (commitSignals (midday 12) [row_at "a" (midday 11) "e5"]) s3 s4 /\
     db_late (s_db s4) = ["a"] /\
     serves "a" (next_site (RunDailyRollupRefresh (13 * Day)) [] s4)) /\
  (rtc rollup_step (fresh_site 1) (day_ten 1) /\
   exists s1 s2, rtc rollup_step (day_ten 1) s1 /\
     runs (RunDailyRollupRefresh (11 * Day)) s1 s2 /\
     loses "a" (next_site (RunDailyRollupRefresh (12 * Day)) [] (reboot 1 s2))) /\
  (exists s1 s2, rtc rollup_step (fresh_site 10) s1 /\
     runs (RunDailyRollupRefresh (10 * Day)) s1 s2 /\
     loses "a" (next_site (RunDailyRollupRefresh (11 * Day)) [] (reboot 10 s2))).
Proof.
  split_and!; try by apply seeded_run.
  - exists unread_late, unmarked_batch, unmarked_row, late_again.
    split; [exact (runs_next _ _ (day_ten 10) (calls_race_free [Fine; Fails]))|].
    split; [exact (runs_next _ _ unread_late (calls_race_free []))|].
    split; [exact (runs_next _ _ (reboot 10 unmarked_batch) (calls_race_free []))|].
    split; [exact unmarked_row_loses|].
    split; [exact (runs_next _ _ unmarked_row (calls_race_free []))|].
    split; [vm_compute; reflexivity|exact recomputed_row_serves].
  - exists overflown, reseed_stops. split; [exact overflown_run|].
    split; [exact (runs_next _ _ overflown (calls_race_free [Fine; Fine; Fine; Fine; Fails]))|].
    exact half_seeded_loses.
  - exists unacked_seed, retry_stops. split; [exact unacked_seed_run|].
    split; [exact (runs_next _ _ unacked_seed (calls_race_free [Fine; Fails]))|]. exact unseeded_loses.
Qed.

(** ** At concrete catalogs *)

Lemma ten_run : rtc rollup_step (fresh_site 10) (day_ten 10).
Proof. by apply seeded_run. Qed.

Lemma day_ten_inv : inv (s_db (day_ten 10)) (s_daily (day_ten 10)).
Proof.
  apply (rtc_inv _ _ ten_run). apply unloaded_inv; [done| |by left].
  split; [|done]. intros r Hr. repeat (apply elem_of_cons in Hr as [->|Hr]; [reflexivity|]). by apply elem_of_nil in Hr.
Qed.

Example daily_rollup_exact_witness :
  db_mark (s_db (day_ten 10)) = Some (RFC3339 (10 * Day)) /\
  rollup_of (db_latest (s_db (day_ten 10))) "a" ≡ₚ
    rollup_of (rollupSelectSQL (before_watermark (10 * Day)) (db_signals (s_db (day_ten 10)))) "a".
Proof.
  split; [vm_compute; reflexivity|].
  refine (proj1 (proj2 (daily_rollup_exact no_did day_zero (WithDailyRollup DailyRollupOn 0 false 10)
    (day_ten 10) (10 * Day) "a" _ eq_refl eq_refl eq_refl ten_run _ _ _))).
  - intros r Hr. repeat (apply elem_of_cons in Hr as [->|Hr]; [reflexivity|]). by apply elem_of_nil in Hr.
  - vm_compute. reflexivity.
  - vm_compute. reflexivity.
  - apply (bool_decide_unpack _). vm_compute. exact I.
Defined.

Example refresh_completes_witness :
  exists w', RunDailyRollupRefresh (11 * Day) (mkProc (s_db (day_ten 10)) (s_daily (day_ten 10)) []) = (Ok tt, w') /\
    db_mark (p_db w') = Some (RFC3339 (11 * Day)) /\ db_late (p_db w') = [].
Proof.
  destruct (refresh_completes (s_db (day_ten 10)) (s_daily (day_ten 10)) (11 * Day) day_ten_inv) as (w' & E & H).
  - split; [vm_compute; reflexivity|]. split; vm_compute; reflexivity.
  - vm_compute. discriminate.
  - split; vm_compute; reflexivity.
  - vm_compute. reflexivity.
  - exists w'. split; [exact E|]. split; [apply H|]. destruct H as (_ & _ & _ & _ & Hl & _). exact Hl.
Defined.

(** The row of the watermark is removed under the process. *)
Example mismatch_wedges_witness :
  exists r fut, RunDailyRollupRefresh (11 * Day)
      (mkProc (set_mark None (s_db (day_ten 10))) (s_daily (day_ten 10)) [goes Fine]) =
    (r, mkProc (set_mark None (s_db (day_ten 10))) (s_daily (day_ten 10)) fut) /\ exists e, r = Err e.
Proof.
  destruct (mismatch_wedges (set_mark None (s_db (day_ten 10))) (s_daily (day_ten 10)) [goes Fine]
    (midday 12) (11 * Day)) as [(r & fut & E & H) _].
  - vm_compute. reflexivity.
  - vm_compute. reflexivity.
  - discriminate.
  - exists r, fut. split; [exact E|]. apply H; [split|]; vm_compute; reflexivity.
Defined.
