(* ===== verification/RawEvents.v ===== *)
(** * internal/service/duck/raw.go: raw cloud events in the lake

    The rows of lake.raw_events, the filter a fetch narrows them with
    ([whereClauseQ]), tombstones ([voidingClause]), the collapse of redelivered
    duplicates ([rawEventDedupQualify]) and the reading of a row back into a
    cloud event ([scanStoredEvent]). *)

From S2P Require Import Prelude Coordinates Decode Sql.

(** ** Cloud events *)

(** A value of a header's [Extras] map: decoded JSON, or the bytes the gRPC
    conversion keeps when they do not decode. *)
Inductive any := AnyJSON (v : json) | AnyBytes (b : list Z).

Abbreviation extras_map := (gmap string any).

(** [cloudevent.CloudEventHeader], with the columns the materializer also reads
    as its first field. *)
Record Header := mkFullHeader {
  hd : CloudEventHeader;
  hd_SpecVersion : string;
  hd_DataContentType : string;
  hd_DataSchema : string;
  hd_Signature : string;
  hd_RawEventID : string;
  hd_Extras : option extras_map;
  hd_Tags : list string;
}.

(** [cloudevent.StoredEvent]. *)
Record StoredEvent := mkStored {
  se_Header : Header;
  se_Data : list Z;
  se_DataBase64 : string;
  se_DataIndexKey : string;
  se_VoidsID : string;
}.

(** The event identity: subject, second, type, source and id. *)
Definition event_key : Type := string * Z * string * string * string.

Definition header_key (h : CloudEventHeader) : event_key :=
  (ce_Subject h, ce_Time h / Second, ce_Type h, ce_Source h, ce_ID h).

(** What the code uses of package cloudevent and of encoding/json, and the tags
    DuckDB extracts from an extras column. *)
Class CloudEventLib := {
  SpecVersion : string;
  Key : CloudEventHeader -> string;
  (** The header it leaves, and whether it panicked. *)
  RestoreNonColumnFields : Header -> Header * bool;
  (** [json.Unmarshal] into a map: [None] an error, [Some None] the JSON null. *)
  json_Unmarshal_map : string -> option (option extras_map);
  json_Unmarshal : list Z -> option json;
  json_Marshal : any -> option (list Z);
  (** [COALESCE(try_cast(json_extract(extras, '$.tags') AS VARCHAR[]), [])]. *)
  sql_tags : option string -> list string;
}.

(** [Key] renders the identity, to the second; restoring rebuilds fields that are
    not columns; what JSON value is written is the one read back. *)
Class CloudEventLaws (L : CloudEventLib) : Prop := {
  Key_exact h1 h2 : Key h1 = Key h2 <-> header_key h1 = header_key h2;
  Restore_columns h : hd (RestoreNonColumnFields h).1 = hd h;
  Marshal_json v b : json_Marshal (AnyJSON v) = Some b -> json_Unmarshal b = Some v;
}.

(** ** A row of lake.raw_events *)

Record RawRow := mkRawRow {
  rr_subject : string;
  rr_time : Z;
  rr_type : string;
  rr_id : string;
  rr_source : string;
  rr_producer : string;
  rr_data_content_type : string;
  rr_data_version : string;
  rr_extras : option string;
  rr_data : option (list Z);
  rr_data_base64 : option string;
  rr_data_index_key : option string;
  rr_voids_id : option string;
}.

Definition columns (r : RawRow) : CloudEventHeader :=
  mkHeader (rr_subject r) (rr_time r) (rr_type r) (rr_id r) (rr_source r) (rr_producer r)
    (rr_data_version r).

(** [PARTITION BY subject, date_trunc('second', time), type, source, id]. *)
Definition row_identity (r : RawRow) : event_key := header_key (columns r).

(** [rawEventIndexColumns]: the payload columns as NULL literals. *)
Definition index_columns (r : RawRow) : RawRow :=
  mkRawRow (rr_subject r) (rr_time r) (rr_type r) (rr_id r) (rr_source r) (rr_producer r)
    (rr_data_content_type r) (rr_data_version r) (rr_extras r) None None
    (rr_data_index_key r) (rr_voids_id r).

Definition str_or_empty (o : option string) : string := from_option id "" o.

Section scan.
Context {L : CloudEventLib}.

(** [restoreNonColumnFieldsSafe]: the deferred recover keeps what was restored
    before the panic. *)
Definition restoreNonColumnFieldsSafe (h : Header) : Header := (RestoreNonColumnFields h).1.

Definition set_Extras (h : Header) (e : option extras_map) : Header :=
  mkFullHeader (hd h) (hd_SpecVersion h) (hd_DataContentType h) (hd_DataSchema h) (hd_Signature h)
    (hd_RawEventID h) e (hd_Tags h).

Definition scanStoredEvent (r : RawRow) : StoredEvent :=
  let h := mkFullHeader (columns r) SpecVersion (rr_data_content_type r) "" "" "" None [] in
  let h' := match rr_extras r with
            | Some e =>
                if negb (String.eqb e "") && negb (String.eqb e "{}") then
                  match json_Unmarshal_map e with
                  | Some m => restoreNonColumnFieldsSafe (set_Extras h m)
                  | None => h
                  end
                else h
            | None => h
            end in
  let b64 := str_or_empty (rr_data_base64 r) in
  let inline := negb (String.eqb b64 "") in
  mkStored h' (if inline then [] else from_option id [] (rr_data r))
    (if inline then b64 else "") (str_or_empty (rr_data_index_key r)) (str_or_empty (rr_voids_id r)).

Definition se_key (e : StoredEvent) : string := Key (hd (se_Header e)).

Lemma scan_columns {W : CloudEventLaws L} r : hd (se_Header (scanStoredEvent r)) = columns r.
Proof.
  unfold scanStoredEvent. cbn [se_Header]. destruct (rr_extras r) as [e|]; [|done].
  destruct (_ && _); [|done]. destruct (json_Unmarshal_map e); [|done].
  unfold restoreNonColumnFieldsSafe. by rewrite Restore_columns.
Qed.

Lemma scan_key {W : CloudEventLaws L} r : se_key (scanStoredEvent r) = Key (columns r).
Proof. unfold se_key. by rewrite scan_columns. Qed.

Lemma key_identity {W : CloudEventLaws L} r h : Key (columns r) = Key h <-> row_identity r = header_key h.
Proof. apply Key_exact. Qed.
End scan.

(** ** RawFilter *)

Record RawFilter := mkRawFilter {
  Subject : string;
  Subjects : list string;
  Types : list string;
  TypesNotIn : list string;
  Sources : list string;
  SourcesNotIn : list string;
  Producers : list string;
  ProducersNotIn : list string;
  IDs : list string;
  IDsNotIn : list string;
  DataVersions : list string;
  DataVersionsNotIn : list string;
  Tags : list string;
  TagsAll : list string;
  TagsNotContainAny : list string;
  TagsNotContainAll : list string;
  Extras : list string;
  ExtrasNotIn : list string;
  After : Z;
  Before : Z;
  ExcludeVoided : bool;
  TimestampAsc : bool;
}.

(** [RawFilter{}]. *)
Definition zero_filter : RawFilter :=
  mkRawFilter "" [] [] [] [] [] [] [] [] [] [] [] [] [] [] [] [] [] zero_time zero_time false false.

Definition mem (x : string) (l : list string) : bool := existsb (String.eqb x) l.
Definition is_empty {A} (l : list A) : bool := match l with [] => true | _ => false end.

(** [addIn], [addNotIn]: no condition for an empty list. *)
Definition addIn (vals : list string) (col : string) : bool := is_empty vals || mem col vals.
Definition addNotIn (vals : list string) (col : string) : bool := is_empty vals || negb (mem col vals).

(** The same on a nullable column: a comparison with NULL is not true. *)
Definition addIn_null (vals : list string) (col : option string) : bool :=
  is_empty vals || match col with Some c => mem c vals | None => false end.
Definition addNotIn_null (vals : list string) (col : option string) : bool :=
  is_empty vals || match col with Some c => negb (mem c vals) | None => false end.

(** DuckDB's [list_has_any], [list_has_all]. *)
Definition list_has_any (l vals : list string) : bool := existsb (fun v => mem v l) vals.
Definition list_has_all (l vals : list string) : bool := forallb (fun v => mem v l) vals.

(** A bound parameter reaches DuckDB in microseconds. *)
Definition sql_time (t : Z) : Z := make_timestamp (UnixMicro t).

Definition subject_cond (f : RawFilter) (s : string) : bool :=
  if negb (is_empty (Subjects f)) then addIn (Subjects f) s
  else if negb (String.eqb (Subject f) "") then String.eqb s (Subject f) else true.

(** Whether a row satisfies the conjunction [whereClauseQ] builds. *)
Definition whereClauseQ {L : CloudEventLib} (f : RawFilter) (r : RawRow) : bool :=
  let tags := sql_tags (rr_extras r) in
  subject_cond f (rr_subject r) &&
  addIn (Types f) (rr_type r) && addNotIn (TypesNotIn f) (rr_type r) &&
  addIn (Sources f) (rr_source r) && addNotIn (SourcesNotIn f) (rr_source r) &&
  addIn (Producers f) (rr_producer r) && addNotIn (ProducersNotIn f) (rr_producer r) &&
  addIn (IDs f) (rr_id r) && addNotIn (IDsNotIn f) (rr_id r) &&
  addIn (DataVersions f) (rr_data_version r) && addNotIn (DataVersionsNotIn f) (rr_data_version r) &&
  addIn_null (Extras f) (rr_extras r) && addNotIn_null (ExtrasNotIn f) (rr_extras r) &&
  (is_empty (RawEvents.Tags f) || list_has_any tags (RawEvents.Tags f)) &&
  (is_empty (TagsAll f) || list_has_all tags (TagsAll f)) &&
  (is_empty (TagsNotContainAny f) || negb (list_has_any tags (TagsNotContainAny f))) &&
  (is_empty (TagsNotContainAll f) || negb (list_has_all tags (TagsNotContainAll f))) &&
  (is_zero (After f) || (sql_time (After f) <? rr_time r)) &&
  (is_zero (Before f) || (rr_time r <? sql_time (Before f))).

(** ** Tombstones and duplicates *)

(** [voids_id IS NOT NULL AND voids_id <> ''] and its negation. *)
Definition tombstone (r : RawRow) : bool := negb (String.eqb (str_or_empty (rr_voids_id r)) "").

Definition voids (t r : RawRow) : bool :=
  tombstone t && String.eqb (rr_subject t) (rr_subject r) &&
  String.eqb (str_or_empty (rr_voids_id t)) (rr_id r).

Definition voidingClause (raw_events : list RawRow) (r : RawRow) : bool :=
  negb (tombstone r) && negb (existsb (fun t => voids t r) raw_events).

(** [ORDER BY time] of the deduplication. *)
Definition earlier (a b : RawRow) : bool := rr_time a <? rr_time b.

Definition rawEventDedupQualify : list RawRow -> list RawRow := qualify row_identity earlier.

Lemma earlier_irrefl a : earlier a a = false.
Proof. unfold earlier. lia. Qed.
Lemma earlier_asym a b : earlier a b = true -> earlier b a = false.
Proof. unfold earlier. lia. Qed.
Lemma earlier_negtrans a b c : earlier a b = false -> earlier b c = false -> earlier a c = false.
Proof. unfold earlier. lia. Qed.

(** ** What a condition on the subject lets through *)

Lemma mem_true x l : mem x l = true <-> x ∈ l.
Proof.
  unfold mem. rewrite existsb_exists. split.
  - intros (y & Hy & ->%String.eqb_eq). by apply list_elem_of_In.
  - intros Hx. exists x. split; [by apply list_elem_of_In|apply String.eqb_refl].
Qed.

Lemma whereClauseQ_subject {L : CloudEventLib} f r :
  whereClauseQ f r = true -> subject_cond f (rr_subject r) = true.
Proof. unfold whereClauseQ. cbv zeta. rewrite !andb_true_iff. tauto. Qed.

(** Rows of other subjects neither match nor void. *)
Definition of_subjects (P : string -> bool) (l : list RawRow) : list RawRow :=
  List.filter (fun r => P (rr_subject r)) l.

Lemma voidingClause_local P l r :
  P (rr_subject r) = true -> voidingClause l r = voidingClause (of_subjects P l) r.
Proof.
  intros HP. unfold voidingClause. f_equal. f_equal. unfold of_subjects.
  induction l as [|t l IH]; [done|]. cbn [existsb List.filter]. rewrite IH.
  destruct (P (rr_subject t)) eqn:E; cbn [existsb]; [done|].
  replace (voids t r) with false; [done|]. symmetry. unfold voids.
  destruct (String.eqb_spec (rr_subject t) (rr_subject r)) as [Hs|]; [|by rewrite andb_false_r].
  congruence.
Qed.

(** ** An instance *)

Fixpoint pos_string (p : positive) : string :=
  match p with
  | xH => ""
  | xO p' => String.append "0" (pos_string p')
  | xI p' => String.append "1" (pos_string p')
  end.

Lemma pos_string_inj p q : pos_string p = pos_string q -> p = q.
Proof. revert q. induction p as [p IH|p IH|]; intros [q|q|]; cbn; intros [=]; f_equal; auto. Qed.

(** Identities as bit strings, no extras beyond the JSON null, no tags. *)
#[export] Instance demo_lib : CloudEventLib := {|
  SpecVersion := "1.0";
  Key h := pos_string (encode (header_key h));
  RestoreNonColumnFields h := (h, false);
  json_Unmarshal_map s := if String.eqb s "null" then Some None else None;
  json_Unmarshal b := if bool_decide (b = [110; 117; 108; 108]) then Some JNull else None;
  json_Marshal v := match v with AnyJSON JNull => Some [110; 117; 108; 108] | _ => None end;
  sql_tags _ := [];
|}.

#[export] Instance demo_lib_laws : CloudEventLaws demo_lib.
Proof.
  split; cbn -[encode].
  - intros h1 h2. split; [|by intros ->]. by intros H%pos_string_inj%encode_inj.
  - done.
  - intros v b. destruct v; try done. by intros [= <-].
Qed.

(** A table: one upload as two rows of one id, one of them redelivered, an event
    and the tombstone that voids it, and an event of another subject. *)
Definition demo_event (subject : string) (time : Z) (type id data : string) (voids : option string) : RawRow :=
  mkRawRow subject time type id "src" "prod" "application/json" "v1" None (Some (bytes_of data)) None None voids.

Definition demo_events : list RawRow :=
  [ demo_event "did:a" (1000 * Second) "dimo.status" "e1" "11" None;
    demo_event "did:a" (1000 * Second + 5000) "dimo.status" "e1" "11" None;
    demo_event "did:a" (1000 * Second) "dimo.fingerprint" "e1" "222" None;
    demo_event "did:a" (2000 * Second) "dimo.status" "e2" "3" None;
    demo_event "did:a" (2001 * Second) "dimo.tombstone" "t1" "" (Some "e2"%string);
    demo_event "did:a" (3000 * Second) "dimo.status" "e3" "4" None;
    demo_event "did:b" (4000 * Second) "dimo.status" "e4" "55555" None ].
