(* ===== verification/LakeFetch.v ===== *)
(** * internal/service/duck/lake_fetch.go: reading cloud events back

    [LakeEventService]: index searches, the lookup of one event and of a batch of
    events by index, payload resolution and the per-type summaries, over a lake
    whose tables are lists of rows. *)

From S2P Require Import Prelude Coordinates Base64 Blobcrypt Decode Blobs Sql RawEvents.

(** ** The request messages of pkg/grpc *)

Inductive StringFilterOption := mkStringFilter {
  sf_In : list string;
  sf_NotIn : list string;
  sf_Or : list StringFilterOption;
}.

Record ArrayFilterOption := mkArrayFilter {
  af_ContainsAny : list string;
  af_ContainsAll : list string;
  af_NotContainsAny : list string;
  af_NotContainsAll : list string;
  af_Or : nat;
}.

Record AdvancedSearchOptions := mkAdvanced {
  ao_Subject : option StringFilterOption;
  ao_Type : option StringFilterOption;
  ao_Source : option StringFilterOption;
  ao_Producer : option StringFilterOption;
  ao_Id : option StringFilterOption;
  ao_DataVersion : option StringFilterOption;
  ao_Extras : option StringFilterOption;
  ao_Tags : option ArrayFilterOption;
  ao_After : option Z;
  ao_Before : option Z;
  ao_TimestampAsc : option bool;
}.

Record SearchOptions := mkSearch {
  so_Subject : option string;
  so_Type : option string;
  so_Source : option string;
  so_Producer : option string;
  so_Id : option string;
  so_DataVersion : option string;
  so_Extras : option string;
  so_After : option Z;
  so_Before : option Z;
  so_TimestampAsc : option bool;
}.

(** ** Results and errors *)

(** [cloudevent.CloudEvent[ObjectInfo]]: a header and a locator. *)
Record Index := mkIndex { ix_Header : Header; ix_Key : string }.

(** [cloudevent.RawEvent]. *)
Record FetchedEvent := mkFetched { fe_Header : Header; fe_Data : list Z; fe_DataBase64 : string }.

Record CloudEventTypeSummary := mkTypeSummary {
  ts_Type : string; ts_Count : Z; ts_FirstSeen : Z; ts_LastSeen : Z
}.

Inductive fetch_error :=
  | EQuery (msg : string)
  | EOrClauseUnsupported
  (** wraps [sql.ErrNoRows] *)
  | EEventNotFound
  | EPayloadBudgetExceeded
  | ENoObjectStore (key : string)
  | EFetchBlob (key : string) (e : blob_error)
  | EDecryptBlob (key : string) (e : crypt_error)
  | ENotABlobRef (key : string)
  | ENoPresigner
  | ENoBucket
  | EPresign (msg : string).

(** ** The lake as the service sees it *)

(** A row of lake.raw_types_latest. *)
Record TypeRow := mkTypeRow {
  tr_subject : string; tr_type : string; tr_count : Z; tr_first_seen : Z; tr_last_seen : Z
}.

Record Lake := mkLake {
  lk_raw_events : list RawRow;
  (** [None]: the table does not exist yet. *)
  lk_raw_types : option (list TypeRow);
  (** Whether the statement of an operation and a filter fails. *)
  lk_fails : string -> RawFilter -> option string;
  (** The bucket's objects. *)
  lk_objects : string -> result s3_error s3_object;
}.

(** ** Constants *)

Definition defaultFetchScanWindow : Z := 400 * 24 * Hour.
Definition maxLakeQueryLimit : Z := 1000.
Definition idRowExpansion : Z := 8.
Definition idsPerFetchBatch : Z := maxLakeQueryLimit / idRowExpansion.
Definition maxListPayloadBytes : Z := 256 * 2 ^ 20.
Definition indexBlobConcurrency : nat := 8.

(** ** queryLakeRawCols *)

(** [ORDER BY time, id, type], each in the requested direction. *)
Definition sort_key (r : RawRow) : Z * string * string := (rr_time r, rr_id r, rr_type r).

Definition key_ltb (a b : Z * string * string) : bool :=
  let '(t1, i1, y1) := a in let '(t2, i2, y2) := b in
  (t1 <? t2) || ((t1 =? t2) && (String.ltb i1 i2 || (String.eqb i1 i2 && String.ltb y1 y2))).

Definition key_leb (asc : bool) (a b : Z * string * string) : bool :=
  if asc then negb (key_ltb b a) else negb (key_ltb a b).

Definition set_After (f : RawFilter) (t : Z) : RawFilter :=
  mkRawFilter (Subject f) (Subjects f) (Types f) (TypesNotIn f) (Sources f) (SourcesNotIn f)
    (Producers f) (ProducersNotIn f) (IDs f) (IDsNotIn f) (DataVersions f) (DataVersionsNotIn f)
    (Tags f) (TagsAll f) (TagsNotContainAny f) (TagsNotContainAll f) (Extras f) (ExtrasNotIn f)
    t (Before f) (ExcludeVoided f) (TimestampAsc f).

Definition default_window (now : Z) (f : RawFilter) : RawFilter :=
  if is_zero (After f) && is_empty (IDs f) && String.eqb (Subject f) "" && is_empty (Subjects f)
  then set_After f ((if is_zero (Before f) then now else Before f) - defaultFetchScanWindow)
  else f.

Section service.
Context {L : CloudEventLib} {A : AEAD}.

(** The statement's rows, before LIMIT. *)
Definition matching_rows (raw_events : list RawRow) (f : RawFilter) : list RawRow :=
  order_by sort_key (key_leb (TimestampAsc f))
    (rawEventDedupQualify
       (List.filter (fun r => whereClauseQ f r && (negb (ExcludeVoided f) || voidingClause raw_events r))
          raw_events)).

Definition queryLakeRawCols (now : Z) (lk : Lake) (filter : RawFilter) (limit : Z)
    (cols : RawRow -> RawRow) (op : string) : result fetch_error (list StoredEvent) :=
  let filter := default_window now filter in
  match lk_fails lk op filter with
  | Some msg => Err (EQuery msg)
  | None => Ok (map (fun r => scanStoredEvent (cols r))
                  (take (Z.to_nat limit) (matching_rows (lk_raw_events lk) filter)))
  end.

Definition queryLakeRaw (now : Z) (lk : Lake) (filter : RawFilter) (limit : Z) (op : string) :=
  queryLakeRawCols now lk filter limit (fun r => r) op.

(** ** Options to filters *)

Definition applyString (opt : option StringFilterOption) : result fetch_error (list string * list string) :=
  match opt with
  | None => Ok ([], [])
  | Some o => if negb (is_empty (sf_Or o)) then Err EOrClauseUnsupported else Ok (sf_In o, sf_NotIn o)
  end.

Definition applyTags (opt : option ArrayFilterOption) : result fetch_error ArrayFilterOption :=
  match opt with
  | None => Ok (mkArrayFilter [] [] [] [] 0)
  | Some t => if (0 <? af_Or t)%nat then Err EOrClauseUnsupported else Ok t
  end.

Definition void_filter : RawFilter :=
  mkRawFilter "" [] [] [] [] [] [] [] [] [] [] [] [] [] [] [] [] [] zero_time zero_time true false.

Definition filterFromAdvanced (opts : option AdvancedSearchOptions) : result fetch_error RawFilter :=
  match opts with
  | None => Ok void_filter
  | Some o =>
      let* subject := applyString (ao_Subject o) in
      let* type := applyString (ao_Type o) in
      let* source := applyString (ao_Source o) in
      let* producer := applyString (ao_Producer o) in
      let* id_ := applyString (ao_Id o) in
      let* version := applyString (ao_DataVersion o) in
      let* extras := applyString (ao_Extras o) in
      let* tags := applyTags (ao_Tags o) in
      Ok (mkRawFilter "" subject.1 type.1 type.2 source.1 source.2 producer.1 producer.2 id_.1 id_.2
            version.1 version.2 (af_ContainsAny tags) (af_ContainsAll tags) (af_NotContainsAny tags)
            (af_NotContainsAll tags) extras.1 extras.2 (from_option id zero_time (ao_After o))
            (from_option id zero_time (ao_Before o)) true (from_option id false (ao_TimestampAsc o)))
  end.

Definition single (o : option string) : option StringFilterOption :=
  (fun v => mkStringFilter [v] [] []) <$> o.

Definition toAdvanced (opts : option SearchOptions) : option AdvancedSearchOptions :=
  (fun o => mkAdvanced (single (so_Subject o)) (single (so_Type o)) (single (so_Source o))
     (single (so_Producer o)) (single (so_Id o)) (single (so_DataVersion o)) (single (so_Extras o))
     None (so_After o) (so_Before o) (so_TimestampAsc o)) <$> opts.

(** ** Index searches *)

Definition toIndex (ev : StoredEvent) : Index :=
  let h := hd (se_Header ev) in
  mkIndex (se_Header ev)
    (if String.eqb (se_DataIndexKey ev) ""
     then ("lake://" +:+ ce_Subject h +:+ "/" +:+ ce_ID h)%string else se_DataIndexKey ev).

Definition clamp_limit (limit : Z) : Z :=
  let limit := if limit <=? 0 then 1 else limit in
  if maxLakeQueryLimit <? limit then maxLakeQueryLimit else limit.

Definition ListIndexesAdvanced (now : Z) (lk : Lake) (limit : Z) (opts : option AdvancedSearchOptions)
  : result fetch_error (list Index) :=
  let* f := filterFromAdvanced opts in
  let* evs := queryLakeRawCols now lk f (clamp_limit limit) index_columns "fetchIndexSearch" in
  Ok (map toIndex evs).

Definition newest_first (f : RawFilter) : RawFilter :=
  mkRawFilter (Subject f) (Subjects f) (Types f) (TypesNotIn f) (Sources f) (SourcesNotIn f)
    (Producers f) (ProducersNotIn f) (IDs f) (IDsNotIn f) (DataVersions f) (DataVersionsNotIn f)
    (Tags f) (TagsAll f) (TagsNotContainAny f) (TagsNotContainAll f) (Extras f) (ExtrasNotIn f)
    (After f) (Before f) (ExcludeVoided f) false.

Definition GetLatestIndexAdvanced (now : Z) (lk : Lake) (opts : option AdvancedSearchOptions)
  : result fetch_error Index :=
  let* f := filterFromAdvanced opts in
  let* evs := queryLakeRawCols now lk (newest_first f) 1 index_columns "fetchLatestIndex" in
  match evs with
  | [] => Err EEventNotFound
  | ev :: _ => Ok (toIndex ev)
  end.

Definition ListIndexes (now : Z) (lk : Lake) (limit : Z) (opts : option SearchOptions) :=
  ListIndexesAdvanced now lk limit (toAdvanced opts).

Definition GetLatestIndex (now : Z) (lk : Lake) (opts : option SearchOptions) :=
  GetLatestIndexAdvanced now lk (toAdvanced opts).

(** ** Payloads *)

(** The service's object store and cipher; [None] when not configured. *)
Context (getter : bool) (blobCipher : option Blobcrypt.Key).

Definition toRawEvent (ev : StoredEvent) : FetchedEvent :=
  mkFetched (se_Header ev) (se_Data ev) (se_DataBase64 ev).

Definition resolvePayload (lk : Lake) (ev : StoredEvent) : result fetch_error FetchedEvent :=
  let raw := toRawEvent ev in
  let key := se_DataIndexKey ev in
  if negb (is_empty (fe_Data raw)) || negb (String.eqb (fe_DataBase64 raw) "") then Ok raw
  else if negb (HasBlobPrefix key) then Ok raw
  else if negb getter then Err (ENoObjectStore key)
  else match DownloadObject (lk_objects lk) key with
  | Err e => if IsObjectNotFound e then Ok raw else Err (EFetchBlob key e)
  | Ok data =>
      match blobCipher with
      | None => Ok (mkFetched (se_Header ev) data (se_DataBase64 ev))
      | Some k =>
          match Open k (bytes_of key) data with
          | Err e => Err (EDecryptBlob key e)
          | Ok data' => Ok (mkFetched (se_Header ev) data' (se_DataBase64 ev))
          end
      end
  end.

(** ** Lookup by index *)

Definition by_id_filter (subject : string) (ids : list string) : RawFilter :=
  mkRawFilter subject [] [] [] [] [] [] [] ids [] [] [] [] [] [] [] [] [] zero_time zero_time true false.

Definition index_key (ix : Index) : string := Key (hd (ix_Header ix)).
Definition index_subject (ix : Index) : string := ce_Subject (hd (ix_Header ix)).
Definition index_id (ix : Index) : string := ce_ID (hd (ix_Header ix)).

(** The row the header names, else the first. *)
Definition pick_event (want : string) (evs : list StoredEvent) : option StoredEvent :=
  match List.find (fun e => String.eqb (se_key e) want) evs with
  | Some e => Some e
  | None => head evs
  end.

Definition find_event (now : Z) (lk : Lake) (ix : Index) : result fetch_error StoredEvent :=
  let* evs := queryLakeRaw now lk (by_id_filter (index_subject ix) [index_id ix]) idRowExpansion
                "fetchByID" in
  match pick_event (index_key ix) evs with
  | None => Err EEventNotFound
  | Some ev => Ok ev
  end.

Definition GetCloudEventFromIndex (now : Z) (lk : Lake) (ix : Index) : result fetch_error FetchedEvent :=
  let* ev := find_event now lk ix in resolvePayload lk ev.

(** ** Lookup of a batch *)

Abbreviation subject_id := (string * string)%type.

Definition index_pair (ix : Index) : subject_id := (index_subject ix, index_id ix).

(** The distinct ids asked for, per subject, in the order of the request. *)
Fixpoint group_loop (requested : gset subject_id) (idsBySubject : gmap string (list string))
    (indexes : list Index) : gmap string (list string) :=
  match indexes with
  | [] => idsBySubject
  | ix :: rest =>
      let k := index_pair ix in
      if bool_decide (k ∈ requested) then group_loop requested idsBySubject rest
      else group_loop ({[k]} ∪ requested)
             (<[k.1 := from_option id [] (idsBySubject !! k.1) ++ [k.2]]> idsBySubject) rest
  end.

Definition group_ids (indexes : list Index) : gmap string (list string) := group_loop ∅ ∅ indexes.

(** [found] and [bySubjectID]. *)
Definition fetched_rows : Type := gmap string StoredEvent * gmap subject_id StoredEvent.

Definition se_pair (ev : StoredEvent) : subject_id := (ce_Subject (hd (se_Header ev)), ce_ID (hd (se_Header ev))).

Definition add_row (m : fetched_rows) (ev : StoredEvent) : fetched_rows :=
  (<[se_key ev := ev]> m.1,
   match m.2 !! se_pair ev with None => <[se_pair ev := ev]> m.2 | Some _ => m.2 end).

Fixpoint batch_loop (now : Z) (lk : Lake) (subject : string) (batches : list (list string))
    (m : fetched_rows) : result fetch_error fetched_rows :=
  match batches with
  | [] => Ok m
  | batch :: rest =>
      let limit := Z.of_nat (length batch) * idRowExpansion in
      let* evs := queryLakeRaw now lk (by_id_filter subject batch) limit "fetchByIDBatch" in
      batch_loop now lk subject rest (fold_left add_row evs m)
  end.

Definition id_batches (ids : list string) : list (list string) :=
  cut (length ids) (Z.to_nat idsPerFetchBatch) ids.

(** [subjects] is the order in which the map is ranged over. *)
Fixpoint subjects_loop (now : Z) (lk : Lake) (idsBySubject : gmap string (list string))
    (subjects : list string) (m : fetched_rows) : result fetch_error fetched_rows :=
  match subjects with
  | [] => Ok m
  | s :: rest =>
      let* m' := batch_loop now lk s (id_batches (from_option id [] (idsBySubject !! s))) m in
      subjects_loop now lk idsBySubject rest m'
  end.

Fixpoint order_matched (m : fetched_rows) (indexes : list Index) : result fetch_error (list StoredEvent) :=
  match indexes with
  | [] => Ok []
  | ix :: rest =>
      match m.1 !! index_key ix with
      | Some ev => let* evs := order_matched m rest in Ok (ev :: evs)
      | None =>
          match m.2 !! index_pair ix with
          | Some ev => let* evs := order_matched m rest in Ok (ev :: evs)
          | None => Err EEventNotFound
          end
      end
  end.

Definition payload_bytes (raw : FetchedEvent) : Z := Z.of_nat (length (fe_Data raw)).

(** The payloads one after the other, one of the schedules of the errgroup. *)
Fixpoint resolve_seq (lk : Lake) (payloadBytes : Z) (evs : list StoredEvent)
  : result fetch_error (list FetchedEvent) :=
  match evs with
  | [] => Ok []
  | ev :: rest =>
      if maxListPayloadBytes <? payloadBytes then Err EPayloadBudgetExceeded
      else
        let* raw := resolvePayload lk ev in
        let sum := payloadBytes + payload_bytes raw in
        if maxListPayloadBytes <? sum then Err EPayloadBudgetExceeded
        else let* out := resolve_seq lk sum rest in Ok (raw :: out)
  end.

Definition find_events (now : Z) (lk : Lake) (subjects : list string) (indexes : list Index)
  : result fetch_error (list StoredEvent) :=
  let* m := subjects_loop now lk (group_ids indexes) subjects (∅, ∅) in order_matched m indexes.

Definition ListCloudEventsFromIndexes (now : Z) (lk : Lake) (subjects : list string)
    (indexes : list Index) : result fetch_error (list FetchedEvent) :=
  if is_empty indexes then Ok []
  else
    let* evs := find_events now lk subjects indexes in resolve_seq lk 0 evs.

(** ** Presigned URLs *)

Definition BlobsMaybeSealed : bool := match blobCipher with Some _ => true | None => false end.

(** [presigner] signs a bucket and a key. *)
Definition PresignBlobURL (presigner : option (string -> string -> result string string))
    (bucket key : string) : result fetch_error string :=
  if negb (HasBlobPrefix key) then Err (ENotABlobRef key)
  else match presigner with
  | None => Err ENoPresigner
  | Some presign =>
      if String.eqb bucket "" then Err ENoBucket
      else match presign bucket key with Ok url => Ok url | Err msg => Err (EPresign msg) end
  end.

(** ** Per-type summaries *)

(** [SELECT type, count( * ), min(time), max(time) ... GROUP BY type ORDER BY type]. *)
Definition of_type (t : string) (l : list RawRow) : list RawRow :=
  List.filter (fun r => String.eqb (rr_type r) t) l.

Definition type_summary (l : list RawRow) (t : string) : option CloudEventTypeSummary :=
  let g := of_type t l in
  match sql_min rr_time g, sql_max rr_time g with
  | Some first_, Some last_ => Some (mkTypeSummary t (Z.of_nat (length g)) first_ last_)
  | _, _ => None
  end.

Definition distinct_types (types : list string) : list string :=
  order_by (fun t => t) sleb (remove_dups types).

Definition deduped_events (raw_events : list RawRow) (cond : RawRow -> bool) : list RawRow :=
  rawEventDedupQualify (List.filter (fun r => cond r && voidingClause raw_events r) raw_events).

Definition getTypeSummariesScan (lk : Lake) (f : RawFilter) : result fetch_error (list CloudEventTypeSummary) :=
  match lk_fails lk "fetchTypeSummary" f with
  | Some msg => Err (EQuery msg)
  | None =>
      let deduped := deduped_events (lk_raw_events lk) (whereClauseQ f) in
      Ok (omap (type_summary deduped) (distinct_types (map rr_type deduped)))
  end.

(** [RawTypesRollupSelect]: one row per (subject, type). *)
Definition of_subject_type (s t : string) (l : list RawRow) : list RawRow :=
  List.filter (fun r => String.eqb (rr_subject r) s && String.eqb (rr_type r) t) l.

Definition type_row (l : list RawRow) (st : string * string) : option TypeRow :=
  let g := of_subject_type st.1 st.2 l in
  match sql_min rr_time g, sql_max rr_time g with
  | Some first_, Some last_ => Some (mkTypeRow st.1 st.2 (Z.of_nat (length g)) first_ last_)
  | _, _ => None
  end.

Definition RawTypesRollupSelect (raw_events : list RawRow) : list TypeRow :=
  let deduped := deduped_events raw_events (fun _ => true) in
  omap (type_row deduped) (remove_dups (map (fun r => (rr_subject r, rr_type r)) deduped)).

(** The columns of the rollup a filter may name. *)
Definition typeSummaryRollupServable (f : RawFilter) : bool :=
  is_empty (Sources f) && is_empty (SourcesNotIn f) &&
  is_empty (Producers f) && is_empty (ProducersNotIn f) &&
  is_empty (IDs f) && is_empty (IDsNotIn f) &&
  is_empty (DataVersions f) && is_empty (DataVersionsNotIn f) &&
  is_empty (Extras f) && is_empty (ExtrasNotIn f) &&
  is_empty (RawEvents.Tags f) && is_empty (TagsAll f) &&
  is_empty (TagsNotContainAny f) && is_empty (TagsNotContainAll f) &&
  is_zero (After f) && is_zero (Before f).

(** [whereClauseQ] over the rollup: its two columns. *)
Definition rollup_cond (f : RawFilter) (r : TypeRow) : bool :=
  subject_cond f (tr_subject r) && addIn (Types f) (tr_type r) && addNotIn (TypesNotIn f) (tr_type r).

Definition rollup_summary (l : list TypeRow) (t : string) : option CloudEventTypeSummary :=
  let g := List.filter (fun r => String.eqb (tr_type r) t) l in
  match sql_min tr_first_seen g, sql_max tr_last_seen g with
  | Some first_, Some last_ =>
      Some (mkTypeSummary t (foldr (fun r n => tr_count r + n) 0 g) first_ last_)
  | _, _ => None
  end.

Definition getTypeSummariesRollup (lk : Lake) (f : RawFilter) : result fetch_error (list CloudEventTypeSummary) :=
  match lk_fails lk "fetchTypeSummaryRollup" f, lk_raw_types lk with
  | Some msg, _ => Err (EQuery msg)
  | None, None => Err (EQuery "Table with name raw_types_latest does not exist")
  | None, Some table =>
      let rows := List.filter (rollup_cond f) table in
      Ok (omap (rollup_summary rows) (distinct_types (map tr_type rows)))
  end.

(** The cached flag; [check_fails] is the metadata query failing. *)
Definition rawTypesRollupAvailable (check_fails ready : bool) (lk : Lake) : bool * bool :=
  if ready then (true, true)
  else if check_fails then (false, false)
  else match lk_raw_types lk with None => (false, false) | Some _ => (true, true) end.

(** The result, and the flag afterwards. *)
Definition GetCloudEventTypeSummariesAdvanced (check_fails ready : bool) (lk : Lake)
    (opts : option AdvancedSearchOptions) : result fetch_error (list CloudEventTypeSummary) * bool :=
  match filterFromAdvanced opts with
  | Err e => (Err e, ready)
  | Ok f =>
      if typeSummaryRollupServable f then
        let '(available, ready') := rawTypesRollupAvailable check_fails ready lk in
        if available then
          match getTypeSummariesRollup lk f with
          | Err e => (Err e, ready')
          | Ok [] => (getTypeSummariesScan lk f, ready')
          | Ok out => (Ok out, ready')
          end
        else (getTypeSummariesScan lk f, ready')
      else (getTypeSummariesScan lk f, ready)
  end.

(** internal/materializer/raw_types.go: the rebuild, in one transaction.
    [fails] is a statement or the commit failing, as the DELETE does when
    ensureSchema has not created the table; without raw_events there is nothing
    to do. *)
Definition RecomputeRawTypesRollup (exists_ : result string bool) (fails : option string) (lk : Lake)
  : result string unit * Lake :=
  match exists_ with
  | Err msg => (Err msg, lk)
  | Ok false => (Ok tt, lk)
  | Ok true =>
      match fails, lk_raw_types lk with
      | Some msg, _ => (Err msg, lk)
      | None, None => (Err "Table with name raw_types_latest does not exist"%string, lk)
      | None, Some _ => (Ok tt, mkLake (lk_raw_events lk) (Some (RawTypesRollupSelect (lk_raw_events lk)))
                                  (lk_fails lk) (lk_objects lk))
      end
  end.
End service.

(** ** A lake *)

Definition demo_fetch_lake (rows : list RawRow) : Lake :=
  mkLake rows (Some []) (fun _ _ => None) (fun _ => Err NoSuchKey).

Definition options_for (s : string) : AdvancedSearchOptions :=
  mkAdvanced (Some (mkStringFilter [s] [] [])) None None None None None None None None None None.
