(* ===== verification/SqlFilter.v ===== *)
(** * internal/service/duck/queries.go: value filters as SQL

    [floatFilterSQL], [stringFilterSQL] and [stringArrayFilterSQL] write a
    condition with placeholders and collect its arguments. The text is modelled as
    the code concatenates it; a tokenizer-free grammar of conditions with the
    precedence of SQL reads it back. Every filter's text is read as the filter
    means, uses all its arguments in order, and does not depend on the values
    filtered for. *)

From Stdlib Require Import Ascii.
From S2P Require Import Prelude Model Validate Sql RawEvents.

(** ** The code *)

(** A bound argument ([any]). *)
Inductive bind_arg := ArgFloat (f : float64) | ArgString (s : string).

Definition condition : Type := string * list bind_arg.

Fixpoint Repeat (s : string) (n : nat) : string :=
  match n with O => "" | S n => (s +:+ Repeat s n)%string end.

Definition placeholders (n : nat) : string :=
  match n with O => "" | S m => (Repeat "?, " m +:+ "?")%string end.

(** [conds, args = append(conds, col+" op ?"), append(args, *v)], [v] not nil. *)
Definition cmp_cond {A} (arg : A -> bind_arg) (col op : string) (v : option A) : list condition :=
  match v with Some v => [((col +:+ op +:+ "?")%string, [arg v])] | None => [] end.

Definition in_cond {A} (arg : A -> bind_arg) (col kw : string) (vals : list A) : list condition :=
  if is_empty vals then []
  else [((col +:+ kw +:+ "(" +:+ placeholders (length vals) +:+ ")")%string, map arg vals)].

(** [if s != ""], [append(orParts, "("+s+")")] *)
Definition non_empty (p : condition) : bool := negb (String.eqb p.1 "").
Definition or_part (p : condition) : string := ("(" +:+ p.1 +:+ ")")%string.

(** The end of the three functions: the leaf conditions with AND, then OR. *)
Definition join_filter (conds ors : list condition) : condition :=
  let orParts := List.filter non_empty ors in
  let base := String.concat " AND " (map fst conds) in
  let args := (concat (map snd conds) ++ concat (map snd orParts))%list in
  if is_empty orParts then (base, args)
  else
    let parts := ((if is_empty conds then [] else [base]) ++
                  map or_part orParts)%list in
    (("(" +:+ String.concat " OR " parts +:+ ")")%string, args).

Definition no_condition : condition := (""%string, []).

Definition float_conds (col : string) (f : SignalFloatFilter) : list condition :=
  (cmp_cond ArgFloat col " = " (sff_Eq f) ++ cmp_cond ArgFloat col " != " (sff_Neq f) ++
   cmp_cond ArgFloat col " > " (sff_Gt f) ++ cmp_cond ArgFloat col " < " (sff_Lt f) ++
   cmp_cond ArgFloat col " >= " (sff_Gte f) ++ cmp_cond ArgFloat col " <= " (sff_Lte f) ++
   in_cond ArgFloat col " NOT IN " (sff_NotIn f) ++ in_cond ArgFloat col " IN " (sff_In f))%list.

Fixpoint float_filter (col : string) (f : SignalFloatFilter) : condition :=
  join_filter (float_conds col f)
    (map (fun o => match o with Some g => float_filter col g | None => no_condition end) (sff_Or f)).

Definition floatFilterSQL (col : string) (fil : option SignalFloatFilter) : condition :=
  match fil with Some f => float_filter col f | None => no_condition end.

Fixpoint ReplaceAll (c : ascii) (by_ : string) (s : string) : string :=
  match s with
  | EmptyString => EmptyString
  | String x s => if Ascii.eqb x c then (by_ +:+ ReplaceAll c by_ s)%string else String x (ReplaceAll c by_ s)
  end.

Definition escapeLikePrefix (prefix : string) : string :=
  (ReplaceAll "_" "\_" (ReplaceAll "%" "\%" (ReplaceAll "\" "\\" prefix)) +:+ "%")%string.

Definition like_cond (col : string) (p : option string) : list condition :=
  match p with
  | Some p => [((col +:+ " LIKE ? ESCAPE '\'")%string, [ArgString (escapeLikePrefix p)])]
  | None => []
  end.

Definition string_conds (col : string) (f : StringValueFilter) : list condition :=
  (cmp_cond ArgString col " = " (svf_Eq f) ++ cmp_cond ArgString col " != " (svf_Neq f) ++
   in_cond ArgString col " NOT IN " (svf_NotIn f) ++ in_cond ArgString col " IN " (svf_In f) ++
   like_cond col (svf_StartsWith f))%list.

Fixpoint string_filter (col : string) (f : StringValueFilter) : condition :=
  join_filter (string_conds col f)
    (map (fun o => match o with Some g => string_filter col g | None => no_condition end) (svf_Or f)).

Definition stringFilterSQL (col : string) (fil : option StringValueFilter) : condition :=
  match fil with Some f => string_filter col f | None => no_condition end.

(** [listCond], when there are values. *)
Definition list_cond (col fn prefix : string) (vals : list string) : list condition :=
  if is_empty vals then []
  else [((prefix +:+ fn +:+ "(" +:+ col +:+ ", [" +:+ placeholders (length vals) +:+ "])")%string,
         map ArgString vals)].

Definition array_conds (col : string) (f : StringArrayFilter) : list condition :=
  (list_cond col "list_has_any" "" (saf_ContainsAny f) ++
   list_cond col "list_has_all" "" (saf_ContainsAll f) ++
   list_cond col "list_has_any" "NOT " (saf_NotContainsAny f) ++
   list_cond col "list_has_all" "NOT " (saf_NotContainsAll f))%list.

Fixpoint array_filter (col : string) (f : StringArrayFilter) : condition :=
  join_filter (array_conds col f)
    (map (fun o => match o with Some g => array_filter col g | None => no_condition end) (saf_Or f)).

Definition stringArrayFilterSQL (col : string) (fil : option StringArrayFilter) : condition :=
  match fil with Some f => array_filter col f | None => no_condition end.

(** ** A grammar of conditions

    The lexemes of a condition over one column, with the precedence of SQL: OR
    binds weaker than AND, parentheses group. [parse] reads lexemes and arguments
    from the left and gives the predicate on the column's value. *)

Inductive cell := CFloat (f : float64) | CString (s : string) | CList (l : list string).

Inductive leaf :=
  | LCmp (op : string)
  | LIn (neg : bool) (n : nat)
  | LLike
  | LList (neg : bool) (all : bool) (n : nat).

Inductive tok := TLeaf (l : leaf) | TAnd | TOr | TOpen | TClose.

Definition leaf_text (col : string) (l : leaf) : string :=
  match l with
  | LCmp op => col +:+ op +:+ "?"
  | LIn neg n => col +:+ (if neg then " NOT IN " else " IN ") +:+ "(" +:+ placeholders n +:+ ")"
  | LLike => col +:+ " LIKE ? ESCAPE '\'"
  | LList neg all n =>
      (if neg then "NOT " else "") +:+ (if all then "list_has_all" else "list_has_any") +:+
      "(" +:+ col +:+ ", [" +:+ placeholders n +:+ "])"
  end%string.

Definition tok_text (col : string) (t : tok) : string :=
  match t with
  | TLeaf l => leaf_text col l
  | TAnd => " AND " | TOr => " OR " | TOpen => "(" | TClose => ")"
  end.

Definition text_of (col : string) (ts : list tok) : string := String.concat "" (map (tok_text col) ts).

Definition arity (l : leaf) : nat := match l with LCmp _ | LLike => 1 | LIn _ n | LList _ _ n => n end.

(** [LIKE] with the escape character backslash. *)
Fixpoint like_match (p s : string) : bool :=
  match p with
  | EmptyString => match s with EmptyString => true | _ => false end
  | String c p' =>
      if Ascii.eqb c "\" then
        match p' with
        | String e p'' => match s with String x s' => Ascii.eqb x e && like_match p'' s' | _ => false end
        | EmptyString => false
        end
      else if Ascii.eqb c "%" then
        (fix any (s : string) : bool :=
           like_match p' s || match s with String _ s' => any s' | EmptyString => false end) s
      else match s with
           | String x s' => (Ascii.eqb c "_" || Ascii.eqb x c) && like_match p' s'
           | EmptyString => false
           end
  end.

Definition float_cmp (op : string) (x y : float64) : bool :=
  if String.eqb op " = " then f64_eqb x y else if String.eqb op " != " then negb (f64_eqb x y)
  else if String.eqb op " > " then f64_ltb y x else if String.eqb op " < " then f64_ltb x y
  else if String.eqb op " >= " then f64_leb y x else if String.eqb op " <= " then f64_leb x y else false.

Definition string_cmp (op x y : string) : bool :=
  if String.eqb op " = " then String.eqb x y
  else if String.eqb op " != " then negb (String.eqb x y) else false.

Definition arg_is (x : cell) (a : bind_arg) : bool :=
  match x, a with
  | CFloat x, ArgFloat v => f64_eqb x v
  | CString x, ArgString v => String.eqb x v
  | _, _ => false
  end.

Definition arg_strings (args : list bind_arg) : list string :=
  flat_map (fun a => match a with ArgString s => [s] | ArgFloat _ => [] end) args.

(** What DuckDB makes of a leaf condition. *)
Definition leaf_holds (l : leaf) (args : list bind_arg) (x : cell) : bool :=
  match l, args, x with
  | LCmp op, [ArgFloat v], CFloat x => float_cmp op x v
  | LCmp op, [ArgString v], CString x => string_cmp op x v
  | LIn neg _, _, _ => xorb neg (existsb (arg_is x) args)
  | LLike, [ArgString p], CString x => like_match p x
  | LList neg all _, _, CList l =>
      xorb neg (if all then list_has_all l (arg_strings args) else list_has_any l (arg_strings args))
  | _, _, _ => false
  end.

Inductive level := LvOr | LvAnd | LvAtom.

Definition both (p q : cell -> bool) : cell -> bool := fun x => p x && q x.
Definition either (p q : cell -> bool) : cell -> bool := fun x => p x || q x.

Fixpoint parse (n : nat) (lv : level) (ts : list tok) (args : list bind_arg)
  : option ((cell -> bool) * list tok * list bind_arg) :=
  match n with
  | O => None
  | S n =>
      match lv with
      | LvOr =>
          match parse n LvAnd ts args with
          | Some (p, TOr :: ts', args') =>
              match parse n LvOr ts' args' with
              | Some (q, ts'', args'') => Some (either p q, ts'', args'')
              | None => None
              end
          | r => r
          end
      | LvAnd =>
          match parse n LvAtom ts args with
          | Some (p, TAnd :: ts', args') =>
              match parse n LvAnd ts' args' with
              | Some (q, ts'', args'') => Some (both p q, ts'', args'')
              | None => None
              end
          | r => r
          end
      | LvAtom =>
          match ts with
          | TLeaf l :: ts' =>
              if (arity l <=? length args)%nat
              then Some (leaf_holds l (firstn (arity l) args), ts', skipn (arity l) args) else None
          | TOpen :: ts' =>
              match parse n LvOr ts' args with
              | Some (p, TClose :: ts'', args') => Some (p, ts'', args')
              | _ => None
              end
          | _ => None
          end
      end
  end.

(** ** What the filters mean *)

(** The leaf tests together, or one of the clauses; what says nothing is left out. *)
Definition combine {A} (tests : list (A -> bool)) (ors : list (option (A -> bool))) : option (A -> bool) :=
  match ((if is_empty tests then [] else [fun x => forallb (fun t => t x) tests]) ++ omap id ors)%list with
  | [] => None
  | parts => Some (fun x => existsb (fun p => p x) parts)
  end.

Definition test {V A} (f : V -> A -> bool) (v : option V) : list (A -> bool) :=
  match v with Some v => [f v] | None => [] end.
Definition tests {V A} (f : list V -> A -> bool) (vs : list V) : list (A -> bool) :=
  if is_empty vs then [] else [f vs].

Definition float_tests (f : SignalFloatFilter) : list (float64 -> bool) :=
  (test (fun v x => f64_eqb x v) (sff_Eq f) ++ test (fun v x => negb (f64_eqb x v)) (sff_Neq f) ++
   test (fun v x => f64_ltb v x) (sff_Gt f) ++ test (fun v x => f64_ltb x v) (sff_Lt f) ++
   test (fun v x => f64_leb v x) (sff_Gte f) ++ test (fun v x => f64_leb x v) (sff_Lte f) ++
   tests (fun vs x => negb (existsb (f64_eqb x) vs)) (sff_NotIn f) ++
   tests (fun vs x => existsb (f64_eqb x) vs) (sff_In f))%list.

Fixpoint float_meaning' (f : SignalFloatFilter) : option (float64 -> bool) :=
  combine (float_tests f)
    (map (fun o => match o with Some g => float_meaning' g | None => None end) (sff_Or f)).

Definition string_tests (f : StringValueFilter) : list (string -> bool) :=
  (test (fun v x => String.eqb x v) (svf_Eq f) ++ test (fun v x => negb (String.eqb x v)) (svf_Neq f) ++
   tests (fun vs x => negb (existsb (String.eqb x) vs)) (svf_NotIn f) ++
   tests (fun vs x => existsb (String.eqb x) vs) (svf_In f) ++
   test String.prefix (svf_StartsWith f))%list.

Fixpoint string_meaning' (f : StringValueFilter) : option (string -> bool) :=
  combine (string_tests f)
    (map (fun o => match o with Some g => string_meaning' g | None => None end) (svf_Or f)).

Definition array_tests (f : StringArrayFilter) : list (list string -> bool) :=
  (tests (fun vs l => list_has_any l vs) (saf_ContainsAny f) ++
   tests (fun vs l => list_has_all l vs) (saf_ContainsAll f) ++
   tests (fun vs l => negb (list_has_any l vs)) (saf_NotContainsAny f) ++
   tests (fun vs l => negb (list_has_all l vs)) (saf_NotContainsAll f))%list.

Fixpoint array_meaning' (f : StringArrayFilter) : option (list string -> bool) :=
  combine (array_tests f)
    (map (fun o => match o with Some g => array_meaning' g | None => None end) (saf_Or f)).

Definition float_meaning (f : option SignalFloatFilter) : option (float64 -> bool) := f ≫= float_meaning'.
Definition string_meaning (f : option StringValueFilter) : option (string -> bool) := f ≫= string_meaning'.
Definition array_meaning (f : option StringArrayFilter) : option (list string -> bool) := f ≫= array_meaning'.

(** A condition that says nothing is left out of the statement. *)
Definition holds {A} (m : option (A -> bool)) (x : A) : bool := match m with Some p => p x | None => true end.

(** ** Reading what was written *)

Lemma parse_S n lv ts args :
  parse (S n) lv ts args =
  match lv with
  | LvOr => match parse n LvAnd ts args with
            | Some (p, TOr :: ts', args') =>
                match parse n LvOr ts' args' with
                | Some (q, ts'', args'') => Some (either p q, ts'', args'') | None => None end
            | r => r end
  | LvAnd => match parse n LvAtom ts args with
             | Some (p, TAnd :: ts', args') =>
                 match parse n LvAnd ts' args' with
                 | Some (q, ts'', args'') => Some (both p q, ts'', args'') | None => None end
             | r => r end
  | LvAtom => match ts with
              | TLeaf l :: ts' =>
                  if (arity l <=? length args)%nat
                  then Some (leaf_holds l (firstn (arity l) args), ts', skipn (arity l) args) else None
              | TOpen :: ts' => match parse n LvOr ts' args with
                                | Some (p, TClose :: ts'', args') => Some (p, ts'', args') | _ => None end
              | _ => None end
  end.
Proof. by destruct lv. Qed.

Lemma parse_mono n lv ts args r : parse n lv ts args = Some r -> parse (S n) lv ts args = Some r.
Proof.
  revert lv ts args r; induction n as [|n IH]; intros lv ts args r; [done|].
  rewrite (parse_S n), (parse_S (S n)). destruct lv.
  - destruct (parse n LvAnd ts args) as [[[p [|[] ts']] args']|] eqn:E; [..|done];
      rewrite (IH _ _ _ _ E); try done.
    destruct (parse n LvOr ts' args') as [[[q ts''] args'']|] eqn:E2; [|done]. by rewrite (IH _ _ _ _ E2).
  - destruct (parse n LvAtom ts args) as [[[p [|[] ts']] args']|] eqn:E; [..|done];
      rewrite (IH _ _ _ _ E); try done.
    destruct (parse n LvAnd ts' args') as [[[q ts''] args'']|] eqn:E2; [|done]. by rewrite (IH _ _ _ _ E2).
  - destruct ts as [|[l| | | |] ts']; try done.
    destruct (parse n LvOr ts' args) as [[[q ts''] args'']|] eqn:E2; [|done]. by rewrite (IH _ _ _ _ E2).
Qed.

Lemma parse_le n m lv ts args r : (n <= m)%nat -> parse n lv ts args = Some r -> parse m lv ts args = Some r.
Proof. induction 1 as [|m _ IH]; [done|]. intros H. by apply parse_mono, IH. Qed.

(** The next lexeme cannot continue an expression of the level. *)
Definition stops (lv : level) (rest : list tok) : Prop :=
  match lv, rest with
  | LvOr, (TOr :: _ | TAnd :: _) => False
  | LvAnd, TAnd :: _ => False
  | _, _ => True
  end.

Definition reads (lv : level) (ts : list tok) (args : list bind_arg) (p : cell -> bool) : Prop :=
  forall rest args', stops lv rest ->
  exists n q, parse n lv (ts ++ rest) (args ++ args') = Some (q, rest, args') /\ forall x, q x = p x.

Lemma reads_ext lv ts args p p' : reads lv ts args p -> (forall x, p x = p' x) -> reads lv ts args p'.
Proof.
  intros H He rest args' Hs. destruct (H rest args' Hs) as (n & q & Hn & Hq).
  exists n, q. split; [done|]. intros x. by rewrite Hq.
Qed.

Lemma reads_leaf l args : length args = arity l -> reads LvAtom [TLeaf l] args (leaf_holds l args).
Proof.
  intros Hl rest args' _. exists 1%nat, (leaf_holds l args). split; [|done]. rewrite parse_S. cbn [app].
  rewrite <- Hl, length_app, firstn_app, skipn_app, Nat.sub_diag, firstn_all, skipn_all, app_nil_r.
  by rewrite (proj2 (Nat.leb_le _ _)) by lia.
Qed.

Lemma reads_paren ts args p : reads LvOr ts args p -> reads LvAtom (TOpen :: ts ++ [TClose]) args p.
Proof.
  intros H rest args' _. destruct (H (TClose :: rest) args') as (n & q & Hn & Hq); [done|].
  exists (S n), q. split; [|done]. rewrite parse_S. cbn [app]. rewrite <- app_assoc. cbn [app]. by rewrite Hn.
Qed.

(** An expression of one level read at the next, and followed by an operator. *)
Lemma reads_and_one ts args p : reads LvAtom ts args p -> reads LvAnd ts args p.
Proof.
  intros H rest args' Hs. destruct (H rest args' I) as (n & q & Hn & Hq). exists (S n), q.
  split; [|done]. rewrite parse_S. rewrite Hn. by destruct rest as [|[] ?].
Qed.

Lemma reads_or_one ts args p : reads LvAnd ts args p -> reads LvOr ts args p.
Proof.
  intros H rest args' Hs. destruct (H rest args') as (n & q & Hn & Hq).
  { by destruct rest as [|[] ?]. }
  exists (S n), q. split; [|done]. rewrite parse_S. rewrite Hn. by destruct rest as [|[] ?].
Qed.

Lemma reads_and ts1 ts2 a1 a2 p1 p2 : reads LvAtom ts1 a1 p1 -> reads LvAnd ts2 a2 p2 ->
  reads LvAnd (ts1 ++ TAnd :: ts2) (a1 ++ a2) (both p1 p2).
Proof.
  intros H1 H2 rest args' Hs. destruct (H2 rest args' Hs) as (n2 & q2 & Hn2 & Hq2).
  destruct (H1 (TAnd :: ts2 ++ rest) (a2 ++ args') I) as (n1 & q1 & Hn1 & Hq1).
  exists (S (n1 + n2)), (both q1 q2). split; [|intros x; unfold both; by rewrite Hq1, Hq2].
  rewrite parse_S. rewrite <- !app_assoc. cbn [app].
  rewrite (parse_le n1 (n1 + n2) _ _ _ _ ltac:(lia) Hn1), (parse_le n2 (n1 + n2) _ _ _ _ ltac:(lia) Hn2). done.
Qed.

Lemma reads_or ts1 ts2 a1 a2 p1 p2 : reads LvAnd ts1 a1 p1 -> reads LvOr ts2 a2 p2 ->
  reads LvOr (ts1 ++ TOr :: ts2) (a1 ++ a2) (either p1 p2).
Proof.
  intros H1 H2 rest args' Hs. destruct (H2 rest args' Hs) as (n2 & q2 & Hn2 & Hq2).
  destruct (H1 (TOr :: ts2 ++ rest) (a2 ++ args')) as (n1 & q1 & Hn1 & Hq1); [done|].
  exists (S (n1 + n2)), (either q1 q2). split; [|intros x; unfold either; by rewrite Hq1, Hq2].
  rewrite parse_S. rewrite <- !app_assoc. cbn [app].
  rewrite (parse_le n1 (n1 + n2) _ _ _ _ ltac:(lia) Hn1), (parse_le n2 (n1 + n2) _ _ _ _ ltac:(lia) Hn2). done.
Qed.

(** ** The lexemes of a filter *)

Definition lexed : Type := list tok * list bind_arg.

(** [strings.Join] on lexemes. *)
Fixpoint join (sep : tok) (l : list (list tok)) : list tok :=
  match l with [] => [] | [x] => x | x :: rest => x ++ sep :: join sep rest end.

Definition is_lexed (p : lexed) : bool := negb (is_empty p.1).

Definition paren_lex (p : lexed) : list tok := TOpen :: p.1 ++ [TClose].

Definition join_lex (conds ors : list lexed) : lexed :=
  let parts := List.filter is_lexed ors in
  let base := join TAnd (map fst conds) in
  let args := concat (map snd conds) ++ concat (map snd parts) in
  if is_empty parts then (base, args)
  else (TOpen :: join TOr ((if is_empty conds then [] else [base]) ++
                           map paren_lex parts) ++ [TClose], args).

Lemma reads_and_list l ps : l <> [] ->
  Forall2 (fun (p : lexed) t => reads LvAtom p.1 p.2 t) l ps ->
  reads LvAnd (join TAnd (map fst l)) (concat (map snd l)) (fun x => forallb (fun t => t x) ps).
Proof.
  intros Hne H. induction H as [|p t l ps Hp H IH]; [done|]. cbn [map concat].
  destruct H as [|p' t' l ps Hp' H].
  - cbn [join map concat]. rewrite app_nil_r. apply reads_and_one. eapply reads_ext; [exact Hp|].
    intros x. cbn. by rewrite andb_true_r.
  - cbn [join map] in *. eapply reads_ext; [apply reads_and; [exact Hp|by apply IH]|done].
Qed.

Lemma reads_or_list l ps : l <> [] ->
  Forall2 (fun (p : lexed) t => reads LvAnd p.1 p.2 t) l ps ->
  reads LvOr (join TOr (map fst l)) (concat (map snd l)) (fun x => existsb (fun t => t x) ps).
Proof.
  intros Hne H. induction H as [|p t l ps Hp H IH]; [done|]. cbn [map concat].
  destruct H as [|p' t' l ps Hp' H].
  - cbn [join map concat]. rewrite app_nil_r. apply reads_or_one. eapply reads_ext; [exact Hp|].
    intros x. cbn. by rewrite orb_false_r.
  - cbn [join map] in *. eapply reads_ext; [apply reads_or; [exact Hp|by apply IH]|done].
Qed.

(** What a lexed condition means: nothing, or a predicate it is read as. *)
Definition lexes (p : lexed) (m : option (cell -> bool)) : Prop :=
  match m with
  | None => p = ([], [])
  | Some t => p.1 <> [] /\ reads LvAnd p.1 p.2 t
  end.

Lemma lexed_parts ors ms : Forall2 lexes ors ms ->
  Forall2 (fun (p : lexed) t => reads LvAnd p.1 p.2 t) (List.filter is_lexed ors) (omap id ms).
Proof.
  induction 1 as [|p m ors ms Hp H IH]; [constructor|]. cbn [List.filter]. destruct m as [t|]; cbn in Hp.
  - destruct Hp as [Hne Hr]. change (omap id (Some t :: ms)) with (t :: omap id ms).
    replace (is_lexed p) with true by (unfold is_lexed; by destruct p.1). by constructor.
  - subst p. exact IH.
Qed.

Lemma paren_reads parts ps : Forall2 (fun (p : lexed) t => reads LvAnd p.1 p.2 t) parts ps ->
  Forall2 (fun (p : lexed) t => reads LvAnd p.1 p.2 t)
    (map (fun p => (paren_lex p, p.2)) parts) ps.
Proof.
  induction 1 as [|p t parts ps Hp H IH]; constructor; [|done]. cbn.
  by apply reads_and_one, reads_paren, reads_or_one.
Qed.

Lemma join_nonempty sep x l : x <> [] -> join sep (x :: l) <> [].
Proof. destruct l; cbn [join]; [done|]. by destruct x. Qed.

Lemma join_lex_lexes conds ts ors ms :
  Forall (fun c : lexed => c.1 <> []) conds ->
  Forall2 (fun (p : lexed) t => reads LvAtom p.1 p.2 t) conds ts -> Forall2 lexes ors ms ->
  lexes (join_lex conds ors) (combine ts ms).
Proof.
  intros Hne Hc Ho. apply lexed_parts in Ho. unfold join_lex, combine.
  set (parts := List.filter is_lexed ors) in *. set (ps := omap id ms) in *.
  assert (Hbase : conds <> [] -> reads LvAnd (join TAnd (map fst conds)) (concat (map snd conds))
                    (fun x => forallb (fun t => t x) ts)) by (intros; by apply reads_and_list).
  destruct Ho as [|p t parts' ps' Hp Ho]; cbn [is_empty].
  - cbn [map concat]. rewrite !app_nil_r. destruct Hc as [|c t conds ts Hc0 Hc]; [done|].
    split; [inversion Hne; subst; by apply join_nonempty|].
    eapply reads_ext; [by apply Hbase|]. intros x. cbn. by rewrite orb_false_r.
  - pose proof (paren_reads (p :: parts') (t :: ps')) as Hparts. rewrite Forall2_cons in Hparts.
    specialize (Hparts (conj Hp Ho)).
    assert (Hmap : map paren_lex (p :: parts') =
                   map fst (map (fun q : lexed => (paren_lex q, q.2)) (p :: parts')))
      by (by rewrite map_map).
    assert (Hargs : map snd (p :: parts') =
                   map snd (map (fun q : lexed => (paren_lex q, q.2)) (p :: parts')))
      by (by rewrite map_map).
    rewrite Hmap, Hargs. clear Hmap Hargs. set (l := map _ (p :: parts')) in *.
    destruct Hc as [|c t' conds ts Hc0 Hc]; cbn [is_empty].
    + split; [done|]. apply reads_and_one, reads_paren. by apply reads_or_list.
    + split; [done|]. apply reads_and_one, reads_paren.
      eapply reads_ext; [apply (reads_or_list ((join TAnd (map fst (c :: conds)), concat (map snd (c :: conds))) :: l)
        ((fun x => forallb (fun t => t x) (t' :: ts)) :: t :: ps'))|]; [done| |done].
      constructor; [by apply Hbase|done].
Qed.

(** *** The text of the lexemes *)

Definition condition_of (col : string) (p : lexed) : condition := (text_of col p.1, p.2).

Lemma string_app_empty (a b : string) : (a +:+ b)%string = ""%string -> a = ""%string /\ b = ""%string.
Proof. by destruct a. Qed.

Lemma string_app_assoc (a b c : string) : ((a +:+ b) +:+ c = a +:+ (b +:+ c))%string.
Proof.
  induction a as [|x a IH]; [done|].
  change (String x ((a +:+ b) +:+ c) = String x (a +:+ (b +:+ c)))%string. by rewrite IH.
Qed.

Lemma string_app_nil_r (a : string) : (a +:+ "" = a)%string.
Proof.
  induction a as [|x a IH]; [done|]. change (String x (a +:+ "") = String x a)%string. by rewrite IH.
Qed.

Lemma text_cons col t ts : text_of col (t :: ts) = (tok_text col t +:+ text_of col ts)%string.
Proof.
  unfold text_of. cbn [map]. destruct ts as [|t' ts]; [|done]. cbn. by rewrite string_app_nil_r.
Qed.

Lemma text_app col a b : text_of col (a ++ b) = (text_of col a +:+ text_of col b)%string.
Proof.
  induction a as [|t a IH]; [done|]. cbn [app]. by rewrite !text_cons, IH, string_app_assoc.
Qed.

Lemma text_join col sep l :
  text_of col (join sep l) = String.concat (tok_text col sep) (map (text_of col) l).
Proof.
  induction l as [|x l IH]; [done|]. destruct l as [|y l]; [done|].
  cbn [join map]. rewrite text_app, text_cons. cbn [join map] in IH. by rewrite IH.
Qed.

Lemma leaf_text_nonempty col l : leaf_text col l <> ""%string.
Proof.
  destruct l as [op|neg n| |neg all n]; cbn [leaf_text]; intros H;
    repeat match goal with H : (_ +:+ _)%string = ""%string |- _ => apply string_app_empty in H as [? H] end; done.
Qed.

Lemma text_empty col ts : text_of col ts = ""%string <-> ts = [].
Proof.
  split; [|by intros ->]. destruct ts as [|t ts]; [done|]. rewrite text_cons. intros [H _]%string_app_empty.
  exfalso. destruct t; try done. by apply leaf_text_nonempty in H.
Qed.

Lemma filter_lexed col (ors : list lexed) :
  List.filter non_empty (map (condition_of col) ors) =
  map (condition_of col) (List.filter is_lexed ors).
Proof.
  induction ors as [|p ors IH]; [done|]. cbn [map List.filter]. unfold non_empty at 1, condition_of at 1, is_lexed. cbn [fst].
  destruct (String.eqb_spec (text_of col p.1) "") as [E|E]; cbn [negb].
  - apply text_empty in E. by rewrite E.
  - replace (negb (is_empty p.1)) with true; [cbn [map]; by f_equal|].
    destruct p.1; [by destruct E|done].
Qed.

Lemma join_lex_text col conds ors :
  join_filter (map (condition_of col) conds) (map (condition_of col) ors) =
  condition_of col (join_lex conds ors).
Proof.
  unfold join_filter, join_lex. rewrite filter_lexed. set (parts := List.filter is_lexed ors).
  rewrite !map_map. cbn [snd condition_of].
  assert (Hbase : String.concat " AND " (map (fun x => fst (condition_of col x)) conds) =
                  text_of col (join TAnd (map fst conds))) by (by rewrite text_join, map_map).
  assert (He : forall A B (f : A -> B) l, is_empty (map f l) = is_empty l) by (by intros ? ? ? []).
  rewrite Hbase, !He. destruct (is_empty parts); [done|]. unfold condition_of at 2. cbn [fst snd].
  f_equal. rewrite text_cons, text_app, (text_join col TOr). cbn [tok_text].
  change (text_of col [TClose]) with ")"%string. do 3 f_equal. rewrite map_app, !map_map. f_equal.
  - by destruct (is_empty conds).
  - apply map_ext. intros p. unfold paren_lex, or_part. cbn [condition_of fst]. by rewrite text_cons, text_app.
Qed.

(** ** Filters as trees of leaves *)

Inductive ftree := FNode (leaves : list (leaf * list bind_arg)) (ors : list ftree).

Lemma ftree_ind' (P : ftree -> Prop) :
  (forall leaves ors, Forall P ors -> P (FNode leaves ors)) -> forall t, P t.
Proof.
  intros H. fix IH 1. intros [leaves ors]. apply H. induction ors as [|t ors IHo]; constructor; [apply IH|exact IHo].
Qed.

Definition lex_leaf (l : leaf * list bind_arg) : lexed := ([TLeaf l.1], l.2).

Fixpoint tree_lex (t : ftree) : lexed :=
  match t with FNode leaves ors => join_lex (map lex_leaf leaves) (map tree_lex ors) end.

Fixpoint tree_meaning (t : ftree) : option (cell -> bool) :=
  match t with
  | FNode leaves ors => combine (map (fun l => leaf_holds l.1 l.2) leaves) (map tree_meaning ors)
  end.

Fixpoint tree_sql (col : string) (t : ftree) : condition :=
  match t with
  | FNode leaves ors =>
      join_filter (map (fun l => (leaf_text col l.1, l.2)) leaves) (map (tree_sql col) ors)
  end.

Inductive saturated : ftree -> Prop :=
  | saturated_node leaves ors : Forall (fun l => length l.2 = arity l.1) leaves -> Forall saturated ors ->
      saturated (FNode leaves ors).

Lemma tree_lexes t : saturated t -> lexes (tree_lex t) (tree_meaning t).
Proof.
  induction t as [leaves ors IH] using ftree_ind'. inversion 1 as [? ? Hl Ho]; subst. cbn [tree_lex tree_meaning].
  apply join_lex_lexes.
  - apply Forall_map. by apply Forall_true.
  - clear IH Ho. induction Hl as [|l leaves Hl Hls IHl]; constructor; [by apply reads_leaf|apply IHl].
    by inversion H; subst; constructor; inversion H2.
  - clear H Hl. induction Ho as [|t ors Ht Ho IHo]; inversion IH; subst; constructor; [by apply H1|by apply IHo].
Qed.

Lemma tree_text col t : tree_sql col t = condition_of col (tree_lex t).
Proof.
  induction t as [leaves ors IH] using ftree_ind'. cbn [tree_sql tree_lex]. rewrite <- join_lex_text. f_equal.
  - rewrite map_map. apply map_ext. intros l. unfold condition_of, lex_leaf. cbn [fst snd].
    by rewrite text_cons, string_app_nil_r.
  - rewrite map_map. induction IH as [|t ors Ht _ IHo]; [done|]. cbn [map]. by rewrite Ht, IHo.
Qed.

(** ** LIKE *)

Definition escape_char (c : ascii) (s : string) : string :=
  if Ascii.eqb c "\" || Ascii.eqb c "%" || Ascii.eqb c "_" then String "\" (String c s) else String c s.

Lemma escape_cons c p : escapeLikePrefix (String c p) = escape_char c (escapeLikePrefix p).
Proof.
  unfold escapeLikePrefix, escape_char. cbn [ReplaceAll].
  destruct (Ascii.eqb_spec c "\") as [->|H1]; [done|].
  cbn [ReplaceAll]. destruct (Ascii.eqb_spec c "%") as [->|H2]; [done|].
  cbn [ReplaceAll]. by destruct (Ascii.eqb_spec c "_") as [->|H3].
Qed.

Lemma like_prefix p s : like_match (escapeLikePrefix p) s = String.prefix p s.
Proof.
  revert s; induction p as [|c p IH]; intros s.
  - transitivity true; [|by destruct s]. induction s as [|x s IHs]; [done|]. exact IHs.
  - rewrite escape_cons. unfold escape_char. cbn [String.prefix].
    destruct (_ || _) eqn:E.
    + cbn [like_match]. rewrite Ascii.eqb_refl. destruct s as [|x s]; [done|]. rewrite IH.
      cbn [String.prefix]. destruct (ascii_dec c x) as [->|Hne]; [by rewrite Ascii.eqb_refl|].
      by rewrite (proj2 (Ascii.eqb_neq x c)) by congruence.
    + apply orb_false_iff in E as [[E1 E2]%orb_false_iff E3]. cbn [like_match]. rewrite E1, E2, E3.
      destruct s as [|x s]; [done|]. rewrite IH. cbn [orb String.prefix].
      destruct (ascii_dec c x) as [->|Hne]; [by rewrite Ascii.eqb_refl|].
      by rewrite (proj2 (Ascii.eqb_neq x c)) by congruence.
Qed.

(** ** The three filters as trees *)

Definition leaf_list : Type := list (leaf * list bind_arg).

Definition cmp_leaf {A} (arg : A -> bind_arg) (op : string) (v : option A) : leaf_list :=
  match v with Some v => [(LCmp op, [arg v])] | None => [] end.
Definition in_leaf {A} (arg : A -> bind_arg) (neg : bool) (vals : list A) : leaf_list :=
  if is_empty vals then [] else [(LIn neg (length vals), map arg vals)].
Definition list_leaf (neg all : bool) (vals : list string) : leaf_list :=
  if is_empty vals then [] else [(LList neg all (length vals), map ArgString vals)].

Definition float_leaves (f : SignalFloatFilter) : leaf_list :=
  cmp_leaf ArgFloat " = " (sff_Eq f) ++ cmp_leaf ArgFloat " != " (sff_Neq f) ++
  cmp_leaf ArgFloat " > " (sff_Gt f) ++ cmp_leaf ArgFloat " < " (sff_Lt f) ++
  cmp_leaf ArgFloat " >= " (sff_Gte f) ++ cmp_leaf ArgFloat " <= " (sff_Lte f) ++
  in_leaf ArgFloat true (sff_NotIn f) ++ in_leaf ArgFloat false (sff_In f).

Definition string_leaves (f : StringValueFilter) : leaf_list :=
  cmp_leaf ArgString " = " (svf_Eq f) ++ cmp_leaf ArgString " != " (svf_Neq f) ++
  in_leaf ArgString true (svf_NotIn f) ++ in_leaf ArgString false (svf_In f) ++
  match svf_StartsWith f with Some p => [(LLike, [ArgString (escapeLikePrefix p)])] | None => [] end.

Definition array_leaves (f : StringArrayFilter) : leaf_list :=
  list_leaf false false (saf_ContainsAny f) ++ list_leaf false true (saf_ContainsAll f) ++
  list_leaf true false (saf_NotContainsAny f) ++ list_leaf true true (saf_NotContainsAll f).

(** What relates the leaves of a filter, its conditions, and its tests. *)
Definition leaf_ok {A} (inj : A -> cell) (col : string) (ls : leaf_list) (cs : list condition)
    (ts : list (A -> bool)) : Prop :=
  cs = map (fun l => (leaf_text col l.1, l.2)) ls /\ Forall (fun l => length l.2 = arity l.1) ls /\
  Forall2 (fun l t => forall x, leaf_holds l.1 l.2 (inj x) = t x) ls ts.

Lemma leaf_ok_app {A} (inj : A -> cell) col l1 l2 c1 c2 t1 t2 :
  leaf_ok inj col l1 c1 t1 -> leaf_ok inj col l2 c2 t2 -> leaf_ok inj col (l1 ++ l2) (c1 ++ c2) (t1 ++ t2).
Proof.
  intros (-> & H1 & H2) (-> & H3 & H4). split; [by rewrite map_app|]. split; [by apply Forall_app|].
  by apply Forall2_app.
Qed.

Lemma leaf_ok_cmp {A B} (inj : A -> cell) (arg : B -> bind_arg) (f : B -> A -> bool) col op v :
  (forall v x, leaf_holds (LCmp op) [arg v] (inj x) = f v x) ->
  leaf_ok inj col (cmp_leaf arg op v) (cmp_cond arg col op v) (test f v).
Proof.
  intros Hf. destruct v as [v|]; [|by repeat split; constructor].
  split; [done|]. split; [by repeat constructor|]. constructor; [|constructor]. intros x. apply Hf.
Qed.

Lemma leaf_ok_in {A} (inj : A -> cell) (arg : A -> bind_arg) (eqb : A -> A -> bool) col neg vals :
  (forall v x, arg_is (inj x) (arg v) = eqb x v) ->
  leaf_ok inj col (in_leaf arg neg vals) (in_cond arg col (if neg then " NOT IN " else " IN ") vals)
    (tests (fun vs x => xorb neg (existsb (eqb x) vs)) vals).
Proof.
  intros Hf. unfold in_leaf, in_cond, tests. destruct (is_empty vals) eqn:E; [by repeat split; constructor|].
  split; [done|]. split; [repeat constructor; cbn; by rewrite length_map|]. constructor; [|constructor].
  intros x. cbn [leaf_holds fst snd].
  assert (H : existsb (arg_is (inj x)) (map arg vals) = existsb (eqb x) vals).
  { clear E. induction vals as [|v vals IH]; [done|]. cbn. by rewrite Hf, IH. }
  rewrite H. by destruct (map arg vals) as [|[] []].
Qed.

Lemma leaf_ok_list col (neg all : bool) vals :
  leaf_ok CList col (list_leaf neg all vals)
    (list_cond col (if all then "list_has_all" else "list_has_any") (if neg then "NOT " else "") vals)
    (tests (fun vs l => xorb neg (if all then list_has_all l vs else list_has_any l vs)) vals).
Proof.
  unfold list_leaf, list_cond, tests. destruct (is_empty vals) eqn:E; [by repeat split; constructor|].
  split; [done|]. split; [repeat constructor; cbn; by rewrite length_map|]. constructor; [|constructor].
  intros l. cbn [leaf_holds fst snd].
  assert (H : arg_strings (map ArgString vals) = vals).
  { clear E. induction vals as [|v vals IH]; [done|]. cbn. f_equal. exact IH. }
  rewrite H. by destruct (map ArgString vals) as [|[] []].
Qed.

Lemma float_leaves_ok col f : leaf_ok CFloat col (float_leaves f) (float_conds col f) (float_tests f).
Proof.
  unfold float_leaves, float_conds, float_tests.
  repeat apply leaf_ok_app; try (by apply leaf_ok_cmp).
  - by apply (leaf_ok_in CFloat ArgFloat f64_eqb col true).
  - eapply (leaf_ok_in CFloat ArgFloat f64_eqb col false). done.
Qed.

Lemma string_leaves_ok col f : leaf_ok CString col (string_leaves f) (string_conds col f) (string_tests f).
Proof.
  unfold string_leaves, string_conds, string_tests.
  repeat apply leaf_ok_app; try (by apply leaf_ok_cmp).
  - by apply (leaf_ok_in CString ArgString String.eqb col true).
  - by apply (leaf_ok_in CString ArgString String.eqb col false).
  - unfold like_cond. destruct (svf_StartsWith f) as [p|]; [|by repeat split; constructor].
    split; [done|]. split; [by repeat constructor|]. constructor; [|constructor].
    intros x. apply like_prefix.
Qed.

Lemma array_leaves_ok col f : leaf_ok CList col (array_leaves f) (array_conds col f) (array_tests f).
Proof.
  unfold array_leaves, array_conds, array_tests. repeat apply leaf_ok_app.
  - by apply (leaf_ok_list col false false).
  - by apply (leaf_ok_list col false true).
  - by apply (leaf_ok_list col true false).
  - by apply (leaf_ok_list col true true).
Qed.

(** [None] in an Or list is a nil filter. *)
Definition empty_tree : ftree := FNode [] [].

Fixpoint float_tree (f : SignalFloatFilter) : ftree :=
  FNode (float_leaves f) (map (fun o => match o with Some g => float_tree g | None => empty_tree end) (sff_Or f)).
Fixpoint string_tree (f : StringValueFilter) : ftree :=
  FNode (string_leaves f) (map (fun o => match o with Some g => string_tree g | None => empty_tree end) (svf_Or f)).
Fixpoint array_tree (f : StringArrayFilter) : ftree :=
  FNode (array_leaves f) (map (fun o => match o with Some g => array_tree g | None => empty_tree end) (saf_Or f)).

Definition or_all {A} (P : A -> Prop) (o : option A) : Prop := match o with Some g => P g | None => True end.

Lemma float_filter_ind (P : SignalFloatFilter -> Prop) :
  (forall f, Forall (or_all P) (sff_Or f) -> P f) -> forall f, P f.
Proof.
  intros H. fix IH 1. intros f. apply H. destruct f as [? ? ? ? ? ? ? ? ors]; cbn [sff_Or].
  induction ors as [|[g|] ors IHo]; constructor; [apply IH|exact IHo|exact I|exact IHo].
Qed.

Lemma string_filter_ind (P : StringValueFilter -> Prop) :
  (forall f, Forall (or_all P) (svf_Or f) -> P f) -> forall f, P f.
Proof.
  intros H. fix IH 1. intros f. apply H. destruct f as [? ? ? ? ? ors]; cbn [svf_Or].
  induction ors as [|[g|] ors IHo]; constructor; [apply IH|exact IHo|exact I|exact IHo].
Qed.

Lemma array_filter_ind (P : StringArrayFilter -> Prop) :
  (forall f, Forall (or_all P) (saf_Or f) -> P f) -> forall f, P f.
Proof.
  intros H. fix IH 1. intros f. apply H. destruct f as [? ? ? ? ors]; cbn [saf_Or].
  induction ors as [|[g|] ors IHo]; constructor; [apply IH|exact IHo|exact I|exact IHo].
Qed.

(** A predicate on cells and one on the column's values. *)
Definition agrees {A} (inj : A -> cell) (m : option (cell -> bool)) (t : option (A -> bool)) : Prop :=
  match m, t with
  | None, None => True
  | Some p, Some q => forall x, p (inj x) = q x
  | _, _ => False
  end.

Lemma combine_agrees {A} (inj : A -> cell) ps ts ms qs :
  Forall2 (fun p t => forall x, p (inj x) = t x) ps ts -> Forall2 (agrees inj) ms qs ->
  agrees inj (combine ps ms) (combine ts qs).
Proof.
  intros Hp Hm. unfold combine.
  assert (Ho : Forall2 (fun p t => forall x, p (inj x) = t x) (omap id ms) (omap id qs)).
  { induction Hm as [|[p|] [q|] ms qs Hq Hm IH]; try done; by constructor. }
  assert (Hf : forall x, forallb (fun t => t (inj x)) ps = forallb (fun t => t x) ts).
  { intros x. clear Hm Ho. induction Hp as [|p t ps ts H Hp IH]; [done|]. cbn. by rewrite H, IH. }
  assert (He : forall x, existsb (fun p => p (inj x)) (omap id ms) = existsb (fun p => p x) (omap id qs)).
  { intros x. clear Hm Hf. induction Ho as [|p t l k H Ho IH]; [done|]. cbn. by rewrite H, IH. }
  destruct Hp as [|p t ps ts H Hp]; cbn [is_empty app].
  - destruct Ho; [done|]. exact He.
  - intros x. cbn [existsb]. by rewrite Hf, He.
Qed.

(** A filter, its condition and its meaning, through the tree. *)
Definition tree_of {A} (inj : A -> cell) (sql : string -> condition) (t : ftree) (m : option (A -> bool)) : Prop :=
  (forall col, sql col = tree_sql col t) /\ saturated t /\ agrees inj (tree_meaning t) m.

Lemma tree_of_empty {A} (inj : A -> cell) : tree_of inj (fun _ => no_condition) empty_tree None.
Proof. split; [done|]. split; [by repeat constructor|done]. Qed.

Lemma tree_of_node {A} (inj : A -> cell) (ls : leaf_list) (cs : string -> list condition) ts sqls ors ms :
  (forall col, leaf_ok inj col ls (cs col) ts) ->
  Forall2 (fun st m => tree_of inj st.1 st.2 m) (zip sqls ors) ms -> length sqls = length ors ->
  tree_of inj (fun col => join_filter (cs col) (map (fun s => s col) sqls)) (FNode ls ors) (combine ts ms).
Proof.
  intros Hl Ho Hlen. revert sqls Ho Hlen.
  assert (Hgen : forall sqls, Forall2 (fun st m => tree_of inj st.1 st.2 m) (zip sqls ors) ms ->
    length sqls = length ors ->
    (forall col, map (fun s => s col) sqls = map (tree_sql col) ors) /\ Forall saturated ors /\
    Forall2 (agrees inj) (map tree_meaning ors) ms).
  { clear. revert ms. induction ors as [|t ors IH]; intros ms [|s sqls] H; try done; intros Hlen.
    - inversion H; subst. by repeat split; constructor.
    - inversion H as [|? m ? ms' (Hs & Hsat & Ha) H']; subst. injection Hlen as Hlen.
      destruct (IH ms' sqls H' Hlen) as (H1 & H2 & H3). split; [|split; by constructor].
      intros col. cbn [map]. by rewrite Hs, H1. }
  intros sqls Ho Hlen. destruct (Hgen sqls Ho Hlen) as (H1 & H2 & H3). split; [|split].
  - intros col. cbn [tree_sql]. rewrite H1. by destruct (Hl col) as (-> & _).
  - constructor; [|done]. by destruct (Hl ""%string) as (_ & ? & _).
  - cbn [tree_meaning]. apply combine_agrees; [|done]. destruct (Hl ""%string) as (_ & _ & H).
    clear -H. induction H; constructor; done.
Qed.

(** The Or list of a filter, from the induction hypothesis. *)
Lemma tree_of_ors {A B} (inj : A -> cell) (sql : string -> B -> condition) (tree : B -> ftree)
    (meaning : B -> option (A -> bool)) (ors : list (option B)) :
  Forall (or_all (fun g => tree_of inj (fun col => sql col g) (tree g) (meaning g))) ors ->
  Forall2 (fun st m => tree_of inj st.1 st.2 m)
    (zip (map (fun o col => match o with Some g => sql col g | None => no_condition end) ors)
         (map (fun o => match o with Some g => tree g | None => empty_tree end) ors))
    (map (fun o => match o with Some g => meaning g | None => None end) ors).
Proof.
  induction 1 as [|[g|] ors Hg H IH]; [constructor|by constructor|].
  constructor; [apply tree_of_empty|done].
Qed.

Lemma tree_of_or_list {A B} (inj : A -> cell) ls cs ts (sql : string -> B -> condition) tree meaning ors :
  (forall col, leaf_ok inj col ls (cs col) ts) ->
  Forall (or_all (fun g => tree_of inj (fun col => sql col g) (tree g) (meaning g))) ors ->
  tree_of inj (fun col => join_filter (cs col)
                 (map (fun o => match o with Some g => sql col g | None => no_condition end) ors))
    (FNode ls (map (fun o => match o with Some g => tree g | None => empty_tree end) ors))
    (combine ts (map (fun o => match o with Some g => meaning g | None => None end) ors)).
Proof.
  intros Hl Ho. apply tree_of_ors in Ho.
  destruct (tree_of_node inj ls cs ts _ _ _ Hl Ho) as (H1 & H2); [by rewrite !length_map|].
  split; [|exact H2]. intros col. rewrite <- H1, map_map. done.
Qed.

Lemma float_tree_of f : tree_of CFloat (fun col => float_filter col f) (float_tree f) (float_meaning' f).
Proof.
  induction f as [[? ? ? ? ? ? ? ? ors] IH] using float_filter_ind.
  exact (tree_of_or_list CFloat _ _ _ float_filter float_tree float_meaning' ors
           (fun col => float_leaves_ok col _) IH).
Qed.

Lemma string_tree_of f : tree_of CString (fun col => string_filter col f) (string_tree f) (string_meaning' f).
Proof.
  induction f as [[? ? ? ? ? ors] IH] using string_filter_ind.
  exact (tree_of_or_list CString _ _ _ string_filter string_tree string_meaning' ors
           (fun col => string_leaves_ok col _) IH).
Qed.

Lemma array_tree_of f : tree_of CList (fun col => array_filter col f) (array_tree f) (array_meaning' f).
Proof.
  induction f as [[? ? ? ? ors] IH] using array_filter_ind.
  exact (tree_of_or_list CList _ _ _ array_filter array_tree array_meaning' ors
           (fun col => array_leaves_ok col _) IH).
Qed.

(** ** The theorem *)

(** The condition is empty when the filter says nothing; else its text, read by
    the grammar with its arguments, is the predicate [m], and no argument is left. *)
Definition reads_as {A} (col : string) (sql : condition) (inj : A -> cell) (m : option (A -> bool)) : Prop :=
  match m with
  | None => sql = no_condition
  | Some p => exists ts, text_of col ts = sql.1 /\
      exists n q, parse n LvOr ts sql.2 = Some (q, [], []) /\ forall x, q (inj x) = p x
  end.

Lemma tree_reads_as {A} (inj : A -> cell) sql t m col : tree_of inj sql t m -> reads_as col (sql col) inj m.
Proof.
  intros (Hs & Hsat & Ha). pose proof (tree_lexes t Hsat) as Hl.
  assert (Hsql : sql col = condition_of col (tree_lex t)) by (by rewrite Hs, tree_text). rewrite Hsql.
  destruct m as [p|], (tree_meaning t) as [q|]; cbn [lexes agrees reads_as] in *; try done.
  - destruct Hl as [_ Hr]. exists (tree_lex t).1. split; [done|].
    destruct (reads_or_one _ _ _ Hr [] []) as (n & q' & Hn & Hq); [done|]. rewrite !app_nil_r in Hn.
    exists n, q'. split; [done|]. intros x. by rewrite Hq.
  - by rewrite Hl.
Qed.

(** A filter with its values erased. *)
Definition blank {A} (d : A) (o : option A) : option A := (fun _ => d) <$> o.
Definition blanks {A} (d : A) (l : list A) : list A := map (fun _ => d) l.

Fixpoint erase_float (f : SignalFloatFilter) : SignalFloatFilter :=
  mkSignalFloatFilter (blank f64_zero (sff_Eq f)) (blank f64_zero (sff_Neq f)) (blank f64_zero (sff_Gt f))
    (blank f64_zero (sff_Lt f)) (blank f64_zero (sff_Gte f)) (blank f64_zero (sff_Lte f))
    (blanks f64_zero (sff_NotIn f)) (blanks f64_zero (sff_In f))
    (map (fun o => match o with Some g => Some (erase_float g) | None => None end) (sff_Or f)).

Fixpoint erase_string (f : StringValueFilter) : StringValueFilter :=
  mkStringValueFilter (blank ""%string (svf_Eq f)) (blank ""%string (svf_Neq f))
    (blanks ""%string (svf_NotIn f)) (blanks ""%string (svf_In f)) (blank ""%string (svf_StartsWith f))
    (map (fun o => match o with Some g => Some (erase_string g) | None => None end) (svf_Or f)).

Fixpoint erase_array (f : StringArrayFilter) : StringArrayFilter :=
  mkStringArrayFilter (blanks ""%string (saf_ContainsAny f)) (blanks ""%string (saf_ContainsAll f))
    (blanks ""%string (saf_NotContainsAny f)) (blanks ""%string (saf_NotContainsAll f))
    (map (fun o => match o with Some g => Some (erase_array g) | None => None end) (saf_Or f)).

Definition same_texts (cs cs' : list condition) : Prop := map fst cs = map fst cs'.

Lemma join_filter_text cs cs' os os' : same_texts cs cs' -> same_texts os os' ->
  (join_filter cs os).1 = (join_filter cs' os').1.
Proof.
  unfold same_texts, join_filter. cbv zeta. intros Hc Ho.
  assert (Hp : map fst (List.filter non_empty os) =
               map fst (List.filter non_empty os')).
  { clear Hc. revert os' Ho; induction os as [|p os IH]; intros [|p' os'] Ho; try done.
    cbn [map] in Ho. injection Ho as Hp Ho. cbn [List.filter].
    replace (non_empty p) with (non_empty p') by (unfold non_empty; by rewrite Hp).
    destruct (non_empty p'); cbn [map]; [rewrite Hp; f_equal|]; by apply IH. }
  revert Hp. generalize (List.filter non_empty os).
  generalize (List.filter non_empty os').
  intros ps' ps Hp. rewrite Hc.
  assert (He : forall l l' : list condition, map fst l = map fst l' -> is_empty l = is_empty l')
    by (by intros [] []).
  rewrite (He _ _ Hp), (He _ _ Hc). destruct (is_empty ps'); [done|]. cbn [fst]. do 3 f_equal. f_equal.
  assert (Hm : forall l, map or_part l = map (fun s : string => ("(" +:+ s +:+ ")")%string) (map fst l))
    by (intros l; by rewrite map_map).
  by rewrite !Hm, Hp.
Qed.

Lemma same_texts_app cs1 cs2 ds1 ds2 :
  same_texts cs1 ds1 -> same_texts cs2 ds2 -> same_texts (cs1 ++ cs2) (ds1 ++ ds2).
Proof. unfold same_texts. intros H1 H2. rewrite !map_app. by f_equal. Qed.

Lemma same_texts_cmp {A} (arg : A -> bind_arg) col op d v :
  same_texts (cmp_cond arg col op v) (cmp_cond arg col op (blank d v)).
Proof. by destruct v. Qed.

Lemma same_texts_in {A} (arg : A -> bind_arg) col kw d vals :
  same_texts (in_cond arg col kw vals) (in_cond arg col kw (blanks d vals)).
Proof. unfold in_cond, blanks, same_texts. destruct vals; [done|]. cbn [map is_empty fst]. by rewrite !length_cons, length_map. Qed.

Lemma same_texts_list col fn prefix d vals :
  same_texts (list_cond col fn prefix vals) (list_cond col fn prefix (blanks d vals)).
Proof. unfold list_cond, blanks, same_texts. destruct vals; [done|]. cbn [map is_empty fst]. by rewrite !length_cons, length_map. Qed.

Lemma same_texts_ors {A} (sql : A -> condition) (erase : A -> A) (ors : list (option A)) :
  Forall (or_all (fun g => (sql g).1 = (sql (erase g)).1)) ors ->
  same_texts (map (fun o => match o with Some g => sql g | None => no_condition end) ors)
    (map (fun o => match o with Some g => sql g | None => no_condition end)
       (map (fun o => match o with Some g => Some (erase g) | None => None end) ors)).
Proof.
  unfold same_texts. induction 1 as [|[g|] ors Hg H IH]; cbn [map]; [done| |]; f_equal; done.
Qed.

Lemma float_text_erased col f : (float_filter col f).1 = (float_filter col (erase_float f)).1.
Proof.
  induction f as [[? ? ? ? ? ? ? ? ors] IH] using float_filter_ind. cbn [erase_float float_filter sff_Or].
  apply join_filter_text; [|by apply same_texts_ors].
  unfold float_conds; cbn. repeat apply same_texts_app; apply same_texts_cmp || apply same_texts_in.
Qed.

Lemma string_text_erased col f : (string_filter col f).1 = (string_filter col (erase_string f)).1.
Proof.
  induction f as [[? ? ? ? sw ors] IH] using string_filter_ind. cbn [erase_string string_filter svf_Or].
  apply join_filter_text; [|by apply same_texts_ors].
  unfold string_conds; cbn. repeat apply same_texts_app; try (apply same_texts_cmp || apply same_texts_in).
  by destruct sw.
Qed.

Lemma array_text_erased col f : (array_filter col f).1 = (array_filter col (erase_array f)).1.
Proof.
  induction f as [[? ? ? ? ors] IH] using array_filter_ind. cbn [erase_array array_filter saf_Or].
  apply join_filter_text; [|by apply same_texts_ors].
  unfold array_conds; cbn. repeat apply same_texts_app; apply same_texts_list.
Qed.

(** C12. The SQL of a value filter means the filter: read with the precedence of
    SQL, consuming its arguments in order and none left over, the text the code
    concatenates is the conjunction of the filter's conditions, or one of its Or
    clauses, whatever their nesting; a filter, or clause, that says nothing writes
    nothing; StartsWith is the prefix test whatever wildcards the prefix holds. The
    text does not depend on the values: a value reaches DuckDB as an argument only. *)
Theorem filter_sql_means col :
  (forall f, reads_as col (floatFilterSQL col f) CFloat (float_meaning f)) /\
  (forall f, reads_as col (stringFilterSQL col f) CString (string_meaning f)) /\
  (forall f, reads_as col (stringArrayFilterSQL col f) CList (array_meaning f)) /\
  (forall f, (floatFilterSQL col f).1 = (floatFilterSQL col (erase_float <$> f)).1) /\
  (forall f, (stringFilterSQL col f).1 = (stringFilterSQL col (erase_string <$> f)).1) /\
  (forall f, (stringArrayFilterSQL col f).1 = (stringArrayFilterSQL col (erase_array <$> f)).1).
Proof.
  split; [|split; [|split; [|split; [|split]]]]; intros [f|]; try done.
  - eapply (tree_reads_as CFloat (fun col => float_filter col f)), float_tree_of.
  - eapply (tree_reads_as CString (fun col => string_filter col f)), string_tree_of.
  - eapply (tree_reads_as CList (fun col => array_filter col f)), array_tree_of.
  - apply float_text_erased.
  - apply string_text_erased.
  - apply array_text_erased.
Qed.

Example nested_filter :
  let leaf eq sw ors := mkStringValueFilter eq None [] [] sw ors in
  stringFilterSQL "name" (Some (leaf (Some "a") (Some "b_") [Some (leaf None None [Some (leaf (Some "c") None [])]); None]))%string =
  ("(name = ? AND name LIKE ? ESCAPE '\' OR (((name = ?))))",
   [ArgString "a"; ArgString "b\_%"; ArgString "c"])%string.
Proof. reflexivity. Qed.
