(* ===== verification/Aggregations.v ===== *)
(** * internal/service/duck/aggregations.go: aggregated signals

    The two aggregation statements as the relations they compute over the rows of
    lake.signals: the deduplicated readings joined with the requested
    aggregations, filtered, grouped by bucket (or by segment) and by request, one
    aggregate per group. DuckDB's own aggregates (the average, the median, the
    mode, random draws, the spatial functions) are a parameter. *)

From S2P Require Import Prelude Model SegRepo Validate SignalsRepo Decode Sql LakeSource LakeLatest RawEvents SqlFilter.

#[local] Set Default Proof Using "Type*".

(** ** DuckDB *)

Class DuckDB := {
  avg : list float64 -> float64;
  median : list float64 -> float64;
  mode : list string -> string;
  (** the draw of [random()] for the row a reading gives under a request *)
  random : Z -> Z -> SignalRow -> Z;
  (** metres between two points (longitude, latitude) *)
  ST_Distance_Sphere : float64 * float64 -> float64 * float64 -> float64;
  (** a closed ring of points, a point *)
  ST_Contains : list (float64 * float64) -> float64 * float64 -> bool;
}.

Inductive agg_error := AggFailed (msg : string) | AggPanic.

(** ** The inner select *)

Definition type_code (t : FieldType) : Z :=
  match t with FloatType => 1 | StringType => 2 | LocType => 3 | FieldOther n => n end.

(** [(signal_type, signal_index, name)] *)
Definition agg_request : Type := Z * Z * string.

Definition numbered {A} (t : FieldType) (name : A -> string) (l : list A) : list agg_request :=
  imap (fun i a => (type_code t, Z.of_nat i, name a)) l.

Definition loc_args : Type := list (LocationSignalArgs * option SignalLocationFilter).

Definition aggValuesTable (floats : list FloatSignalArgs) (strings : list StringSignalArgs)
    (locs : loc_args) : list agg_request :=
  numbered FloatType fsa_Name floats ++ numbered StringType stsa_Name strings ++
  numbered LocType (fun l => lsa_Name l.1) locs.

Definition aggNames (floats : list FloatSignalArgs) (strings : list StringSignalArgs)
    (locs : loc_args) : list string :=
  map fsa_Name floats ++ map stsa_Name strings ++ map (fun l => lsa_Name l.1) locs.

(** A row of the join. *)
Record agg_row := mkAggRow { j_type : Z; j_index : Z; j_row : SignalRow }.

Definition agg_join (rows : list SignalRow) (reqs : list agg_request) : list agg_row :=
  flat_map (fun r => map (fun q => mkAggRow q.1.1 q.1.2 r)
                       (List.filter (fun q => String.eqb (sr_Name r) q.2) reqs)) rows.

(** ** Filters *)

Section duck.
Context {D : DuckDB}.

Definition haversineWithinSQL (clat clon radiusKm lat lon : float64) : bool :=
  f64_leb (ST_Distance_Sphere (lon, lat) (clon, clat)) (f64_mul radiusKm (f64_of_Z 1000)).

Definition point (l : FilterLocation) : float64 * float64 := (fl_Longitude l, fl_Latitude l).

(** The ring, closed by its first vertex; a nil vertex is dereferenced. *)
Definition pointInPolygonSQL (poly : list (option FilterLocation)) : result agg_error (float64 -> float64 -> bool) :=
  match mapM id poly with
  | None => Err AggPanic
  | Some ps =>
      let ring := map point ps ++ option_list (point <$> head ps) in
      Ok (fun lat lon => ST_Contains ring (lon, lat))
  end.

(** [None]: no condition. *)
Definition locationFilterSQL (f : option SignalLocationFilter)
  : result agg_error (option (float64 -> float64 -> bool)) :=
  match f with
  | None => Ok None
  | Some f =>
      let polygon := if (3 <=? length (slf_InPolygon f))%nat
                     then let* p := pointInPolygonSQL (slf_InPolygon f) in Ok (Some p)
                     else Ok None in
      match slf_InCircle f with
      | Some c =>
          match icf_Center c with
          | Some l => Ok (Some (haversineWithinSQL (fl_Latitude l) (fl_Longitude l) (icf_Radius c)))
          | None => polygon
          end
      | None => polygon
      end
  end.

Fixpoint loc_filters (locs : loc_args) : result agg_error (list (option (float64 -> float64 -> bool))) :=
  match locs with
  | [] => Ok []
  | la :: rest =>
      let* f := locationFilterSQL la.2 in
      let* fs := loc_filters rest in Ok (f :: fs)
  end.

(** The per-signal block, given the location conditions. *)
Definition perSignalFilterSQL (a : AggregatedSignalArgs) (fs : list (option (float64 -> float64 -> bool)))
    (j : agg_row) : bool :=
  let r := j_row j in
  let i := Z.to_nat (j_index j) in
  if j_type j =? type_code FloatType then
    match aa_FloatArgs a !! i with
    | Some arg => holds (float_meaning (fsa_Filter arg)) (sr_ValueNumber r)
    | None => false
    end
  else if j_type j =? type_code StringType then negb (is_empty (aa_StringArgs a))
  else if j_type j =? type_code LocType then
    lakeNonZeroLoc r &&
    match fs !! i with
    | Some (Some p) => p (sr_LocLat r) (sr_LocLon r)
    | Some None => true
    | None => false
    end
  else false.

(** ** Aggregates of a group; [None] is NULL *)

Definition sql_arg_min {B} (f : agg_row -> B) (g : list agg_row) : option B :=
  sql_arg_max (fun j => - sr_Timestamp (j_row j)) f g.
Definition sql_arg_last {B} (f : agg_row -> B) (g : list agg_row) : option B :=
  sql_arg_max (fun j => sr_Timestamp (j_row j)) f g.
Definition sql_arg_rand {B} (f : agg_row -> B) (g : list agg_row) : option B :=
  sql_arg_max (fun j => random (j_type j) (j_index j) (j_row j)) f g.

Definition of_values {A B} (agg : list A -> B) (l : list A) : option B :=
  match l with [] => None | _ => Some (agg l) end.

Fixpoint f64_min (d : float64) (l : list float64) : float64 :=
  match l with [] => d | x :: l => f64_min (if f64_ltb x d then x else d) l end.
Fixpoint f64_max (d : float64) (l : list float64) : float64 :=
  match l with [] => d | x :: l => f64_max (if f64_ltb d x then x else d) l end.
Definition least (l : list float64) : float64 := match l with [] => f64_zero | x :: l => f64_min x l end.
Definition greatest (l : list float64) : float64 := match l with [] => f64_zero | x :: l => f64_max x l end.

Definition floatAggExpr (agg : string) (g : list agg_row) : option float64 :=
  let v j := sr_ValueNumber (j_row j) in
  if String.eqb agg "AVG" then of_values avg (map v g)
  else if String.eqb agg "RAND" then sql_arg_rand v g
  else if String.eqb agg "MIN" then of_values least (map v g)
  else if String.eqb agg "MAX" then of_values greatest (map v g)
  else if String.eqb agg "MED" then of_values median (map v g)
  else if String.eqb agg "FIRST" then sql_arg_min v g
  else if String.eqb agg "LAST" then sql_arg_last v g
  else of_values avg (map v g).

(** [string_agg(DISTINCT v, ',' ORDER BY v)] *)
Definition string_agg (vals : list string) : string :=
  String.concat "," (order_by (fun s => s) sleb (remove_dups vals)).

Definition stringAggExpr (agg : string) (g : list agg_row) : option string :=
  let v j := sr_ValueString (j_row j) in
  if String.eqb agg "RAND" then sql_arg_rand v g
  else if String.eqb agg "UNIQUE" then of_values string_agg (map v g)
  else if String.eqb agg "TOP" then of_values mode (map v g)
  else if String.eqb agg "FIRST" then sql_arg_min v g
  else if String.eqb agg "LAST" then sql_arg_last v g
  else of_values mode (map v g).

Definition locationAggExpr (component : SignalRow -> float64) (agg : string) (g : list agg_row) : option float64 :=
  let v j := component (j_row j) in
  if String.eqb agg "AVG" then of_values avg (map v g)
  else if String.eqb agg "RAND" then sql_arg_rand v g
  else if String.eqb agg "FIRST" then sql_arg_min v g
  else if String.eqb agg "LAST" then sql_arg_last v g
  else sql_arg_min v g.

(** The output columns of the group of type [t] and index [i]: a CASE over the
    requests, NULL coalesced. *)
Definition floatCaseSQL (floats : list FloatSignalArgs) (t i : Z) (g : list agg_row) : float64 :=
  if t =? type_code FloatType
  then default f64_zero (floats !! Z.to_nat i ≫= fun a => floatAggExpr (fsa_Agg a) g)
  else f64_zero.

Definition stringCaseSQL (strings : list StringSignalArgs) (t i : Z) (g : list agg_row) : string :=
  if t =? type_code StringType
  then default ""%string (strings !! Z.to_nat i ≫= fun a => stringAggExpr (stsa_Agg a) g)
  else ""%string.

Definition locationCaseSQL (component : SignalRow -> float64) (locs : loc_args) (t i : Z) (g : list agg_row) : float64 :=
  if t =? type_code LocType
  then default f64_zero (locs !! Z.to_nat i ≫= fun a => locationAggExpr component (lsa_Agg a.1) g)
  else f64_zero.

Definition agg_location (locs : loc_args) (t i : Z) (g : list agg_row) : vssLocation :=
  mkVssLocation (locationCaseSQL sr_LocLat locs t i g) (locationCaseSQL sr_LocLon locs t i g)
    (locationCaseSQL sr_LocHDOP locs t i g) (locationCaseSQL sr_LocHeading locs t i g).

(** ** GROUP BY *)

(** The keys of both statements: bucket or segment, type, index. *)
Definition group_key : Type := Z * Z * Z.

Definition gkey_leb (a b : group_key) : bool :=
  let '(a1, a2, a3) := a in
  let '(b1, b2, b3) := b in
  (a1 <? b1) || ((a1 =? b1) && ((a2 <? b2) || ((a2 =? b2) && (a3 <=? b3)))).

Definition group_keys (key : agg_row -> group_key) (rows : list agg_row) : list group_key :=
  order_by (fun k => k) gkey_leb (remove_dups (map key rows)).

Definition group_rows (key : agg_row -> group_key) (rows : list agg_row) (k : group_key) : list agg_row :=
  List.filter (fun j => bool_decide (key j = k)) rows.

(** [CAST(signal_index AS USMALLINT)] fails past the type's range, and with it
    the query. *)
Definition fits_usmallint (k : group_key) : bool := k.2 <=? maxUint16.

Definition tsMicroLiteral (t : Z) : Z := make_timestamp (UnixMicro t).

(** ** GetAggregatedSignals *)

Section lake.
Context (DecodeEthrDID : string -> option string).
Context (lake : list SignalRow) (db_error : option string).

Definition bucket_of (a : AggregatedSignalArgs) (r : SignalRow) : Z :=
  let originUs := UnixMicro (aa_FromTS a) in
  make_timestamp ((UnixMicro (sr_Timestamp r) - originUs) / aa_Interval a * aa_Interval a + originUs).

Definition in_request (a : AggregatedSignalArgs) (subject : string) (r : SignalRow) : bool :=
  String.eqb (sr_Subject r) subject &&
  (tsMicroLiteral (aa_FromTS a) <=? sr_Timestamp r) && (sr_Timestamp r <? tsMicroLiteral (aa_ToTS a)).

Definition bucket_key (a : AggregatedSignalArgs) (j : agg_row) : group_key :=
  (bucket_of a (j_row j), j_type j, j_index j).

(** The inner select. *)
Definition agg_input (subject : string) (a : AggregatedSignalArgs)
    (fs : list (option (float64 -> float64 -> bool))) : list agg_row :=
  List.filter (fun j => in_request a subject (j_row j) && perSignalFilterSQL a fs j)
    (agg_join
       (LakeSignalsDeduped lake subject
          (signalSourceCond DecodeEthrDID (sia_Filter (aa_SignalArgs a)))
          (aggNames (aa_FloatArgs a) (aa_StringArgs a) (aa_LocationArgs a)))
       (aggValuesTable (aa_FloatArgs a) (aa_StringArgs a) (aa_LocationArgs a))).

Definition scan_type (code : Z) : result agg_error FieldType := map_err AggFailed (FieldType_Scan (Some code)).

Definition scan_agg (a : AggregatedSignalArgs) (rows : list agg_row) (k : group_key) : result agg_error AggSignal :=
  let '(ts, t, i) := k in
  let g := group_rows (bucket_key a) rows k in
  let* ty := scan_type t in
  Ok (mkAggSignal ty i ts (floatCaseSQL (aa_FloatArgs a) t i g) (stringCaseSQL (aa_StringArgs a) t i g)
        (agg_location (aa_LocationArgs a) t i g)).

Fixpoint scan_loop {A} (scan : group_key -> result agg_error A) (keys : list group_key) : result agg_error (list A) :=
  match keys with
  | [] => Ok []
  | k :: rest => let* x := scan k in let* xs := scan_loop scan rest in Ok (x :: xs)
  end.

Definition no_requests (a : AggregatedSignalArgs) : bool :=
  is_empty (aa_FloatArgs a) && is_empty (aa_StringArgs a) && is_empty (aa_LocationArgs a).

Definition GetAggregatedSignals (subject : string) (aggArgs : option AggregatedSignalArgs)
  : result agg_error (list AggSignal) :=
  match aggArgs with
  | None => Ok []
  | Some a =>
      if no_requests a then Ok []
      else if aa_Interval a <=? 0 then Err (AggFailed "aggregation interval must be positive")
      else
        let* fs := loc_filters (aa_LocationArgs a) in
        match db_error with
        | Some msg => Err (AggFailed ("failed querying duckdb for aggregated signals: " +:+ msg))
        | None =>
            let rows := agg_input subject a fs in
            let keys := group_keys (bucket_key a) rows in
            if forallb fits_usmallint keys then scan_loop (scan_agg a rows) keys
            else Err (AggFailed "Conversion Error")
        end
  end.

(** ** GetAggregatedSignalsForRanges *)

(** [segmentIndexCaseSQL]: the first range that holds the time; -1 is [None]. *)
Definition in_time_range (ts : Z) (r : TimeRange) : bool :=
  (tsMicroLiteral (From r) <=? ts) && (ts <? tsMicroLiteral (To r)).

Fixpoint segmentIndexFrom (i : Z) (ts : Z) (ranges : list TimeRange) : option Z :=
  match ranges with
  | [] => None
  | r :: rest => if in_time_range ts r then Some i else segmentIndexFrom (i + 1) ts rest
  end.

Definition segmentIndexCaseSQL (ts : Z) (ranges : list TimeRange) : option Z := segmentIndexFrom 0 ts ranges.

Definition no_filter (l : LocationSignalArgs) : LocationSignalArgs * option SignalLocationFilter := (l, None).

Definition seg_key (ranges : list TimeRange) (j : agg_row) : group_key :=
  (default (-1) (segmentIndexCaseSQL (sr_Timestamp (j_row j)) ranges), j_type j, j_index j).

Definition range_input (subject : string) (ranges : list TimeRange) (globalFrom globalTo : Z)
    (floats : list FloatSignalArgs) (locs : loc_args) : list agg_row :=
  List.filter (fun j => String.eqb (sr_Subject (j_row j)) subject &&
                        (tsMicroLiteral globalFrom <=? sr_Timestamp (j_row j)) &&
                        (sr_Timestamp (j_row j) <? tsMicroLiteral globalTo))
    (agg_join (LakeSignalsDeduped lake subject None (aggNames floats [] locs))
       (aggValuesTable floats [] locs)).

Definition scan_range (ranges : list TimeRange) (floats : list FloatSignalArgs) (locs : loc_args)
    (rows : list agg_row) (k : group_key) : result agg_error AggSignalForRange :=
  let '(seg, t, i) := k in
  let g := group_rows (seg_key ranges) rows k in
  let* ty := scan_type t in
  Ok (mkAggSignalForRange seg ty i (floatCaseSQL floats t i g) (stringCaseSQL [] t i g) (agg_location locs t i g)).

Definition GetAggregatedSignalsForRanges (subject : string) (ranges : list TimeRange)
    (globalFrom globalTo : Z) (floatArgs : list FloatSignalArgs) (locationArgs : list LocationSignalArgs)
  : result agg_error (list AggSignalForRange) :=
  let locs := map no_filter locationArgs in
  if is_empty ranges then Ok []
  else if is_empty floatArgs && is_empty locationArgs then Ok []
  else
    match db_error with
    | Some msg => Err (AggFailed ("failed querying duckdb for batch agg: " +:+ msg))
    | None =>
        let rows := List.filter (fun j => 0 <=? (seg_key ranges j).1.1)
                      (range_input subject ranges globalFrom globalTo floatArgs locs) in
        let keys := group_keys (seg_key ranges) rows in
        if forallb fits_usmallint keys then scan_loop (scan_range ranges floatArgs locs rows) keys
        else Err (AggFailed "Conversion Error")
    end.
End lake.
End duck.
