(* ===== verification/AggSpec.v ===== *)
(** * The aggregation queries against their reference

    What [Aggregations.v] computes, stated without its join and its grouping: the
    rows of a result are well typed, the bucket of an alias aggregates exactly the
    readings of that signal in that bucket, and the batch over segment ranges gives
    each range what a query over that range alone gives it. *)

From S2P Require Import Prelude Model SegRepo Validate SignalsRepo Decode Sql LakeSource LakeLatest RawEvents SqlFilter Aggregations.

#[local] Set Default Proof Using "Type*".

(** ** Order and membership of the groups *)

Lemma gkey_total a b : gkey_leb a b = true \/ gkey_leb b a = true.
Proof. destruct a as [[a1 a2] a3], b as [[b1 b2] b3]. unfold gkey_leb. lia. Qed.

Lemma gkey_trans a b c : gkey_leb a b = true -> gkey_leb b c = true -> gkey_leb a c = true.
Proof.
  destruct a as [[a1 a2] a3], b as [[b1 b2] b3], c as [[c1 c2] c3]. unfold gkey_leb. lia.
Qed.

Lemma gkey_antisym a b : gkey_leb a b = true -> gkey_leb b a = true -> a = b.
Proof.
  destruct a as [[a1 a2] a3], b as [[b1 b2] b3]. unfold gkey_leb. intros.
  assert (a1 = b1) by lia. assert (a2 = b2) by lia. assert (a3 = b3) by lia. by subst.
Qed.

Lemma elem_of_group_keys key rows k : k ∈ group_keys key rows <-> exists j, j ∈ rows /\ key j = k.
Proof.
  unfold group_keys. rewrite order_by_perm, elem_of_remove_dups.
  rewrite list_elem_of_fmap. naive_solver.
Qed.

Lemma group_keys_NoDup key rows : NoDup (group_keys key rows).
Proof. unfold group_keys. rewrite order_by_perm. apply NoDup_remove_dups. Qed.

Lemma group_keys_sorted key rows :
  StronglySorted (fun a b => gkey_leb a b = true /\ a <> b) (group_keys key rows).
Proof.
  pose proof (group_keys_NoDup key rows) as Hn.
  pose proof (order_by_sorted (fun k => k) gkey_leb gkey_total gkey_trans (remove_dups (map key rows))) as Hs.
  fold (group_keys key rows) in Hs. induction Hs as [|k l Hs IH Hall]; [constructor|].
  apply NoDup_cons in Hn as [Hk Hn]. constructor; [auto|].
  rewrite Forall_forall in *. intros x Hx. split; [by apply Hall|]. by intros ->.
Qed.

Lemma group_rows_nonempty key rows k : k ∈ group_keys key rows -> group_rows key rows k <> [].
Proof.
  intros (j & Hj & <-)%elem_of_group_keys. unfold group_rows. intros E.
  assert (j ∈ List.filter (fun x => bool_decide (key x = key j)) rows) as Hin.
  { apply elem_of_list_filter. split; [done|]. by apply bool_decide_true. }
  rewrite E in Hin. by apply elem_of_nil in Hin.
Qed.

Lemma scan_loop_ok {A} (scan : group_key -> result agg_error A) (f : group_key -> A) keys :
  (forall k, k ∈ keys -> scan k = Ok (f k)) -> scan_loop scan keys = Ok (map f keys).
Proof.
  induction keys as [|k keys IH]; intros H; [done|]. cbn [scan_loop map].
  rewrite H by left. cbn [result_bind]. rewrite IH by (intros; apply H; by right). done.
Qed.

(** ** The join *)

Lemma elem_of_numbered {A} t (name : A -> string) (l : list A) q :
  q ∈ numbered t name l <->
  exists i a, l !! i = Some a /\ q = (type_code t, Z.of_nat i, name a).
Proof.
  unfold numbered. rewrite elem_of_lookup_imap. naive_solver.
Qed.

Lemma numbered_keys {A} t (name : A -> string) (l : list A) :
  NoDup (map fst (numbered t name l)).
Proof.
  apply NoDup_alt. intros i j x. unfold numbered. rewrite !list_lookup_fmap, !list_lookup_imap.
  destruct (l !! i), (l !! j); try done. simpl. intros [= <-] [=]. lia.
Qed.

Lemma aggValues_keys floats strings locs : NoDup (map fst (aggValuesTable floats strings locs)).
Proof.
  unfold aggValuesTable. rewrite !fmap_app.
  assert (Hd : forall A B (n : A -> string) (m : B -> string) t u (l : list A) (k : list B) x,
    type_code t <> type_code u -> x ∈ fst <$> numbered t n l -> x ∈ fst <$> numbered u m k -> False).
  { intros A B n m t u l k x Hne (q & -> & Hq)%list_elem_of_fmap (q' & Eq & Hq')%list_elem_of_fmap.
    apply elem_of_numbered in Hq as (i & a & _ & ->), Hq' as (i' & a' & _ & ->).
    simpl in Eq. congruence. }
  apply NoDup_app. split; [apply numbered_keys|]. split.
  - intros x Hx [Hy|Hy]%elem_of_app; (eapply Hd; [|exact Hx|exact Hy]; done).
  - apply NoDup_app. split; [apply numbered_keys|]. split; [|apply numbered_keys].
    intros x Hx Hy. eapply Hd; [|exact Hx|exact Hy]; done.
Qed.

(** Under one request the join holds the readings of that name. *)
Lemma agg_join_request (P : agg_row -> bool) rows reqs t i n :
  NoDup (map fst reqs) -> (t, i, n) ∈ reqs ->
  List.filter (fun j => P j && bool_decide (j_type j = t /\ j_index j = i)) (agg_join rows reqs) =
  map (mkAggRow t i) (List.filter (fun r => String.eqb (sr_Name r) n && P (mkAggRow t i r)) rows).
Proof.
  intros Hn Hin. induction rows as [|r rows IH]; [done|].
  unfold agg_join in *. cbn [flat_map List.filter]. rewrite List.filter_app, IH. clear IH.
  match goal with |- _ ++ ?tl = _ =>
    assert (E : List.filter (fun j => P j && bool_decide (j_type j = t /\ j_index j = i))
      (map (fun q => mkAggRow q.1.1 q.1.2 r) (List.filter (fun q => String.eqb (sr_Name r) q.2) reqs))
      = if String.eqb (sr_Name r) n && P (mkAggRow t i r) then [mkAggRow t i r] else []) end.
  { clear rows. induction reqs as [|[[t' i'] n'] reqs IH]; [by apply elem_of_nil in Hin|].
    cbn [map fst] in Hn. apply NoDup_cons in Hn as [Hni Hn]. cbn [List.filter snd].
    apply elem_of_cons in Hin as [[= <- <- <-]|Hin].
    - assert (Hrest : List.filter (fun j => P j && bool_decide (j_type j = t /\ j_index j = i))
        (map (fun q => mkAggRow q.1.1 q.1.2 r) (List.filter (fun q => String.eqb (sr_Name r) q.2) reqs)) = []).
      { apply list_filter_none. intros j Hj. apply list_elem_of_fmap in Hj as (q & -> & Hq).
        apply elem_of_list_filter in Hq as [Hq _]. simpl.
        apply andb_false_iff. right. apply bool_decide_false. intros [<- <-]. apply Hni.
        apply list_elem_of_fmap. exists q. split; [|done]. by destruct q as [[??]?]. }
      destruct (String.eqb (sr_Name r) n); cbn [map List.filter j_type j_index fst snd];
        [|by rewrite Hrest].
      rewrite bool_decide_true by done. rewrite andb_true_r, Hrest. simpl. by destruct (P _).
    - assert (Hne : ~ (t' = t /\ i' = i)).
      { intros [-> ->]. apply Hni. apply list_elem_of_fmap. by exists (t, i, n). }
      destruct (String.eqb (sr_Name r) n'); cbn [map List.filter j_type j_index fst snd];
        [rewrite bool_decide_false by done; rewrite andb_false_r|]; by apply IH. }
  rewrite E. by destruct (String.eqb (sr_Name r) n && P (mkAggRow t i r)).
Qed.

Lemma elem_of_agg_join rows reqs j :
  j ∈ agg_join rows reqs <->
  j_row j ∈ rows /\ (j_type j, j_index j, sr_Name (j_row j)) ∈ reqs.
Proof.
  unfold agg_join. rewrite list_elem_of_In, in_flat_map. split.
  - intros (r & Hr & Hj). apply list_elem_of_In in Hr, Hj. 
    apply list_elem_of_fmap in Hj as ([[t i] n] & -> & Hq). apply elem_of_list_filter in Hq as [Hq En].
    simpl in *. apply String.eqb_eq in En as <-. done.
  - intros [Hr Hq]. exists (j_row j). split; [by apply list_elem_of_In|]. apply list_elem_of_In.
    apply list_elem_of_fmap. exists (j_type j, j_index j, sr_Name (j_row j)).
    split; [by destruct j|]. apply elem_of_list_filter. split; [done|]. apply String.eqb_refl.
Qed.

(** ** The rows of a result *)

Definition code_type (t : Z) : FieldType := if t =? 1 then FloatType else if t =? 2 then StringType else LocType.

Lemma request_type floats strings locs t i n : (t, i, n) ∈ aggValuesTable floats strings locs ->
  0 <= i /\
  ((t = type_code FloatType /\ exists arg, floats !! Z.to_nat i = Some arg /\ fsa_Name arg = n) \/
   (t = type_code StringType /\ exists arg, strings !! Z.to_nat i = Some arg /\ stsa_Name arg = n) \/
   (t = type_code LocType /\ exists arg, locs !! Z.to_nat i = Some arg /\ lsa_Name arg.1 = n)).
Proof.
  unfold aggValuesTable. rewrite !elem_of_app, !elem_of_numbered.
  intros [(k & x & Hx & [= -> -> ->])|[(k & x & Hx & [= -> -> ->])|(k & x & Hx & [= -> -> ->])]];
    rewrite Nat2Z.id; split; try lia; eauto 8.
Qed.

Lemma request_scan floats strings locs t i n :
  (t, i, n) ∈ aggValuesTable floats strings locs -> scan_type t = Ok (code_type t).
Proof. by intros (_ & [[-> _]|[[-> _]|[-> _]]])%request_type. Qed.

Lemma map_nil_iff {A B} (f : A -> B) l : map f l = [] <-> l = [].
Proof. by destruct l. Qed.

Lemma list_eq_nil {A} (l : list A) : (forall x, x ∈ l -> False) -> [] = l.
Proof. destruct l as [|x l]; [done|]. intros H. destruct (H x). left. Qed.

Section duck.
Context {D : DuckDB} (DecodeEthrDID : string -> option string) (lake : list SignalRow).

Definition agg_source (a : AggregatedSignalArgs) : option string :=
  signalSourceCond DecodeEthrDID (sia_Filter (aa_SignalArgs a)).

(** The name restriction inside the deduplication does not change what the
    deduplication keeps of those names. *)
Lemma deduped_names subject src names :
  LakeSignalsDeduped lake subject src names =
  List.filter (signalNameInCond names) (LakeSignalsDeduped lake subject src []).
Proof.
  unfold LakeSignalsDeduped. rewrite <- dedup_filter, list_filter_andb.
  - f_equal. apply List.filter_ext. intros r. cbn [signalNameInCond]. by rewrite andb_true_r.
  - intros x y _ _ [= _ E _]. unfold signalNameInCond. by rewrite E.
Qed.

Lemma deduped_named subject src names n (P : SignalRow -> bool) : n ∈ names ->
  List.filter (fun r => String.eqb (sr_Name r) n && P r) (LakeSignalsDeduped lake subject src names) =
  List.filter (fun r => String.eqb (sr_Name r) n && P r) (LakeSignalsDeduped lake subject src []).
Proof.
  intros Hn. rewrite deduped_names, list_filter_andb. apply List.filter_ext. intros r.
  destruct (String.eqb_spec (sr_Name r) n) as [E|]; [|by rewrite andb_false_r].
  replace (signalNameInCond names r) with true; [done|]. symmetry. unfold signalNameInCond.
  destruct names as [|m names]; [done|]. apply existsb_exists. exists n.
  split; [by apply list_elem_of_In|by apply String.eqb_eq].
Qed.

Lemma request_named floats strings locs t i n :
  (t, i, n) ∈ aggValuesTable floats strings locs -> n ∈ aggNames floats strings locs.
Proof.
  intros (_ & H)%request_type. unfold aggNames. rewrite !elem_of_app.
  destruct H as [[_ (x & Hx & <-)]|[[_ (x & Hx & <-)]|[_ (x & Hx & <-)]]];
    [left|right; left|right; right]; apply list_elem_of_fmap; exists x;
    (split; [done|by eapply list_elem_of_lookup_2]).
Qed.

(** ** The readings a request aggregates *)

Definition in_window (a : AggregatedSignalArgs) (r : SignalRow) : bool :=
  (tsMicroLiteral (aa_FromTS a) <=? sr_Timestamp r) && (sr_Timestamp r <? tsMicroLiteral (aa_ToTS a)).

(** The subject's readings of the name in the window and the bucket [ts] that pass
    [p], one per instant. *)
Definition agg_readings (a : AggregatedSignalArgs) (subject n : string) (p : SignalRow -> bool) (ts : Z)
  : list SignalRow :=
  List.filter (fun r => String.eqb (sr_Name r) n && (in_window a r && p r && (bucket_of a r =? ts)))
    (subject_rows lake subject (agg_source a)).

Definition float_passes (arg : FloatSignalArgs) (r : SignalRow) : bool :=
  holds (float_meaning (fsa_Filter arg)) (sr_ValueNumber r).

Definition location_passes (la : LocationSignalArgs * option SignalLocationFilter) (r : SignalRow) : bool :=
  lakeNonZeroLoc r &&
  match locationFilterSQL la.2 with
  | Ok (Some p) => p (sr_LocLat r) (sr_LocLon r)
  | Ok None => true
  | Err _ => false
  end.

Lemma loc_filters_lookup locs fs i : loc_filters locs = Ok fs ->
  match locs !! i with
  | Some la => exists f, locationFilterSQL la.2 = Ok f /\ fs !! i = Some f
  | None => fs !! i = None
  end.
Proof.
  revert fs i. induction locs as [|la locs IH]; intros fs i; cbn [loc_filters]; [by intros [= <-]|].
  destruct (locationFilterSQL la.2) as [f|] eqn:Ef; [|done]. cbn [result_bind].
  destruct (loc_filters locs) as [fs'|] eqn:El; [|done]. intros [= <-].
  destruct i as [|i]; simpl; [by exists f|]. by apply IH.
Qed.

(** The condition of a request on a reading of the window. *)
Definition passes (a : AggregatedSignalArgs) (t i : Z) (r : SignalRow) : bool :=
  if t =? type_code FloatType
  then match aa_FloatArgs a !! Z.to_nat i with Some arg => float_passes arg r | None => false end
  else if t =? type_code StringType then true
  else match aa_LocationArgs a !! Z.to_nat i with Some la => location_passes la r | None => false end.

Lemma perSignal_passes a fs t i n r : loc_filters (aa_LocationArgs a) = Ok fs ->
  (t, i, n) ∈ aggValuesTable (aa_FloatArgs a) (aa_StringArgs a) (aa_LocationArgs a) ->
  perSignalFilterSQL a fs (mkAggRow t i r) = passes a t i r.
Proof.
  intros Hf (_ & H)%request_type. unfold perSignalFilterSQL, passes. cbn [j_type j_index j_row].
  destruct H as [[-> (x & Hx & _)]|[[-> (x & Hx & _)]|[-> (x & Hx & _)]]].
  - by rewrite Z.eqb_refl, Hx.
  - change (type_code StringType =? type_code FloatType) with false. rewrite Z.eqb_refl.
    destruct (aa_StringArgs a); [done|]. reflexivity.
  - change (type_code LocType =? type_code FloatType) with false.
    change (type_code LocType =? type_code StringType) with false. unfold loc_args in *. rewrite Z.eqb_refl, Hx.
    pose proof (loc_filters_lookup _ _ (Z.to_nat i) Hf) as Hl. unfold loc_args in Hl. rewrite Hx in Hl.
    destruct Hl as (f & E & ->). unfold location_passes. rewrite E. by destruct f.
Qed.

(** The group of a bucket under a request. *)
Lemma group_of_bucket a subject fs ts t i n : loc_filters (aa_LocationArgs a) = Ok fs ->
  (t, i, n) ∈ aggValuesTable (aa_FloatArgs a) (aa_StringArgs a) (aa_LocationArgs a) ->
  group_rows (bucket_key a) (agg_input DecodeEthrDID lake subject a fs) (ts, t, i) =
  map (mkAggRow t i) (agg_readings a subject n (passes a t i) ts).
Proof.
  intros Hf Hin. unfold group_rows, agg_input. rewrite list_filter_andb.
  set (P := fun j => in_request a subject (j_row j) && perSignalFilterSQL a fs j && (bucket_of a (j_row j) =? ts)).
  rewrite (List.filter_ext _ (fun j => P j && bool_decide (j_type j = t /\ j_index j = i))).
  2:{ intros j. unfold P, bucket_key. rewrite <- !andb_assoc. f_equal. f_equal.
      destruct (Z.eqb_spec (bucket_of a (j_row j)) ts) as [E|E]; simpl.
      - apply bool_decide_ext. rewrite E. split; [intros [= <- <-]; done|by intros [-> ->]].
      - apply bool_decide_false. by intros [= ?]. }
  rewrite (agg_join_request P _ _ t i n) by (done || apply aggValues_keys). f_equal.
  rewrite deduped_named by (by eapply request_named). fold (agg_source a).
  unfold agg_readings, subject_rows. rewrite list_filter_andb. apply List.filter_ext. intros r.
  unfold P. cbn [j_row]. rewrite (perSignal_passes a fs t i n r Hf Hin). unfold in_request, in_window.
  destruct (String.eqb (sr_Subject r) subject), (String.eqb (sr_Name r) n); simpl; rewrite ?andb_false_r, <- ?andb_assoc; done.
Qed.

Lemma elem_of_bucket_keys a subject fs ts t i : loc_filters (aa_LocationArgs a) = Ok fs ->
  (ts, t, i) ∈ group_keys (bucket_key a) (agg_input DecodeEthrDID lake subject a fs) <->
  exists n, (t, i, n) ∈ aggValuesTable (aa_FloatArgs a) (aa_StringArgs a) (aa_LocationArgs a) /\
            agg_readings a subject n (passes a t i) ts <> [].
Proof.
  intros Hf. split.
  - intros Hk. pose proof (group_rows_nonempty _ _ _ Hk) as Hne.
    apply elem_of_group_keys in Hk as (j & Hj & Ek). unfold bucket_key in Ek. injection Ek as Ets Et Ei.
    unfold agg_input in Hj. apply elem_of_list_filter in Hj as [Hj _]. apply elem_of_agg_join in Hj as [_ Hq].
    rewrite Et, Ei in Hq. exists (sr_Name (j_row j)). split; [done|].
    rewrite (group_of_bucket _ _ _ _ _ _ _ Hf Hq) in Hne. intros E. by rewrite E in Hne.
  - intros (n & Hq & Hne). apply elem_of_group_keys.
    destruct (group_rows (bucket_key a) (agg_input DecodeEthrDID lake subject a fs) (ts, t, i)) as [|j g] eqn:Eg.
    { rewrite (group_of_bucket _ _ _ _ _ _ _ Hf Hq) in Eg. by apply fmap_nil_inv in Eg. }
    exists j. assert (Hj : j ∈ j :: g) by left. rewrite <- Eg in Hj. unfold group_rows in Hj.
    apply elem_of_list_filter in Hj as [Hj Ek]. by apply bool_decide_eq_true in Ek.
Qed.

Definition agg_of (a : AggregatedSignalArgs) (rows : list agg_row) (k : group_key) : AggSignal :=
  let '(ts, t, i) := k in
  let g := group_rows (bucket_key a) rows k in
  mkAggSignal (code_type t) i ts (floatCaseSQL (aa_FloatArgs a) t i g) (stringCaseSQL (aa_StringArgs a) t i g)
    (agg_location (aa_LocationArgs a) t i g).

Definition bucket_rows (a : AggregatedSignalArgs) (subject : string)
    (fs : list (option (float64 -> float64 -> bool))) : list AggSignal :=
  let rows := agg_input DecodeEthrDID lake subject a fs in
  map (agg_of a rows) (group_keys (bucket_key a) rows).

Lemma scan_rows a subject fs : loc_filters (aa_LocationArgs a) = Ok fs ->
  let rows := agg_input DecodeEthrDID lake subject a fs in
  scan_loop (scan_agg a rows) (group_keys (bucket_key a) rows) = Ok (bucket_rows a subject fs).
Proof.
  intros Hf. apply scan_loop_ok. intros [[ts t] i] (n & Hq & _)%elem_of_bucket_keys; [|done].
  unfold scan_agg, agg_of. by rewrite (request_scan _ _ _ _ _ _ Hq).
Qed.

Lemma GetAggregatedSignals_run a subject fs : 0 < aa_Interval a ->
  loc_filters (aa_LocationArgs a) = Ok fs ->
  Z.of_nat (length (aa_FloatArgs a)) <= maxUint16 -> Z.of_nat (length (aa_StringArgs a)) <= maxUint16 ->
  Z.of_nat (length (aa_LocationArgs a)) <= maxUint16 ->
  GetAggregatedSignals DecodeEthrDID lake None subject (Some a) = Ok (bucket_rows a subject fs).
Proof.
  intros Hi Hf Lf Ls Ll. unfold GetAggregatedSignals.
  destruct (no_requests a) eqn:Hr.
  { unfold bucket_rows. f_equal. cut ([] = group_keys (bucket_key a) (agg_input DecodeEthrDID lake subject a fs)).
    { by intros <-. } apply list_eq_nil. intros [[ts t] i] (n & (_ & Hq)%request_type & _)%elem_of_bucket_keys; [|done].
    unfold no_requests in Hr. unfold loc_args in *.
    destruct (aa_FloatArgs a), (aa_StringArgs a), (aa_LocationArgs a); try done.
    by destruct Hq as [[_ (x & Hx & _)]|[[_ (x & Hx & _)]|[_ (x & Hx & _)]]]. }
  destruct (Z.leb_spec (aa_Interval a) 0) as [|_]; [lia|]. rewrite Hf. cbn [result_bind].
  rewrite (proj2 (List.forallb_forall _ _)); [by apply scan_rows|].
  intros [[ts t] i] (n & Hq & _)%list_elem_of_In%elem_of_bucket_keys; [|done].
  apply request_type in Hq as [Hpos Hq]. unfold fits_usmallint. cbn [snd]. apply Z.leb_le.
  unfold loc_args in *.
  destruct Hq as [[_ (x & Hx & _)]|[[_ (x & Hx & _)]|[_ (x & Hx & _)]]];
    apply lookup_lt_Some in Hx; lia.
Qed.

Lemma GetAggregatedSignals_inv a subject err rows :
  GetAggregatedSignals DecodeEthrDID lake err subject (Some a) = Ok rows ->
  rows = [] \/ exists fs, 0 < aa_Interval a /\ err = None /\ loc_filters (aa_LocationArgs a) = Ok fs /\
                  (forall k, k ∈ group_keys (bucket_key a) (agg_input DecodeEthrDID lake subject a fs) ->
                             k.2 <= maxUint16) /\
                  rows = bucket_rows a subject fs.
Proof.
  unfold GetAggregatedSignals. destruct (no_requests a); [intros [= <-]; by left|].
  destruct (Z.leb_spec (aa_Interval a) 0) as [|Hi]; [done|].
  destruct (loc_filters (aa_LocationArgs a)) as [fs|] eqn:Hf; [|done]. cbn [result_bind].
  destruct err; [done|]. destruct (forallb _ _) eqn:Hu; [|done]. rewrite scan_rows by done.
  intros [= <-]. right. exists fs. split; [done|]. split; [done|]. split; [done|]. split; [|done].
  intros k Hk. rewrite List.forallb_forall in Hu. apply list_elem_of_In, Hu in Hk. by apply Z.leb_le.
Qed.

(** ** Well-typed rows *)

Definition no_location : vssLocation := mkVssLocation f64_zero f64_zero f64_zero f64_zero.

(** A row of the result: a request that was made, a value in its type's column
    alone, the start of a bucket of the window. *)
Record agg_row_typed (a : AggregatedSignalArgs) (s : AggSignal) : Prop := {
  art_request : SignalsRepo.row_ok a s;
  art_index : 0 <= as_SignalIndex s <= maxUint16;
  art_columns :
    (as_SignalType s = FloatType \/ as_ValueNumber s = f64_zero) /\
    (as_SignalType s = StringType \/ as_ValueString s = ""%string) /\
    (as_SignalType s = LocType \/ as_ValueLocation s = no_location);
  art_aligned : exists k, 0 <= k /\
    as_Timestamp s = tsMicroLiteral (aa_FromTS a) + k * (aa_Interval a * Microsecond);
  art_window : as_Timestamp s < tsMicroLiteral (aa_ToTS a);
}.

Lemma bucket_of_spec a r : 0 < aa_Interval a -> tsMicroLiteral (aa_FromTS a) <= sr_Timestamp r ->
  (exists k, 0 <= k /\ bucket_of a r = tsMicroLiteral (aa_FromTS a) + k * (aa_Interval a * Microsecond)) /\
  bucket_of a r <= sr_Timestamp r < bucket_of a r + aa_Interval a * Microsecond.
Proof.
  intros Hi Hle. unfold bucket_of, tsMicroLiteral, make_timestamp, UnixMicro in *.
  set (o := aa_FromTS a / Microsecond) in *. set (u := sr_Timestamp r / Microsecond).
  assert (Hu : u * Microsecond <= sr_Timestamp r < u * Microsecond + Microsecond).
  { subst u. pose proof (Z.div_mod (sr_Timestamp r) Microsecond ltac:(done)).
    pose proof (Z.mod_pos_bound (sr_Timestamp r) Microsecond ltac:(done)). lia. }
  assert (Hou : o <= u) by (unfold Microsecond, Nanosecond in *; lia).
  set (q := (u - o) / aa_Interval a).
  assert (Hq : q * aa_Interval a <= u - o < q * aa_Interval a + aa_Interval a).
  { subst q. pose proof (Z.div_mod (u - o) (aa_Interval a) ltac:(lia)).
    pose proof (Z.mod_pos_bound (u - o) (aa_Interval a) ltac:(lia)). nia. }
  assert (0 <= q) by (apply Z.div_pos; lia).
  unfold Microsecond, Nanosecond in *. split; [exists q; split; [done|]; nia|].
  generalize dependent (q * aa_Interval a). intros. lia.
Qed.

Lemma agg_readings_nonempty a subject n p ts : agg_readings a subject n p ts <> [] ->
  exists r, r ∈ subject_rows lake subject (agg_source a) /\ sr_Name r = n /\ in_window a r = true /\
            p r = true /\ bucket_of a r = ts.
Proof.
  destruct (agg_readings a subject n p ts) as [|r g] eqn:E; [done|]. intros _. exists r.
  assert (Hr : r ∈ r :: g) by left. rewrite <- E in Hr. apply elem_of_list_filter in Hr as [Hr H].
  rewrite !andb_true_iff, String.eqb_eq, Z.eqb_eq in H. naive_solver.
Qed.

Lemma bucket_row_typed a subject fs k : 0 < aa_Interval a -> loc_filters (aa_LocationArgs a) = Ok fs ->
  k ∈ group_keys (bucket_key a) (agg_input DecodeEthrDID lake subject a fs) -> k.2 <= maxUint16 ->
  agg_row_typed a (agg_of a (agg_input DecodeEthrDID lake subject a fs) k).
Proof.
  destruct k as [[ts t] i]. intros Hi Hf Hk Hu. cbn [snd] in Hu.
  apply elem_of_bucket_keys in Hk as (n & Hq & Hne); [|done].
  apply agg_readings_nonempty in Hne as (r & _ & _ & Hw & _ & <-).
  unfold in_window in Hw. bools. destruct (bucket_of_spec a r Hi) as [Hk Hb]; [lia|].
  apply request_type in Hq as [Hpos Hq]. unfold agg_of.
  constructor; cbn [as_SignalType as_SignalIndex as_Timestamp as_ValueNumber as_ValueString as_ValueLocation].
  - unfold SignalsRepo.row_ok. cbn [as_SignalType as_SignalIndex]. unfold loc_args in *.
    by destruct Hq as [[-> (x & Hx & _)]|[[-> (x & Hx & _)]|[-> (x & Hx & _)]]]; exists x.
  - lia.
  - destruct Hq as [[-> _]|[[-> _]|[-> _]]]; (split; [|split]); (by left) || (by right).
  - exact Hk.
  - lia.
Qed.

Definition row_key (s : AggSignal) : group_key := (as_Timestamp s, type_code (as_SignalType s), as_SignalIndex s).

Lemma bucket_row_key a subject fs k : loc_filters (aa_LocationArgs a) = Ok fs ->
  k ∈ group_keys (bucket_key a) (agg_input DecodeEthrDID lake subject a fs) ->
  row_key (agg_of a (agg_input DecodeEthrDID lake subject a fs) k) = k.
Proof.
  destruct k as [[ts t] i]. intros Hf (n & Hq & _)%elem_of_bucket_keys; [|done].
  unfold row_key, agg_of. cbn [as_Timestamp as_SignalType as_SignalIndex].
  by apply request_type in Hq as [_ [[-> _]|[[-> _]|[-> _]]]].
Qed.

Definition before_row (x y : AggSignal) : Prop :=
  gkey_leb (row_key x) (row_key y) = true /\ row_key x <> row_key y.

Lemma bucket_rows_sorted a subject fs : loc_filters (aa_LocationArgs a) = Ok fs ->
  StronglySorted before_row (bucket_rows a subject fs).
Proof.
  intros Hf. unfold bucket_rows. set (rows := agg_input _ _ _ _ _).
  assert (Hk : forall k, k ∈ group_keys (bucket_key a) rows -> row_key (agg_of a rows k) = k)
    by (intros; by apply bucket_row_key).
  pose proof (group_keys_sorted (bucket_key a) rows) as Hs.
  induction Hs as [|k l Hs IH Hall]; [constructor|]. cbn [map]. constructor.
  - apply IH. intros x Hx. apply Hk. by right.
  - rewrite Forall_forall in Hall. apply Forall_forall.
    intros s (x & -> & Hx)%list_elem_of_fmap. unfold before_row.
    rewrite !Hk by (by left || by right). by apply Hall.
Qed.

(** C18. Aggregation rows are well typed. Whatever the lake holds and whatever was
    asked, a result of [GetAggregatedSignals] has one row per bucket and request,
    in the order of time, type and index without repetition; every row names a
    request that was made, keeps its value in the column of its own type and the
    zero value in the others, and its timestamp is the start of a bucket of the
    requested window, counted from the window's start. *)
Theorem aggregation_rows_typed a subject err rows :
  GetAggregatedSignals DecodeEthrDID lake err subject (Some a) = Ok rows ->
  Forall (agg_row_typed a) rows /\ StronglySorted before_row rows.
Proof.
  intros [->|(fs & Hi & _ & Hf & Hu & ->)]%GetAggregatedSignals_inv; [by split; constructor|].
  split; [|by apply bucket_rows_sorted].
  apply Forall_forall. intros s (k & -> & Hk)%list_elem_of_fmap. apply bucket_row_typed; auto.
Qed.

(** ** Values of a bucket *)

Lemma of_values_none {A B} (agg : list A -> B) l : of_values agg l = None <-> l = [].
Proof. by destruct l. Qed.

Lemma arg_max_none {A B} ts (f : A -> B) l : sql_arg_max ts f l = None <-> l = [].
Proof. unfold sql_arg_max. rewrite fmap_None. apply top_none. Qed.

Lemma floatAggExpr_none agg g : floatAggExpr agg g = None <-> g = [].
Proof.
  unfold floatAggExpr, sql_arg_min, sql_arg_last, sql_arg_rand.
  repeat case_match; rewrite ?of_values_none, ?arg_max_none; try done; by destruct g.
Qed.

Lemma stringAggExpr_none agg g : stringAggExpr agg g = None <-> g = [].
Proof.
  unfold stringAggExpr, sql_arg_min, sql_arg_last, sql_arg_rand.
  repeat case_match; rewrite ?of_values_none, ?arg_max_none; try done; by destruct g.
Qed.

Lemma locationAggExpr_none c agg g : locationAggExpr c agg g = None <-> g = [].
Proof.
  unfold locationAggExpr, sql_arg_min, sql_arg_last, sql_arg_rand.
  repeat case_match; rewrite ?of_values_none, ?arg_max_none; try done; by destruct g.
Qed.

Lemma none_default {A} (P : Prop) (d : A) o : (o = None <-> P) -> ~ P -> Some (default d o) = o.
Proof. destruct o; [done|]. tauto. Qed.

(** The four components of a location aggregate. *)
Definition location_agg (agg : string) (g : list agg_row) : option vssLocation :=
  match g with
  | [] => None
  | _ => let c f := default f64_zero (locationAggExpr f agg g) in
         Some (mkVssLocation (c sr_LocLat) (c sr_LocLon) (c sr_LocHDOP) (c sr_LocHeading))
  end.

(** The last row of a fold that writes. *)
Definition last_write {A B} (f : A -> option B) (init : option B) (l : list A) : option B :=
  foldl (fun acc x => match f x with Some v => Some v | None => acc end) init l.

Lemma last_write_none {A B} (f : A -> option B) init l :
  (forall x, x ∈ l -> f x = None) -> last_write f init l = init.
Proof.
  revert init. induction l as [|x l IH]; intros init H; [done|]. cbn [last_write foldl].
  rewrite (H x) by left. apply IH. intros; apply H; by right.
Qed.

Lemma last_write_value {A B} (f : A -> option B) init l v :
  init = Some v \/ (exists x, x ∈ l /\ is_Some (f x)) -> (forall x, x ∈ l -> f x = None \/ f x = Some v) ->
  last_write f init l = Some v.
Proof.
  revert init. induction l as [|x l IH]; intros init Hi H.
  { destruct Hi as [->|(y & Hy%elem_of_nil & _)]; done. }
  cbn [last_write foldl]. apply IH; [|intros; apply H; by right].
  destruct (H x ltac:(left)) as [E|E]; rewrite E; [|by left].
  destruct Hi as [Hi|(y & [->|Hy]%elem_of_cons & Hs)]; [by left| |right; by exists y].
  rewrite E in Hs. by destruct Hs.
Qed.

Definition number_at (a : AggregatedSignalArgs) (alias : string) (s : AggSignal) : option float64 :=
  match as_SignalType s with
  | FloatType => arg ← aa_FloatArgs a !! Z.to_nat (as_SignalIndex s);
                 if String.eqb (fsa_Alias arg) alias then Some (as_ValueNumber s) else None
  | _ => None
  end.
Definition string_at (a : AggregatedSignalArgs) (alias : string) (s : AggSignal) : option string :=
  match as_SignalType s with
  | StringType => arg ← aa_StringArgs a !! Z.to_nat (as_SignalIndex s);
                  if String.eqb (stsa_Alias arg) alias then Some (as_ValueString s) else None
  | _ => None
  end.
Definition location_at_alias (a : AggregatedSignalArgs) (alias : string) (s : AggSignal) : option vssLocation :=
  match as_SignalType s with
  | LocType => arg ← aa_LocationArgs a !! Z.to_nat (as_SignalIndex s);
               if String.eqb (lsa_Alias arg.1) alias then Some (as_ValueLocation s) else None
  | _ => None
  end.

(** A bucket's maps are the last writes of its rows. *)
Lemma fold_store_writes a c rows b : fold_store a c rows = Ok b ->
  (forall al, ValueNumbers b !! al = last_write (number_at a al) (ValueNumbers c !! al) rows) /\
  (forall al, ValueStrings b !! al = last_write (string_at a al) (ValueStrings c !! al) rows) /\
  (forall al, ValueLocations b !! al = last_write (location_at_alias a al) (ValueLocations c !! al) rows).
Proof.
  revert c; induction rows as [|s rows IH]; intros c; cbn [fold_store]; [by intros [= <-]|].
  destruct (store_value a c s) as [c'|] eqn:E; cbn [result_bind]; [|done].
  intros (H1 & H2 & H3)%IH. setoid_rewrite H1; setoid_rewrite H2; setoid_rewrite H3.
  cbn [last_write foldl]. unfold store_value in E. unfold number_at, string_at, location_at_alias.
  destruct (as_SignalType s); [| | |done];
    (match type of E with match ?l with _ => _ end = _ => destruct l as [arg|]; [|done] end);
    injection E as <-; cbn [ValueNumbers ValueStrings ValueLocations mbind option_bind];
    (split; [|split]); intros al; try done;
    (match goal with |- context [String.eqb ?x al] => destruct (String.eqb_spec x al) as [<-|] end);
    by rewrite ?lookup_insert_eq, ?lookup_insert_ne.
Qed.

(** ** The readings behind a result *)

Lemma elem_of_rows_at ts rows s : s ∈ rows_at ts rows <-> s ∈ rows /\ as_Timestamp s = ts.
Proof. unfold rows_at. rewrite list_elem_of_filter. tauto. Qed.

Lemma as_Timestamp_agg_of a rows k : as_Timestamp (agg_of a rows k) = k.1.1.
Proof. by destruct k as [[??]?]. Qed.

(** What is written for a request is its aggregate, or nothing where it has no
    reading. *)
Lemma write_exact {V} a subject fs (at_ : AggSignal -> option V) t i n (v : option V) ts :
  let row k := agg_of a (agg_input DecodeEthrDID lake subject a fs) k in
  loc_filters (aa_LocationArgs a) = Ok fs ->
  (t, i, n) ∈ aggValuesTable (aa_FloatArgs a) (aa_StringArgs a) (aa_LocationArgs a) ->
  (v = None <-> agg_readings a subject n (passes a t i) ts = []) ->
  (forall t' i' n', (t', i', n') ∈ aggValuesTable (aa_FloatArgs a) (aa_StringArgs a) (aa_LocationArgs a) ->
     at_ (row (ts, t', i')) = None \/ (t' = t /\ i' = i)) ->
  (agg_readings a subject n (passes a t i) ts <> [] -> at_ (row (ts, t, i)) = v) ->
  last_write at_ None (rows_at ts (bucket_rows a subject fs)) = v.
Proof.
  intros row Hf Hq Hv Hother Hval.
  assert (Hrows : forall s, s ∈ rows_at ts (bucket_rows a subject fs) ->
    exists t' i' n', s = row (ts, t', i') /\
      (t', i', n') ∈ aggValuesTable (aa_FloatArgs a) (aa_StringArgs a) (aa_LocationArgs a) /\
      agg_readings a subject n' (passes a t' i') ts <> []).
  { intros s [Hs Ets]%elem_of_rows_at. apply list_elem_of_fmap in Hs as ([[ts' t'] i'] & -> & Hk).
    rewrite as_Timestamp_agg_of in Ets. cbn [fst] in Ets. subst ts'.
    apply elem_of_bucket_keys in Hk as (n' & Hq' & Hne); [|done]. by exists t', i', n'. }
  assert (Hname : forall n', (t, i, n') ∈ aggValuesTable (aa_FloatArgs a) (aa_StringArgs a) (aa_LocationArgs a) ->
    n' = n).
  { intros n' Hn'. pose proof (aggValues_keys (aa_FloatArgs a) (aa_StringArgs a) (aa_LocationArgs a)) as Hnd.
    apply list_elem_of_lookup in Hq as [x Hx], Hn' as [y Hy].
    assert (x = y) as ->; [|congruence]. eapply (NoDup_lookup _ _ _ (t, i) Hnd); rewrite list_lookup_fmap;
      [by rewrite Hx|by rewrite Hy]. }
  destruct v as [v|].
  - assert (Hne : agg_readings a subject n (passes a t i) ts <> []) by (intros E; by apply Hv in E).
    apply last_write_value.
    + right. exists (row (ts, t, i)). rewrite Hval by done. split; [|done]. apply elem_of_rows_at.
      split; [|apply as_Timestamp_agg_of]. apply list_elem_of_fmap. exists (ts, t, i). split; [done|].
      apply elem_of_bucket_keys; [done|]. by exists n.
    + intros s (t' & i' & n' & -> & Hq' & Hne')%Hrows.
      destruct (Hother t' i' n' Hq') as [E|[-> ->]]; [by left|right; by apply Hval].
  - apply last_write_none. intros s (t' & i' & n' & -> & Hq' & Hne')%Hrows.
    destruct (Hother t' i' n' Hq') as [E|[-> ->]]; [done|].
    rewrite (Hname n' Hq') in Hne'. by destruct Hne'; apply Hv.
Qed.

Lemma alias_unique {A} (alias : A -> string) (l : list A) i j x y :
  NoDup (map alias l) -> l !! i = Some x -> l !! j = Some y -> alias x = alias y -> i = j.
Proof.
  intros Hn Hx Hy E. eapply (NoDup_lookup _ _ _ (alias x) Hn); rewrite list_lookup_fmap;
    [by rewrite Hx|by rewrite Hy, E].
Qed.

Lemma numbered_lookup {A} t (name : A -> string) (l : list A) i x : l !! i = Some x ->
  (type_code t, Z.of_nat i, name x) ∈ numbered t name l.
Proof. intros Hx. apply elem_of_numbered. by exists i, x. Qed.

(** The aggregate of the float request [i]. *)
Definition float_value (a : AggregatedSignalArgs) (subject : string) (i : nat) (arg : FloatSignalArgs) (ts : Z)
  : option float64 :=
  floatAggExpr (fsa_Agg arg)
    (map (mkAggRow (type_code FloatType) (Z.of_nat i)) (agg_readings a subject (fsa_Name arg) (float_passes arg) ts)).

Definition string_value (a : AggregatedSignalArgs) (subject : string) (i : nat) (arg : StringSignalArgs) (ts : Z)
  : option string :=
  stringAggExpr (stsa_Agg arg)
    (map (mkAggRow (type_code StringType) (Z.of_nat i)) (agg_readings a subject (stsa_Name arg) (fun _ => true) ts)).

Definition location_value (a : AggregatedSignalArgs) (subject : string) (i : nat)
    (arg : LocationSignalArgs * option SignalLocationFilter) (ts : Z) : option vssLocation :=
  location_agg (lsa_Agg arg.1)
    (map (mkAggRow (type_code LocType) (Z.of_nat i)) (agg_readings a subject (lsa_Name arg.1) (location_passes arg) ts)).

Lemma passes_float a i arg : aa_FloatArgs a !! i = Some arg ->
  passes a (type_code FloatType) (Z.of_nat i) = float_passes arg.
Proof. intros H. unfold passes. rewrite Z.eqb_refl, Nat2Z.id. by rewrite H. Qed.

Lemma passes_location a i arg : aa_LocationArgs a !! i = Some arg ->
  passes a (type_code LocType) (Z.of_nat i) = location_passes arg.
Proof. intros H. unfold passes. rewrite Nat2Z.id. cbn. by rewrite H. Qed.

Ltac other_type := unfold number_at, string_at, location_at_alias, agg_of; by left.

Lemma float_written a subject fs i arg ts : loc_filters (aa_LocationArgs a) = Ok fs ->
  NoDup (map fsa_Alias (aa_FloatArgs a)) -> aa_FloatArgs a !! i = Some arg ->
  last_write (number_at a (fsa_Alias arg)) None (rows_at ts (bucket_rows a subject fs)) =
  float_value a subject i arg ts.
Proof.
  intros Hf Hn Hx.
  assert (Hq : (type_code FloatType, Z.of_nat i, fsa_Name arg) ∈
    aggValuesTable (aa_FloatArgs a) (aa_StringArgs a) (aa_LocationArgs a))
    by (apply elem_of_app; left; by apply numbered_lookup).
  eapply write_exact; [exact Hf|exact Hq|..]; rewrite ?(passes_float a i arg Hx).
  - unfold float_value. rewrite floatAggExpr_none. apply map_nil_iff.
  - intros t' i' n' [Hpos [[-> (y & Hy & _)]|[[-> _]|[-> _]]]]%request_type; [|other_type..].
    unfold number_at, agg_of. cbn [as_SignalType as_SignalIndex as_ValueNumber].
    change (code_type (type_code FloatType)) with FloatType. cbv iota. rewrite Hy.
    cbn [mbind option_bind]. destruct (String.eqb_spec (fsa_Alias y) (fsa_Alias arg)) as [E|]; [|by left].
    right. pose proof (alias_unique _ _ _ _ _ _ Hn Hy Hx E). split; [done|lia].
  - intros Hne. unfold number_at, agg_of. cbn [as_SignalType as_SignalIndex as_ValueNumber].
    change (code_type (type_code FloatType)) with FloatType. cbv iota. rewrite Nat2Z.id, Hx.
    cbn [mbind option_bind]. rewrite String.eqb_refl, (group_of_bucket _ _ _ _ _ _ _ Hf Hq), (passes_float a i arg Hx).
    unfold floatCaseSQL. rewrite Z.eqb_refl, Nat2Z.id, Hx. cbn [mbind option_bind].
    eapply none_default; [apply floatAggExpr_none|]. by intros E%fmap_nil_inv.
Qed.

Lemma string_written a subject fs i arg ts : loc_filters (aa_LocationArgs a) = Ok fs ->
  NoDup (map stsa_Alias (aa_StringArgs a)) -> aa_StringArgs a !! i = Some arg ->
  last_write (string_at a (stsa_Alias arg)) None (rows_at ts (bucket_rows a subject fs)) =
  string_value a subject i arg ts.
Proof.
  intros Hf Hn Hx.
  assert (Hq : (type_code StringType, Z.of_nat i, stsa_Name arg) ∈
    aggValuesTable (aa_FloatArgs a) (aa_StringArgs a) (aa_LocationArgs a))
    by (apply elem_of_app; right; apply elem_of_app; left; by apply numbered_lookup).
  eapply write_exact; [exact Hf|exact Hq|..];
    change (passes a (type_code StringType) (Z.of_nat i)) with (fun _ : SignalRow => true).
  - unfold string_value. rewrite stringAggExpr_none. apply map_nil_iff.
  - intros t' i' n' [Hpos [[-> _]|[[-> (y & Hy & _)]|[-> _]]]]%request_type; [other_type| |other_type].
    unfold string_at, agg_of. cbn [as_SignalType as_SignalIndex as_ValueString].
    change (code_type (type_code StringType)) with StringType. cbv iota. rewrite Hy.
    cbn [mbind option_bind]. destruct (String.eqb_spec (stsa_Alias y) (stsa_Alias arg)) as [E|]; [|by left].
    right. pose proof (alias_unique _ _ _ _ _ _ Hn Hy Hx E). split; [done|lia].
  - intros Hne. unfold string_at, agg_of. cbn [as_SignalType as_SignalIndex as_ValueString].
    change (code_type (type_code StringType)) with StringType. cbv iota. rewrite Nat2Z.id, Hx.
    cbn [mbind option_bind]. rewrite String.eqb_refl, (group_of_bucket _ _ _ _ _ _ _ Hf Hq).
    change (passes a (type_code StringType) (Z.of_nat i)) with (fun _ : SignalRow => true).
    unfold stringCaseSQL. rewrite Z.eqb_refl, Nat2Z.id, Hx. cbn [mbind option_bind].
    eapply none_default; [apply stringAggExpr_none|]. by intros E%fmap_nil_inv.
Qed.

Lemma location_written a subject fs i arg ts : loc_filters (aa_LocationArgs a) = Ok fs ->
  NoDup (map (fun la => lsa_Alias la.1) (aa_LocationArgs a)) -> aa_LocationArgs a !! i = Some arg ->
  last_write (location_at_alias a (lsa_Alias arg.1)) None (rows_at ts (bucket_rows a subject fs)) =
  location_value a subject i arg ts.
Proof.
  intros Hf Hn Hx.
  assert (Hq : (type_code LocType, Z.of_nat i, lsa_Name arg.1) ∈
    aggValuesTable (aa_FloatArgs a) (aa_StringArgs a) (aa_LocationArgs a)).
  { apply elem_of_app; right; apply elem_of_app; right.
    exact (numbered_lookup LocType (fun l => lsa_Name l.1) _ _ _ Hx). }
  eapply write_exact; [exact Hf|exact Hq|..]; rewrite ?(passes_location a i arg Hx).
  - unfold location_value, location_agg.
    destruct (agg_readings a subject (lsa_Name arg.1) (location_passes arg) ts); done.
  - intros t' i' n' [Hpos [[-> _]|[[-> _]|[-> (y & Hy & _)]]]]%request_type; [other_type..|].
    unfold location_at_alias, agg_of. cbn [as_SignalType as_SignalIndex as_ValueLocation].
    change (code_type (type_code LocType)) with LocType. unfold loc_args in *. cbv iota. rewrite Hy.
    cbn [mbind option_bind]. destruct (String.eqb_spec (lsa_Alias y.1) (lsa_Alias arg.1)) as [E|]; [|by left].
    right. pose proof (alias_unique (fun la => lsa_Alias la.1) _ _ _ _ _ Hn Hy Hx E). split; [done|lia].
  - intros Hne. unfold location_at_alias, agg_of. cbn [as_SignalType as_SignalIndex as_ValueLocation].
    change (code_type (type_code LocType)) with LocType. cbv iota. rewrite Nat2Z.id, Hx.
    cbn [mbind option_bind]. rewrite String.eqb_refl, (group_of_bucket _ _ _ _ _ _ _ Hf Hq), (passes_location a i arg Hx).
    unfold agg_location, locationCaseSQL, loc_args. rewrite Z.eqb_refl, Nat2Z.id, Hx. cbn [mbind option_bind].
    unfold location_value, location_agg.
    destruct (agg_readings a subject (lsa_Name arg.1) (location_passes arg) ts); done.
Qed.

(** ** Accepted requests *)

Lemma accepted_request dec a : validateAggSigArgs dec (Some a) = None ->
  0 < aa_Interval a /\
  Z.of_nat (length (aa_FloatArgs a)) <= maxUint16 /\ Z.of_nat (length (aa_StringArgs a)) <= maxUint16 /\
  Z.of_nat (length (aa_LocationArgs a)) <= maxUint16 /\
  exists fs, loc_filters (aa_LocationArgs a) = Ok fs.
Proof.
  intros Hv. pose proof (validateAggSigArgs_spec dec a Hv) as (_ & _ & _ & Hi & _ & Hloc & _).
  unfold validateAggSigArgs in Hv. repeat case_match; try done; bools.
  split; [lia|]. split; [lia|]. split; [lia|]. split; [lia|]. clear -Hloc.
  induction (aa_LocationArgs a) as [|[la f] locs IH]; [by exists []|]. cbn [loc_filters snd].
  destruct IH as [fs Hfs]; [intros; eapply Hloc; by right|]. rewrite Hfs.
  assert (exists p, locationFilterSQL f = Ok p) as [p ->]; [|by exists (p :: fs)].
  destruct f as [f|]; [|by exists None]. destruct (Hloc la f ltac:(left)) as (_ & Hp & _).
  assert (exists p, pointInPolygonSQL (slf_InPolygon f) = Ok p) as [p Hpoly].
  { unfold pointInPolygonSQL.
    assert (exists ps, mapM id (slf_InPolygon f) = Some ps) as [ps ->]; [|by eexists].
    induction Hp as [|pt l (x & -> & _) _ [ps IH]]; [by exists []|]. exists (x :: ps).
    apply mapM_Some. apply mapM_Some in IH. by constructor. }
  unfold locationFilterSQL. destruct (slf_InCircle f) as [c|]; [destruct (icf_Center c); [by eexists|]|];
    (destruct (3 <=? _)%nat; [rewrite Hpoly|]; by eexists).
Qed.

(** The aggregation query, from the validated request to the buckets of the
    repository. For an accepted request whose aliases are distinct, over a backend
    whose aggregation query runs on the lake, [GetSignal] returns one bucket per
    bucket of time in which some request has a reading, in increasing order; the
    alias of every request holds its aggregate over exactly its readings there. *)
Theorem signal_query_spec {sb : SignalBackend} dec a :
  let subject := sia_Subject (aa_SignalArgs a) in
  validateAggSigArgs dec (Some a) = None ->
  zero_time < tsMicroLiteral (aa_FromTS a) ->
  NoDup (map fsa_Alias (aa_FloatArgs a)) -> NoDup (map stsa_Alias (aa_StringArgs a)) ->
  NoDup (map (fun la => lsa_Alias la.1) (aa_LocationArgs a)) ->
  (forall rows, GetAggregatedSignals DecodeEthrDID lake None subject (Some a) = Ok rows ->
                sb_GetAggregatedSignals subject a = Ok rows) ->
  exists out, GetSignal dec (Some a) = Ok out /\
    StronglySorted (fun x y => sg_Timestamp x < sg_Timestamp y) out /\
    (forall b, b ∈ out ->
       (forall i arg, aa_FloatArgs a !! i = Some arg ->
          ValueNumbers b !! fsa_Alias arg = float_value a subject i arg (sg_Timestamp b)) /\
       (forall i arg, aa_StringArgs a !! i = Some arg ->
          ValueStrings b !! stsa_Alias arg = string_value a subject i arg (sg_Timestamp b)) /\
       (forall i arg, aa_LocationArgs a !! i = Some arg ->
          ValueLocations b !! lsa_Alias arg.1 = location_value a subject i arg (sg_Timestamp b))) /\
    (forall ts, (exists b, b ∈ out /\ sg_Timestamp b = ts) <->
       exists t i n, (t, i, n) ∈ aggValuesTable (aa_FloatArgs a) (aa_StringArgs a) (aa_LocationArgs a) /\
                     agg_readings a subject n (passes a t i) ts <> []).
Proof.
  intros subject Hv Hz Hnf Hns Hnl Hsb.
  pose proof (accepted_request dec a Hv) as (Hi & Lf & Ls & Ll & fs & Hf).
  pose proof (GetAggregatedSignals_run a subject fs Hi Hf Lf Ls Ll) as Hrun.
  destruct (GetAggregatedSignals_inv _ _ _ _ Hrun) as [E0|(fs' & _ & _ & Hf' & Hu & _)].
  { unfold GetSignal. rewrite Hv. cbv iota. fold subject. rewrite (Hsb _ Hrun), E0. cbn.
    exists []. split; [done|]. split; [constructor|]. split; [intros b Hb; by apply elem_of_nil in Hb|].
    intros ts. split; [by intros (b & Hb%elem_of_nil & _)|]. intros (t & i & n & Hq & Hne).
    assert (Hk : (ts, t, i) ∈ group_keys (bucket_key a) (agg_input DecodeEthrDID lake subject a fs))
      by (apply elem_of_bucket_keys; [done|by exists n]).
    unfold bucket_rows in E0. apply fmap_nil_inv in E0. rewrite E0 in Hk. by apply elem_of_nil in Hk. }
  assert (fs' = fs) as -> by congruence.
  assert (Htyped : Forall (agg_row_typed a) (bucket_rows a subject fs)).
  { apply Forall_forall. intros s (k & -> & Hk)%list_elem_of_fmap. apply bucket_row_typed; auto. }
  destruct (signal_loop_buckets a (bucket_rows a subject fs)) as (out & Hloop & Hs & Hts & Hfold).
  - eapply Forall_impl; [exact Htyped|]. by intros s [].
  - eapply SSorted_impl; [|apply (bucket_rows_sorted a subject fs Hf)]. intros x y [H _].
    revert H. unfold row_key, gkey_leb. lia.
  - eapply Forall_impl; [exact Htyped|]. intros s [_ _ _ (k & Hk & E) _].
    assert (0 <= k * (aa_Interval a * Microsecond)) by (unfold Microsecond, Nanosecond; nia). lia.
  - exists out. split; [|split; [done|split]].
    + unfold GetSignal. rewrite Hv. cbv iota. fold subject. by rewrite (Hsb _ Hrun).
    + intros b Hb. apply Hfold, fold_store_writes in Hb as (W1 & W2 & W3).
      split; [|split]; intros i arg Hx; rewrite ?W1, ?W2, ?W3; cbn [ValueNumbers ValueStrings ValueLocations new_aggs];
        rewrite lookup_empty; [by apply float_written|by apply string_written|by apply location_written].
    + intros ts. rewrite Hts. split.
      * intros (s & ([[ts' t] i] & -> & Hk)%list_elem_of_fmap & <-). rewrite as_Timestamp_agg_of.
        apply elem_of_bucket_keys in Hk as (n & Hq & Hne); [|done]. by exists t, i, n.
      * intros (t & i & n & Hq & Hne).
        exists (agg_of a (agg_input DecodeEthrDID lake subject a fs) (ts, t, i)).
        split; [|apply as_Timestamp_agg_of]. apply list_elem_of_fmap. exists (ts, t, i). split; [done|].
        apply elem_of_bucket_keys; [done|]. by exists n.
Qed.

(** ** The batch over segment ranges *)

Definition range_readings (subject n : string) (r : TimeRange) : list SignalRow :=
  List.filter (fun x => String.eqb (sr_Name x) n && in_time_range (sr_Timestamp x) r)
    (subject_rows lake subject None).

(** The row of a request over one range. *)
Definition range_row (subject : string) (floats : list FloatSignalArgs) (locs : loc_args) (r : TimeRange)
    (q : agg_request) : AggSignal :=
  let '(t, i, n) := q in
  let g := map (mkAggRow t i) (range_readings subject n r) in
  mkAggSignal (code_type t) i zero_time (floatCaseSQL floats t i g) "" (agg_location locs t i g).

Definition has_readings (subject : string) (r : TimeRange) (q : agg_request) : bool :=
  negb (is_empty (range_readings subject q.2 r)).

(** What one range holds: a row per request that has a reading in it. *)
Definition range_summary (subject : string) (floats : list FloatSignalArgs) (locs : loc_args) (r : TimeRange)
  : list AggSignal :=
  map (range_row subject floats locs r)
    (List.filter (has_readings subject r) (aggValuesTable floats [] locs)).

Definition ordered_ranges (ranges : list TimeRange) : Prop := StronglySorted (fun a b => To a <= From b) ranges.

Lemma literal_mono x y : x <= y -> tsMicroLiteral x <= tsMicroLiteral y.
Proof.
  intros H. unfold tsMicroLiteral, make_timestamp, UnixMicro.
  assert (x / Microsecond <= y / Microsecond) by (by apply Z.div_le_mono). unfold Microsecond, Nanosecond in *. lia.
Qed.

Lemma segmentIndexFrom_lookup ts ranges k i r : ordered_ranges ranges -> ranges !! i = Some r ->
  in_time_range ts r = true <-> segmentIndexFrom k ts ranges = Some (k + Z.of_nat i).
Proof.
  intros Ho. revert k i. induction Ho as [|r0 ranges Ho IH Hall]; intros k i Hi; [done|].
  cbn [segmentIndexFrom]. destruct i as [|i]; simpl in Hi.
  { injection Hi as ->. destruct (in_time_range ts r) eqn:E.
    - split; [|done]. intros _. f_equal. lia.
    - split; [done|]. intros H. exfalso.
      assert (Hge : forall l k j, segmentIndexFrom k ts l = Some j -> k <= j).
      { clear. induction l as [|r l IH]; intros k j; cbn [segmentIndexFrom]; [done|].
        case_match; [intros [= <-]; lia|]. intros Hj%IH. lia. }
      apply Hge in H. lia. }
  rewrite Forall_forall in Hall. pose proof (Hall r (list_elem_of_lookup_2 _ _ _ Hi)) as Hlt.
  destruct (in_time_range ts r0) eqn:E.
  - split; [|intros [=]; lia]. unfold in_time_range in *. intros H.
    pose proof (literal_mono _ _ Hlt). bools. lia.
  - rewrite (IH (k + 1) i Hi). split; intros H; rewrite H; f_equal; lia.
Qed.

Lemma group_of_range subject ranges gf gt floats locs i r t x n :
  ordered_ranges ranges -> Forall (fun r => gf <= From r /\ To r <= gt) ranges -> ranges !! i = Some r ->
  (t, x, n) ∈ aggValuesTable floats [] locs ->
  group_rows (seg_key ranges)
    (List.filter (fun j => 0 <=? (seg_key ranges j).1.1) (range_input lake subject ranges gf gt floats locs))
    (Z.of_nat i, t, x) =
  map (mkAggRow t x) (range_readings subject n r).
Proof.
  intros Ho Hg Hi Hq. unfold group_rows, range_input. rewrite !list_filter_andb.
  set (P := fun j => String.eqb (sr_Subject (j_row j)) subject && in_time_range (sr_Timestamp (j_row j)) r).
  rewrite (List.filter_ext _ (fun j => P j && bool_decide (j_type j = t /\ j_index j = x))).
  2:{ intros j. unfold P. rewrite <- !andb_assoc. f_equal. unfold seg_key, segmentIndexCaseSQL. cbn [fst].
      rewrite Forall_forall in Hg. destruct (Hg r (list_elem_of_lookup_2 _ _ _ Hi)) as [Hg1 Hg2].
      apply literal_mono in Hg1, Hg2.
      pose proof (segmentIndexFrom_lookup (sr_Timestamp (j_row j)) ranges 0 i r Ho Hi) as Hs.
      destruct (in_time_range (sr_Timestamp (j_row j)) r) eqn:E.
      - rewrite (proj1 Hs eq_refl). cbn [default fst snd]. unfold in_time_range in E. bools.
        rewrite (proj2 (Z.leb_le _ _)), (proj2 (Z.ltb_lt _ _)) by lia. cbn [andb].
        rewrite Z.add_0_l. simpl.
        replace (0 <=? Z.of_nat i) with true by (symmetry; apply Z.leb_le; lia). apply bool_decide_ext. split; [intros E'; by simplify_eq|by intros [-> ->]].
      - rewrite bool_decide_false; [by rewrite !andb_false_r|]. intros [= H _ _].
        destruct (segmentIndexFrom 0 (sr_Timestamp (j_row j)) ranges) as [k|]; simpl in H; [|lia].
        assert (false = true) by (apply Hs; f_equal; lia). done. }
  rewrite (agg_join_request P _ _ t x n) by (done || apply aggValues_keys). f_equal.
  rewrite deduped_named by (by eapply request_named). unfold range_readings, subject_rows.
  rewrite list_filter_andb. apply List.filter_ext. intros y. unfold P. cbn [j_row].
  destruct (String.eqb (sr_Subject y) subject), (String.eqb (sr_Name y) n); done.
Qed.

Lemma SSorted_app {A} (R : A -> A -> Prop) l1 l2 : StronglySorted R l1 -> StronglySorted R l2 ->
  (forall x y, x ∈ l1 -> y ∈ l2 -> R x y) -> StronglySorted R (l1 ++ l2).
Proof.
  induction 1 as [|x l1 Hs IH Hall]; intros H2 H; [done|]. simpl. constructor.
  - apply IH; [done|]. intros; apply H; [by right|done].
  - apply Forall_app. split; [done|]. apply Forall_forall. intros y Hy. apply H; [left|done].
Qed.

Lemma numbered_sorted {A} t (name : A -> string) (l : list A) :
  StronglySorted (fun p q : agg_request => p.1.1 = q.1.1 /\ p.1.2 < q.1.2) (numbered t name l).
Proof.
  unfold numbered. assert (H : forall k,
    StronglySorted (fun p q : agg_request => p.1.1 = q.1.1 /\ p.1.2 < q.1.2)
      (imap (fun i a => (type_code t, Z.of_nat (i + k), name a)) l)).
  { induction l as [|x l IH]; intros k; [constructor|]. rewrite imap_cons.
    rewrite (imap_ext (_ ∘ S) (fun i a => (type_code t, Z.of_nat (i + S k), name a)))
      by (intros i y _; simpl; do 3 f_equal; lia).
    constructor; [apply IH|]. apply Forall_forall. intros q Hq. apply elem_of_lookup_imap in Hq as (i & y & -> & _).
    simpl. split; [done|lia]. }
  rewrite (imap_ext _ (fun i a => (type_code t, Z.of_nat (i + 0), name a))); [apply H|].
  intros i y _. simpl. by rewrite Nat.add_0_r.
Qed.

Definition request_lt (p q : agg_request) : Prop := p.1.1 < q.1.1 \/ (p.1.1 = q.1.1 /\ p.1.2 < q.1.2).

Lemma numbered_code {A} t (name : A -> string) (l : list A) q : q ∈ numbered t name l -> q.1.1 = type_code t.
Proof. by intros (i & a & _ & ->)%elem_of_numbered. Qed.

Lemma aggValues_sorted floats strings locs : StronglySorted request_lt (aggValuesTable floats strings locs).
Proof.
  assert (H : forall A t (name : A -> string) l, StronglySorted request_lt (numbered t name l)).
  { intros A t name l. eapply SSorted_impl; [|apply numbered_sorted]. intros p q ?. by right. }
  unfold aggValuesTable. apply SSorted_app; [apply H|apply SSorted_app; [apply H..|]|].
  - intros p q Hp%numbered_code Hq%numbered_code. left. by rewrite Hp, Hq.
  - intros p q Hp%numbered_code [Hq%numbered_code|Hq%numbered_code]%elem_of_app; left; by rewrite Hp, Hq.
Qed.

Definition range_agg (s : AggSignalForRange) : AggSignal :=
  mkAggSignal (asr_SignalType s) (asr_SignalIndex s) zero_time (asr_ValueNumber s) (asr_ValueString s)
    (asr_ValueLocation s).

Lemma scatter_lookup rows i :
  default [] (scatterAggsByIndex rows !! i) = map range_agg (List.filter (fun s => asr_SegIndex s =? i) rows).
Proof.
  unfold scatterAggsByIndex.
  match goal with |- context [fold_left ?f rows ∅] => set (F := f) end.
  assert (H : forall m, default [] (fold_left F rows m !! i) =
    default [] (m !! i) ++ map range_agg (List.filter (fun s => asr_SegIndex s =? i) rows)).
  { induction rows as [|s rows IH]; intros m; cbn [fold_left List.filter]; [by rewrite app_nil_r|].
    rewrite IH. unfold F at 1. destruct (Z.eqb_spec (asr_SegIndex s) i) as [E|E].
    - rewrite E, lookup_insert_eq. simpl. by rewrite <- app_assoc.
    - by rewrite lookup_insert_ne. }
  rewrite H, lookup_empty. done.
Qed.

Definition range_of_key (subject : string) (ranges : list TimeRange) (floats : list FloatSignalArgs)
    (locs : loc_args) (rows : list agg_row) (k : group_key) : AggSignalForRange :=
  let '(seg, t, i) := k in
  let g := group_rows (seg_key ranges) rows k in
  mkAggSignalForRange seg (code_type t) i (floatCaseSQL floats t i g) (stringCaseSQL [] t i g) (agg_location locs t i g).

Definition seg_request (i : Z) (q : agg_request) : group_key := (i, q.1.1, q.1.2).

#[local] Instance gkey_antisymm : AntiSymm (=) (fun a b => gkey_leb a b = true).
Proof. intros a b. apply gkey_antisym. Qed.

Section batch.
Context (subject : string) (ranges : list TimeRange) (gf gt : Z) (floats : list FloatSignalArgs) (locs : loc_args).
Context (Ho : ordered_ranges ranges).
Context (Hg : Forall (fun r => gf <= From r /\ To r <= gt) ranges).

Definition batch_rows : list agg_row :=
  List.filter (fun j => 0 <=? (seg_key ranges j).1.1) (range_input lake subject ranges gf gt floats locs).

Lemma batch_key_request seg t x : (seg, t, x) ∈ group_keys (seg_key ranges) batch_rows ->
  exists n, (t, x, n) ∈ aggValuesTable floats [] locs.
Proof.
  intros (j & Hj & Ek)%elem_of_group_keys. unfold seg_key in Ek. injection Ek as _ <- <-.
  unfold batch_rows, range_input in Hj. apply elem_of_list_filter in Hj as [Hj _].
  apply elem_of_list_filter in Hj as [Hj _]. apply elem_of_agg_join in Hj as [_ Hq].
  by exists (sr_Name (j_row j)).
Qed.

Lemma elem_of_batch_keys i r t x : ranges !! i = Some r ->
  (Z.of_nat i, t, x) ∈ group_keys (seg_key ranges) batch_rows <->
  exists n, (t, x, n) ∈ aggValuesTable floats [] locs /\ range_readings subject n r <> [].
Proof.
  intros Hi. split.
  - intros Hk. destruct (batch_key_request _ _ _ Hk) as [n Hq]. exists n. split; [done|].
    apply group_rows_nonempty in Hk. unfold batch_rows in Hk.
    rewrite (group_of_range _ _ _ _ _ _ _ _ _ _ _ Ho Hg Hi Hq) in Hk. intros E. by rewrite E in Hk.
  - intros (n & Hq & Hne). apply elem_of_group_keys.
    destruct (group_rows (seg_key ranges) batch_rows (Z.of_nat i, t, x)) as [|j g] eqn:Eg.
    { unfold batch_rows in Eg. rewrite (group_of_range _ _ _ _ _ _ _ _ _ _ _ Ho Hg Hi Hq) in Eg.
      by apply fmap_nil_inv in Eg. }
    exists j. assert (Hj : j ∈ j :: g) by left. rewrite <- Eg in Hj. unfold group_rows in Hj.
    apply elem_of_list_filter in Hj as [Hj Ek]. by apply bool_decide_eq_true in Ek.
Qed.

(** The keys of one segment, in order. *)
Lemma segment_keys i r : ranges !! i = Some r ->
  List.filter (fun k : group_key => k.1.1 =? Z.of_nat i) (group_keys (seg_key ranges) batch_rows) =
  map (seg_request (Z.of_nat i)) (List.filter (has_readings subject r) (aggValuesTable floats [] locs)).
Proof.
  intros Hi. apply (StronglySorted_unique (fun a b => gkey_leb a b = true)).
  - apply list_filter_sorted. eapply SSorted_impl; [|apply group_keys_sorted]. by intros a b [].
  - apply SSorted_map. apply list_filter_sorted. eapply SSorted_impl; [|apply aggValues_sorted].
    intros p q. unfold request_lt, seg_request, gkey_leb. lia.
  - apply NoDup_Permutation.
    + apply (NoDup_fmap_1 (fun k => k)). apply NoDup_map_filter.
      change (NoDup (map (fun k => k) (group_keys (seg_key ranges) batch_rows))). rewrite list_fmap_id. apply group_keys_NoDup.
    + apply (NoDup_fmap_1 (fun k : group_key => (k.1.2, k.2))).
      match goal with |- NoDup ?l => replace l with
        (map fst (List.filter (has_readings subject r) (aggValuesTable floats [] locs))) end.
      * apply NoDup_map_filter, aggValues_keys.
      * rewrite <- list_fmap_compose. apply List.map_ext. by intros [[??]?].
    + intros [[seg t] x]. rewrite elem_of_list_filter, list_elem_of_fmap. cbn [fst]. split.
      * intros [Hk ->%Z.eqb_eq]. apply (elem_of_batch_keys i r) in Hk as (n & Hq & Hne); [|done].
        exists (t, x, n). split; [done|]. apply elem_of_list_filter. split; [done|].
        unfold has_readings. cbn [snd]. by destruct (range_readings subject n r).
      * intros ([[t' x'] n] & [= -> -> ->] & [Hq Hne]%elem_of_list_filter). split; [|apply Z.eqb_refl].
        apply (elem_of_batch_keys i r); [done|]. exists n. split; [done|].
        unfold has_readings in Hne. cbn [snd] in Hne. by destruct (range_readings subject n r).
Qed.
End batch.

(** C24. The batched summary is the summary of each segment. For segment ranges in
    order that do not overlap, inside the batch's envelope (what
    [buildSegmentRanges] makes), the one batch query succeeds, and the rows
    scattered to each segment are the rows of that segment alone: one row per
    request that has a reading in the segment's range, in the order of the
    requests, holding the aggregate over exactly the subject's deduplicated
    readings of that name in that range. *)
Theorem batch_is_per_segment subject ranges gf gt floats locations :
  ordered_ranges ranges -> Forall (fun r => gf <= From r /\ To r <= gt) ranges ->
  Z.of_nat (length floats) <= maxUint16 -> Z.of_nat (length locations) <= maxUint16 ->
  exists rows, GetAggregatedSignalsForRanges lake None subject ranges gf gt floats locations = Ok rows /\
    forall i r, ranges !! i = Some r ->
      default [] (scatterAggsByIndex rows !! Z.of_nat i) =
      range_summary subject floats (map no_filter locations) r.
Proof.
  intros Ho Hg Lf Ll. set (locs := map no_filter locations).
  set (rows := batch_rows subject ranges gf gt floats locs).
  set (keys := group_keys (seg_key ranges) rows).
  set (out := map (range_of_key subject ranges floats locs rows) keys).
  assert (Hreq : forall seg t x, (seg, t, x) ∈ keys ->
    scan_type t = Ok (code_type t) /\ x <= maxUint16).
  { intros seg t x (n & Hq)%(batch_key_request _ _ _ _ _ _ Ho Hg). split; [by eapply request_scan|].
    apply request_type in Hq as [_ Hq]. unfold loc_args in *.
    destruct Hq as [[_ (y & Hy & _)]|[[_ (y & Hy & _)]|[_ (y & Hy & _)]]]; [|done|];
      apply lookup_lt_Some in Hy; rewrite ?length_map in Hy; unfold locs in Hy; rewrite ?length_map in Hy; lia. }
  assert (Hscan : scan_loop (scan_range ranges floats locs rows) keys = Ok out).
  { apply scan_loop_ok. intros [[seg t] x] [E _]%Hreq. unfold scan_range. by rewrite E. }
  assert (Hfits : forallb fits_usmallint keys = true).
  { apply List.forallb_forall. intros [[seg t] x] [_ H]%list_elem_of_In%Hreq. by apply Z.leb_le. }
  assert (Hseg : forall i r, ranges !! i = Some r ->
    map range_agg (List.filter (fun s => asr_SegIndex s =? Z.of_nat i) out) = range_summary subject floats locs r).
  { intros i r Hi. unfold out, range_summary.
    assert (E : forall l, List.filter (fun s => asr_SegIndex s =? Z.of_nat i)
                 (map (range_of_key subject ranges floats locs rows) l) =
               map (range_of_key subject ranges floats locs rows)
                 (List.filter (fun k : group_key => k.1.1 =? Z.of_nat i) l)).
    { induction l as [|[[seg t] x] l IH]; [done|]. cbn [map List.filter fst]. rewrite IH.
      change (asr_SegIndex (range_of_key subject ranges floats locs rows (seg, t, x))) with seg.
      by destruct (seg =? Z.of_nat i). }
    rewrite E. unfold keys, rows. rewrite (segment_keys subject ranges gf gt floats locs Ho Hg i r Hi).
    rewrite !List.map_map. apply map_ext_in. intros [[t x] n] [Hq _]%filter_In.
    apply list_elem_of_In in Hq. unfold range_of_key, seg_request, range_row, range_agg. cbn [fst snd].
    unfold batch_rows. rewrite (group_of_range _ _ _ _ _ _ _ _ _ _ _ Ho Hg Hi Hq).
    unfold stringCaseSQL. rewrite lookup_nil. by destruct (t =? type_code StringType). }
  unfold GetAggregatedSignalsForRanges. fold locs.
  destruct (is_empty ranges) eqn:Er.
  { exists []. split; [done|]. intros i r Hi. by destruct ranges. }
  destruct (is_empty floats && is_empty locations) eqn:Ea.
  { exists []. split; [done|]. intros i r Hi. unfold scatterAggsByIndex. cbn [fold_left].
    rewrite lookup_empty. by destruct floats, locations. }
  fold (batch_rows subject ranges gf gt floats locs). fold rows. fold keys. rewrite Hfits.
  exists out. split; [exact Hscan|]. intros i r Hi. rewrite scatter_lookup. by apply Hseg.
Qed.
End duck.

(** ** An instance *)

Definition demo_duck : DuckDB := {|
  avg l := f64_div (fold_right f64_add f64_zero l) (f64_of_Z (Z.of_nat (length l)));
  median l := nth (length l / 2) (order_by (fun x => x) f64_leb l) f64_zero;
  mode l := default ""%string (head l);
  random _ _ r := sr_Timestamp r;
  ST_Distance_Sphere p q := f64_add (f64_sub q.1 p.1) (f64_sub q.2 p.2);
  ST_Contains ring p := existsb (fun v => f64_leb v.1 p.1) ring && existsb (fun v => f64_leb p.1 v.1) ring;
|}.

Definition demo_reading (name ceid : string) (seconds : Z) (v : float64) : SignalRow :=
  mkSignalRow "did:v" (HashBucket "did:v") name (seconds * Second) "src" "prod" ceid v ""
    (f64_of_Z 52) (f64_of_Z seconds) f64_zero f64_zero.

(** Two readings of the first minute, one delivered twice, and one of the next. *)
Definition demo_lake : list SignalRow :=
  [demo_reading "speed" "b" 5 (f64_of_Z 99); demo_reading "speed" "a" 5 (f64_of_Z 20);
   demo_reading "speed" "c" 30 (f64_of_Z 40); demo_reading "speed" "d" 70 (f64_of_Z 7);
   demo_reading "currentLocationCoordinates" "e" 30 f64_zero].

Definition demo_args : AggregatedSignalArgs :=
  mkAggregatedSignalArgs (mkSignalArgs None "did:v") 0 (120 * Second) 60000000
    [mkFloatSignalArgs "speed" "AVG" "mean" None;
     mkFloatSignalArgs "speed" "MAX" "top" None] []
    [(mkLocationSignalArgs "currentLocationCoordinates" "LAST" "where", None)].

Definition no_did (_ : string) : option string := None.

Definition demo_backend : SignalBackend := {|
  sb_GetAggregatedSignals subject a :=
    match @GetAggregatedSignals demo_duck no_did demo_lake None subject (Some a) with
    | Ok rows => Ok rows
    | Err _ => Err (mkDbError false "failed")
    end;
  sb_GetAvailableSignals _ _ := Ok [];
  sb_GetAllLatestSignals _ _ := Ok [];
  sb_GetLatestSignals _ _ := Ok [];
  sb_GetSignalSummaries _ _ := Ok [];
  sb_GetEventSummaries _ := Ok [];
  sb_GetEvents _ _ _ _ := Ok [];
|}.

Example aggregation_rows_typed_witness :
  exists rows, @GetAggregatedSignals demo_duck no_did demo_lake None "did:v" (Some demo_args) = Ok rows /\
    map row_key rows = [(0, 1, 0); (0, 1, 1); (0, 3, 0); (60 * Second, 1, 0); (60 * Second, 1, 1)] /\
    Forall (agg_row_typed demo_args) rows.
Proof.
  destruct (@GetAggregatedSignals demo_duck no_did demo_lake None "did:v" (Some demo_args)) as [rows|] eqn:E;
    [|exfalso; vm_compute in E; discriminate].
  exists rows. split; [done|].
  split; [vm_compute in E; injection E as <-; vm_compute; reflexivity|].
  exact (proj1 (@aggregation_rows_typed demo_duck no_did demo_lake demo_args "did:v" None rows E)).
Defined.

Example signal_query_demo :
  exists out, @GetSignal demo_backend (fun _ => true) (Some demo_args) = Ok out /\
    map (fun b => (sg_Timestamp b, ValueNumbers b !! "top", ValueNumbers b !! "mean")) out =
      [(0, Some (f64_of_Z 40), Some (f64_of_Z 30)); (60 * Second, Some (f64_of_Z 7), Some (f64_of_Z 7))] /\
    forall b, b ∈ out -> ValueNumbers b !! "top" =
      @float_value demo_duck no_did demo_lake demo_args "did:v" 1 (mkFloatSignalArgs "speed" "MAX" "top" None)
        (sg_Timestamp b).
Proof.
  destruct (@signal_query_spec demo_duck no_did demo_lake demo_backend (fun _ => true) demo_args)
    as (out & E & _ & Hb & _).
  - vm_compute. reflexivity.
  - vm_compute. reflexivity.
  - apply (bool_decide_unpack _). vm_compute. exact I.
  - constructor.
  - apply (bool_decide_unpack _). vm_compute. exact I.
  - intros rows E. unfold demo_backend. cbn [sb_GetAggregatedSignals]. by rewrite E.
  - exists out. split; [exact E|]. split.
    + vm_compute in E. injection E as <-. vm_compute. reflexivity.
    + intros b H. destruct (Hb b H) as (Hf & _). exact (Hf 1%nat _ eq_refl).
Qed.

Example batch_is_per_segment_witness :
  let ranges := [mkTimeRange 0 (60 * Second); mkTimeRange (60 * Second) (120 * Second)] in
  exists rows, @GetAggregatedSignalsForRanges demo_duck demo_lake None "did:v" ranges 0 (120 * Second)
      [mkFloatSignalArgs "speed" "MAX" "top" None] [mkLocationSignalArgs "currentLocationCoordinates" "LAST" "where"]
    = Ok rows /\
    map as_ValueNumber (default [] (scatterAggsByIndex rows !! 1)) = [f64_of_Z 7] /\
    map as_SignalType (default [] (scatterAggsByIndex rows !! 0)) = [FloatType; LocType].
Proof.
  intros ranges.
  destruct (@batch_is_per_segment demo_duck demo_lake "did:v" ranges 0 (120 * Second)
    [mkFloatSignalArgs "speed" "MAX" "top" None] [mkLocationSignalArgs "currentLocationCoordinates" "LAST" "where"])
    as (rows & E & H).
  - repeat constructor. vm_compute. discriminate.
  - repeat constructor; vm_compute; discriminate.
  - vm_compute. discriminate.
  - vm_compute. discriminate.
  - exists rows. split; [exact E|]. change 1 with (Z.of_nat 1). change 0 with (Z.of_nat 0).
    rewrite (H 1%nat _ eq_refl), (H 0%nat _ eq_refl). split; vm_compute; reflexivity.
Defined.
