(* ===== verification/AggMeaning.v ===== *)
(** * What an aggregation asks for

    The meaning of a requested aggregate, told over the stored rows and apart from
    the statements of aggregations.go: which rows of lake.signals are the readings
    of a request, what a geofence contains, when a reading falls in a bucket, and
    what the aggregates of a group of readings are. Then that the statements'
    expressions compute it. *)

From S2P Require Import Prelude Model SegRepo Validate SignalsRepo Decode Sql LakeSource LakeLatest RawEvents SqlFilter Aggregations AggSpec.

#[local] Set Default Proof Using "Type*".

(** ** Comparisons of binary64 *)

(** The place of a number on the line; NaN has none. *)
Definition rank (x : float64) : option (Z * Z * Z) :=
  match x with
  | S754_zero _ => Some (0, 0, 0)
  | S754_infinity s => Some (if s then -2 else 2, 0, 0)
  | S754_nan => None
  | S754_finite s m e => Some (if s then (-1, - e, - Zpos m) else (1, e, Zpos m))
  end.

Definition below (a b : Z * Z * Z) : Prop :=
  a.1.1 < b.1.1 \/ (a.1.1 = b.1.1 /\ (a.1.2 < b.1.2 \/ (a.1.2 = b.1.2 /\ a.2 < b.2))).

Ltac compared := split; [intros ?; try discriminate; lia|intros ?; first [reflexivity|exfalso; lia]].

Lemma f64_ltb_rank x y : f64_ltb x y = true <->
  match rank x, rank y with Some a, Some b => below a b | _, _ => False end.
Proof.
  unfold f64_ltb, SFltb, SFcompare, below.
  destruct x as [s|s| |s m e], y as [s'|s'| |s' m' e']; simpl; try (by split);
    try (destruct s; simpl; compared); try (destruct s'; simpl; compared);
    destruct s, s'; simpl; try compared;
    destruct (Z.compare_spec e e'); simpl; try compared;
    change (PosDef.Pos.compare_cont Eq m m') with (m ?= m')%positive;
    destruct (Pos.compare_spec m m'); simpl; compared.
Qed.

Lemma f64_ltb_trans x y z : f64_ltb x y = true -> f64_ltb y z = true -> f64_ltb x z = true.
Proof.
  rewrite !f64_ltb_rank. destruct (rank x), (rank y), (rank z); try done. unfold below. lia.
Qed.

Lemma f64_ltb_irrefl x : f64_ltb x x = false.
Proof. apply not_true_iff_false. rewrite f64_ltb_rank. destruct (rank x); [|tauto]. unfold below. lia. Qed.

(** The extremum of a list under a strict order, as the aggregates fold it. *)
Section extremum.
Context {A : Type} (lt : A -> A -> bool).
Context (trans : forall x y z, lt x y = true -> lt y z = true -> lt x z = true).
Context (irrefl : forall x, lt x x = false).

Fixpoint pick (d : A) (l : list A) : A :=
  match l with [] => d | x :: l => pick (if lt x d then x else d) l end.

Lemma pick_le d l : pick d l = d \/ lt (pick d l) d = true.
Proof using trans.
  revert d. induction l as [|x l IH]; intros d; cbn [pick]; [by left|].
  destruct (lt x d) eqn:E; [|apply IH]. right.
  destruct (IH x) as [->|H]; [done|]. by eapply trans.
Qed.

Lemma pick_spec d l : pick d l ∈ d :: l /\ forall x, x ∈ d :: l -> lt x (pick d l) = false.
Proof using trans irrefl.
  assert (Hd : forall e l x, x = e \/ lt x e = false -> lt x (pick e l) = false).
  { clear d l. intros e l x Hx. apply not_true_iff_false. intros H.
    destruct (pick_le e l) as [E|E].
    - rewrite E in H. destruct Hx as [->|Hx]; [by rewrite irrefl in H|congruence].
    - pose proof (trans _ _ _ H E) as H'. destruct Hx as [->|Hx]; [by rewrite irrefl in H'|congruence]. }
  revert d. induction l as [|y l IH]; intros d; cbn [pick].
  { split; [left|]. intros x ->%list_elem_of_singleton. apply irrefl. }
  destruct (IH (if lt y d then y else d)) as [Hin Hl]. split.
  - destruct (lt y d); [by right|]. apply elem_of_cons in Hin as [->|Hin]; [left|by do 2 right].
  - intros x [->|[->|Hx]%elem_of_cons]%elem_of_cons; [| |apply Hl; by right]; apply Hd;
      destruct (lt y d) eqn:E; auto.
    right. apply not_true_iff_false. intros H. pose proof (trans _ _ _ H E). by rewrite irrefl in *.
Qed.
End extremum.

Lemma f64_min_pick d l : f64_min d l = pick f64_ltb d l.
Proof. revert d. induction l as [|x l IH]; intros d; [done|]. apply IH. Qed.

Lemma f64_max_pick d l : f64_max d l = pick (fun x y => f64_ltb y x) d l.
Proof. revert d. induction l as [|x l IH]; intros d; [done|]. apply IH. Qed.

(** ** Aggregates of a group of readings *)

Definition values {A} (f : SignalRow -> A) (g : list SignalRow) : list A := map f g.

(** The one of the readings [g] that was taken first, or last. *)
Definition oldest_of (g : list SignalRow) (r : SignalRow) : Prop :=
  r ∈ g /\ forall r', r' ∈ g -> sr_Timestamp r <= sr_Timestamp r'.
Definition newest_of (g : list SignalRow) (r : SignalRow) : Prop :=
  r ∈ g /\ forall r', r' ∈ g -> sr_Timestamp r' <= sr_Timestamp r.

Section duck.
Context {D : DuckDB}.

(** [v] is what the float aggregate [agg] answers over the readings [g]; no
    readings, no value. *)
Definition float_result (agg : string) (g : list SignalRow) (v : option float64) : Prop :=
  match v with
  | None => g = []
  | Some x =>
      g <> [] /\
      let l := values sr_ValueNumber g in
      if String.eqb agg "MIN" then x ∈ l /\ forall y, y ∈ l -> f64_ltb y x = false
      else if String.eqb agg "MAX" then x ∈ l /\ forall y, y ∈ l -> f64_ltb x y = false
      else if String.eqb agg "MED" then x = median l
      else if String.eqb agg "FIRST" then exists r, oldest_of g r /\ x = sr_ValueNumber r
      else if String.eqb agg "LAST" then exists r, newest_of g r /\ x = sr_ValueNumber r
      else if String.eqb agg "RAND" then x ∈ l
      else x = avg l
  end.

(** [UNIQUE]: the values without repetition, in order, joined by commas. *)
Definition string_result (agg : string) (g : list SignalRow) (v : option string) : Prop :=
  match v with
  | None => g = []
  | Some x =>
      g <> [] /\
      let l := values sr_ValueString g in
      if String.eqb agg "UNIQUE"
      then exists u, x = String.concat "," u /\ NoDup u /\ StronglySorted (fun a b => sleb a b = true) u /\
                     forall s, s ∈ u <-> s ∈ l
      else if String.eqb agg "FIRST" then exists r, oldest_of g r /\ x = sr_ValueString r
      else if String.eqb agg "LAST" then exists r, newest_of g r /\ x = sr_ValueString r
      else if String.eqb agg "RAND" then x ∈ l
      else x = mode l
  end.

Definition place (r : SignalRow) : vssLocation :=
  mkVssLocation (sr_LocLat r) (sr_LocLon r) (sr_LocHDOP r) (sr_LocHeading r).

(** All components of a drawn location are those of one reading. *)
Definition location_result (agg : string) (g : list SignalRow) (v : option vssLocation) : Prop :=
  match v with
  | None => g = []
  | Some x =>
      g <> [] /\
      if String.eqb agg "AVG"
      then x = mkVssLocation (avg (values sr_LocLat g)) (avg (values sr_LocLon g))
                 (avg (values sr_LocHDOP g)) (avg (values sr_LocHeading g))
      else if String.eqb agg "LAST" then exists r, newest_of g r /\ x = place r
      else if String.eqb agg "RAND" then exists r, r ∈ g /\ x = place r
      else exists r, oldest_of g r /\ x = place r
  end.

Definition tagged (t i : Z) (g : list SignalRow) : list agg_row := map (mkAggRow t i) g.

Lemma tagged_values {A} (f : SignalRow -> A) t i g : map (fun j => f (j_row j)) (tagged t i g) = values f g.
Proof. unfold tagged, values. by rewrite map_map. Qed.

Lemma tagged_top (key : agg_row -> Z) t i g j : top key (tagged t i g) = Some j ->
  exists r, j = mkAggRow t i r /\ r ∈ g /\ forall r', r' ∈ g -> key (mkAggRow t i r') <= key j.
Proof.
  intros [Hin Hmax]%top_spec. apply list_elem_of_fmap in Hin as (r & -> & Hr). exists r.
  split; [done|]. split; [done|]. intros r' Hr'. apply Hmax. by apply list_elem_of_fmap_2.
Qed.

Lemma tagged_first t i g j : top (fun j => - sr_Timestamp (j_row j)) (tagged t i g) = Some j -> oldest_of g (j_row j).
Proof.
  intros (r & -> & Hr & Hmax)%tagged_top. split; [done|]. intros r' Hr'. specialize (Hmax r' Hr').
  cbn [j_row] in *. lia.
Qed.

Lemma tagged_last t i g j : top (fun j => sr_Timestamp (j_row j)) (tagged t i g) = Some j -> newest_of g (j_row j).
Proof. intros (r & -> & Hr & Hmax)%tagged_top. by split. Qed.

Lemma least_spec l : l <> [] -> least l ∈ l /\ forall y, y ∈ l -> f64_ltb y (least l) = false.
Proof.
  destruct l as [|x l]; [done|]. intros _. unfold least. rewrite f64_min_pick.
  apply (pick_spec _ f64_ltb_trans f64_ltb_irrefl).
Qed.

Lemma greatest_spec l : l <> [] -> greatest l ∈ l /\ forall y, y ∈ l -> f64_ltb (greatest l) y = false.
Proof.
  destruct l as [|x l]; [done|]. intros _. unfold greatest. rewrite f64_max_pick.
  apply (pick_spec (fun x y => f64_ltb y x)); [|apply f64_ltb_irrefl]. intros a b c H1 H2. by eapply f64_ltb_trans.
Qed.
(** Names the schema may use, told apart. *)
Ltac named agg n := destruct (String.eqb_spec agg n) as [->|]; [cbn [String.eqb Ascii.eqb Bool.eqb]|].

Lemma floatAggExpr_result agg t i g : float_result agg g (floatAggExpr agg (tagged t i g)).
Proof.
  destruct (floatAggExpr agg (tagged t i g)) as [x|] eqn:E; cbn [float_result].
  2:{ apply floatAggExpr_none in E. by apply map_nil_iff in E. }
  assert (Hg : g <> []) by (intros ->; rewrite (proj2 (floatAggExpr_none agg _)) in E by done; done).
  split; [done|]. cbv zeta. revert E. unfold floatAggExpr. rewrite tagged_values.
  assert (Hv : values sr_ValueNumber g <> []) by (intros H; by apply map_nil_iff in H).
  assert (Hof : forall agg' : list float64 -> float64, of_values agg' (values sr_ValueNumber g) = Some (agg' (values sr_ValueNumber g)))
    by (intros agg'; unfold of_values; by destruct (values sr_ValueNumber g)).
  rewrite !Hof. unfold sql_arg_min, sql_arg_last, sql_arg_rand, sql_arg_max.
  named agg "AVG"%string; [by intros [= <-]|]. named agg "RAND"%string.
  { intros (j & Ej & ->)%fmap_Some. apply tagged_top in Ej as (r & -> & Hr & _). by apply list_elem_of_fmap_2. }
  named agg "MIN"%string; [intros [= <-]; by apply least_spec|].
  named agg "MAX"%string; [intros [= <-]; by apply greatest_spec|].
  named agg "MED"%string; [by intros [= <-]|]. named agg "FIRST"%string.
  { intros (j & Ej & ->)%fmap_Some. exists (j_row j). split; [by eapply tagged_first|done]. }
  named agg "LAST"%string; [|by intros [= <-]].
  intros (j & Ej & ->)%fmap_Some. exists (j_row j). split; [by eapply tagged_last|done].
Qed.

Lemma string_agg_spec l : exists u, string_agg l = String.concat "," u /\ NoDup u /\
  StronglySorted (fun a b => sleb a b = true) u /\ forall s, s ∈ u <-> s ∈ l.
Proof.
  exists (order_by (fun s => s) sleb (remove_dups l)). split; [done|]. split; [|split].
  - rewrite order_by_perm. apply NoDup_remove_dups.
  - apply (order_by_sorted (fun n : string => n) sleb); [exact sleb_total|exact sleb_trans].
  - intros s. by rewrite order_by_perm, elem_of_remove_dups.
Qed.

Lemma stringAggExpr_result agg t i g : string_result agg g (stringAggExpr agg (tagged t i g)).
Proof.
  destruct (stringAggExpr agg (tagged t i g)) as [x|] eqn:E; cbn [string_result].
  2:{ apply stringAggExpr_none in E. by apply map_nil_iff in E. }
  assert (Hg : g <> []) by (intros ->; rewrite (proj2 (stringAggExpr_none agg _)) in E by done; done).
  split; [done|]. cbv zeta. revert E. unfold stringAggExpr. rewrite tagged_values.
  assert (Hv : values sr_ValueString g <> []) by (intros H; by apply map_nil_iff in H).
  assert (Hof : forall agg' : list string -> string, of_values agg' (values sr_ValueString g) = Some (agg' (values sr_ValueString g)))
    by (intros agg'; unfold of_values; by destruct (values sr_ValueString g)).
  rewrite !Hof. unfold sql_arg_min, sql_arg_last, sql_arg_rand, sql_arg_max.
  named agg "RAND"%string.
  { intros (j & Ej & ->)%fmap_Some. apply tagged_top in Ej as (r & -> & Hr & _). by apply list_elem_of_fmap_2. }
  named agg "UNIQUE"%string; [intros [= <-]; apply string_agg_spec|].
  named agg "TOP"%string; [by intros [= <-]|]. named agg "FIRST"%string.
  { intros (j & Ej & ->)%fmap_Some. exists (j_row j). split; [by eapply tagged_first|done]. }
  named agg "LAST"%string; [|by intros [= <-]].
  intros (j & Ej & ->)%fmap_Some. exists (j_row j). split; [by eapply tagged_last|done].
Qed.

(** All components come from the row the draw keeps. *)
Lemma drawn_location (key : agg_row -> Z) t i g : g <> [] -> exists j, top key (tagged t i g) = Some j /\
  mkVssLocation (default f64_zero (sql_arg_max key (fun j => sr_LocLat (j_row j)) (tagged t i g)))
    (default f64_zero (sql_arg_max key (fun j => sr_LocLon (j_row j)) (tagged t i g)))
    (default f64_zero (sql_arg_max key (fun j => sr_LocHDOP (j_row j)) (tagged t i g)))
    (default f64_zero (sql_arg_max key (fun j => sr_LocHeading (j_row j)) (tagged t i g))) = place (j_row j).
Proof.
  intros Hg. unfold sql_arg_max. destruct (top key (tagged t i g)) as [j|] eqn:E; [by exists j|].
  apply top_none in E. by apply map_nil_iff in E.
Qed.

Lemma location_agg_result agg t i g : location_result agg g (location_agg agg (tagged t i g)).
Proof.
  destruct g as [|r0 g0]; [done|]. set (g := r0 :: g0). assert (Hg : g <> []) by done.
  change (location_agg agg (tagged t i g)) with
    (let c f := default f64_zero (locationAggExpr f agg (tagged t i g)) in
     Some (mkVssLocation (c sr_LocLat) (c sr_LocLon) (c sr_LocHDOP) (c sr_LocHeading))).
  cbv zeta. cbn [location_result]. split; [done|]. unfold locationAggExpr. rewrite !tagged_values.
  unfold sql_arg_min, sql_arg_last, sql_arg_rand.
  named agg "AVG"%string; [done|]. named agg "RAND"%string.
  { destruct (drawn_location (fun j => random (j_type j) (j_index j) (j_row j)) t i g Hg) as (j & Ej & ->).
    apply tagged_top in Ej as (r & -> & Hr & _). by exists r. }
  named agg "FIRST"%string.
  { destruct (drawn_location (fun j => - sr_Timestamp (j_row j)) t i g Hg) as (j & Ej & ->).
    exists (j_row j). split; [by eapply tagged_first|done]. }
  named agg "LAST"%string.
  { destruct (drawn_location (fun j => sr_Timestamp (j_row j)) t i g Hg) as (j & Ej & ->).
    exists (j_row j). split; [by eapply tagged_last|done]. }
  destruct (drawn_location (fun j => - sr_Timestamp (j_row j)) t i g Hg) as (j & Ej & ->).
  exists (j_row j). split; [by eapply tagged_first|done].
Qed.
End duck.

(** ** The readings of a request *)

(** The store keeps microseconds. *)
Definition floor_micro (t : Z) : Z := t - t mod Microsecond.

Lemma tsMicro_floor t : tsMicroLiteral t = floor_micro t.
Proof.
  unfold tsMicroLiteral, make_timestamp, UnixMicro, floor_micro, Microsecond, Nanosecond.
  Z.to_euclidean_division_equations. lia.
Qed.

(** The bucket that starts at [ts], [us] microseconds long, counted from [from]. *)
Definition in_bucket (from us ts : Z) (r : SignalRow) : Prop :=
  (us * Microsecond | ts - floor_micro from) /\ ts <= sr_Timestamp r < ts + us * Microsecond.

Lemma bucket_of_iff a r ts : 0 < aa_Interval a ->
  bucket_of a r = ts <-> in_bucket (aa_FromTS a) (aa_Interval a) ts r.
Proof.
  intros Hi. unfold bucket_of, in_bucket, make_timestamp. set (I := aa_Interval a) in *.
  set (t := sr_Timestamp r). set (o := UnixMicro (aa_FromTS a)). set (u := UnixMicro t).
  assert (Ho : floor_micro (aa_FromTS a) = o * Microsecond)
    by (unfold o, floor_micro, UnixMicro, Microsecond, Nanosecond; Z.to_euclidean_division_equations; lia).
  assert (Hu : u * Microsecond <= t < u * Microsecond + Microsecond)
    by (unfold u, UnixMicro, Microsecond, Nanosecond; Z.to_euclidean_division_equations; lia).
  rewrite Ho. pose proof (Z.div_mod (u - o) I ltac:(lia)) as Hd. pose proof (Z.mod_pos_bound (u - o) I Hi) as Hm.
  set (q := (u - o) / I) in *. set (m := (u - o) mod I) in *.
  assert (HM : 0 < Microsecond) by (unfold Microsecond, Nanosecond; lia). set (M := Microsecond) in *. split.
  - intros <-. split; [exists q; lia|]. nia.
  - intros [[k Hk] Hb]. assert (Ets : ts = (k * I + o) * M) by lia. subst ts. f_equal. f_equal.
    assert (k = q); [|congruence]. assert (k * I <= u - o < k * I + I) by nia. nia.
Qed.

(** Inside the circle if there is one with a center, or else inside the polygon of
    three vertices or more, closed by its first; no shape, no restriction. *)
Definition in_geofence {D : DuckDB} (fil : SignalLocationFilter) (lat lon : float64) : bool :=
  match slf_InCircle fil with
  | Some (mkInCircleFilter (Some c) radiusKm) =>
      f64_leb (ST_Distance_Sphere (lon, lat) (fl_Longitude c, fl_Latitude c)) (f64_mul radiusKm (f64_of_Z 1000))
  | _ =>
      match map (fun p => (fl_Longitude p, fl_Latitude p)) (omap id (slf_InPolygon fil)) with
      | (v :: _ :: _ :: _) as vertices => ST_Contains (vertices ++ [v]) (lon, lat)
      | _ => true
      end
  end.

Lemma all_present {A} (l : list (option A)) : Forall (fun o => is_Some o) l -> mapM id l = Some (omap id l) /\ length (omap id l) = length l.
Proof.
  induction 1 as [|o l [x ->] Hl [IH1 IH2]]; [done|]. cbn. rewrite IH1. split; [done|]. cbn. by rewrite IH2.
Qed.

Lemma locationFilter_geofence {D : DuckDB} fil p : filter_ok fil -> locationFilterSQL (Some fil) = Ok (Some p) ->
  forall lat lon, p lat lon = in_geofence fil lat lon.
Proof.
  intros (_ & Hp & Hc). unfold locationFilterSQL, in_geofence. destruct (slf_InCircle fil) as [[c radius]|] eqn:Ec.
  { destruct (Hc _ eq_refl) as [(l & El & _) _]. cbn in El. subst c. cbn. by intros [= <-]. }
  destruct (Nat.leb_spec 3 (length (slf_InPolygon fil))) as [Hl|]; [|done]. unfold pointInPolygonSQL.
  destruct (all_present (slf_InPolygon fil)) as [-> El].
  { eapply Forall_impl; [exact Hp|]. intros o (x & -> & _). by eexists. }
  cbn [result_bind]. intros [= <-] lat lon. rewrite <- El in Hl.
  destruct (omap id (slf_InPolygon fil)) as [|v [|v2 [|v3 vs]]]; cbn in Hl; try lia. done.
Qed.

Lemma locationFilter_none {D : DuckDB} fil : filter_ok fil -> locationFilterSQL (Some fil) = Ok None ->
  forall lat lon, in_geofence fil lat lon = true.
Proof.
  intros (_ & Hp & Hc). unfold locationFilterSQL, in_geofence. destruct (slf_InCircle fil) as [[c radius]|] eqn:Ec.
  { destruct (Hc _ eq_refl) as [(l & El & _) _]. cbn in El. subst c. done. }
  destruct (Nat.leb_spec 3 (length (slf_InPolygon fil))) as [Hl|Hl].
  { unfold pointInPolygonSQL. by destruct (mapM id (slf_InPolygon fil)). }
  intros _ lat lon. destruct (all_present (slf_InPolygon fil)) as [_ El].
  { eapply Forall_impl; [exact Hp|]. intros o (x & -> & _). by eexists. }
  rewrite <- El in Hl. destruct (omap id (slf_InPolygon fil)) as [|v [|v2 [|v3 vs]]]; cbn in Hl; try lia; done.
Qed.

Section readings.
Context {D : DuckDB} (DecodeEthrDID : string -> option string) (lake : list SignalRow).

(** A filter's source, given as a DID, names the contract address of the DID. *)
Definition from_source (filter_ : option SignalFilter) (r : SignalRow) : Prop :=
  forall f src, filter_ = Some f -> sf_Source f = Some src ->
    sr_Source r = match DecodeEthrDID src with Some addr => addr | None => src end.

(** A stored row of the subject and the source that is the canonical one of its
    reading among the rows of the source: a reading delivered twice counts once. *)
Definition reading (subject : string) (filter_ : option SignalFilter) (r : SignalRow) : Prop :=
  r ∈ lake /\ sr_Subject r = subject /\ from_source filter_ r /\
  forall r', r' ∈ lake -> from_source filter_ r' ->
    (sr_Subject r', sr_Name r', sr_Timestamp r') = (sr_Subject r, sr_Name r, sr_Timestamp r) ->
    String.ltb (sr_CloudEventID r') (sr_CloudEventID r) = false.

Lemma from_source_iff filter_ r : from_source filter_ r <-> source_matches (signalSourceCond DecodeEthrDID filter_) r = true.
Proof.
  unfold from_source, signalSourceCond. destruct filter_ as [f|]; [|by split].
  destruct (sf_Source f) as [src|] eqn:E; [|split; [done|]; intros _ g src [= <-] E'; congruence].
  cbn [source_matches]. rewrite String.eqb_eq. split.
  - intros H. rewrite (H f src eq_refl E). by destruct (DecodeEthrDID src).
  - intros -> g src' [= <-] E'. replace src' with src by congruence. by destruct (DecodeEthrDID src).
Qed.

Lemma elem_of_agg_readings a subject n p ts r : lake_ok lake -> 0 < aa_Interval a ->
  r ∈ agg_readings DecodeEthrDID lake a subject n p ts <->
  reading subject (sia_Filter (aa_SignalArgs a)) r /\ sr_Name r = n /\
  floor_micro (aa_FromTS a) <= sr_Timestamp r < floor_micro (aa_ToTS a) /\
  in_bucket (aa_FromTS a) (aa_Interval a) ts r /\ p r = true.
Proof.
  intros Hok Hi. unfold agg_readings, in_window.
  rewrite elem_of_list_filter, !andb_true_iff, String.eqb_eq, Z.eqb_eq, Z.leb_le, Z.ltb_lt, (bucket_of_iff a r ts Hi), !tsMicro_floor.
  destruct (LakeSignalsDeduped_spec lake subject (agg_source DecodeEthrDID a) [] Hok) as (_ & _ & Hr & _).
  rewrite Hr. unfold reading, agg_source. setoid_rewrite from_source_iff. unfold ident. tauto.
Qed.

(** One reading per instant. *)
Lemma agg_readings_times a subject n p ts : NoDup (map sr_Timestamp (agg_readings DecodeEthrDID lake a subject n p ts)).
Proof.
  unfold agg_readings, subject_rows, LakeSignalsDeduped. set (base := List.filter _ lake).
  apply NoDup_fmap_2_strong.
  - intros x y [[Hx Ex%String.eqb_eq]%elem_of_list_filter Hnx]%elem_of_list_filter
               [[Hy Ey%String.eqb_eq]%elem_of_list_filter Hny]%elem_of_list_filter Et.
    apply andb_true_iff in Hnx as [Hnx%String.eqb_eq _], Hny as [Hny%String.eqb_eq _].
    eapply dedup_inj; [exact Hx|exact Hy|]. unfold ident. congruence.
  - apply list_filter_NoDup, list_filter_NoDup, dedup_NoDup'.
Qed.
End readings.
