(* ===== verification/Duration.v ===== *)
(** * time.ParseDuration

    The standard library's parser of durations such as [1h15m30.918s], as Go runs
    it: unsigned 64-bit sums with their overflow checks, and fractions in float64. *)

From Stdlib Require Import Ascii.
From S2P Require Import Prelude.

Inductive duration_error := InvalidDuration | MissingUnit | UnknownUnit (u : string).

Definition is_digit (c : ascii) : bool := (48 <=? nat_of_ascii c)%nat && (nat_of_ascii c <=? 57)%nat.
Definition is_period (c : ascii) : bool := Ascii.eqb c ".".
Definition digit_of (c : ascii) : Z := Z.of_nat (nat_of_ascii c) - 48.

Definition max_duration : Z := 2 ^ 63.

(** The digits at the start of [s], and the rest; the error is overflow. *)
Fixpoint leadingInt (x : Z) (s : string) : result duration_error (Z * string) :=
  match s with
  | String c rest =>
      if is_digit c then
        if max_duration / 10 <? x then Err InvalidDuration
        else
          let x := x * 10 + digit_of c in
          if max_duration <? x then Err InvalidDuration else leadingInt x rest
      else Ok (x, s)
  | EmptyString => Ok (x, s)
  end.

(** The digits after the period: their value, the power of ten it is to be divided
    by, and the rest. Digits past the range of the integer are dropped. *)
Fixpoint leadingFraction (x : Z) (scale : float64) (overflow : bool) (s : string) : Z * float64 * string :=
  match s with
  | String c rest =>
      if is_digit c then
        if overflow || ((max_duration - 1) / 10 <? x) then leadingFraction x scale true rest
        else
          let y := x * 10 + digit_of c in
          if max_duration <? y then leadingFraction x scale true rest
          else leadingFraction y (f64_mul scale (f64_of_Z 10)) false rest
      else (x, scale, s)
  | EmptyString => (x, scale, s)
  end.

(** The unit: everything before the next digit or period. *)
Fixpoint span_unit (s : string) : string * string :=
  match s with
  | String c rest =>
      if is_period c || is_digit c then (EmptyString, s)
      else let '(u, rest) := span_unit rest in (String c u, rest)
  | EmptyString => (EmptyString, EmptyString)
  end.

Definition micro_sign : string := String (ascii_of_nat 194) (String (ascii_of_nat 181) "s").
Definition greek_mu : string := String (ascii_of_nat 206) (String (ascii_of_nat 188) "s").

Definition unitMap (u : string) : option Z :=
  if String.eqb u "ns" then Some 1
  else if String.eqb u "us" || String.eqb u micro_sign || String.eqb u greek_mu then Some Microsecond
  else if String.eqb u "ms" then Some Millisecond
  else if String.eqb u "s" then Some Second
  else if String.eqb u "m" then Some Minute
  else if String.eqb u "h" then Some Hour
  else None.

(** [s[0]] is a digit or a period. *)
Definition starts_number (s : string) : bool :=
  match s with String c _ => is_period c || is_digit c | EmptyString => false end.

(** One round of the loop: a number and its unit, in nanoseconds, and the rest. *)
Definition component (s : string) : result duration_error (Z * string) :=
  if negb (starts_number s) then Err InvalidDuration
  else
    let* p := leadingInt 0 s in let '(v, s1) := p in
    let pre := negb (String.length s1 =? String.length s)%nat in
    let '(f, scale, s2, post) :=
      match s1 with
      | String c rest =>
          if is_period c then
            let '(f, scale, s2) := leadingFraction 0 (f64_of_Z 1) false rest in
            (f, scale, s2, negb (String.length s2 =? String.length rest)%nat)
          else (0, f64_of_Z 1, s1, false)
      | EmptyString => (0, f64_of_Z 1, s1, false)
      end in
    if negb pre && negb post then Err InvalidDuration
    else
      let '(u, s3) := span_unit s2 in
      if String.eqb u "" then Err MissingUnit
      else match unitMap u with
      | None => Err (UnknownUnit u)
      | Some unit =>
          if max_duration / unit <? v then Err InvalidDuration
          else
            let v := v * unit in
            let v := if 0 <? f then v + f64_trunc (f64_mul (f64_of_Z f) (f64_div (f64_of_Z unit) scale)) else v in
            if max_duration <? v then Err InvalidDuration else Ok (v, s3)
      end.

(** The loop. Every round consumes a character, so the length of [s] is fuel enough. *)
Fixpoint components (fuel : nat) (d : Z) (s : string) : result duration_error Z :=
  match s, fuel with
  | EmptyString, _ => Ok d
  | _, O => Err InvalidDuration
  | _, S fuel =>
      let* p := component s in
      let d := (d + p.1) mod 2 ^ 64 in
      if max_duration <? d then Err InvalidDuration else components fuel d p.2
  end.

Definition parse_unsigned (s : string) : result duration_error Z :=
  if String.eqb s "0" then Ok 0
  else if String.eqb s "" then Err InvalidDuration
  else components (String.length s) 0 s.

Definition ParseDuration (s : string) : result duration_error Z :=
  match s with
  | String c rest =>
      if Ascii.eqb c "-" then let* d := parse_unsigned rest in Ok (- d)
      else
        let* d := parse_unsigned (if Ascii.eqb c "+" then rest else s) in
        if max_duration - 1 <? d then Err InvalidDuration else Ok d
  | EmptyString => Err InvalidDuration
  end.

(** ** Totality *)

Lemma leadingInt_shorter x s v rest : leadingInt x s = Ok (v, rest) -> (String.length rest <= String.length s)%nat.
Proof.
  revert x. induction s as [|c s IH]; intros x; cbn [leadingInt]; [by intros [= _ <-]|].
  destruct (is_digit c); [|by intros [= _ <-]].
  destruct (_ <? x); [done|]. destruct (_ <? _); [done|]. intros H%IH. cbn. lia.
Qed.

Lemma leadingFraction_shorter x scale o s f sc rest :
  leadingFraction x scale o s = (f, sc, rest) -> (String.length rest <= String.length s)%nat.
Proof.
  revert x scale o. induction s as [|c s IH]; intros x scale o; cbn [leadingFraction]; [by intros [= _ _ <-]|].
  destruct (is_digit c); [|by intros [= _ _ <-]].
  destruct (_ || _); [|destruct (_ <? _)]; intros H%IH; cbn; lia.
Qed.

Lemma span_unit_length s u rest : span_unit s = (u, rest) ->
  String.length s = (String.length u + String.length rest)%nat.
Proof.
  revert u rest. induction s as [|c s IH]; intros u rest; cbn [span_unit]; [by intros [= <- <-]|].
  destruct (_ || _); [by intros [= <- <-]|]. destruct (span_unit s) as [u' rest'] eqn:E. intros [= <- <-].
  cbn. by rewrite (IH _ _ eq_refl).
Qed.

Lemma component_shorter s v rest : component s = Ok (v, rest) -> (String.length rest < String.length s)%nat.
Proof.
  unfold component. destruct (negb (starts_number s)); [done|].
  destruct (leadingInt 0 s) as [[v1 s1]|] eqn:E1; [|done]. apply leadingInt_shorter in E1. cbn [result_bind].
  set (frac := match s1 with String _ _ => _ | EmptyString => _ end).
  assert (H2 : (String.length frac.1.2 <= String.length s1)%nat).
  { unfold frac. destruct s1 as [|c s1]; [done|]. destruct (is_period c); [|done].
    destruct (leadingFraction _ _ _ s1) as [[f sc] s2] eqn:E. apply leadingFraction_shorter in E. cbn. lia. }
  clearbody frac. destruct frac as [[[f sc] s2] post]. cbn in H2. destruct (_ && _); [done|].
  destruct (span_unit s2) as [u s3] eqn:E3. apply span_unit_length in E3.
  destruct (String.eqb_spec u "") as [|Hu]; [done|]. destruct (unitMap u) as [unit|]; [|done].
  destruct (_ <? v1); [done|]. destruct (_ <? _); [done|]. intros [= _ <-].
  destruct u; [done|]. cbn in E3. lia.
Qed.

(** The length of the string is fuel enough: more does not change the answer. *)
Lemma components_enough fuel d s : (String.length s <= fuel)%nat ->
  components fuel d s = components (String.length s) d s.
Proof.
  revert d s. induction fuel as [fuel IH] using lt_wf_ind. intros d s Hf.
  destruct s as [|c s]; [by destruct fuel|]. destruct fuel as [|fuel]; [cbn in Hf; lia|].
  cbn [components String.length]. destruct (component (String c s)) as [[v rest]|] eqn:E; [|done].
  apply component_shorter in E. cbn [result_bind fst snd]. cbn [String.length] in E, Hf.
  destruct (_ <? _); [done|]. rewrite (IH fuel) by lia. symmetry. apply IH; lia.
Qed.

Lemma components_range fuel d s z : 0 <= d <= max_duration -> components fuel d s = Ok z -> 0 <= z <= max_duration.
Proof.
  revert d s. induction fuel as [|fuel IH]; intros d s Hd; destruct s as [|c s]; cbn [components];
    [by intros [= <-]|done|by intros [= <-]|].
  destruct (component _) as [[v rest]|]; [|done]. cbn [result_bind fst snd].
  destruct (Z.ltb_spec max_duration ((d + v) mod 2 ^ 64)); [done|]. apply IH.
  pose proof (Z.mod_pos_bound (d + v) (2 ^ 64)). lia.
Qed.

(** A duration that parses is a 64-bit integer. *)
Lemma ParseDuration_range s d : ParseDuration s = Ok d -> min_int64 <= d <= max_int64.
Proof.
  assert (H : forall s d, parse_unsigned s = Ok d -> 0 <= d <= max_duration).
  { clear. intros s d. unfold parse_unsigned. destruct (String.eqb s "0"); [intros [= <-]; by unfold max_duration|].
    destruct (String.eqb s ""); [done|]. apply components_range. by unfold max_duration. }
  unfold max_duration in H. unfold ParseDuration, min_int64, max_int64, max_duration. destruct s as [|c rest]; [done|].
  destruct (Ascii.eqb c "-").
  - destruct (parse_unsigned rest) as [z|] eqn:E; [|done]. apply H in E. intros [= <-]. lia.
  - destruct (parse_unsigned _) as [z|] eqn:E; [|done]. apply H in E. cbn [result_bind].
    destruct (Z.ltb_spec (2 ^ 63 - 1) z); [done|]. intros [= <-]. lia.
Qed.

Example parse_minutes : ParseDuration "1h15m30.918s" = Ok (4530918 * Millisecond).
Proof. vm_compute. reflexivity. Qed.

Example parse_unit_missing : ParseDuration "5" = Err MissingUnit.
Proof. vm_compute. reflexivity. Qed.

Example parse_negative : ParseDuration "-1.5us" = Ok (-1500).
Proof. vm_compute. reflexivity. Qed.
