(* ===== verification/GraphArgs.v ===== *)
(** * internal/graph: the signal queries

    The argument building of arguments.go over gqlgen's collected fields, the
    resolvers of signals and signalsLatest (base.resolvers.go), the generated
    resolvers of the aggregated fields (signals-events_gen.resolvers.go: one of three
    bodies each) and the generated setter of the collection (signalSetter_gen.go).
    gqlgen is outside the repository: what it collects is an argument. *)

From S2P Require Import Prelude Model SegRepo Validate Coordinates SignalsRepo Duration Decode Sql LakeSource LakeLatest RawEvents SqlFilter Aggregations AggSpec AggMeaning.

#[local] Set Default Proof Using "Type*".

(** ** Collected fields *)

(** The typed value of the argument [agg]; [AggOther]: any other Go type. *)
Inductive agg_value := AggFloat (a : string) | AggString (a : string) | AggLocation (a : string) | AggOther (go_type : string).

(** The argument [filter]; the pointer inside may be nil. *)
Inductive filter_value :=
| FilterAbsent
| FilterFloat (f : option SignalFloatFilter)
| FilterLocation (f : option SignalLocationFilter).

Record FieldArgs := mkFieldArgs { fa_agg : agg_value; fa_filter : filter_value }.

(** A [graphql.CollectedField]: name, alias, the name of the type of its definition,
    its two directives, and what [parentCtx.Child] makes of it. *)
Record CollectedField := mkField {
  fl_Name : string;
  fl_Alias : string;
  fl_Type : string;
  fl_isSignal : bool;
  fl_hasAggregation : bool;
  fl_Child : result string FieldArgs;
}.

Definition isSignal (f : CollectedField) : bool := fl_isSignal f.
Definition hasAggregations (f : CollectedField) : bool := fl_hasAggregation f.

(** ** arguments.go *)

Inductive args_error :=
| BadInterval (e : duration_error)
| ChildField (msg : string)
| UnknownAggregation (go_type : string).

Definition getIntervalMicroseconds (interval : string) : result args_error Z :=
  let* dur := map_err BadInterval (ParseDuration interval) in
  Ok (Z.quot dur Microsecond).

(** [child.Args["filter"].(T)]: nil when the value has another type. *)
Definition as_float_filter (v : filter_value) : option SignalFloatFilter :=
  match v with FilterFloat f => f | _ => None end.
Definition as_location_filter (v : filter_value) : option SignalLocationFilter :=
  match v with FilterLocation f => f | _ => None end.

Definition with_args (a : AggregatedSignalArgs) (floats : list FloatSignalArgs) (strings : list StringSignalArgs)
    (locs : loc_args) : AggregatedSignalArgs :=
  mkAggregatedSignalArgs (aa_SignalArgs a) (aa_FromTS a) (aa_ToTS a) (aa_Interval a) floats strings locs.

Definition float_args (name alias : string) (agg : string) (c : FieldArgs) : FloatSignalArgs :=
  mkFloatSignalArgs name agg alias (as_float_filter (fa_filter c)).

Definition location_args (name alias : string) (agg : string) (c : FieldArgs)
  : LocationSignalArgs * option SignalLocationFilter :=
  if String.eqb name ApproximateCoordinatesField
  then (mkLocationSignalArgs FieldCurrentLocationCoordinates agg alias, None)
  else (mkLocationSignalArgs name agg alias, as_location_filter (fa_filter c)).

Definition addSignalAggregation (a : AggregatedSignalArgs) (c : FieldArgs) (alias name : string)
  : result args_error AggregatedSignalArgs :=
  match fa_agg c with
  | AggFloat agg => Ok (with_args a (aa_FloatArgs a ++ [float_args name alias agg c]) (aa_StringArgs a) (aa_LocationArgs a))
  | AggString agg => Ok (with_args a (aa_FloatArgs a) (aa_StringArgs a ++ [mkStringSignalArgs name agg alias]) (aa_LocationArgs a))
  | AggLocation agg => Ok (with_args a (aa_FloatArgs a) (aa_StringArgs a) (aa_LocationArgs a ++ [location_args name alias agg c]))
  | AggOther t => Err (UnknownAggregation t)
  end.

Fixpoint fields_loop (a : AggregatedSignalArgs) (fields : list CollectedField) : result args_error AggregatedSignalArgs :=
  match fields with
  | [] => Ok a
  | f :: rest =>
      if negb (isSignal f) || negb (hasAggregations f) then fields_loop a rest
      else
        let* c := map_err ChildField (fl_Child f) in
        let* a := addSignalAggregation a c (fl_Alias f) (fl_Name f) in
        fields_loop a rest
  end.

Definition aggregationArgsFromContext (fields : list CollectedField) (did interval : string) (from to : Z)
    (filter_ : option SignalFilter) : result args_error AggregatedSignalArgs :=
  let* intervalInt := getIntervalMicroseconds interval in
  fields_loop (mkAggregatedSignalArgs (mkSignalArgs filter_ did) from to intervalInt [] [] []) fields.

Definition add_latest (a : LatestSignalsArgs) (f : CollectedField) : LatestSignalsArgs :=
  if negb (isSignal f) then
    if String.eqb (fl_Name f) LastSeenField
    then mkLatestArgs (la_SignalArgs a) (la_SignalNames a) (la_LocationSignalNames a) true else a
  else if String.eqb (fl_Name f) ApproximateCoordinatesField then
    mkLatestArgs (la_SignalArgs a) (la_SignalNames a)
      ({[FieldCurrentLocationCoordinates]} ∪ la_LocationSignalNames a) (la_IncludeLastSeen a)
  else if String.eqb (fl_Type f) "SignalLocation" then
    mkLatestArgs (la_SignalArgs a) (la_SignalNames a) ({[fl_Name f]} ∪ la_LocationSignalNames a) (la_IncludeLastSeen a)
  else mkLatestArgs (la_SignalArgs a) ({[fl_Name f]} ∪ la_SignalNames a) (la_LocationSignalNames a) (la_IncludeLastSeen a).

Definition latestArgsFromContext (fields : list CollectedField) (did : string) (filter_ : option SignalFilter)
  : LatestSignalsArgs :=
  fold_left add_latest fields (mkLatestArgs (mkSignalArgs filter_ did) ∅ ∅ false).

(** ** The generated collection (signalSetter_gen.go, models_gen.go) *)

Record SignalFloat := mkSignalFloat { sf_Timestamp : Z; sf_Value : float64 }.
Record SignalString := mkSignalString { ss_Timestamp : Z; ss_Value : string }.

(** The cases of [SetCollectionField], by the type of the field they set. *)
Definition float_signals : list string :=
  ["angularVelocityYaw"; "bodyLightsIsAirbagWarningOn"; "bodyLockIsLocked"; "bodyTrunkFrontIsOpen";
   "bodyTrunkRearIsOpen"; "cabinDoorRow1DriverSideIsOpen"; "cabinDoorRow1DriverSideWindowIsOpen";
   "cabinDoorRow1PassengerSideIsOpen"; "cabinDoorRow1PassengerSideWindowIsOpen";
   "cabinDoorRow2DriverSideIsOpen"; "cabinDoorRow2DriverSideWindowIsOpen";
   "cabinDoorRow2PassengerSideIsOpen"; "cabinDoorRow2PassengerSideWindowIsOpen";
   "cabinSeatRow1DriverSideIsBelted"; "cabinSeatRow1PassengerSideIsBelted";
   "cabinSeatRow2DriverSideIsBelted"; "cabinSeatRow2MiddleIsBelted"; "cabinSeatRow2PassengerSideIsBelted";
   "cabinSeatRow3DriverSideIsBelted"; "cabinSeatRow3PassengerSideIsBelted"; "chassisAxleRow1WheelLeftSpeed";
   "chassisAxleRow1WheelLeftTirePressure"; "chassisAxleRow1WheelRightSpeed";
   "chassisAxleRow1WheelRightTirePressure"; "chassisAxleRow2WheelLeftTirePressure";
   "chassisAxleRow2WheelRightTirePressure"; "chassisAxleRow3Weight"; "chassisAxleRow4Weight";
   "chassisAxleRow5Weight"; "chassisBrakeABSIsWarningOn"; "chassisBrakeCircuit1PressurePrimary";
   "chassisBrakeCircuit2PressurePrimary"; "chassisBrakeIsPedalPressed"; "chassisBrakePedalPosition";
   "chassisParkingBrakeIsEngaged"; "chassisTireSystemIsWarningOn"; "connectivityCellularIsJammingDetected";
   "currentLocationAltitude"; "currentLocationHeading"; "exteriorAirTemperature"; "isIgnitionOn";
   "lowVoltageBatteryCurrentVoltage"; "obdBarometricPressure"; "obdCommandedEGR"; "obdCommandedEVAP";
   "obdDistanceSinceDTCClear"; "obdDistanceWithMIL"; "obdEngineLoad"; "obdEthanolPercent"; "obdFuelPressure";
   "obdFuelRailPressure"; "obdFuelRate"; "obdIntakeTemp"; "obdIsEngineBlocked"; "obdIsPTOActive";
   "obdIsPluggedIn"; "obdLongTermFuelTrim1"; "obdLongTermFuelTrim2"; "obdMAP"; "obdMaxMAF";
   "obdO2WRSensor1Voltage"; "obdO2WRSensor2Voltage"; "obdOilTemperature"; "obdRunTime";
   "obdShortTermFuelTrim1"; "obdStatusDTCCount"; "obdThrottlePosition"; "obdWarmupsSinceDTCClear";
   "powertrainCombustionEngineDieselExhaustFluidCapacity";
   "powertrainCombustionEngineDieselExhaustFluidLevel"; "powertrainCombustionEngineECT";
   "powertrainCombustionEngineEOP"; "powertrainCombustionEngineEOT";
   "powertrainCombustionEngineEngineOilRelativeLevel"; "powertrainCombustionEngineMAF";
   "powertrainCombustionEngineSpeed"; "powertrainCombustionEngineTPS"; "powertrainCombustionEngineTorque";
   "powertrainCombustionEngineTorquePercent"; "powertrainFuelSystemAbsoluteLevel";
   "powertrainFuelSystemAccumulatedConsumption"; "powertrainFuelSystemRelativeLevel"; "powertrainRange";
   "powertrainTractionBatteryChargingAddedEnergy"; "powertrainTractionBatteryChargingChargeCurrentAC";
   "powertrainTractionBatteryChargingChargeLimit";
   "powertrainTractionBatteryChargingChargeVoltageUnknownType";
   "powertrainTractionBatteryChargingIsCharging";
   "powertrainTractionBatteryChargingIsChargingCableConnected"; "powertrainTractionBatteryChargingPower";
   "powertrainTractionBatteryCurrentPower"; "powertrainTractionBatteryCurrentVoltage";
   "powertrainTractionBatteryGrossCapacity"; "powertrainTractionBatteryRange";
   "powertrainTractionBatteryStateOfChargeCurrent"; "powertrainTractionBatteryStateOfChargeCurrentEnergy";
   "powertrainTractionBatteryStateOfHealth"; "powertrainTractionBatteryTemperatureAverage";
   "powertrainTransmissionActualGear"; "powertrainTransmissionActualGearRatio";
   "powertrainTransmissionCurrentGear"; "powertrainTransmissionIsClutchSwitchOperated";
   "powertrainTransmissionRetarderActualTorque"; "powertrainTransmissionSelectedGear";
   "powertrainTransmissionTemperature"; "powertrainTransmissionTravelledDistance";
   "serviceDistanceToService"; "serviceTimeToService"; "speed"]%string.

Definition string_signals : list string :=
  ["obdDTCList"; "obdFuelTypeName"; "powertrainCombustionEngineEngineOilLevel";
   "powertrainFuelSystemSupportedFuelTypes"; "powertrainTransmissionRetarderTorqueMode";
   "powertrainType"]%string.

Definition location_signals : list string :=
  ["currentLocationCoordinates"]%string.

(** [SignalCollection]: a pointer field per name, absent from the map when nil. *)
Record SignalCollection := mkCollection {
  sc_LastSeen : option Z;
  sc_Approximate : option SignalLocation;
  sc_Floats : gmap string SignalFloat;
  sc_Strings : gmap string SignalString;
  sc_Locations : gmap string SignalLocation;
}.

Definition emptyCollection : SignalCollection := mkCollection None None ∅ ∅ ∅.

Definition setLastSeen (t : Z) (c : SignalCollection) : SignalCollection :=
  mkCollection (Some t) (sc_Approximate c) (sc_Floats c) (sc_Strings c) (sc_Locations c).

Definition setApproximate (l : SignalLocation) (c : SignalCollection) : SignalCollection :=
  mkCollection (sc_LastSeen c) (Some l) (sc_Floats c) (sc_Strings c) (sc_Locations c).

(** A name without a case is dropped. *)
Definition SetCollectionField (s : vssSignal) (c : SignalCollection) : SignalCollection :=
  let n := vs_Name s in
  let l := vs_ValueLocation s in
  if mem n float_signals then
    mkCollection (sc_LastSeen c) (sc_Approximate c) (<[n := mkSignalFloat (vs_Timestamp s) (vs_ValueNumber s)]> (sc_Floats c))
      (sc_Strings c) (sc_Locations c)
  else if mem n string_signals then
    mkCollection (sc_LastSeen c) (sc_Approximate c) (sc_Floats c)
      (<[n := mkSignalString (vs_Timestamp s) (vs_ValueString s)]> (sc_Strings c)) (sc_Locations c)
  else if mem n location_signals then
    mkCollection (sc_LastSeen c) (sc_Approximate c) (sc_Floats c) (sc_Strings c)
      (<[n := mkSignalLocation (vs_Timestamp s) (Some (mkLocation (vl_Latitude l) (vl_Longitude l) (vl_HDOP l)))]> (sc_Locations c))
  else c.

Definition getLocation (c : SignalCollection) : option SignalLocation :=
  sc_Locations c !! FieldCurrentLocationCoordinates.

(** ** Resolvers *)

Inductive query_error := ArgsError (e : args_error) | RepoError (e : api_error).

Section resolvers.
Context {sb : SignalBackend} (dec : string -> bool).
(** The H3 library: the cell of a point, and its center. *)
Context {Cell : Type} (LatLngToCell : float64 -> float64 -> Z -> option Cell)
        (CellToLatLng : Cell -> option (float64 * float64)).

Definition resolve_Signals (fields : list CollectedField) (subject interval : string) (from to : Z)
    (filter_ : option SignalFilter) : result query_error (list SignalAggregations) :=
  let* aggArgs := map_err ArgsError (aggregationArgsFromContext fields subject interval from to filter_) in
  map_err RepoError (GetSignal dec (Some aggArgs)).

Definition resolve_SignalsLatest (fields : list CollectedField) (subject : string) (filter_ : option SignalFilter)
  : result query_error SignalCollection :=
  map_err RepoError
    (GetSignalLatest LatLngToCell CellToLatLng emptyCollection setLastSeen SetCollectionField getLocation setApproximate
       dec (Some (latestArgsFromContext fields subject filter_))).

(** The resolvers of one aggregated field, by its type. *)
Definition resolve_number (alias : string) (obj : SignalAggregations) : option float64 := ValueNumbers obj !! alias.
Definition resolve_string (alias : string) (obj : SignalAggregations) : option string := ValueStrings obj !! alias.
Definition resolve_location (alias : string) (obj : SignalAggregations) : option Location :=
  (fun vl => mkLocation (vl_Latitude vl) (vl_Longitude vl) (vl_HDOP vl)) <$> ValueLocations obj !! alias.

Definition resolve_CurrentLocationApproximateCoordinates (alias : string) (obj : SignalAggregations) : option Location :=
  vl ← ValueLocations obj !! alias;
  '(lat, lng) ← GetApproximateLoc LatLngToCell CellToLatLng (vl_Latitude vl) (vl_Longitude vl);
  Some (mkLocation lat lng (vl_HDOP vl)).
End resolvers.

(** ** What the argument builders collect *)

Definition selected (f : CollectedField) : bool := isSignal f && hasAggregations f.

Definition child_agg (f : CollectedField) : option (agg_value * FieldArgs) :=
  if selected f then match fl_Child f with Ok c => Some (fa_agg c, c) | Err _ => None end else None.

Definition float_of (f : CollectedField) : option FloatSignalArgs :=
  match child_agg f with Some (AggFloat a, c) => Some (float_args (fl_Name f) (fl_Alias f) a c) | _ => None end.
Definition string_of (f : CollectedField) : option StringSignalArgs :=
  match child_agg f with Some (AggString a, c) => Some (mkStringSignalArgs (fl_Name f) a (fl_Alias f)) | _ => None end.
Definition location_of (f : CollectedField) : option (LocationSignalArgs * option SignalLocationFilter) :=
  match child_agg f with Some (AggLocation a, c) => Some (location_args (fl_Name f) (fl_Alias f) a c) | _ => None end.

Lemma fields_loop_spec fields a a' : fields_loop a fields = Ok a' ->
  a' = with_args a (aa_FloatArgs a ++ omap float_of fields) (aa_StringArgs a ++ omap string_of fields)
         (aa_LocationArgs a ++ omap location_of fields) /\
  Forall (fun f => selected f = true -> exists c, fl_Child f = Ok c /\ forall t, fa_agg c <> AggOther t) fields.
Proof.
  revert a. induction fields as [|f fields IH]; intros a; cbn [fields_loop omap list_omap].
  { intros [= <-]. rewrite !app_nil_r. split; [by destruct a|constructor]. }
  unfold float_of at 1, string_of at 1, location_of at 1, child_agg, selected.
  destruct (isSignal f) eqn:E1; cbn [negb orb andb].
  2:{ intros [-> H]%IH. split; [done|]. constructor; [by rewrite E1|done]. }
  destruct (hasAggregations f) eqn:E2; cbn [negb].
  2:{ intros [-> H]%IH. split; [done|]. constructor; [by rewrite E1, E2|done]. }
  destruct (fl_Child f) as [c|] eqn:Ec; [|done]. cbn [map_err result_bind]. unfold addSignalAggregation.
  destruct (fa_agg c) as [g|g|g|t] eqn:Eg; [..|done]; cbn [result_bind]; intros [-> H]%IH;
    (split; [unfold with_args; cbn; by rewrite <- !app_assoc|constructor; [|done]]);
    intros _; exists c; (split; [done|]); intros t; by rewrite Eg.
Qed.

Lemma omap_alias_NoDup {X} (g : CollectedField -> option X) (alias : X -> string) fields :
  (forall f x, g f = Some x -> alias x = fl_Alias f) ->
  NoDup (map fl_Alias fields) -> NoDup (map alias (omap g fields)).
Proof.
  intros Hg. induction fields as [|f fields IH]; [constructor|]. cbn [map omap list_omap].
  intros [Hf Hn]%NoDup_cons. destruct (g f) as [x|] eqn:E; [|by apply IH]. cbn [map]. apply NoDup_cons. split; [|by apply IH].
  rewrite (Hg f x E). intros (y & Ey & Hy)%list_elem_of_fmap. apply list_elem_of_omap in Hy as (f' & Hf' & E').
  apply Hf. apply list_elem_of_fmap. exists f'. split; [|done]. by rewrite Ey, (Hg f' y E').
Qed.

Lemma omap_index {X} (g : CollectedField -> option X) (fields : list CollectedField) f x : f ∈ fields -> g f = Some x ->
  exists i, omap g fields !! i = Some x.
Proof. intros Hf E. apply list_elem_of_lookup_1, list_elem_of_omap. by exists f. Qed.

Lemma float_of_alias f x : float_of f = Some x -> fsa_Alias x = fl_Alias f.
Proof. unfold float_of. destruct (child_agg f) as [[[] c]|]; [|done..]. by intros [= <-]. Qed.
Lemma string_of_alias f x : string_of f = Some x -> stsa_Alias x = fl_Alias f.
Proof. unfold string_of. destruct (child_agg f) as [[[] c]|]; try done. by intros [= <-]. Qed.
Lemma location_of_alias f x : location_of f = Some x -> lsa_Alias x.1 = fl_Alias f.
Proof.
  unfold location_of. destruct (child_agg f) as [[[] c]|]; try done. intros [= <-]. unfold location_args.
  by destruct (String.eqb _ _).
Qed.

(** ** The signals query *)

Section signals.
Context {D : DuckDB} (DecodeEthrDID : string -> option string) (lake : list SignalRow).
Context {Cell : Type} (LatLngToCell : float64 -> float64 -> Z -> option Cell)
        (CellToLatLng : Cell -> option (float64 * float64)).

Definition window_of (filter_ : option SignalFilter) (subject : string) (from to us : Z) : AggregatedSignalArgs :=
  mkAggregatedSignalArgs (mkSignalArgs filter_ subject) from to us [] [] [].

(** A selected field that asks for an aggregate, and its arguments. *)
Definition asks (f : CollectedField) (c : FieldArgs) : Prop :=
  fl_isSignal f = true /\ fl_hasAggregation f = true /\ fl_Child f = Ok c.

(** The signal whose readings the field is about. *)
Definition signal_asked (f : CollectedField) : string :=
  if String.eqb (fl_Name f) "currentLocationApproximateCoordinates" then "currentLocationCoordinates" else fl_Name f.

(** A fix is away from (0,0). The approximate location is one of the exact
    coordinates and takes no filter. *)
Definition accepts (f : CollectedField) (c : FieldArgs) (r : SignalRow) : Prop :=
  match fa_agg c with
  | AggFloat _ => forall fil, fa_filter c = FilterFloat fil -> holds (float_meaning fil) (sr_ValueNumber r) = true
  | AggString _ => True
  | AggLocation _ =>
      ~ (f64_eqb (sr_LocLat r) f64_zero = true /\ f64_eqb (sr_LocLon r) f64_zero = true) /\
      forall fil, fa_filter c = FilterLocation (Some fil) ->
        fl_Name f <> "currentLocationApproximateCoordinates"%string ->
        in_geofence fil (sr_LocLat r) (sr_LocLon r) = true
  | AggOther _ => False
  end.

Definition asked_signal (f : CollectedField) (c : FieldArgs) : string :=
  match fa_agg c with AggLocation _ => signal_asked f | _ => fl_Name f end.

(** The readings the field aggregates in the bucket [ts] of the window. *)
Definition field_reading (subject : string) (filter_ : option SignalFilter) (from to us : Z)
    (f : CollectedField) (c : FieldArgs) (ts : Z) (r : SignalRow) : Prop :=
  reading DecodeEthrDID lake subject filter_ r /\ sr_Name r = asked_signal f c /\
  floor_micro from <= sr_Timestamp r < floor_micro to /\ in_bucket from us ts r /\ accepts f c r.

Definition exact_location (vl : vssLocation) : Location := mkLocation (vl_Latitude vl) (vl_Longitude vl) (vl_HDOP vl).

(** The center of the cell of resolution 6. *)
Definition blurred_location (vl : vssLocation) : option Location :=
  match LatLngToCell (vl_Latitude vl) (vl_Longitude vl) 6 with
  | Some cell => match CellToLatLng cell with
                 | Some (lat, lng) => Some (mkLocation lat lng (vl_HDOP vl))
                 | None => None
                 end
  | None => None
  end.

(** The field's resolver answers in the bucket [b] the aggregate of exactly its
    readings there, one of each instant. *)
Definition field_answer (subject : string) (filter_ : option SignalFilter) (from to us : Z)
    (f : CollectedField) (b : SignalAggregations) : Prop :=
  forall c, asks f c -> exists g : list SignalRow,
    NoDup (map sr_Timestamp g) /\
    (forall r, r ∈ g <-> field_reading subject filter_ from to us f c (sg_Timestamp b) r) /\
    match fa_agg c with
    | AggFloat agg => float_result agg g (resolve_number (fl_Alias f) b)
    | AggString agg => string_result agg g (resolve_string (fl_Alias f) b)
    | AggLocation agg => exists vl, location_result agg g vl /\
        resolve_location (fl_Alias f) b = exact_location <$> vl /\
        resolve_CurrentLocationApproximateCoordinates LatLngToCell CellToLatLng (fl_Alias f) b = vl ≫= blurred_location
    | AggOther _ => True
    end.

(** The condition a collected location request puts on a reading. *)
Lemma location_passes_accepts f c agg r : fa_agg c = AggLocation agg ->
  (forall fil, (location_args (fl_Name f) (fl_Alias f) agg c).2 = Some fil -> filter_ok fil) ->
  (exists p, locationFilterSQL (location_args (fl_Name f) (fl_Alias f) agg c).2 = Ok p) ->
  location_passes (location_args (fl_Name f) (fl_Alias f) agg c) r = true <-> accepts f c r.
Proof.
  clear DecodeEthrDID. intros Ea Hok [p Hp]. unfold location_passes, accepts. rewrite Ea, Hp, andb_true_iff.
  assert (Hz : lakeNonZeroLoc r = true <->
    ~ (f64_eqb (sr_LocLat r) f64_zero = true /\ f64_eqb (sr_LocLon r) f64_zero = true)).
  { unfold lakeNonZeroLoc, nonzero_fix.
    destruct (f64_eqb (sr_LocLat r) f64_zero), (f64_eqb (sr_LocLon r) f64_zero); cbn; intuition congruence. }
  rewrite Hz. apply and_iff_compat_l. revert Hok Hp. unfold location_args.
  change ApproximateCoordinatesField with "currentLocationApproximateCoordinates"%string.
  destruct (String.eqb_spec (fl_Name f) "currentLocationApproximateCoordinates") as [En|Hn]; cbn [snd].
  { intros _ [= <-]. split; [|done]. by intros _ fil _ Hne. }
  destruct (fa_filter c) as [|fl|[fil|]]; cbn [as_location_filter]; [by intros _ [= <-]..| |by intros _ [= <-]].
  intros Hok Hp. specialize (Hok fil eq_refl). destruct p as [p|].
  - rewrite (locationFilter_geofence fil p Hok Hp). split; [by intros H fil' [= <-]|]. intros H. by apply H.
  - split; [|done]. intros _ fil' [= <-] _. by apply (locationFilter_none fil Hok Hp).
Qed.

Lemma float_passes_accepts f c agg r : fa_agg c = AggFloat agg ->
  float_passes (float_args (fl_Name f) (fl_Alias f) agg c) r = true <-> accepts f c r.
Proof.
  intros Ea. unfold float_passes, accepts, float_args. rewrite Ea. cbn [fsa_Filter].
  destruct (fa_filter c) as [|fil|fil]; cbn [as_float_filter].
  - by split.
  - split; [by intros H fil' [= <-]|]. intros H. by apply H.
  - by split.
Qed.

Lemma child_asks f c : child_agg f = Some (fa_agg c, c) <-> asks f c.
Proof.
  clear DecodeEthrDID. unfold child_agg, asks, selected, isSignal, hasAggregations.
  destruct (fl_isSignal f), (fl_hasAggregation f); cbn; try intuition congruence. destruct (fl_Child f); intuition congruence.
Qed.

Lemma child_agg_fst f k c : child_agg f = Some (k, c) -> k = fa_agg c.
Proof. unfold child_agg. destruct (selected f); [|done]. destruct (fl_Child f); [|done]. by intros [= <- <-]. Qed.

(** The alias of every request of [a] holds its aggregate over its readings in [b]. *)
Definition bucket_exact (a : AggregatedSignalArgs) (subject : string) (b : SignalAggregations) : Prop :=
  (forall i arg, aa_FloatArgs a !! i = Some arg ->
     ValueNumbers b !! fsa_Alias arg = float_value DecodeEthrDID lake a subject i arg (sg_Timestamp b)) /\
  (forall i arg, aa_StringArgs a !! i = Some arg ->
     ValueStrings b !! stsa_Alias arg = string_value DecodeEthrDID lake a subject i arg (sg_Timestamp b)) /\
  (forall i arg, aa_LocationArgs a !! i = Some arg ->
     ValueLocations b !! lsa_Alias arg.1 = location_value DecodeEthrDID lake a subject i arg (sg_Timestamp b)).

(** A selected field's request, and that its rows are the field's readings. *)
Section request.
Context (fields : list CollectedField) (subject : string) (filter_ : option SignalFilter) (from to us : Z).
Let q := window_of filter_ subject from to us.
Let a := with_args q (omap float_of fields) (omap string_of fields) (omap location_of fields).
Context (Hlake : lake_ok lake) (Hus : 0 < us).
Context (Hfil : forall la fil, (la, Some fil) ∈ aa_LocationArgs a -> filter_ok fil).
Context (fs : list (option (float64 -> float64 -> bool))) (Hfs : loc_filters (aa_LocationArgs a) = Ok fs).

Lemma float_request f c agg ts r : f ∈ fields -> asks f c -> fa_agg c = AggFloat agg ->
  r ∈ agg_readings DecodeEthrDID lake a subject (fl_Name f) (float_passes (float_args (fl_Name f) (fl_Alias f) agg c)) ts <->
  field_reading subject filter_ from to us f c ts r.
Proof.
  intros Hf Hc Ea. rewrite elem_of_agg_readings by done. cbn [aa_SignalArgs aa_FromTS aa_ToTS aa_Interval a with_args q window_of sia_Filter].
  rewrite (float_passes_accepts f c agg) by done. unfold field_reading, asked_signal. by rewrite Ea.
Qed.

Lemma string_request f c agg ts r : f ∈ fields -> asks f c -> fa_agg c = AggString agg ->
  r ∈ agg_readings DecodeEthrDID lake a subject (fl_Name f) (fun _ => true) ts <->
  field_reading subject filter_ from to us f c ts r.
Proof.
  intros Hf Hc Ea. rewrite elem_of_agg_readings by done. cbn [aa_SignalArgs aa_FromTS aa_ToTS aa_Interval a with_args q window_of sia_Filter].
  unfold field_reading, asked_signal, accepts. rewrite Ea. tauto.
Qed.

Lemma location_requested f c agg : f ∈ fields -> asks f c -> fa_agg c = AggLocation agg ->
  location_args (fl_Name f) (fl_Alias f) agg c ∈ aa_LocationArgs a.
Proof.
  intros Hf Hc Ea. apply list_elem_of_omap. exists f. split; [done|]. unfold location_of.
  rewrite (proj2 (child_asks f c) Hc), Ea. done.
Qed.

Lemma location_request f c agg ts r : f ∈ fields -> asks f c -> fa_agg c = AggLocation agg ->
  let la := location_args (fl_Name f) (fl_Alias f) agg c in
  r ∈ agg_readings DecodeEthrDID lake a subject (lsa_Name la.1) (location_passes la) ts <->
  field_reading subject filter_ from to us f c ts r.
Proof.
  intros Hf Hc Ea la. pose proof (location_requested f c agg Hf Hc Ea) as Hin. fold la in Hin.
  rewrite elem_of_agg_readings by done. cbn [aa_SignalArgs aa_FromTS aa_ToTS aa_Interval a with_args q window_of sia_Filter].
  unfold la at 2. rewrite (location_passes_accepts f c agg r Ea).
  - unfold field_reading, asked_signal, signal_asked. rewrite Ea. unfold la, location_args.
    change ApproximateCoordinatesField with "currentLocationApproximateCoordinates"%string.
    destruct (String.eqb _ _); tauto.
  - intros fil E. fold la in E. eapply (Hfil la.1). rewrite <- E. by destruct la.
  - apply list_elem_of_lookup in Hin as [i Hi]. pose proof (loc_filters_lookup _ _ i Hfs) as H.
    unfold loc_args in *. rewrite Hi in H. destruct H as (p & Hp & _). by exists p.
Qed.

(** A request has a reading in a bucket when a selected field has. *)
Lemma request_has_reading ts :
  (exists t i n, (t, i, n) ∈ aggValuesTable (aa_FloatArgs a) (aa_StringArgs a) (aa_LocationArgs a) /\
     agg_readings DecodeEthrDID lake a subject n (passes a t i) ts <> []) <->
  exists f c r, f ∈ fields /\ asks f c /\ field_reading subject filter_ from to us f c ts r.
Proof.
  split.
  - intros (t & i & n & (_ & Hq)%request_type & Hne).
    destruct (agg_readings DecodeEthrDID lake a subject n (passes a t i) ts) as [|r g] eqn:E; [done|]. clear Hne.
    assert (Hr : r ∈ agg_readings DecodeEthrDID lake a subject n (passes a t i) ts) by (rewrite E; left). clear E g.
    unfold passes in Hr.
    destruct Hq as [[-> (x & Hx & <-)]|[[-> (x & Hx & <-)]|[-> (x & Hx & <-)]]];
      pose proof Hx as (f & Hf & E)%list_elem_of_lookup_2%list_elem_of_omap; unfold float_of, string_of, location_of in E;
      destruct (child_agg f) as [[k c]|] eqn:Ec; try done; pose proof (child_agg_fst _ _ _ Ec) as ->;
      apply child_asks in Ec; destruct (fa_agg c) as [g|g|g|g] eqn:Ea; try done; injection E as <-;
      exists f, c, r; (split; [done|split; [done|]]).
    + rewrite Z.eqb_refl, Hx in Hr. by apply (float_request f c g).
    + change (type_code StringType =? type_code FloatType) with false in Hr. rewrite Z.eqb_refl in Hr.
      by apply (string_request f c g).
    + change (type_code LocType =? type_code FloatType) with false in Hr.
      change (type_code LocType =? type_code StringType) with false in Hr. unfold loc_args in *. rewrite Hx in Hr.
      by apply (location_request f c g).
  - intros (f & c & r & Hf & Hc & Hr). pose proof (proj2 (child_asks f c) Hc) as Ec.
    destruct (fa_agg c) as [g|g|g|g] eqn:Ea; [| | |by destruct Hr as (_ & _ & _ & _ & Hr); unfold accepts in Hr; rewrite Ea in Hr].
    + destruct (omap_index float_of fields f (float_args (fl_Name f) (fl_Alias f) g c) Hf) as [i Hi];
        [by unfold float_of; rewrite Ec|].
      exists (type_code FloatType), (Z.of_nat i), (fl_Name f). rewrite (passes_float a i _ Hi).
      apply (float_request f c g) in Hr; [|done..]. split; [|by intros E; rewrite E in Hr; apply elem_of_nil in Hr].
      unfold aggValuesTable. rewrite !elem_of_app. left. exact (numbered_lookup FloatType fsa_Name _ i _ Hi).
    + destruct (omap_index string_of fields f (mkStringSignalArgs (fl_Name f) g (fl_Alias f)) Hf) as [i Hi];
        [by unfold string_of; rewrite Ec|].
      exists (type_code StringType), (Z.of_nat i), (fl_Name f).
      change (passes a (type_code StringType) (Z.of_nat i)) with (fun _ : SignalRow => true).
      apply (string_request f c g) in Hr; [|done..]. split; [|by intros E; rewrite E in Hr; apply elem_of_nil in Hr].
      unfold aggValuesTable. rewrite !elem_of_app. right. left. exact (numbered_lookup StringType stsa_Name _ i _ Hi).
    + destruct (omap_index location_of fields f (location_args (fl_Name f) (fl_Alias f) g c) Hf) as [i Hi];
        [by unfold location_of; rewrite Ec|].
      eexists (type_code LocType), (Z.of_nat i), _. rewrite (passes_location a i _ Hi).
      apply (location_request f c g) in Hr; [|done..]. split; [|by intros E; rewrite E in Hr; apply elem_of_nil in Hr].
      unfold aggValuesTable. rewrite !elem_of_app. right. right.
      exact (numbered_lookup LocType (fun la => lsa_Name la.1) _ i _ Hi).
Qed.

(** A bucket that holds each request's aggregate holds each field's answer. *)
Lemma bucket_answers b : bucket_exact a subject b ->
  forall f, f ∈ fields -> field_answer subject filter_ from to us f b.
Proof.
  intros (Bf & Bs & Bl) f Hf c Hc. pose proof (proj2 (child_asks f c) Hc) as Ec.
  destruct (fa_agg c) as [g|g|g|g] eqn:Ea.
  - destruct (omap_index float_of fields f (float_args (fl_Name f) (fl_Alias f) g c) Hf) as [i Hi];
      [by unfold float_of; rewrite Ec|].
    eexists. split; [apply agg_readings_times|]. split; [intros r; by apply (float_request f c g)|].
    unfold resolve_number. rewrite (Bf i _ Hi : ValueNumbers b !! fl_Alias f = _). apply floatAggExpr_result.
  - destruct (omap_index string_of fields f (mkStringSignalArgs (fl_Name f) g (fl_Alias f)) Hf) as [i Hi];
      [by unfold string_of; rewrite Ec|].
    eexists. split; [apply agg_readings_times|]. split; [intros r; by apply (string_request f c g)|].
    unfold resolve_string. rewrite (Bs i _ Hi : ValueStrings b !! fl_Alias f = _). apply stringAggExpr_result.
  - destruct (omap_index location_of fields f (location_args (fl_Name f) (fl_Alias f) g c) Hf) as [i Hi];
      [by unfold location_of; rewrite Ec|]. specialize (Bl i _ Hi).
    eexists. split; [apply agg_readings_times|]. split; [intros r; by apply (location_request f c g)|].
    eexists. split; [apply (location_agg_result g (type_code LocType) (Z.of_nat i))|].
    assert (Ev : ValueLocations b !! fl_Alias f = location_value DecodeEthrDID lake a subject i
                   (location_args (fl_Name f) (fl_Alias f) g c) (sg_Timestamp b)).
    { etransitivity; [|exact Bl]. f_equal. unfold location_args. by destruct (String.eqb _ _). }
    assert (Eg : lsa_Agg (location_args (fl_Name f) (fl_Alias f) g c).1 = g) by (unfold location_args; by destruct (String.eqb _ _)).
    unfold location_value in Ev. rewrite Eg in Ev. unfold resolve_location, resolve_CurrentLocationApproximateCoordinates.
    unfold loc_args in *. rewrite Ev. split; [reflexivity|].
    unfold blurred_location, GetApproximateLoc. apply option_bind_ext; [|done]. intros vl.
    change approximateLocationResolution with 6. destruct (LatLngToCell _ _ _); [|done]. cbn.
    by destruct (CellToLatLng _) as [[lat lng]|].
  - exists []. split; [constructor|]. split; [|done]. intros r. split; [by intros ?%elem_of_nil|].
    intros (_ & _ & _ & _ & Hr). unfold accepts in Hr. by rewrite Ea in Hr.
Qed.
End request.

Context {sb : SignalBackend} (dec : string -> bool).

(** C3. The signals query is exact end to end, from the fields a client selects to
    the value it is shown. gqlgen collects the fields of a selection under distinct
    aliases; over a backend whose aggregation query runs on a lake with the writer's
    invariant (buckets by subject, one row per reading and event), a request that is
    accepted is answered with one bucket per bucket of time in which a selected
    field has a reading, in increasing order, and in each bucket the resolver of a
    field answers the aggregate that field asks for, over exactly the subject's
    readings of its signal, one per instant, which fall in the window and the
    bucket, have the requested source and pass the field's own filter (a number's
    conditions; for a location away from (0,0) and inside the circle or polygon),
    whatever else is selected; the approximate location answers the cell of that
    aggregate over the unfiltered coordinates, and a field without a reading
    answers null. *)
Theorem signals_query_exact fields subject interval from to filter_ a :
  lake_ok lake ->
  aggregationArgsFromContext fields subject interval from to filter_ = Ok a ->
  validateAggSigArgs dec (Some a) = None ->
  NoDup (map fl_Alias fields) ->
  zero_time < floor_micro from ->
  (forall rows, GetAggregatedSignals DecodeEthrDID lake None subject (Some a) = Ok rows ->
                sb_GetAggregatedSignals subject a = Ok rows) ->
  exists us out, getIntervalMicroseconds interval = Ok us /\
    resolve_Signals dec fields subject interval from to filter_ = Ok out /\
    StronglySorted (fun x y => sg_Timestamp x < sg_Timestamp y) out /\
    (forall f b, f ∈ fields -> b ∈ out -> field_answer subject filter_ from to us f b) /\
    (forall ts, (exists b, b ∈ out /\ sg_Timestamp b = ts) <->
       exists f c r, f ∈ fields /\ asks f c /\ field_reading subject filter_ from to us f c ts r).
Proof.
  intros Hlake Ha Hv Hn Hz Hsb. pose proof Ha as Hres. unfold aggregationArgsFromContext in Ha.
  destruct (getIntervalMicroseconds interval) as [us|] eqn:Eus; [|done]. cbn [result_bind] in Ha.
  apply fields_loop_spec in Ha as [-> _]. set (q := window_of filter_ subject from to us) in *.
  change (mkAggregatedSignalArgs _ _ _ _ _ _ _) with q in *. cbn [aa_FloatArgs aa_StringArgs aa_LocationArgs q window_of app] in *.
  set (a := with_args q (omap float_of fields) (omap string_of fields) (omap location_of fields)) in *.
  destruct (signal_query_spec DecodeEthrDID lake dec a Hv) as (out & Eo & Hs & Hb & Ht).
  { cbn. by rewrite tsMicro_floor. }
  { by apply omap_alias_NoDup; [apply float_of_alias|]. }
  { by apply omap_alias_NoDup; [apply string_of_alias|]. }
  { by apply (omap_alias_NoDup location_of (fun la => lsa_Alias la.1)); [apply location_of_alias|]. }
  { exact Hsb. }
  destruct (accepted_request dec a Hv) as (Hus & _ & _ & _ & fs & Hfs).
  pose proof (validateAggSigArgs_spec dec a Hv) as (_ & _ & _ & _ & _ & Hfil & _).
  exists us, out. split; [done|]. split; [unfold resolve_Signals; by rewrite Hres; cbn [map_err result_bind]; rewrite Eo|].
  split; [exact Hs|]. split.
  - intros f b Hf Hin. exact (bucket_answers fields subject filter_ from to us Hlake Hus Hfil fs Hfs b (Hb b Hin) f Hf).
  - intros ts. rewrite (Ht ts). exact (request_has_reading fields subject filter_ from to us Hlake Hus Hfil fs Hfs ts).
Qed.
End signals.

(** ** At a concrete query *)

Definition demo_field (name alias type : string) (agg : agg_value) : CollectedField :=
  mkField name alias type true true (Ok (mkFieldArgs agg FilterAbsent)).

(** [timestamp], two aggregates of a signal and the approximate location. *)
Definition demo_selection : list CollectedField :=
  [mkField "timestamp" "timestamp" "Time" false false (Ok (mkFieldArgs (AggOther "<nil>") FilterAbsent));
   demo_field "speed" "mean" "Float" (AggFloat "AVG"); demo_field "speed" "top" "Float" (AggFloat "MAX");
   demo_field ApproximateCoordinatesField "near" "Location" (AggLocation "LAST")].

Definition demo_cell (lat lng : float64) (_ : Z) : option (float64 * float64) := Some (lat, lng).
Definition demo_center (c : float64 * float64) : option (float64 * float64) := Some (f64_of_Z (f64_trunc c.1), f64_zero).

Lemma demo_readings_ok : lake_ok demo_lake.
Proof. apply demo_lake_ok; [repeat constructor|]. apply (bool_decide_unpack _). vm_compute. exact I. Qed.

Example signals_query_exact_witness :
  exists us out, getIntervalMicroseconds "1m" = Ok us /\ us = 60000000 /\
    @resolve_Signals demo_backend (fun _ => true) demo_selection "did:v" "1m" 0 (120 * Second) None = Ok out /\
    map (fun b => (sg_Timestamp b, resolve_number "top" b)) out = [(0, Some (f64_of_Z 40)); (60 * Second, Some (f64_of_Z 7))] /\
    map (resolve_CurrentLocationApproximateCoordinates demo_cell demo_center "near") out =
      [Some (mkLocation (f64_of_Z 52) f64_zero f64_zero); None] /\
    forall f b, f ∈ demo_selection -> b ∈ out ->
      @field_answer demo_duck no_did demo_lake _ demo_cell demo_center "did:v" None 0 (120 * Second) us f b.
Proof.
  destruct (aggregationArgsFromContext demo_selection "did:v" "1m" 0 (120 * Second) None) as [a|] eqn:Ea;
    [|exfalso; vm_compute in Ea; discriminate].
  destruct (@signals_query_exact demo_duck no_did demo_lake _ demo_cell demo_center demo_backend (fun _ => true)
    demo_selection "did:v" "1m" 0 (120 * Second) None a demo_readings_ok Ea) as (us & out & Eu & Eo & _ & Hf & _).
  - vm_compute in Ea. injection Ea as <-. vm_compute. reflexivity.
  - apply (bool_decide_unpack _). vm_compute. exact I.
  - vm_compute. reflexivity.
  - intros rows E. unfold demo_backend. cbn [sb_GetAggregatedSignals]. by rewrite E.
  - exists us, out. split; [exact Eu|]. split; [vm_compute in Eu; by injection Eu as <-|]. split; [exact Eo|].
    split; [vm_compute in Eo; injection Eo as <-; vm_compute; reflexivity|].
    split; [vm_compute in Eo; injection Eo as <-; vm_compute; reflexivity|]. exact Hf.
Defined.
