(* ===== verification/GraphLatest.v ===== *)
(** * internal/graph: signalsLatest against the lake

    The resolver of signalsLatest ([GraphArgs.v]) composed with the repository and
    the latest-value scan of the lake: what each field of the collection holds. *)

From S2P Require Import Prelude Model SegRepo Validate Coordinates SignalsRepo Duration Decode Sql LakeSource LakeLatest RawEvents SqlFilter Aggregations AggSpec GraphArgs.

#[local] Set Default Proof Using "Type*".

(** ** The generated tables *)

Lemma table_case (t u : list string) n :
  forallb (fun n => negb (mem n u)) t = true -> mem n t = true -> mem n u = false.
Proof.
  rewrite forallb_forall. intros H Hn%mem_true. apply negb_true_iff, H. by apply list_elem_of_In.
Qed.

Lemma string_not_float n : mem n string_signals = true -> mem n float_signals = false.
Proof. apply table_case. vm_compute. reflexivity. Qed.
Lemma location_not_float n : mem n location_signals = true -> mem n float_signals = false.
Proof. apply table_case. vm_compute. reflexivity. Qed.
Lemma location_not_string n : mem n location_signals = true -> mem n string_signals = false.
Proof. apply table_case. vm_compute. reflexivity. Qed.

Definition special_names : list string := [LastSeenField; ApproximateCoordinatesField].

Lemma float_not_special n : mem n float_signals = true -> mem n special_names = false.
Proof. apply table_case. vm_compute. reflexivity. Qed.
Lemma string_not_special n : mem n string_signals = true -> mem n special_names = false.
Proof. apply table_case. vm_compute. reflexivity. Qed.
Lemma location_not_special n : mem n location_signals = true -> mem n special_names = false.
Proof. apply table_case. vm_compute. reflexivity. Qed.

Lemma not_special n : mem n special_names = false -> n <> LastSeenField /\ n <> ApproximateCoordinatesField.
Proof. intros H. split; intros ->; by vm_compute in H. Qed.

(** ** The loop over the rows *)

Definition step (c : SignalCollection) (s : vssSignal) : SignalCollection :=
  if is_last_seen s then setLastSeen (vs_Timestamp s) c else SetCollectionField s c.

Definition at_name {V} (v : vssSignal -> V) (n : string) (s : vssSignal) : option V :=
  if String.eqb (vs_Name s) n then Some (v s) else None.

Definition float_value_of (s : vssSignal) : SignalFloat := mkSignalFloat (vs_Timestamp s) (vs_ValueNumber s).
Definition string_value_of (s : vssSignal) : SignalString := mkSignalString (vs_Timestamp s) (vs_ValueString s).
Definition location_value_of (s : vssSignal) : SignalLocation :=
  let l := vs_ValueLocation s in
  mkSignalLocation (vs_Timestamp s) (Some (mkLocation (vl_Latitude l) (vl_Longitude l) (vl_HDOP l))).

Definition seen_of (s : vssSignal) : option Z := if is_last_seen s then Some (vs_Timestamp s) else None.

Lemma last_seen_name s : is_last_seen s = true -> vs_Name s = LastSeenField.
Proof. unfold is_last_seen. by intros [E%String.eqb_eq _]%andb_true_iff. Qed.

Ltac step_cases n s :=
  unfold step, at_name; destruct (is_last_seen s) eqn:?Hseen;
  [apply last_seen_name in Hseen; destruct (String.eqb_spec (vs_Name s) n); [subst; congruence|done]|];
  unfold SetCollectionField; destruct (String.eqb_spec (vs_Name s) n) as [<-|?Hne].

Lemma step_float n c s : mem n float_signals = true ->
  sc_Floats (step c s) !! n = match at_name float_value_of n s with Some v => Some v | None => sc_Floats c !! n end.
Proof.
  intros Hn. pose proof (not_special n (float_not_special n Hn)) as [Hl _]. step_cases n s.
  - rewrite Hn. cbn [sc_Floats]. by rewrite lookup_insert_eq.
  - destruct (mem (vs_Name s) float_signals); [cbn [sc_Floats]; by rewrite lookup_insert_ne|].
    destruct (mem (vs_Name s) string_signals), (mem (vs_Name s) location_signals); done.
Qed.

Lemma step_string n c s : mem n string_signals = true ->
  sc_Strings (step c s) !! n = match at_name string_value_of n s with Some v => Some v | None => sc_Strings c !! n end.
Proof.
  intros Hn. pose proof (not_special n (string_not_special n Hn)) as [Hl _]. step_cases n s.
  - rewrite (string_not_float _ Hn), Hn. cbn [sc_Strings]. by rewrite lookup_insert_eq.
  - destruct (mem (vs_Name s) float_signals); [done|].
    destruct (mem (vs_Name s) string_signals); [cbn [sc_Strings]; by rewrite lookup_insert_ne|].
    by destruct (mem (vs_Name s) location_signals).
Qed.

Lemma step_location n c s : mem n location_signals = true ->
  sc_Locations (step c s) !! n = match at_name location_value_of n s with Some v => Some v | None => sc_Locations c !! n end.
Proof.
  intros Hn. pose proof (not_special n (location_not_special n Hn)) as [Hl _]. step_cases n s.
  - rewrite (location_not_float _ Hn), (location_not_string _ Hn), Hn. cbn [sc_Locations]. by rewrite lookup_insert_eq.
  - destruct (mem (vs_Name s) float_signals); [done|]. destruct (mem (vs_Name s) string_signals); [done|].
    destruct (mem (vs_Name s) location_signals); [cbn [sc_Locations]; by rewrite lookup_insert_ne|done].
Qed.

Lemma step_seen c s :
  sc_LastSeen (step c s) = match seen_of s with Some v => Some v | None => sc_LastSeen c end.
Proof.
  unfold step, seen_of. destruct (is_last_seen s); [done|]. unfold SetCollectionField.
  destruct (mem _ _); [done|]. destruct (mem _ _); [done|]. by destruct (mem _ _).
Qed.

Lemma step_approximate c s : sc_Approximate (step c s) = sc_Approximate c.
Proof.
  unfold step. destruct (is_last_seen s); [done|]. unfold SetCollectionField.
  destruct (mem _ _); [done|]. destruct (mem _ _); [done|]. by destruct (mem _ _).
Qed.

Lemma fold_component {V} (get : SignalCollection -> option V) (f : vssSignal -> option V) l c :
  (forall c s, get (step c s) = match f s with Some v => Some v | None => get c end) ->
  get (fold_left step l c) = last_write f (get c) l.
Proof.
  intros H. revert c. induction l as [|s l IH]; intros c; [done|]. cbn [fold_left last_write foldl].
  rewrite IH, H. done.
Qed.

Lemma last_write_iff {A B} (f : A -> option B) l v :
  (forall x y a b, x ∈ l -> y ∈ l -> f x = Some a -> f y = Some b -> a = b) ->
  last_write f None l = Some v <-> exists x, x ∈ l /\ f x = Some v.
Proof.
  intros Hu.
  assert (Hv : forall x w, x ∈ l -> f x = Some w -> last_write f None l = Some w).
  { intros x w Hx E. apply last_write_value; [right; exists x; split; [done|by exists w]|].
    intros y Hy. destruct (f y) as [b|] eqn:Ey; [right|by left]. f_equal. symmetry. by apply (Hu x y). }
  split; [|intros (x & Hx & E); by apply (Hv x)]. intros E.
  destruct (decide (Exists (fun x => is_Some (f x)) l)) as [(x & Hx & [w Hw])%Exists_exists|Hno].
  - exists x. split; [done|]. rewrite (Hv x w Hx Hw) in E. congruence.
  - rewrite last_write_none in E; [done|]. intros x Hx. apply eq_None_not_Some. intros Hs. apply Hno, Exists_exists.
    by exists x.
Qed.

(** ** What is asked for *)

Definition wants_value (fields : list CollectedField) (n : string) : Prop :=
  exists f, f ∈ fields /\ isSignal f = true /\ fl_Name f <> ApproximateCoordinatesField /\
            fl_Type f <> "SignalLocation"%string /\ fl_Name f = n.
Definition wants_location (fields : list CollectedField) (n : string) : Prop :=
  exists f, f ∈ fields /\ isSignal f = true /\
    ((fl_Name f = ApproximateCoordinatesField /\ n = FieldCurrentLocationCoordinates) \/
     (fl_Name f <> ApproximateCoordinatesField /\ fl_Type f = "SignalLocation"%string /\ fl_Name f = n)).
Definition wants_last_seen (fields : list CollectedField) : Prop :=
  exists f, f ∈ fields /\ isSignal f = false /\ fl_Name f = LastSeenField.

Lemma exists_cons {A} (P : A -> Prop) x l : (exists y, y ∈ x :: l /\ P y) <-> P x \/ exists y, y ∈ l /\ P y.
Proof.
  split.
  - intros (y & [->|Hy]%elem_of_cons & H); [by left|right; by exists y].
  - intros [H|(y & Hy & H)]; [exists x; split; [left|done]|exists y; split; [by right|done]].
Qed.

Lemma latest_args_spec fields a n :
  let a' := fold_left add_latest fields a in
  la_SignalArgs a' = la_SignalArgs a /\
  (n ∈ la_SignalNames a' <-> n ∈ la_SignalNames a \/ wants_value fields n) /\
  (n ∈ la_LocationSignalNames a' <-> n ∈ la_LocationSignalNames a \/ wants_location fields n) /\
  (la_IncludeLastSeen a' = true <-> la_IncludeLastSeen a = true \/ wants_last_seen fields).
Proof.
  revert a. induction fields as [|f fields IH]; intros a; cbv zeta.
  { cbn [fold_left]. unfold wants_value, wants_location, wants_last_seen.
    split; [done|]. split_and!; (split; [by left|]); intros [H|(f & Hf%elem_of_nil & _)]; done. }
  cbn [fold_left]. destruct (IH (add_latest a f)) as (E0 & E1 & E2 & E3). clear IH.
  rewrite E0, E1, E2, E3. clear E0 E1 E2 E3. unfold wants_value, wants_location, wants_last_seen. rewrite !exists_cons.
  unfold add_latest. destruct (isSignal f); cbn [negb].
  - destruct (String.eqb_spec (fl_Name f) ApproximateCoordinatesField) as [En|En];
      [|destruct (String.eqb_spec (fl_Type f) "SignalLocation") as [Et|Et]];
      cbn [la_SignalArgs la_SignalNames la_LocationSignalNames la_IncludeLastSeen]; set_solver.
  - destruct (String.eqb_spec (fl_Name f) LastSeenField) as [En|En];
      cbn [la_SignalArgs la_SignalNames la_LocationSignalNames la_IncludeLastSeen]; set_solver.
Qed.

(** The fields of the schema's SignalCollection: [isSignal] marks the approximate
    location and the generated fields, whose type follows the tables. *)
Definition schema_field (f : CollectedField) : Prop :=
  isSignal f = true ->
  (fl_Type f = "SignalLocation"%string /\ (fl_Name f = ApproximateCoordinatesField \/ mem (fl_Name f) location_signals = true)) \/
  (fl_Type f = "SignalFloat"%string /\ mem (fl_Name f) float_signals = true) \/
  (fl_Type f = "SignalString"%string /\ mem (fl_Name f) string_signals = true).

Section schema.
Context (fields : list CollectedField) (Hschema : Forall schema_field fields).

Lemma value_names n : wants_value fields n -> mem n float_signals = true \/ mem n string_signals = true.
Proof.
  intros (f & Hf & Hs & _ & Ht & <-). rewrite Forall_forall in Hschema.
  destruct (Hschema f Hf Hs) as [[H _]|[[_ H]|[_ H]]]; [done|by left|by right].
Qed.

Lemma location_names n : wants_location fields n -> mem n location_signals = true.
Proof.
  intros (f & Hf & Hs & [[_ ->]|(Hne & Ht & <-)]); [done|]. rewrite Forall_forall in Hschema.
  destruct (Hschema f Hf Hs) as [[_ [H|H]]|[[H _]|[H _]]]; congruence.
Qed.

Lemma wants_named n : mem n float_signals = true \/ mem n string_signals = true ->
  wants_value fields n <-> exists f, f ∈ fields /\ isSignal f = true /\ fl_Name f = n.
Proof.
  intros Hn. assert (Hl : mem n location_signals = false).
  { destruct (mem n location_signals) eqn:E; [|done].
    pose proof (location_not_float n E). pose proof (location_not_string n E). destruct Hn; congruence. }
  assert (Ha : n <> ApproximateCoordinatesField).
  { destruct Hn as [H|H]; [apply float_not_special in H|apply string_not_special in H]; by apply not_special in H as [_ ?]. }
  split; [intros (f & ? & ? & _ & _ & ?); by exists f|]. intros (f & Hf & Hs & <-). exists f.
  split_and!; [done..| |done]. intros Ht. rewrite Forall_forall in Hschema.
  destruct (Hschema f Hf Hs) as [[_ [H|H]]|[[H _]|[H _]]]; congruence.
Qed.
End schema.

(** ** The rows of the scan *)

Definition latest_rows (args : LatestSignalsArgs) (R : list SignalRow) : list sigRow :=
  map (named_row R) (List.filter (requested (la_SignalNames args)) (distinct_names R)) ++
  map (location_row R) (List.filter (requested (la_LocationSignalNames args)) (distinct_names R)) ++
  if la_IncludeLastSeen args then [lastSeen_row (sql_max sr_Timestamp R)] else [].

Definition answered (args : LatestSignalsArgs) (R : list SignalRow) : list vssSignal :=
  map scanSignal (order_by q_name sleb (latest_rows args R)).

Lemma lake_latest_run DecodeEthrDID lake subject args :
  getLatestSignalsLake DecodeEthrDID lake None subject args =
  Ok (answered args (subject_rows lake subject (signalSourceCond DecodeEthrDID (sia_Filter (la_SignalArgs args))))).
Proof.
  unfold getLatestSignalsLake. destruct (nothing_requested args) eqn:E; [|reflexivity].
  unfold nothing_requested in E. apply andb_true_iff in E as [E E3%negb_true_iff].
  apply andb_true_iff in E as [E1%bool_decide_eq_true E2%bool_decide_eq_true].
  assert (Hnone : forall l, List.filter (requested ∅) l = []).
  { intros l. apply list_filter_none. intros n _. apply bool_decide_eq_false. set_solver. }
  unfold answered, latest_rows. by rewrite E1, E2, E3, !Hnone.
Qed.

Lemma elem_of_answered args R s : s ∈ answered args R <->
  (exists n, n ∈ la_SignalNames args /\ n ∈ distinct_names R /\ s = scanSignal (named_row R n)) \/
  (exists n, n ∈ la_LocationSignalNames args /\ n ∈ distinct_names R /\ s = scanSignal (location_row R n)) \/
  (la_IncludeLastSeen args = true /\ s = scanSignal (lastSeen_row (sql_max sr_Timestamp R))).
Proof.
  unfold answered, latest_rows. rewrite list_elem_of_fmap.
  assert (Hf : forall names (g : string -> sigRow) r, r ∈ map g (List.filter (requested names) (distinct_names R)) <->
            exists n, n ∈ names /\ n ∈ distinct_names R /\ r = g n).
  { intros names g r. rewrite list_elem_of_fmap. split.
    - intros (n & -> & [Hn Hq%bool_decide_eq_true]%elem_of_list_filter). by exists n.
    - intros (n & Hn & Hd & ->). exists n. split; [done|]. apply elem_of_list_filter. split; [done|].
      by apply bool_decide_eq_true. }
  assert (Hl : forall r, r ∈ (if la_IncludeLastSeen args then [lastSeen_row (sql_max sr_Timestamp R)] else []) <->
            la_IncludeLastSeen args = true /\ r = lastSeen_row (sql_max sr_Timestamp R)).
  { intros r. destruct (la_IncludeLastSeen args); [rewrite list_elem_of_singleton|rewrite elem_of_nil]; by split; [|intros []]. }
  split.
  - intros (r & -> & Hr). rewrite order_by_perm, !elem_of_app, !Hf, Hl in Hr.
    destruct Hr as [(n & ? & ? & ->)|[(n & ? & ? & ->)|[? ->]]]; [left; by exists n|right; left; by exists n|by right; right].
  - intros [(n & H1 & H2 & ->)|[(n & H1 & H2 & ->)|[H ->]]]; eexists; (split; [done|]);
      rewrite order_by_perm, !elem_of_app, !Hf, Hl; [left; by exists n|right; left; by exists n|by right; right].
Qed.

Lemma scan_name r : vs_Name (scanSignal r) = q_name r.
Proof. done. Qed.

(** ** The newest reading *)

Definition newest (R : list SignalRow) (p : SignalRow -> bool) (n : string) (r : SignalRow) : Prop :=
  r ∈ R /\ sr_Name r = n /\ p r = true /\
  forall r', r' ∈ R -> sr_Name r' = n -> p r' = true -> sr_Timestamp r' <= sr_Timestamp r.

Definition one_per_instant (R : list SignalRow) : Prop :=
  forall x y, x ∈ R -> y ∈ R -> sr_Name x = sr_Name y -> sr_Timestamp x = sr_Timestamp y -> x = y.

Definition any_reading (_ : SignalRow) : bool := true.

Lemma subject_rows_one lake subject src : one_per_instant (subject_rows lake subject src).
Proof.
  intros x y [Hx Ex%String.eqb_eq]%elem_of_list_filter [Hy Ey%String.eqb_eq]%elem_of_list_filter En Et.
  eapply dedup_inj; [exact Hx|exact Hy|]. unfold ident. congruence.
Qed.

Lemma top_newest R p n r : one_per_instant R ->
  top sr_Timestamp (List.filter p (named_rows n R)) = Some r <-> newest R p n r.
Proof.
  intros Hone.
  assert (Hin : forall x, x ∈ List.filter p (named_rows n R) <-> x ∈ R /\ sr_Name x = n /\ p x = true).
  { intros x. rewrite elem_of_list_filter, elem_of_named_rows. tauto. }
  assert (Hnew : forall x, top sr_Timestamp (List.filter p (named_rows n R)) = Some x -> newest R p n x).
  { intros x [Hx Hmax]%top_spec. apply Hin in Hx as (H1 & H2 & H3). split_and!; [done..|].
    intros r' ? ? ?. by apply Hmax, Hin. }
  split; [apply Hnew|]. intros (Hr & Hn & Hp & Hmax).
  destruct (top sr_Timestamp (List.filter p (named_rows n R))) as [x|] eqn:E.
  - pose proof (Hnew x eq_refl) as (Hx & Hxn & Hxp & Hxmax). f_equal. apply Hone; [done|done|congruence|].
    pose proof (Hmax x Hx Hxn Hxp). pose proof (Hxmax r Hr Hn Hp). lia.
  - apply top_none in E. assert (H : r ∈ List.filter p (named_rows n R)) by by apply Hin.
    rewrite E in H. by apply elem_of_nil in H.
Qed.

Lemma filter_any l : List.filter any_reading l = l.
Proof. induction l as [|x l IH]; [done|]. cbn. by rewrite IH. Qed.

Lemma named_row_newest R n : one_per_instant R -> n ∈ distinct_names R -> exists r, newest R any_reading n r /\
  scanSignal (named_row R n) = mkVssSignal n (sr_Timestamp r) (sr_ValueNumber r) (sr_ValueString r)
                                 (mkVssLocation f64_zero f64_zero f64_zero f64_zero).
Proof.
  intros Hone (r0 & Hr0 & En)%elem_of_distinct_names.
  destruct (top sr_Timestamp (named_rows n R)) as [r|] eqn:E.
  - exists r. split; [apply top_newest; [done|by rewrite filter_any]|].
    unfold named_row, arg_max_of, sql_arg_max. rewrite sql_max_top, E. reflexivity.
  - apply top_none in E. assert (H : r0 ∈ named_rows n R) by by apply elem_of_named_rows.
    rewrite E in H. by apply elem_of_nil in H.
Qed.

Lemma newest_unique R p n r r' : one_per_instant R -> newest R p n r -> newest R p n r' -> r = r'.
Proof. intros Ho H1%(top_newest _ _ _ _ Ho) H2%(top_newest _ _ _ _ Ho). congruence. Qed.

Lemma newest_name R p n r : newest R p n r -> n ∈ distinct_names R.
Proof. intros (H1 & H2 & _). apply elem_of_distinct_names. by exists r. Qed.

Definition no_fix : SignalLocation := mkSignalLocation epochTime (Some (mkLocation f64_zero f64_zero f64_zero)).

(** What the location row of a name turns into: its newest fix, or the sentinel. *)
Definition location_shown (R : list SignalRow) (n : string) (v : SignalLocation) : Prop :=
  (exists r, newest R lakeNonZeroLoc n r /\ v = mkSignalLocation (sr_Timestamp r) (Some (fix_of r))) \/
  ((exists r, r ∈ R /\ sr_Name r = n) /\
   (forall r, r ∈ R -> sr_Name r = n -> lakeNonZeroLoc r = false) /\ v = no_fix).

Lemma location_row_shown R n : one_per_instant R -> n ∈ distinct_names R ->
  location_shown R n (location_value_of (scanSignal (location_row R n))).
Proof.
  intros Hone (r0 & Hr0 & En)%elem_of_distinct_names. unfold location_shown.
  destruct (top sr_Timestamp (List.filter lakeNonZeroLoc (named_rows n R))) as [r|] eqn:E.
  - left. exists r. split; [by apply top_newest|].
    unfold location_row, arg_max_of, sql_arg_max. rewrite sql_max_top, E. cbn -[nonzero_fix].
    unfold location_value_of, scanSignal. cbn -[nonzero_fix]. by destruct (nonzero_fix (sr_LocLat r) (sr_LocLon r)).
  - right. split; [by exists r0|]. split.
    + intros r Hr Hn. apply top_none in E. destruct (lakeNonZeroLoc r) eqn:Ef; [|done].
      assert (H : r ∈ List.filter lakeNonZeroLoc (named_rows n R)) by (apply elem_of_list_filter; by rewrite elem_of_named_rows).
      rewrite E in H. by apply elem_of_nil in H.
    + unfold location_row, arg_max_of, sql_arg_max. rewrite sql_max_top, E. reflexivity.
Qed.

Lemma location_shown_unique R n v v' : one_per_instant R -> location_shown R n v -> location_shown R n v' -> v = v'.
Proof.
  intros Hone [(r & Hr & ->)|(_ & Hno & ->)] [(r' & Hr' & ->)|(_ & Hno' & ->)]; [|..|done].
  - by rewrite (newest_unique _ _ _ _ _ Hone Hr Hr').
  - destruct Hr as (H1 & H2 & H3 & _). by rewrite Hno' in H3.
  - destruct Hr' as (H1 & H2 & H3 & _). by rewrite Hno in H3.
Qed.

Lemma location_shown_name R n v : location_shown R n v -> n ∈ distinct_names R.
Proof. intros [(r & H%newest_name & _)|(H & _)]; [done|]. by apply elem_of_distinct_names. Qed.

(** ** The collection *)

Section latest.
Context (DecodeEthrDID : string -> option string) (lake : list SignalRow).
Context {sb : SignalBackend} (dec : string -> bool).
Context {Cell : Type} (LatLngToCell : float64 -> float64 -> Z -> option Cell)
        (CellToLatLng : Cell -> option (float64 * float64)).

Definition asked (fields : list CollectedField) (n : string) : Prop :=
  exists f, f ∈ fields /\ isSignal f = true /\ fl_Name f = n.

Definition blurred (l : SignalLocation) : option SignalLocation :=
  v ← sl_Value l;
  '(lat, lng) ← GetApproximateLoc LatLngToCell CellToLatLng (Latitude v) (Longitude v);
  Some (mkSignalLocation (sl_Timestamp l) (Some (mkLocation lat lng (Hdop v)))).

Section rows.
Context (fields : list CollectedField) (Hschema : Forall schema_field fields).
Context (args : LatestSignalsArgs) (R : list SignalRow) (Hone : one_per_instant R).
Context (Hnames : forall n, n ∈ la_SignalNames args <-> wants_value fields n).
Context (Hlocs : forall n, n ∈ la_LocationSignalNames args <-> wants_location fields n).
Context (Hseen : la_IncludeLastSeen args = true <-> wants_last_seen fields).

Definition coll : SignalCollection := fold_left step (answered args R) emptyCollection.

(** The rows of a value name, and of a location name. *)
Lemma value_rows n s : mem n float_signals = true \/ mem n string_signals = true ->
  s ∈ answered args R /\ vs_Name s = n <->
  asked fields n /\ exists r, newest R any_reading n r /\
    s = mkVssSignal n (sr_Timestamp r) (sr_ValueNumber r) (sr_ValueString r) (mkVssLocation f64_zero f64_zero f64_zero f64_zero).
Proof.
  intros Hn. assert (Hsp : mem n special_names = false) by (destruct Hn; [by apply float_not_special|by apply string_not_special]).
  apply not_special in Hsp as [Hls _].
  unfold asked. rewrite <- (wants_named fields Hschema n Hn), elem_of_answered. split.
  - intros [[(m & Hm & Hd & ->)|[(m & Hm & Hd & ->)|[_ ->]]] E].
    + change (m = n) in E. subst m. split; [by apply Hnames|]. by apply named_row_newest.
    + change (m = n) in E. subst m. apply Hlocs, (location_names fields Hschema) in Hm.
      pose proof (location_not_float n Hm). pose proof (location_not_string n Hm). destruct Hn; congruence.
    + change (LastSeenField = n) in E. congruence.
  - intros (Hw & r & Hr & ->). split; [|done]. left. exists n. split; [by apply Hnames|].
    pose proof (newest_name _ _ _ _ Hr) as Hd. split; [done|].
    destruct (named_row_newest R n Hone Hd) as (r' & Hr' & ->). by rewrite (newest_unique _ _ _ _ _ Hone Hr Hr').
Qed.

Lemma location_rows n s : mem n location_signals = true ->
  s ∈ answered args R /\ vs_Name s = n <->
  wants_location fields n /\ n ∈ distinct_names R /\ s = scanSignal (location_row R n).
Proof.
  intros Hn. pose proof (not_special n (location_not_special n Hn)) as [Hls _]. rewrite elem_of_answered. split.
  - intros [[(m & Hm & Hd & ->)|[(m & Hm & Hd & ->)|[_ ->]]] E].
    + change (m = n) in E. subst m. apply Hnames, (value_names fields Hschema) in Hm.
      pose proof (location_not_float n Hn). pose proof (location_not_string n Hn). destruct Hm; congruence.
    + change (m = n) in E. subst m. split; [by apply Hlocs|done].
    + change (LastSeenField = n) in E. congruence.
  - intros (Hw & Hd & ->). split; [|done]. right. left. exists n. split; [by apply Hlocs|done].
Qed.

(** A component of the collection under a name whose rows are known. *)
Lemma component_iff {V} (get : SignalCollection -> option V) (g : vssSignal -> V) n (P : vssSignal -> Prop) v :
  (forall c s, get (step c s) = match at_name g n s with Some v => Some v | None => get c end) ->
  get emptyCollection = None ->
  (forall s, s ∈ answered args R /\ vs_Name s = n <-> P s) -> (forall s s', P s -> P s' -> s = s') ->
  get coll = Some v <-> exists s, P s /\ v = g s.
Proof.
  intros Hstep Hempty HP Hu. unfold coll. rewrite (fold_component get _ _ _ Hstep), Hempty.
  assert (Hat : forall s w, at_name g n s = Some w <-> vs_Name s = n /\ g s = w).
  { intros s w. unfold at_name. destruct (String.eqb_spec (vs_Name s) n) as [E|E].
    - split; [by intros [= <-]|by intros [_ <-]].
    - by split; [|intros []]. }
  rewrite last_write_iff.
  - split.
    + intros (s & Hs & [En <-]%Hat). exists s. split; [|done]. by apply HP.
    + intros (s & [Hs En]%HP & ->). exists s. split; [done|]. by apply Hat.
  - intros x y a b Hx Hy [Ex <-]%Hat [Ey <-]%Hat. f_equal. apply Hu; by apply HP.
Qed.

Lemma floats_iff n v : mem n float_signals = true ->
  sc_Floats coll !! n = Some v <->
  asked fields n /\ exists r, newest R any_reading n r /\ v = mkSignalFloat (sr_Timestamp r) (sr_ValueNumber r).
Proof.
  intros Hn. rewrite (component_iff (fun c => sc_Floats c !! n) float_value_of n _ v
    (fun c s => step_float n c s Hn) (lookup_empty n) (fun s => value_rows n s (or_introl Hn))).
  - split; [intros (s & (Ha & r & Hr & ->) & ->)|intros (Ha & r & Hr & ->)]; [split; [done|by exists r]|].
    eexists. split; [split; [done|by exists r]|done].
  - intros s s' (_ & r & Hr & ->) (_ & r' & Hr' & ->). by rewrite (newest_unique _ _ _ _ _ Hone Hr Hr').
Qed.

Lemma strings_iff n v : mem n string_signals = true ->
  sc_Strings coll !! n = Some v <->
  asked fields n /\ exists r, newest R any_reading n r /\ v = mkSignalString (sr_Timestamp r) (sr_ValueString r).
Proof.
  intros Hn. rewrite (component_iff (fun c => sc_Strings c !! n) string_value_of n _ v
    (fun c s => step_string n c s Hn) (lookup_empty n) (fun s => value_rows n s (or_intror Hn))).
  - split; [intros (s & (Ha & r & Hr & ->) & ->)|intros (Ha & r & Hr & ->)]; [split; [done|by exists r]|].
    eexists. split; [split; [done|by exists r]|done].
  - intros s s' (_ & r & Hr & ->) (_ & r' & Hr' & ->). by rewrite (newest_unique _ _ _ _ _ Hone Hr Hr').
Qed.

Lemma locations_iff n v : mem n location_signals = true ->
  sc_Locations coll !! n = Some v <-> wants_location fields n /\ location_shown R n v.
Proof.
  intros Hn. rewrite (component_iff (fun c => sc_Locations c !! n) location_value_of n _ v
    (fun c s => step_location n c s Hn) (lookup_empty n) (fun s => location_rows n s Hn)).
  - split.
    + intros (s & (Hw & Hd & ->) & ->). split; [done|]. by apply location_row_shown.
    + intros (Hw & Hv). pose proof (location_shown_name _ _ _ Hv) as Hd. eexists. split; [done|].
      eapply location_shown_unique; [exact Hone|exact Hv|by apply location_row_shown].
  - by intros s s' (_ & _ & ->) (_ & _ & ->).
Qed.

Lemma last_seen_iff t : sc_LastSeen coll = Some t <->
  wants_last_seen fields /\ t <> epochTime /\ exists r, r ∈ R /\ sr_Timestamp r = t /\ forall r', r' ∈ R -> sr_Timestamp r' <= t.
Proof.
  unfold coll. rewrite (fold_component sc_LastSeen seen_of _ _ step_seen). cbn [sc_LastSeen emptyCollection].
  assert (Hone_row : forall s w, s ∈ answered args R -> seen_of s = Some w ->
    la_IncludeLastSeen args = true /\ w <> epochTime /\ w = default epochTime (sql_max sr_Timestamp R)).
  { intros s w Hs E. unfold seen_of in E. destruct (is_last_seen s) eqn:El; [|done]. injection E as <-.
    pose proof (last_seen_name s El) as En. apply elem_of_answered in Hs as [(m & Hm & _ & ->)|[(m & Hm & _ & ->)|[Hi ->]]].
    - change (m = LastSeenField) in En. subst m. apply Hnames, (value_names fields Hschema) in Hm. by destruct Hm as [H|H]; vm_compute in H.
    - change (m = LastSeenField) in En. subst m. apply Hlocs, (location_names fields Hschema) in Hm. by vm_compute in Hm.
    - split; [done|]. unfold is_last_seen in El. apply andb_true_iff in El as [_ Ht%negb_true_iff].
      split; [|done]. intros E0. unfold tequal in Ht. apply Z.eqb_neq in Ht. by apply Ht. }
  rewrite last_write_iff by (intros x y a b Hx Hy (_ & _ & ->)%Hone_row (_ & _ & ->)%Hone_row; done).
  rewrite <- Hseen. split.
  - intros (s & Hs & (Hi & Hne & E)%Hone_row); [|done]. split; [done|]. split; [done|].
    destruct (sql_max sr_Timestamp R) as [m|] eqn:Em; [|done]. apply sql_max_spec in Em as [(r & Hr & Er) Hmax].
    cbn in E. subst t. by exists r.
  - intros (Hi & Hne & r & Hr & Er & Hmax). exists (scanSignal (lastSeen_row (sql_max sr_Timestamp R))).
    split; [apply elem_of_answered; by right; right|].
    destruct (sql_max sr_Timestamp R) as [m|] eqn:Em.
    2:{ apply sql_max_none in Em. subst R. by apply elem_of_nil in Hr. }
    apply sql_max_spec in Em as [(r' & Hr' & Er') Hmax'].
    assert (m = t) as -> by (specialize (Hmax r' Hr'); specialize (Hmax' r Hr); lia).
    unfold seen_of, is_last_seen. cbn -[tequal]. unfold tequal, unixEpoch. apply Z.eqb_neq in Hne. unfold epochTime in Hne.
    cbn. by rewrite Hne.
Qed.

Lemma approximate_none : sc_Approximate coll = None.
Proof.
  unfold coll. assert (H : forall l c, sc_Approximate (fold_left step l c) = sc_Approximate c); [|by rewrite H].
  induction l as [|s l IH]; intros c; [done|]. cbn [fold_left]. by rewrite IH, step_approximate.
Qed.
End rows.

(** C4. The signalsLatest query is exact end to end. For a selection of the schema's
    fields that is accepted, over a backend that answers what the scan of the lake
    answers, the collection holds for each selected signal the newest of the
    subject's deduplicated readings of it from the requested source, with the value
    and the instant of that one reading, and nothing for a signal that was not asked
    for or has no reading; a location holds its newest fix away from (0,0), the
    approximate location its cell, and lastSeen the newest reading of any signal. A
    location whose every reading is (0,0) is not left out: it is shown at (0,0), at
    the Unix epoch. *)
Theorem latest_query_exact fields subject filter_ :
  let args := latestArgsFromContext fields subject filter_ in
  let R := subject_rows lake subject (signalSourceCond DecodeEthrDID filter_) in
  Forall schema_field fields ->
  validateLatestSigArgs dec (Some args) = None ->
  (forall rows, getLatestSignalsLake DecodeEthrDID lake None subject args = Ok rows ->
                sb_GetLatestSignals subject args = Ok rows) ->
  exists c, resolve_SignalsLatest dec LatLngToCell CellToLatLng fields subject filter_ = Ok c /\
    (forall n v, mem n float_signals = true -> sc_Floats c !! n = Some v <->
       asked fields n /\ exists r, newest R any_reading n r /\ v = mkSignalFloat (sr_Timestamp r) (sr_ValueNumber r)) /\
    (forall n v, mem n string_signals = true -> sc_Strings c !! n = Some v <->
       asked fields n /\ exists r, newest R any_reading n r /\ v = mkSignalString (sr_Timestamp r) (sr_ValueString r)) /\
    (forall n v, mem n location_signals = true -> sc_Locations c !! n = Some v <->
       wants_location fields n /\ location_shown R n v) /\
    sc_Approximate c = sc_Locations c !! FieldCurrentLocationCoordinates ≫= blurred /\
    (forall t, sc_LastSeen c = Some t <-> wants_last_seen fields /\ t <> epochTime /\
       exists r, r ∈ R /\ sr_Timestamp r = t /\ forall r', r' ∈ R -> sr_Timestamp r' <= t).
Proof.
  intros args R Hschema Hv Hsb.
  assert (Hone : one_per_instant R) by apply subject_rows_one.
  assert (Hspec : forall n, _) by exact (latest_args_spec fields (mkLatestArgs (mkSignalArgs filter_ subject) ∅ ∅ false)).
  fold (latestArgsFromContext fields subject filter_) in Hspec. fold args in Hspec.
  cbn [la_SignalArgs la_SignalNames la_LocationSignalNames la_IncludeLastSeen] in Hspec.
  assert (Hn : forall n, n ∈ la_SignalNames args <-> wants_value fields n) by (intros n; specialize (Hspec n); set_solver).
  assert (Hl : forall n, n ∈ la_LocationSignalNames args <-> wants_location fields n) by (intros n; specialize (Hspec n); set_solver).
  assert (Hi : la_IncludeLastSeen args = true <-> wants_last_seen fields)
    by (destruct (Hspec ""%string) as (_ & _ & _ & H); rewrite H; split; [by intros [?|?]|by right]).
  assert (Ea : la_SignalArgs args = mkSignalArgs filter_ subject) by apply (Hspec ""%string).
  set (c0 := coll args R).
  assert (Eloc : getLocation c0 = sc_Locations c0 !! FieldCurrentLocationCoordinates) by done.
  pose proof (locations_iff fields Hschema args R Hone Hn Hl Hi FieldCurrentLocationCoordinates) as Hcoords.
  assert (Hrun : resolve_SignalsLatest dec LatLngToCell CellToLatLng fields subject filter_ =
    map_err RepoError (setApproximateLocationInCollection LatLngToCell CellToLatLng getLocation setApproximate c0)).
  { unfold resolve_SignalsLatest, GetSignalLatest. fold args. rewrite Hv. rewrite Ea. cbn [sia_Subject].
    rewrite (Hsb (answered args R)); [done|]. rewrite lake_latest_run, Ea. done. }
  assert (Hset : exists c, setApproximateLocationInCollection LatLngToCell CellToLatLng getLocation setApproximate c0 = Ok c /\
    sc_Floats c = sc_Floats c0 /\ sc_Strings c = sc_Strings c0 /\ sc_Locations c = sc_Locations c0 /\
    sc_LastSeen c = sc_LastSeen c0 /\ sc_Approximate c = sc_Locations c0 !! FieldCurrentLocationCoordinates ≫= blurred).
  { unfold setApproximateLocationInCollection. rewrite Eloc.
    destruct (sc_Locations c0 !! FieldCurrentLocationCoordinates) as [l|] eqn:El.
    2:{ exists c0. split_and!; try done. apply (approximate_none fields Hschema args R Hone Hn Hl Hi). }
    assert (exists v, sl_Value l = Some v) as [v Ev].
    { apply Hcoords in El as [_ [(r & _ & ->)|(_ & _ & ->)]]; [by eexists..|done]. }
    rewrite Ev. cbn [deref result_bind mbind option_bind]. unfold blurred. rewrite Ev. cbn [mbind option_bind].
    destruct (GetApproximateLoc _ _ _ _) as [[lat lng]|]; [|exists c0; split_and!; try done; apply (approximate_none fields Hschema args R Hone Hn Hl Hi)].
    eexists. split_and!; done. }
  destruct Hset as (c & Ec & Ef & Es & El & Et & Eap).
  exists c. split; [by rewrite Hrun, Ec|]. rewrite Ef, Es, El, Et. split_and!.
  - intros n v. by apply (floats_iff fields Hschema args R Hone Hn Hl Hi).
  - intros n v. by apply (strings_iff fields Hschema args R Hone Hn Hl Hi).
  - intros n v. by apply (locations_iff fields Hschema args R Hone Hn Hl Hi).
  - exact Eap.
  - intros t. by apply (last_seen_iff fields Hschema args R Hone Hn Hl Hi).
Qed.
End latest.

(** ** At a concrete query *)

Definition latest_backend : SignalBackend := {|
  sb_GetAggregatedSignals _ _ := Ok [];
  sb_GetAvailableSignals _ _ := Ok [];
  sb_GetAllLatestSignals _ _ := Ok [];
  sb_GetLatestSignals subject args :=
    match getLatestSignalsLake LakeLatest.no_did latest_table None subject args with
    | Ok rows => Ok rows
    | Err _ => Err (mkDbError false "failed")
    end;
  sb_GetSignalSummaries _ _ := Ok [];
  sb_GetEventSummaries _ := Ok [];
  sb_GetEvents _ _ _ _ := Ok [];
|}.

Definition no_args : result string FieldArgs := Ok (mkFieldArgs (AggOther "<nil>") FilterAbsent).

Definition latest_selection : list CollectedField :=
  [mkField LastSeenField "seen" "Time" false false no_args; mkField "speed" "speed" "SignalFloat" true false no_args;
   mkField ApproximateCoordinatesField "near" "SignalLocation" true false no_args].

(** A duplicate, a trailing (0,0), and a signal that is not asked for. *)
Example latest_query_exact_witness :
  exists c, @resolve_SignalsLatest latest_backend (fun _ => true) _ demo_cell demo_center latest_selection demo_subject None = Ok c /\
    sc_LastSeen c = Some (30 * Second) /\
    sc_Floats c !! "speed" = Some (mkSignalFloat (20 * Second) (f64_of_Z 40)) /\
    sc_Approximate c = Some (mkSignalLocation (20 * Second) (Some (mkLocation (f64_of_Z 53) f64_zero (f64_of_Z 1)))) /\
    exists r, newest (subject_rows latest_table demo_subject None) any_reading "speed" r /\ sr_Timestamp r = 20 * Second.
Proof.
  destruct (@latest_query_exact LakeLatest.no_did latest_table latest_backend (fun _ => true) _ demo_cell demo_center
    latest_selection demo_subject None) as (c & E & Hf & _).
  - apply Forall_cons. split; [intros H; discriminate H|]. apply Forall_cons. split; [intros _; right; left; by vm_compute|].
    apply Forall_cons. split; [intros _; left; split; [done|by left]|by apply Forall_nil].
  - vm_compute. reflexivity.
  - intros rows E. unfold latest_backend. cbn [sb_GetLatestSignals]. by rewrite E.
  - exists c. split; [exact E|].
    assert (Es : sc_Floats c !! "speed" = Some (mkSignalFloat (20 * Second) (f64_of_Z 40)))
      by (vm_compute in E; injection E as <-; vm_compute; reflexivity).
    split; [vm_compute in E; injection E as <-; vm_compute; reflexivity|]. split; [exact Es|].
    split; [vm_compute in E; injection E as <-; vm_compute; reflexivity|].
    apply (Hf "speed"%string _ eq_refl) in Es as (_ & r & Hr & Ev). exists r. split; [exact Hr|].
    by injection Ev as <- _.
Defined.
