(* ===== verification/Events.v ===== *)
(** * internal/service/duck/events.go: events, counts and summaries

    The reads of lake.events: the deduplication every one of them starts from, the
    filtered list, the counts by name (in one window, or in many ranges at once) and
    the all-time summaries, from the table or from its rollup lake.events_latest. *)

From S2P Require Import Prelude Model SegRepo Validate SignalsRepo Decode Sql LakeSource LakeLatest RawEvents SqlFilter Aggregations AggSpec.

#[local] Set Default Proof Using "Type*".

(** ** The table *)

(** PARTITION BY subject, timestamp, name, source ORDER BY cloud_event_id. *)
Definition event_ident (r : EventRow) : string * Z * string * string :=
  (er_Subject r, er_Timestamp r, er_Name r, er_Source r).

Definition smaller_event (a b : EventRow) : bool := String.ltb (er_CloudEventID a) (er_CloudEventID b).

Definition event_qualify : list EventRow -> list EventRow := qualify event_ident smaller_event.

Definition LakeEventsDeduped (events : list EventRow) (subject : string) : list EventRow :=
  event_qualify (List.filter (fun r => er_SubjectBucket r =? HashBucket subject) events).

(** [... FROM <deduped> WHERE subject = ?]. *)
Definition subject_events (events : list EventRow) (subject : string) : list EventRow :=
  List.filter (fun r => String.eqb (er_Subject r) subject) (LakeEventsDeduped events subject).

Definition in_interval (from to : Z) (r : EventRow) : bool :=
  (tsMicroLiteral from <=? er_Timestamp r) && (er_Timestamp r <? tsMicroLiteral to).

(** [name IN (...)], when names are asked for. *)
Definition named_in (names : list string) (r : EventRow) : bool :=
  match names with [] => true | _ => existsb (String.eqb (er_Name r)) names end.

(** ** The event filter *)

Definition append_cond (c : condition) (p : list string * list bind_arg) : list string * list bind_arg :=
  if String.eqb c.1 "" then p else ((p.1 ++ [c.1])%list, (p.2 ++ c.2)%list).

Definition appendEventFilterConds (conds : list string) (args : list bind_arg) (filter_ : option EventFilter)
  : list string * list bind_arg :=
  match filter_ with
  | None => (conds, args)
  | Some f =>
      append_cond (stringArrayFilterSQL "tags" (ef_Tags f))
        (append_cond (stringFilterSQL "source" (ef_Source f))
          (append_cond (stringFilterSQL "name" (ef_Name f)) (conds, args)))
  end.

(** What the conditions say of a row ([SqlFilter.v]). *)
Definition event_passes (filter_ : option EventFilter) (r : EventRow) : bool :=
  match filter_ with
  | None => true
  | Some f => holds (string_meaning (ef_Name f)) (er_Name r) &&
              holds (string_meaning (ef_Source f)) (er_Source r) &&
              holds (array_meaning (ef_Tags f)) (er_Tags r)
  end.

(** ** Reads *)

Definition event_names (rows : list EventRow) : list string :=
  order_by (fun n => n) sleb (remove_dups (map er_Name rows)).

Definition events_named (n : string) (rows : list EventRow) : list EventRow :=
  List.filter (fun r => String.eqb (er_Name r) n) rows.

Definition scan_event (r : EventRow) : vssEvent :=
  mkVssEvent (er_Timestamp r) (er_Name r) (er_Source r) (er_DurationNs r) (er_Metadata r) (er_Tags r).

Definition latest_first (a b : Z) : bool := b <=? a.

Section queries.
Context (events : list EventRow) (db_error : option string).

Definition query {A} (failure : string) (x : A) : result string A :=
  match db_error with Some msg => Err (failure +:+ msg)%string | None => Ok x end.

Definition GetEvents (subject : string) (from to : Z) (filter_ : option EventFilter)
  : result string (list vssEvent) :=
  query "failed querying duckdb for events: "
    (map scan_event
      (order_by er_Timestamp latest_first
        (List.filter (fun r => in_interval from to r && event_passes filter_ r) (subject_events events subject)))).

Definition GetEventCounts (subject : string) (from to : Z) (eventNames : list string)
  : result string (list EventCount) :=
  let rows := List.filter (fun r => in_interval from to r && named_in eventNames r) (subject_events events subject) in
  query "failed querying duckdb for event counts: "
    (map (fun n => mkEventCount n (Z.of_nat (length (events_named n rows)))) (event_names rows)).

(** The group of a row, [-1] for a row of no range. *)
Definition range_key (ranges : list TimeRange) (r : EventRow) : Z * string :=
  (default (-1) (segmentIndexCaseSQL (er_Timestamp r) ranges), er_Name r).

Definition range_key_leb (a b : Z * string) : bool :=
  (a.1 <? b.1) || ((a.1 =? b.1) && sleb a.2 b.2).

Definition range_keys (ranges : list TimeRange) (rows : list EventRow) : list (Z * string) :=
  order_by (fun k => k) range_key_leb (remove_dups (map (range_key ranges) rows)).

(** The smallest interval around the ranges is computed first and used nowhere. *)
Definition GetEventCountsForRanges (subject : string) (ranges : list TimeRange) (eventNames : list string)
  : result string (list EventCountForRange) :=
  if is_empty ranges then Ok []
  else
    let rows := List.filter (fun r => 0 <=? (range_key ranges r).1)
                  (List.filter (named_in eventNames) (subject_events events subject)) in
    query "failed querying duckdb for event counts by range: "
      (map (fun k => mkEventCountForRange k.1 k.2
                       (Z.of_nat (length (List.filter (fun r => bool_decide (range_key ranges r = k)) rows))))
         (range_keys ranges rows)).

(** ** Summaries *)

(** [count, min(timestamp), max(timestamp)] of a group. *)
Definition summarize (n : string) (g : list EventRow) : EventSummary :=
  mkEventSummary n (Z.of_nat (length g)) (default 0 (sql_min er_Timestamp g)) (default 0 (sql_max er_Timestamp g)).

Definition event_summaries (rows : list EventRow) : list EventSummary :=
  map (fun n => summarize n (events_named n rows)) (event_names rows).

Definition getEventSummariesLake (subject : string) : result string (list EventSummary) :=
  query "failed querying duckdb for event summaries: " (event_summaries (subject_events events subject)).
End queries.

(** A row of lake.events_latest. *)
Record EventLatestRow := mkEventLatest {
  el_subject : string;
  el_subject_bucket : Z;
  el_name : string;
  el_count : Z;
  el_first_seen : Z;
  el_last_seen : Z;
}.

Definition event_group (k : string * string) (rows : list EventRow) : list EventRow :=
  List.filter (fun r => String.eqb (er_Subject r) k.1 && String.eqb (er_Name r) k.2) rows.

Definition event_rollup_row (d : list EventRow) (k : string * string) : EventLatestRow :=
  let g := event_group k d in
  mkEventLatest k.1 (default 0 (er_SubjectBucket <$> head g)) k.2 (Z.of_nat (length g))
    (default 0 (sql_min er_Timestamp g)) (default 0 (sql_max er_Timestamp g)).

Definition event_keys (d : list EventRow) : list (string * string) :=
  remove_dups (map (fun r => (er_Subject r, er_Name r)) d).

(** The SELECT that defines the rollup (ducklake.go). *)
Definition eventRollupSelectSQL (where_ : EventRow -> bool) (events : list EventRow) : list EventLatestRow :=
  let d := event_qualify (List.filter where_ events) in map (event_rollup_row d) (event_keys d).

Definition of_subject (subject : string) (r : EventLatestRow) : bool :=
  String.eqb (el_subject r) subject && (el_subject_bucket r =? HashBucket subject).

Definition scan_summary (r : EventLatestRow) : EventSummary :=
  mkEventSummary (el_name r) (el_count r) (el_first_seen r) (el_last_seen r).

(** [table] is [None] while the table does not exist. *)
Definition getEventSummariesRollup (table : option (list EventLatestRow)) (db_error : option string)
    (subject : string) : result string (list EventSummary) :=
  match table with
  | None => Err "failed querying duckdb for event summaries: Catalog Error"%string
  | Some t => query db_error "failed querying duckdb for event summaries: "
                (map scan_summary (order_by el_name sleb (List.filter (of_subject subject) t)))
  end.

(** The positive answer is cached; an error of the check is a no. *)
Definition eventsRollupAvailable (ready : bool) (table : option (list EventLatestRow)) (check_error : option string)
  : bool :=
  ready || match check_error with Some _ => false | None => bool_decide (is_Some table) end.

(** With the cached flag's next value. *)
Definition GetEventSummaries (ready : bool) (check_error rollup_error scan_error : option string)
    (events : list EventRow) (table : option (list EventLatestRow)) (subject : string)
  : result string (list EventSummary) * bool :=
  let available := eventsRollupAvailable ready table check_error in
  let scan := getEventSummariesLake events scan_error subject in
  let answer :=
    if available then
      let* summaries := getEventSummariesRollup table rollup_error subject in
      if is_empty summaries then scan else Ok summaries
    else scan in
  (answer, available).

(** ** The deduplicated rows *)

Lemma smaller_event_irrefl a : smaller_event a a = false.
Proof. unfold smaller_event. apply sltb_irrefl. Qed.

Lemma elem_of_event_names n rows : n ∈ event_names rows <-> exists r, r ∈ rows /\ er_Name r = n.
Proof.
  unfold event_names. rewrite order_by_perm, elem_of_remove_dups, list_elem_of_fmap.
  split; intros (r & H1 & H2); by exists r.
Qed.

Lemma event_names_NoDup rows : NoDup (event_names rows).
Proof. unfold event_names. rewrite order_by_perm. apply NoDup_remove_dups. Qed.

Lemma event_names_sorted rows : StronglySorted (fun a b => sleb a b = true) (event_names rows).
Proof. apply (order_by_sorted (fun n : string => n) sleb); [exact sleb_total|exact sleb_trans]. Qed.

Lemma subject_events_NoDup events subject : NoDup (map event_ident (subject_events events subject)).
Proof. unfold subject_events, LakeEventsDeduped, event_qualify. apply NoDup_map_filter, qualify_NoDup. Qed.

Lemma elem_of_subject_events events subject r :
  r ∈ subject_events events subject -> r ∈ events /\ er_Subject r = subject.
Proof.
  intros [Hr Hs%String.eqb_eq]%elem_of_list_filter. split; [|done].
  by apply qualify_incl, elem_of_list_filter in Hr as [Hr _].
Qed.

(** Every stored event of the subject has its winner among them. *)
Lemma subject_events_winner events subject r :
  (forall e, e ∈ events -> er_SubjectBucket e = HashBucket (er_Subject e)) ->
  r ∈ events -> er_Subject r = subject ->
  exists w, w ∈ subject_events events subject /\ event_ident w = event_ident r.
Proof.
  intros Hb Hr Hs.
  destruct (qualify_winner event_ident smaller_event smaller_event_irrefl) with
    (l := List.filter (fun e => er_SubjectBucket e =? HashBucket subject) events) (r := r) as (w & Hw & Hi & _).
  - intros a b. apply sltb_asym.
  - intros a b c. apply sltb_negtrans.
  - apply elem_of_list_filter. split; [done|]. rewrite Hb by done. rewrite Hs. apply Z.eqb_refl.
  - exists w. split; [|done]. apply elem_of_list_filter. split; [exact Hw|]. injection Hi as E _ _ _.
    apply String.eqb_eq. congruence.
Qed.

(** ** Counts of ranges *)

Lemma counts_map_lookup (f : string -> Z) names n :
  eventCountsToMap (map (fun n => mkEventCount n (f n)) names) !! n = if decide (n ∈ names) then Some (f n) else None.
Proof.
  unfold eventCountsToMap.
  assert (H : forall m, fold_left (fun m ec => <[ec_Name ec:=ec_Count ec]> m) (map (fun n => mkEventCount n (f n)) names) m !! n
    = if decide (n ∈ names) then Some (f n) else (m : gmap string Z) !! n).
  { induction names as [|x names IH]; intros m; cbn [map fold_left].
    { case_decide as E; [by apply elem_of_nil in E|done]. }
    rewrite IH. cbn [ec_Name ec_Count]. destruct (decide (n ∈ names)) as [Hn|Hn].
    - by rewrite decide_True by (by right).
    - destruct (decide (x = n)) as [->|Hne].
      + rewrite lookup_insert_eq. by rewrite decide_True by left.
      + rewrite lookup_insert_ne by done. rewrite decide_False; [done|].
        intros [->|?]%elem_of_cons; done. }
  rewrite H. by rewrite lookup_empty.
Qed.

Lemma scatter_counts_lookup (f : Z * string -> Z) keys i n :
  default ∅ (scatterEventCountsByIndex (map (fun k => mkEventCountForRange k.1 k.2 (f k)) keys) !! i) !! n =
  if decide ((i, n) ∈ keys) then Some (f (i, n)) else None.
Proof.
  unfold scatterEventCountsByIndex. match goal with |- context [fold_left ?g _ ∅] => set (F := g) end.
  assert (H : forall m, default ∅ (fold_left F (map (fun k => mkEventCountForRange k.1 k.2 (f k)) keys) m !! i) !! n
    = if decide ((i, n) ∈ keys) then Some (f (i, n)) else default ∅ ((m : gmap Z (gmap string Z)) !! i) !! n).
  { induction keys as [|[j x] keys IH]; intros m; cbn [map fold_left].
    { case_decide as E; [by apply elem_of_nil in E|done]. }
    rewrite IH. unfold F at 1. cbn [ecr_SegIndex ecr_Name ecr_Count fst snd].
    destruct (decide ((i, n) ∈ keys)) as [Hn|Hn].
    - by rewrite decide_True by (by right).
    - destruct (decide ((j, x) = (i, n))) as [[= -> ->]|Hne].
      + rewrite lookup_insert_eq. simpl. rewrite lookup_insert_eq. by rewrite decide_True by left.
      + rewrite (decide_False (P := (i, n) ∈ (j, x) :: keys)) by (intros [E|?]%elem_of_cons; congruence).
        destruct (decide (j = i)) as [->|Hj].
        * rewrite lookup_insert_eq. simpl. rewrite lookup_insert_ne by congruence. done.
        * by rewrite lookup_insert_ne. }
  rewrite H, lookup_empty. simpl. by rewrite lookup_empty.
Qed.

Lemma elem_of_range_keys ranges rows k : k ∈ range_keys ranges rows <-> exists r, r ∈ rows /\ range_key ranges r = k.
Proof.
  unfold range_keys. rewrite order_by_perm, elem_of_remove_dups, list_elem_of_fmap.
  split; intros (r & H1 & H2); by exists r.
Qed.

(** C25. The batched event counts are the counts of each segment. For segment ranges
    in order that do not overlap, the counts the one batch query scatters to a
    segment are the map of the counts a query over that segment's own range
    returns, whether or not names are asked for. *)
Theorem range_counts_exact events subject ranges names :
  ordered_ranges ranges ->
  exists rows, GetEventCountsForRanges events None subject ranges names = Ok rows /\
    forall i r, ranges !! i = Some r ->
    exists counts, GetEventCounts events None subject (From r) (To r) names = Ok counts /\
      default ∅ (scatterEventCountsByIndex rows !! Z.of_nat i) = eventCountsToMap counts.
Proof.
  intros Ho. unfold GetEventCountsForRanges. destruct (is_empty ranges) eqn:Er.
  { exists []. split; [done|]. intros i r Hi. by destruct ranges. }
  eexists. split; [reflexivity|]. intros i r Hi. eexists. split; [reflexivity|].
  set (S := subject_events events subject).
  set (kept := List.filter (fun x => 0 <=? (range_key ranges x).1) (List.filter (named_in names) S)).
  set (mine := List.filter (fun x => in_interval (From r) (To r) x && named_in names x) S).
  assert (Hkey : forall x n, range_key ranges x = (Z.of_nat i, n) <-> in_interval (From r) (To r) x = true /\ er_Name x = n).
  { intros x n. unfold range_key, segmentIndexCaseSQL.
    pose proof (segmentIndexFrom_lookup (er_Timestamp x) ranges 0 i r Ho Hi) as Hs.
    change (in_interval (From r) (To r) x) with (in_time_range (er_Timestamp x) r). rewrite Hs. split.
    - intros [= E <-]. split; [|done]. destruct (segmentIndexFrom 0 _ ranges); simpl in E; [f_equal; lia|lia].
    - intros [-> <-]. done. }
  apply map_eq. intros n. rewrite scatter_counts_lookup, counts_map_lookup.
  assert (Hin : (Z.of_nat i, n) ∈ range_keys ranges kept <-> n ∈ event_names mine).
  { rewrite elem_of_range_keys, elem_of_event_names. unfold kept, mine. split.
    - intros (x & Hx & Ek). exists x. apply Hkey in Ek as [Et En]. split; [|done].
      apply elem_of_list_filter in Hx as [Hx _]. apply elem_of_list_filter in Hx as [Hx Hn].
      apply elem_of_list_filter. by rewrite Et, Hn.
    - intros (x & Hx & En). exists x. apply elem_of_list_filter in Hx as [Hx [Et Hn]%andb_true_iff].
      assert (Ek : range_key ranges x = (Z.of_nat i, n)) by (by apply Hkey). split; [|done].
      rewrite !elem_of_list_filter, Ek. simpl. split; [done|]. apply Z.leb_le. lia. }
  destruct (decide (n ∈ event_names mine)) as [Hn|Hn].
  - rewrite decide_True by (by apply Hin). do 3 f_equal. unfold kept, mine, events_named.
    rewrite !list_filter_andb. apply List.filter_ext. intros x.
    destruct (decide (range_key ranges x = (Z.of_nat i, n))) as [E|E].
    + pose proof (proj1 (Hkey x n) E) as [Et En].
      rewrite (bool_decide_true _ E), Et, En, E, String.eqb_refl. simpl.
      replace (0 <=? Z.of_nat i) with true by (symmetry; apply Z.leb_le; lia). by rewrite !andb_true_r.
    + rewrite (bool_decide_false _ E), !andb_false_r.
      destruct (in_interval (From r) (To r) x) eqn:Et; [|done].
      destruct (String.eqb_spec (er_Name x) n) as [En|En]; [|by rewrite andb_false_r].
      destruct E. by apply Hkey.
  - rewrite decide_False; [done|]. by rewrite Hin.
Qed.

(** ** One window *)

(** What makes two deliveries one event. *)
Definition logical_event (e : vssEvent) : Z * string * string := (ve_Timestamp e, ve_Name e, ve_Source e).

Definition passes_filter (f : EventFilter) (e : vssEvent) : bool :=
  holds (string_meaning (ef_Name f)) (ve_Name e) && holds (string_meaning (ef_Source f)) (ve_Source e) &&
  holds (array_meaning (ef_Tags f)) (ve_Tags e).

Lemma newest_first_total a b : latest_first a b = true \/ latest_first b a = true.
Proof. unfold latest_first. lia. Qed.
Lemma newest_first_trans a b c : latest_first a b = true -> latest_first b c = true -> latest_first a c = true.
Proof. unfold latest_first. lia. Qed.
Lemma latest_first_antisym a b : latest_first a b = true -> latest_first b a = true -> a = b.
Proof. unfold latest_first. lia. Qed.

Lemma counts_of_named rows n :
  default 0 (eventCountsToMap (map (fun n => mkEventCount n (Z.of_nat (length (events_named n rows)))) (event_names rows)) !! n)
  = Z.of_nat (length (events_named n rows)).
Proof.
  rewrite counts_map_lookup. case_decide as Hn; [done|]. simpl.
  replace (events_named n rows) with (@nil EventRow); [done|]. symmetry. apply list_filter_none. intros r Hr.
  apply String.eqb_neq. intros E. apply Hn, elem_of_event_names. by exists r.
Qed.

(** C19. The event reads are exact and agree with each other. Over a table whose rows
    lie in their subject's bucket, [GetEvents] returns, newest first, each logical
    event of the subject in the window once, however many times and under however
    many cloud event ids it was delivered, and no other; a filter keeps exactly the
    events of that list which pass its three parts; and the count of a name is the
    number of events of that name in the list. *)
Theorem event_reads_exact events subject from to :
  (forall e, e ∈ events -> er_SubjectBucket e = HashBucket (er_Subject e)) ->
  exists l counts, GetEvents events None subject from to None = Ok l /\
    GetEventCounts events None subject from to [] = Ok counts /\
    StronglySorted (fun a b => ve_Timestamp b <= ve_Timestamp a) l /\ NoDup (map logical_event l) /\
    (forall k, k ∈ map logical_event l <->
       exists r, r ∈ events /\ er_Subject r = subject /\ in_interval from to r = true /\
                 k = (er_Timestamp r, er_Name r, er_Source r)) /\
    (forall f, GetEvents events None subject from to (Some f) = Ok (List.filter (passes_filter f) l)) /\
    (forall n, default 0 (eventCountsToMap counts !! n) =
               Z.of_nat (length (List.filter (fun e => String.eqb (ve_Name e) n) l))).
Proof.
  intros Hb. set (S := subject_events events subject).
  set (mine := List.filter (fun r => in_interval from to r && event_passes None r) S).
  set (sorted := order_by er_Timestamp latest_first mine).
  exists (map scan_event sorted), (map (fun n => mkEventCount n (Z.of_nat (length (events_named n mine)))) (event_names mine)).
  assert (Hperm : sorted ≡ₚ mine) by apply order_by_perm.
  assert (Hmine : forall r, r ∈ mine <-> r ∈ S /\ in_interval from to r = true).
  { intros r. unfold mine. rewrite elem_of_list_filter. cbn [event_passes]. by rewrite andb_true_r. }
  split; [done|]. split; [done|]. split; [|split; [|split; [|split]]].
  - apply SSorted_map. eapply SSorted_impl; [|apply (order_by_sorted er_Timestamp latest_first);
      [exact newest_first_total|exact newest_first_trans]].
    intros a b. unfold by_key, latest_first. cbn [ve_Timestamp scan_event]. lia.
  - rewrite <- list_fmap_compose. rewrite Hperm.
    apply (NoDup_fmap_1 (fun k : Z * string * string => (subject, k.1.1, k.1.2, k.2))). rewrite <- list_fmap_compose.
    rewrite (list_fmap_ext _ event_ident mine).
    + unfold mine. apply NoDup_map_filter, subject_events_NoDup.
    + intros i r Hr. apply list_elem_of_lookup_2, Hmine in Hr as [Hr _].
      apply elem_of_subject_events in Hr as [_ Hs]. unfold event_ident, compose, logical_event. simpl. by rewrite Hs.
  - intros k. rewrite list_elem_of_fmap. setoid_rewrite list_elem_of_fmap. setoid_rewrite Hperm. split.
    + intros (e & -> & r & -> & [Hr Ht]%Hmine). apply elem_of_subject_events in Hr as [Hr Hs]. by exists r.
    + intros (r & Hr & Hs & Ht & ->). destruct (subject_events_winner events subject r Hb Hr Hs) as (w & Hw & Hi).
      injection Hi as _ E1 E2 E3. exists (scan_event w). split; [unfold logical_event; simpl; congruence|].
      exists w. split; [done|]. apply Hmine. split; [done|]. unfold in_interval in *. by rewrite E1.
  - intros f. unfold GetEvents, query. f_equal. fold S. rewrite filter_map_comm. f_equal.
    unfold sorted. rewrite <- (order_by_filter er_Timestamp latest_first);
      [|exact newest_first_total|exact newest_first_trans|exact latest_first_antisym].
    f_equal. unfold mine. rewrite list_filter_andb. apply List.filter_ext. intros r. cbn [event_passes].
    by rewrite andb_true_r.
  - intros n. rewrite counts_of_named. f_equal. rewrite filter_map_comm, length_map.
    apply Permutation_length. symmetry. unfold events_named. by apply list_filter_perm.
Qed.

(** ** At a concrete table *)

Definition demo_event (name ceid : string) (seconds : Z) : EventRow :=
  mkEventRow "did:v" (HashBucket "did:v") "src" "prod" ceid "dimo.events" "v1" name (seconds * Second) 0 "" ["safety"].

(** One event delivered twice, under two ids. *)
Definition demo_events : list EventRow :=
  [demo_event "behavior.harshBraking" "a" 10; demo_event "behavior.harshBraking" "b" 10;
   demo_event "behavior.harshBraking" "c" 70; demo_event "behavior.speeding" "d" 80].

Example range_counts_exact_witness :
  let ranges := [mkTimeRange 0 (60 * Second); mkTimeRange (60 * Second) (120 * Second)] in
  exists rows, GetEventCountsForRanges demo_events None "did:v" ranges [] = Ok rows /\
    map_to_list (default ∅ (scatterEventCountsByIndex rows !! 0)) = [("behavior.harshBraking"%string, 1)].
Proof.
  intros ranges.
  destruct (range_counts_exact demo_events "did:v" ranges []) as (rows & E & H).
  - repeat constructor. vm_compute. discriminate.
  - exists rows. split; [exact E|]. destruct (H 0%nat _ eq_refl) as (counts & Ec & Em).
    change 0 with (Z.of_nat 0). rewrite Em. vm_compute in Ec. injection Ec as <-. vm_compute. reflexivity.
Defined.

Example event_reads_exact_witness :
  exists l counts, GetEvents demo_events None "did:v" 0 (120 * Second) None = Ok l /\
    map ve_Name l = ["behavior.speeding"; "behavior.harshBraking"; "behavior.harshBraking"]%string /\
    GetEventCounts demo_events None "did:v" 0 (120 * Second) [] = Ok counts /\
    eventCountsToMap counts !! "behavior.harshBraking" = Some 2 /\
    NoDup (map logical_event l).
Proof.
  destruct (event_reads_exact demo_events "did:v" 0 (120 * Second)) as (l & counts & El & Ec & _ & Hn & _).
  - apply Forall_forall. repeat constructor.
  - exists l, counts. split; [exact El|]. split; [vm_compute in El; injection El as <-; reflexivity|].
    split; [exact Ec|]. split; [vm_compute in Ec; injection Ec as <-; vm_compute; reflexivity|exact Hn].
Defined.
