(* ===== verification/EventRollup.v ===== *)
(** * internal/materializer/ducklake.go: lake.events_latest

    The rollup behind the event summaries. A decode pass or a backfill marks the
    subjects whose events it wrote, in memory; [FlushEventRollup] recomputes their
    rows, bucket by bucket, or the whole table when too many are marked; a restart
    starts from no marks, with a check of the tables in their place. Proved here:
    the rollup answers what a scan answers, for every subject that is not marked,
    whatever calls fail; and what the marks do not survive. *)

From S2P Require Import Prelude Model SegRepo Validate SignalsRepo Blobcrypt Decode Blobs Ingest IngestSafe Sql Backfill LakeSource LakeLatest RawEvents Rollup RollupInv Aggregations AggSpec Events.

#[local] Set Default Proof Using "Type*".

(** ** The flush *)

Inductive flush_error := FlushFailed.

Record fproc := mkFproc {
  fp_events : list EventRow;
  fp_latest : list EventLatestRow;
  fp_mat : mat;
  fp_future : list fate;
}.

Definition F (A : Type) : Type := prog fproc flush_error A.

Definition next_fate : F fate := fun w =>
  match fp_future w with
  | [] => (Ok Fine, w)
  | f :: rest => (Ok f, mkFproc (fp_events w) (fp_latest w) (fp_mat w) rest)
  end.

Definition set_table (t : list EventLatestRow) : F unit := fun w =>
  (Ok tt, mkFproc (fp_events w) t (fp_mat w) (fp_future w)).
Definition set_mat (f : mat -> mat) : F unit := fun w =>
  (Ok tt, mkFproc (fp_events w) (fp_latest w) (f (fp_mat w)) (fp_future w)).
Definition get_mat : F mat := fun w => (Ok (fp_mat w), w).

Definition check_ctx : F unit :=
  do! x <- next_fate; match x with Fine => ret tt | _ => fail_with FlushFailed end.

(** One transaction: [DELETE FROM lake.events_latest WHERE del], then [INSERT] of the
    SELECT over the base rows [where_]. *)
Definition recompute (del : EventLatestRow -> bool) (where_ : EventRow -> bool)
    (events : list EventRow) (t : list EventLatestRow) : list EventLatestRow :=
  List.filter (fun r => negb (del r)) t ++ eventRollupSelectSQL where_ events.

Definition recompute_tx (del : EventLatestRow -> bool) (where_ : EventRow -> bool) : F unit :=
  do! x <- next_fate;
  fun w =>
    let t := recompute del where_ (fp_events w) (fp_latest w) in
    match x with
    | Fine => set_table t w
    | LostAck => (do! _ <- set_table t; fail_with FlushFailed) w
    | _ => fail_with FlushFailed w
    end.

Definition recomputeEventSubjects (bucket : Z) (subjects : list string) : F unit :=
  recompute_tx (fun r => (el_subject_bucket r =? bucket) && one_of subjects (el_subject r))
    (fun r => (er_SubjectBucket r =? bucket) && one_of subjects (er_Subject r)).

Definition recomputeOneEventBucket (bucket : Z) : F unit :=
  recompute_tx (fun r => el_subject_bucket r =? bucket) (fun r => er_SubjectBucket r =? bucket).

Fixpoint recompute_buckets (buckets : list Z) : F unit :=
  match buckets with
  | [] => ret tt
  | b :: rest =>
      do! _ <- check_ctx;
      do! _ <- recomputeOneEventBucket b;
      recompute_buckets rest
  end.

Definition RecomputeEventRollup : F unit := recompute_buckets bucket_list.

Definition set_event_marks (d : gset string) (full : bool) (m : mat) : mat :=
  mkMat (lastProgressReport m) (lastReportedSnapshot m) (dirtySubjects m) (rollupFullRebuild m) d full
    (published m) (latestPub m).

Definition unmark (subjects : list string) (m : mat) : mat :=
  set_event_marks (dirtyEventSubjects m ∖ list_to_set subjects) (eventRollupFullRebuild m) m.

Fixpoint flush_chunks (bucket : Z) (cs : list (list string)) : F unit :=
  match cs with
  | [] => ret tt
  | c :: rest =>
      do! _ <- check_ctx;
      do! _ <- recomputeEventSubjects bucket c;
      do! _ <- set_mat (unmark c);
      flush_chunks bucket rest
  end.

Fixpoint flush_buckets (subjects : list string) (buckets : list Z) : F unit :=
  match buckets with
  | [] => ret tt
  | b :: rest =>
      do! _ <- flush_chunks b (chunks (of_bucket subjects b));
      flush_buckets subjects rest
  end.

Definition FlushEventRollup : F unit :=
  do! m <- get_mat;
  if eventRollupFullRebuild m then
    do! _ <- RecomputeEventRollup;
    set_mat (set_event_marks ∅ false)
  else
    let subjects := elements (dirtyEventSubjects m) in
    flush_buckets subjects (buckets_of subjects).

(** ** A restart *)

(** What [ensureSchema] derives from the tables: a base with events and a rollup
    without rows. *)
Definition eventsPending (events : list EventRow) (t : list EventLatestRow) : bool :=
  negb (is_empty events) && is_empty t.

(** A new materializer over the tables. *)
Definition boot (events : list EventRow) (t : list EventLatestRow) : mat :=
  set_event_marks ∅ (eventsPending events t) new_mat.

(** ** A subject's rows *)

Definition rows_of (t : list EventLatestRow) (s : string) : list EventLatestRow := List.filter (of_subject s) t.

Definition subject_where (s : string) (r : EventRow) : bool :=
  (er_SubjectBucket r =? HashBucket s) && String.eqb (er_Subject r) s.

(** What its rows should be. *)
Definition select_of (s : string) (events : list EventRow) : list EventLatestRow :=
  eventRollupSelectSQL (subject_where s) events.

Definition exact (t : list EventLatestRow) (events : list EventRow) (s : string) : Prop :=
  rows_of t s = select_of s events.

(** Every subject is exact, or marked, or a rebuild is due. *)
Definition tracked (t : list EventLatestRow) (events : list EventRow) (dirty : gset string) (full : bool) : Prop :=
  full = true \/ forall s, s ∉ dirty -> exact t events s.

(** ** The SELECT, subject by subject *)

Lemma remove_dups_filter {A} `{EqDecision A} (p : A -> bool) (l : list A) :
  List.filter p (remove_dups l) = remove_dups (List.filter p l).
Proof.
  induction l as [|x l IH]; [done|]. cbn [remove_dups List.filter]. destruct (p x) eqn:Ep.
  - cbn [remove_dups]. destruct (decide_rel _ x l) as [H|H].
    + rewrite IH. destruct (decide_rel _ x (List.filter p l)) as [H'|H']; [done|].
      destruct H'. by apply elem_of_list_filter.
    + cbn [List.filter]. rewrite Ep, IH. destruct (decide_rel _ x (List.filter p l)) as [H'|H']; [|done].
      by apply elem_of_list_filter in H' as [H' _].
  - destruct (decide_rel _ x l); [done|]. cbn [List.filter]. by rewrite Ep.
Qed.

Lemma event_group_head k d : k ∈ event_keys d -> exists r g, event_group k d = r :: g /\ r ∈ d /\ er_Subject r = k.1.
Proof.
  unfold event_keys. rewrite elem_of_remove_dups, list_elem_of_fmap. intros (x & -> & Hx).
  set (k := (er_Subject x, er_Name x)).
  assert (Hg : x ∈ event_group k d).
  { apply elem_of_list_filter. split; [done|]. cbn [k fst snd]. by rewrite !String.eqb_refl. }
  destruct (event_group k d) as [|r g] eqn:E; [by apply elem_of_nil in Hg|]. exists r, g. split; [done|].
  assert (Hr : r ∈ event_group k d) by (rewrite E; left). apply elem_of_list_filter in Hr as [Hr H].
  split; [done|]. by apply andb_true_iff in H as [H%String.eqb_eq _].
Qed.

Lemma event_group_restrict k s d : k.1 = s ->
  event_group k (List.filter (fun r => String.eqb (er_Subject r) s) d) = event_group k d.
Proof.
  intros <-. unfold event_group. rewrite list_filter_andb. apply List.filter_ext. intros r.
  by destruct (String.eqb (er_Subject r) k.1).
Qed.

Lemma filter_ext_elem {A} (f g : A -> bool) l : (forall x, x ∈ l -> f x = g x) -> List.filter f l = List.filter g l.
Proof. intros H. apply filter_ext_in. intros x Hx. apply H. by apply list_elem_of_In. Qed.

(** The rows a SELECT makes for a subject are those it makes of its events alone. *)
Lemma select_restrict where_ s events :
  (forall r, where_ r = true -> er_Subject r = s -> er_SubjectBucket r = HashBucket s) ->
  rows_of (eventRollupSelectSQL where_ events) s =
  eventRollupSelectSQL (fun r => where_ r && String.eqb (er_Subject r) s) events.
Proof.
  intros Hw. unfold eventRollupSelectSQL, rows_of. set (d := event_qualify (List.filter where_ events)).
  assert (Hd : event_qualify (List.filter (fun r => where_ r && String.eqb (er_Subject r) s) events) =
               List.filter (fun r => String.eqb (er_Subject r) s) d).
  { unfold d, event_qualify. rewrite <- qualify_filter, list_filter_andb; [done|].
    intros a b _ _ [= -> _ _ _]. done. }
  rewrite Hd, filter_map_comm.
  rewrite (filter_ext_elem _ (fun k : string * string => String.eqb k.1 s)).
  - unfold event_keys. rewrite remove_dups_filter, filter_map_comm. cbn [fst].
    apply map_ext_in. intros k Hk. unfold event_rollup_row. rewrite event_group_restrict; [done|].
    apply list_elem_of_In in Hk. rewrite elem_of_remove_dups, list_elem_of_fmap in Hk.
    destruct Hk as (r & -> & Hr). by apply elem_of_list_filter in Hr as [_ ?%String.eqb_eq].
  - intros k Hk. destruct (event_group_head k d Hk) as (r & g & Eg & Hr & Hs).
    unfold of_subject, event_rollup_row. cbn [el_subject el_subject_bucket]. rewrite Eg. cbn [head fmap option_fmap option_map default].
    destruct (String.eqb_spec k.1 s) as [E|]; [|done]. simpl. apply Z.eqb_eq. apply Hw; [|congruence].
    apply qualify_incl, elem_of_list_filter in Hr. tauto.
Qed.

Lemma select_ext w1 w2 events : (forall r, w1 r = w2 r) -> eventRollupSelectSQL w1 events = eventRollupSelectSQL w2 events.
Proof. intros H. unfold eventRollupSelectSQL. by rewrite (List.filter_ext _ _ H). Qed.

(** It makes none of this subject from rows that are not in its bucket. *)
Lemma select_not_mine where_ s events :
  (forall r, where_ r = true -> er_Subject r = s -> er_SubjectBucket r <> HashBucket s) ->
  rows_of (eventRollupSelectSQL where_ events) s = [].
Proof.
  intros Hw. unfold rows_of, eventRollupSelectSQL. set (d := event_qualify (List.filter where_ events)).
  apply list_filter_none. intros x (k & -> & Hk)%list_elem_of_fmap.
  destruct (event_group_head k d Hk) as (r & g & Eg & Hr & Hs).
  unfold of_subject, event_rollup_row. cbn [el_subject el_subject_bucket]. rewrite Eg. cbn.
  destruct (String.eqb_spec k.1 s) as [E|]; [|done]. simpl. apply Z.eqb_neq. apply Hw; [|congruence].
  apply qualify_incl, elem_of_list_filter in Hr. tauto.
Qed.

(** A recompute of the subject makes it exact, one of others leaves it. *)
Lemma recompute_mine del where_ events t s :
  (forall r, of_subject s r = true -> del r = true) ->
  (forall r, where_ r && String.eqb (er_Subject r) s = subject_where s r) ->
  exact (recompute del where_ events t) events s.
Proof.
  intros Hd Hw. unfold exact, recompute, rows_of. rewrite List.filter_app, list_filter_andb.
  rewrite list_filter_none.
  - simpl. fold (rows_of (eventRollupSelectSQL where_ events) s). rewrite select_restrict.
    + by apply select_ext.
    + intros r H Hs. specialize (Hw r). rewrite H, Hs, String.eqb_refl in Hw. unfold subject_where in Hw.
      symmetry in Hw. bools. lia.
  - intros r _. destruct (of_subject s r) eqn:E; [by rewrite (Hd r E)|apply andb_false_r].
Qed.

Lemma recompute_other del where_ events t s :
  (forall r, of_subject s r = true -> del r = false) ->
  (forall r, where_ r = true -> er_Subject r = s -> er_SubjectBucket r <> HashBucket s) ->
  rows_of (recompute del where_ events t) s = rows_of t s.
Proof.
  intros Hd Hw. unfold recompute, rows_of. rewrite List.filter_app, list_filter_andb.
  fold (rows_of (eventRollupSelectSQL where_ events) s). rewrite (select_not_mine _ _ _ Hw), app_nil_r.
  apply List.filter_ext. intros r. destruct (of_subject s r) eqn:E; [by rewrite (Hd r E)|apply andb_false_r].
Qed.

(** ** The flush keeps the marks honest *)

Lemma of_subject_spec s r : of_subject s r = true <-> el_subject r = s /\ el_subject_bucket r = HashBucket s.
Proof. unfold of_subject. by rewrite andb_true_iff, String.eqb_eq, Z.eqb_eq. Qed.

Lemma one_of_spec l s : one_of l s = true <-> s ∈ l.
Proof.
  unfold one_of. rewrite existsb_exists. setoid_rewrite String.eqb_eq. rewrite list_elem_of_In.
  split; [by intros (x & Hx & ->)|by exists s].
Qed.

Lemma bucket_recompute b events t s :
  let t' := recompute (fun r => el_subject_bucket r =? b) (fun r => er_SubjectBucket r =? b) events t in
  (HashBucket s = b -> exact t' events s) /\ (HashBucket s <> b -> rows_of t' s = rows_of t s).
Proof.
  split; intros Hb.
  - apply recompute_mine.
    + intros r [_ E]%of_subject_spec. lia.
    + intros r. unfold subject_where. by rewrite Hb.
  - apply recompute_other.
    + intros r [_ E]%of_subject_spec. lia.
    + intros r E _. lia.
Qed.

Lemma chunk_recompute b c events t s :
  let t' := recompute (fun r => (el_subject_bucket r =? b) && one_of c (el_subject r))
              (fun r => (er_SubjectBucket r =? b) && one_of c (er_Subject r)) events t in
  (s ∈ c /\ HashBucket s = b -> exact t' events s) /\ (~ (s ∈ c /\ HashBucket s = b) -> rows_of t' s = rows_of t s).
Proof.
  split; intros Hb.
  - destruct Hb as [Hc Hb]. apply recompute_mine.
    + intros r [Es E]%of_subject_spec. rewrite Es, (proj2 (one_of_spec c s) Hc), andb_true_r. lia.
    + intros r. unfold subject_where. rewrite Hb. destruct (String.eqb_spec (er_Subject r) s) as [->|]; [|by rewrite !andb_false_r].
      by rewrite (proj2 (one_of_spec c s) Hc), !andb_true_r.
  - apply recompute_other.
    + intros r [Es E]%of_subject_spec. apply andb_false_iff. rewrite Es.
      destruct (one_of c s) eqn:Ec; [|by right]. left. apply one_of_spec in Ec. apply Z.eqb_neq.
      intros E'. apply Hb. split; [done|congruence].
    + intros r [E%Z.eqb_eq Ec%one_of_spec]%andb_true_iff Es E'. apply Hb. split; congruence.
Qed.

Section flush.
Context (events : list EventRow).

Definition marks (w : fproc) : gset string := dirtyEventSubjects (fp_mat w).
Definition full (w : fproc) : bool := eventRollupFullRebuild (fp_mat w).

Definition inv (w : fproc) : Prop := fp_events w = events /\ tracked (fp_latest w) events (marks w) (full w).

Lemma next_fate_keeps (P : fproc -> Prop) :
  (forall w f, P w -> P (mkFproc (fp_events w) (fp_latest w) (fp_mat w) f)) ->
  triple P next_fate (fun _ => P).
Proof. intros HP w Hw. unfold next_fate. destruct (fp_future w) as [|f rest]; cbn; [done|by apply HP]. Qed.

Lemma check_ctx_keeps (P : fproc -> Prop) :
  (forall w f, P w -> P (mkFproc (fp_events w) (fp_latest w) (fp_mat w) f)) ->
  triple P check_ctx (fun _ => P).
Proof.
  intros HP. unfold check_ctx. eapply triple_bind; [by apply next_fate_keeps|done|].
  intros []; first [by apply triple_ret|by apply triple_fail].
Qed.

Lemma recompute_tx_spec (P Q : fproc -> Prop) del where_ :
  (forall w f, P w -> P (mkFproc (fp_events w) (fp_latest w) (fp_mat w) f)) ->
  (forall w, P w -> Q (mkFproc (fp_events w) (recompute del where_ (fp_events w) (fp_latest w)) (fp_mat w) (fp_future w))) ->
  triple P (recompute_tx del where_) (fun r w => match r with Ok _ => Q w | Err _ => P w \/ Q w end).
Proof.
  intros HP HQ. unfold recompute_tx. eapply triple_bind; [by apply next_fate_keeps|by left|].
  intros x w Hw. cbv beta in Hw. specialize (HQ w Hw). destruct x; cbn; auto.
Qed.

(** *** The rebuild *)

Definition rebuilt (bs : list Z) (w : fproc) : Prop :=
  fp_events w = events /\ full w = true /\ forall s, HashBucket s ∈ bs -> exact (fp_latest w) events s.

Lemma recompute_buckets_spec bs : forall done_,
  triple (rebuilt done_) (recompute_buckets bs)
    (fun r w => match r with Ok _ => rebuilt (done_ ++ bs) w | Err _ => fp_events w = events /\ full w = true end).
Proof.
  induction bs as [|b bs IH]; intros done_; cbn [recompute_buckets].
  { apply triple_ret. intros w. by rewrite app_nil_r. }
  eapply triple_bind; [apply (check_ctx_keeps (rebuilt done_)); done|by intros e w (? & ? & _)|]. intros [].
  eapply triple_bind.
  { apply (recompute_tx_spec (rebuilt done_) (rebuilt (done_ ++ [b]))); [done|].
    intros w (He & Hf & Hx). split; [done|]. split; [done|]. cbn. intros s Hs. rewrite He.
    destruct (bucket_recompute b events (fp_latest w) s) as [H1 H2].
    destruct (decide (HashBucket s = b)) as [Eb|Nb]; [by apply H1|]. unfold exact. rewrite (H2 Nb).
    apply Hx. apply elem_of_app in Hs as [Hs|Hs%list_elem_of_singleton]; [done|congruence]. }
  { by intros e w [(? & ? & _)|(? & ? & _)]. }
  intros []. eapply triple_conseq; [apply (IH (done_ ++ [b]))|done|]. intros [] w; [|done]. by rewrite <- app_assoc.
Qed.

(** *** The marked subjects *)

(** [D] is what was marked when the flush began. *)
Definition unmarked (D : gset string) (done_ : list string) (w : fproc) : Prop :=
  inv w /\ full w = false /\ marks w = D ∖ list_to_set done_.

Lemma flush_chunks_spec D b cs : forall done_, (forall s, s ∈ concat cs -> HashBucket s = b) ->
  triple (unmarked D done_) (flush_chunks b cs)
    (fun r w => inv w /\ match r with Ok _ => unmarked D (done_ ++ concat cs) w | Err _ => True end).
Proof.
  induction cs as [|c cs IH]; intros done_ Hb; cbn [flush_chunks concat].
  { apply triple_ret. intros w H. rewrite app_nil_r. split; [apply H|done]. }
  eapply triple_bind; [apply (check_ctx_keeps (unmarked D done_)); done|by intros e w H; split; [apply H|]|]. intros [].
  set (fresh := fun w => forall s, s ∈ c -> exact (fp_latest w) events s).
  eapply (triple_bind _ _ _ (fun r w => inv w /\ match r with Ok _ => unmarked D done_ w /\ fresh w | Err _ => True end));
    [|done|].
  { eapply triple_conseq; [apply (recompute_tx_spec (unmarked D done_) (fun w => unmarked D done_ w /\ fresh w)); [done|]|done|].
    - intros w ((He & Ht) & Hf & Hm).
      assert (Hrow : forall s, exact (fp_latest w) events s \/ s ∈ c ->
        exact (recompute (fun r => (el_subject_bucket r =? b) && one_of c (el_subject r))
          (fun r => (er_SubjectBucket r =? b) && one_of c (er_Subject r)) (fp_events w) (fp_latest w)) events s).
      { intros s Hs. rewrite He. destruct (chunk_recompute b c events (fp_latest w) s) as [H1 H2].
        destruct (decide (s ∈ c)) as [Hc|Hc]; [apply H1; split; [done|apply Hb; cbn; apply elem_of_app; by left]|].
        destruct Hs as [Hs|]; [|done]. unfold exact. rewrite H2; [exact Hs|tauto]. }
      split; [|intros s Hs; apply Hrow; by right]. split; [|done]. split; [done|]. cbn.
      destruct Ht as [Ht|Ht]; [by left|right]. intros s Hs. apply Hrow. left. by apply Ht.
    - intros [u|e] w; [intros H; split; [apply H|exact H]|intros [H|H]; (split; [apply H|done])]. }
  intros []. cbv beta.
  eapply (triple_bind _ _ _ (fun r w => inv w /\ match r with Ok _ => unmarked D (done_ ++ c) w | Err _ => True end)); [|done|].
  { intros w (Hi & ((He & Ht) & Hf & Hm) & Hfresh). cbn.
    assert (Hinv : inv (mkFproc (fp_events w) (fp_latest w) (unmark c (fp_mat w)) (fp_future w))).
    { split; [done|]. destruct Ht as [Ht|Ht]; [by left|right]. cbn. intros s Hs.
      destruct (decide (s ∈ c)) as [Hc|Hc]; [by apply Hfresh|]. apply Ht. unfold marks in *. set_solver. }
    split; [done|]. split; [done|]. split; [done|]. unfold marks in *. cbn. rewrite Hm. set_solver. }
  intros []. eapply triple_conseq; [apply (IH (done_ ++ c))|by intros w [_ ?]|].
  - intros s Hs. apply Hb. cbn. apply elem_of_app. by right.
  - intros [] w; [|done]. by rewrite <- app_assoc.
Qed.

Lemma flush_buckets_spec D subjects bs : forall done_,
  triple (unmarked D done_) (flush_buckets subjects bs)
    (fun r w => inv w /\ match r with
       | Ok _ => unmarked D (done_ ++ concat (map (of_bucket subjects) bs)) w | Err _ => True end).
Proof.
  induction bs as [|b bs IH]; intros done_; cbn [flush_buckets map concat].
  { apply triple_ret. intros w H. rewrite app_nil_r. split; [apply H|done]. }
  eapply triple_bind; [apply (flush_chunks_spec D b (chunks (of_bucket subjects b)) done_)|by intros e w [? _]|].
  - intros s. rewrite concat_chunks. by intros [_ ?]%elem_of_of_bucket.
  - intros []. rewrite concat_chunks.
    eapply triple_conseq; [apply (IH (done_ ++ of_bucket subjects b))|by intros w [_ ?]|].
    intros [] w; [|done]. by rewrite <- app_assoc.
Qed.

Lemma buckets_cover subjects s : s ∈ subjects -> s ∈ concat (map (of_bucket subjects) (buckets_of subjects)).
Proof.
  intros Hs. apply list_elem_of_In, in_concat. exists (of_bucket subjects (HashBucket s)). split.
  - apply in_map, list_elem_of_In. unfold buckets_of. rewrite isort_perm, elem_of_remove_dups. by apply list_elem_of_fmap_2.
  - by apply list_elem_of_In, elem_of_of_bucket.
Qed.

Lemma get_mat_bind {B} (P : fproc -> Prop) (k : mat -> F B) Q :
  (forall m, triple (fun w => P w /\ fp_mat w = m) (k m) Q) -> triple P (bind get_mat k) Q.
Proof. intros H w Hw. unfold bind, get_mat. apply (H (fp_mat w) w). done. Qed.

(** A flush keeps every unmarked subject exact whatever fails, and one that
    returns without error leaves no mark. *)
Lemma FlushEventRollup_spec :
  triple inv FlushEventRollup
    (fun r w => inv w /\ match r with Ok _ => full w = false /\ marks w = ∅ | Err _ => True end).
Proof.
  unfold FlushEventRollup. apply get_mat_bind. intros m. destruct (eventRollupFullRebuild m) eqn:Ef.
  - eapply triple_bind.
    { eapply triple_conseq; [apply (recompute_buckets_spec bucket_list [])| |intros r w H; exact H].
      intros w ([He _] & <-). split; [done|]. split; [done|]. intros s Hs. by apply elem_of_nil in Hs. }
    { intros e w [He Hf]. split; [|done]. split; [done|]. by left. }
    intros [] w (He & Hf & Hx). cbn. split; [|done]. split; [done|]. right. cbn. intros s _. apply Hx.
    apply bucket_list_spec.
  - set (subjects := elements (dirtyEventSubjects m)).
    eapply triple_conseq; [apply (flush_buckets_spec (dirtyEventSubjects m) subjects (buckets_of subjects) [])|..].
    + intros w [Hi <-]. split; [done|]. split; [done|]. unfold marks. set_solver.
    + intros [u|e] w [Hi H]; [|done]. destruct H as (_ & Hf & Hm). split; [done|]. split; [done|].
      rewrite Hm. apply set_eq. intros s. rewrite elem_of_difference, elem_of_list_to_set. split; [|set_solver].
      intros [Hs Hn]. destruct Hn. apply buckets_cover. unfold subjects. by apply elem_of_elements.
Qed.
End flush.
