(* ===== verification/EventRuns.v ===== *)
(** * Runs of the event rollup

    Decode passes, backfills, flushes and restarts, in any order: the summaries the
    rollup serves are the scan's for every subject that is not marked, and for all
    after a flush that returns. And the runs that lose a mark, after which nothing the
    idle materializer does brings it back. *)

From S2P Require Import Prelude Model SegRepo Validate SignalsRepo Coordinates Base64 Blobcrypt Decode Blobs Ingest IngestSafe Sql Backfill LakeSource LakeLatest RawEvents Rollup RollupInv Aggregations AggSpec Events EventRollup.

#[local] Set Default Proof Using "Type*".

(** ** Decode passes *)

(** Others leave lake.events alone, and no call takes effect and reports a failure. *)
Definition tame (e : event) : Prop := e_fate e <> LostAck /\ forall l, lk_events (e_others e l) = lk_events l.

Definition world_tracked (t : list EventLatestRow) (l : lake) (m : mat) : Prop :=
  tracked t (lk_events l) (dirtyEventSubjects m) (eventRollupFullRebuild m).

Section passes.
Context (t : list EventLatestRow).

Definition held (w : world) : Prop := Forall tame (w_future w) /\ world_tracked t (w_lake w) (w_mat w).

Definition keeps {B} (m : M B) : Prop := triple held m (fun _ => held).

Lemma keeps_ret {B} (b : B) : keeps (ret b).
Proof. by apply triple_ret. Qed.
Lemma keeps_fail {B} e : keeps (fail_with e : M B).
Proof. by apply triple_fail. Qed.
Lemma keeps_bind {B C} (m : M B) (k : B -> M C) : keeps m -> (forall b, keeps (k b)) -> keeps (bind m k).
Proof. intros Hm Hk. eapply triple_bind; [exact Hm|done|exact Hk]. Qed.
Lemma keeps_try {B C} (m : M B) (k : result pass_error B -> M C) : keeps m -> (forall r, keeps (k r)) -> keeps (try_ m k).
Proof. intros Hm Hk. eapply triple_try; [exact Hm|exact Hk]. Qed.

Lemma keeps_call_bind {B} (k : fate -> M B) : (forall x, x <> LostAck -> keeps (k x)) -> keeps (bind call k).
Proof.
  intros Hk w [Hf Ht]. unfold bind, call. destruct (w_future w) as [|e rest] eqn:E.
  - apply Hk; [done|]. split; [by rewrite E|done].
  - apply Forall_cons in Hf as [[He Ho] Hf]. apply Hk; [done|]. split; [done|]. unfold world_tracked. cbn. by rewrite Ho.
Qed.

Lemma keeps_get_lake {B} (k : lake -> M B) : (forall l, keeps (k l)) -> keeps (bind get_lake k).
Proof. intros Hk w Hw. unfold bind, get_lake. by apply Hk. Qed.
Lemma keeps_get_mat {B} (k : mat -> M B) : (forall m, keeps (k m)) -> keeps (bind Ingest.get_mat k).
Proof. intros Hk w Hw. unfold bind, Ingest.get_mat. by apply Hk. Qed.
Lemma keeps_mod_lake f : (forall l, lk_events (f l) = lk_events l) -> keeps (mod_lake f).
Proof. intros Hl w [Hf Ht]. split; [done|]. unfold world_tracked in *. cbn. by rewrite Hl. Qed.
Lemma keeps_mod_mat f :
  (forall m, dirtyEventSubjects (f m) = dirtyEventSubjects m /\ eventRollupFullRebuild (f m) = eventRollupFullRebuild m) ->
  keeps (mod_mat f).
Proof. intros Hm w [Hf Ht]. split; [done|]. unfold world_tracked in *. cbn. by destruct (Hm (w_mat w)) as [-> ->]. Qed.

Lemma keeps_query {B} (q : lake -> B) : keeps (Ingest.query q).
Proof.
  apply keeps_call_bind. intros [] _; try apply keeps_fail. apply keeps_get_lake. intros l. apply keeps_ret.
Qed.
Lemma keeps_exec f : (forall l, lk_events (f l) = lk_events l) -> keeps (exec f).
Proof.
  intros Hf. apply keeps_call_bind. intros [] ?; try apply keeps_fail; [by apply keeps_mod_lake|done].
Qed.

Lemma cas_events from to l : lk_events (cas from to l) = lk_events l.
Proof. unfold cas. by destruct (bool_decide _). Qed.

(** *** Marking *)

Lemma more_tracked subjects d full events new :
  tracked t events d full -> Forall (fun r => er_Subject r ∈ subjects) new ->
  tracked t (events ++ new) (list_to_set subjects ∪ d) full.
Proof.
  intros Ht Hn. destruct Ht as [Ht|Ht]; [by left|right]. intros s Hs. unfold exact, select_of, eventRollupSelectSQL.
  rewrite List.filter_app, (list_filter_none _ new), app_nil_r; [apply Ht; set_solver|].
  intros r Hr. unfold subject_where. apply andb_false_iff. right. apply String.eqb_neq. intros <-.
  rewrite Forall_forall in Hn. specialize (Hn r Hr). set_solver.
Qed.

Lemma add_dirty_tracked cap subjects d full events new :
  tracked t events d full -> Forall (fun r => er_Subject r ∈ subjects) new ->
  let '(d', full') := add_dirty cap subjects d full in tracked t (events ++ new) d' full'.
Proof. intros Ht Hn. unfold add_dirty. destruct (cap <? _); [by left|by apply more_tracked]. Qed.

Lemma markDirty_tracked cfg d l m new :
  world_tracked t l m -> Forall (fun r => er_Subject r ∈ map er_Subject (b_events d)) new ->
  tracked t (lk_events l ++ new) (dirtyEventSubjects (markDirtyFromBatch cfg d m))
    (eventRollupFullRebuild (markDirtyFromBatch cfg d m)).
Proof.
  intros Ht Hn. pose proof (add_dirty_tracked (maxDirtySubjects cfg) (map er_Subject (b_events d)) _ _ _ new Ht Hn) as H.
  unfold markDirtyFromBatch.
  destruct (if backfillMode cfg then _ else _) as [ds fr].
  by destruct (add_dirty _ (map er_Subject (b_events d)) _ _) as [de ef].
Qed.

Lemma keeps_mark cfg d : keeps (mod_mat (markDirtyFromBatch cfg d)).
Proof.
  intros w [Hf Ht]. split; [done|]. cbn. unfold world_tracked.
  rewrite <- (app_nil_r (lk_events (w_lake w))). by apply markDirty_tracked; [|constructor].
Qed.

(** The rows an insert adds come from the batch. *)
Definition adds (d : decodedBatch) (f : lake -> lake) : Prop :=
  forall l, exists new, lk_events (f l) = lk_events l ++ new /\
                        Forall (fun r => er_Subject r ∈ map er_Subject (b_events d)) new.

Lemma antiJoin_adds d same range skip l : exists new,
  antiJoinInsert same er_Timestamp l (b_events d) range skip = l ++ new /\
  Forall (fun r => er_Subject r ∈ map er_Subject (b_events d)) new.
Proof.
  assert (H : forall f, Forall (fun r => er_Subject r ∈ map er_Subject (b_events d)) (List.filter f (b_events d))).
  { intros f. apply Forall_forall. intros r [Hr _]%elem_of_list_filter. by apply list_elem_of_fmap_2. }
  unfold antiJoinInsert. destruct skip; [|by eexists].
  exists (b_events d). split; [done|]. apply Forall_forall. intros r Hr. by apply list_elem_of_fmap_2.
Qed.

Lemma insert_adds now bf d : adds d (insertDecodedSteady now bf d).
Proof.
  intros l. unfold insertDecodedSteady. cbn [lk_events set_tables]. destruct (b_events d) as [|x rows] eqn:E.
  - exists []. by rewrite app_nil_r.
  - rewrite <- E. apply antiJoin_adds.
Qed.

Lemma backfill_adds d : adds d (backfill_insert d).
Proof.
  intros l. unfold backfill_insert. cbn [lk_events set_tables]. destruct (b_events d) as [|x rows] eqn:E.
  - exists []. by rewrite app_nil_r.
  - rewrite <- E. apply antiJoin_adds.
Qed.

Lemma keeps_insert_mark cfg d f : adds d f ->
  keeps (do! _ <- mod_lake f; mod_mat (markDirtyFromBatch cfg d)).
Proof.
  intros Ha w [Hf Ht]. destruct (Ha (w_lake w)) as (new & E & Hn). cbn. split; [done|]. unfold world_tracked. cbn.
  rewrite E. by apply markDirty_tracked.
Qed.

Lemma keeps_settling {B} d (m : M B) : keeps m -> keeps (settling d m).
Proof.
  intros Hm. unfold settling. apply keeps_bind.
  - apply keeps_mod_mat. intros m'. unfold publishLatest. destruct (negb (latestPub m')), (b_signals d); done.
  - intros _. apply keeps_try; [exact Hm|]. intros r. apply keeps_bind; [|intros _ w Hw; exact Hw].
    apply keeps_mod_mat. intros m'. unfold settle_batch. destruct (negb (latestPub m')), (b_signals d); done.
Qed.

Lemma keeps_writeWindow cfg now d : keeps (writeWindow cfg now d).
Proof.
  assert (H : keeps (settling d (do! x <- call;
    match x with
    | Fine => do! _ <- mod_lake (insertDecodedSteady now (backfillMode cfg) d); mod_mat (markDirtyFromBatch cfg d)
    | Conflict => fail_with ErrSnapshotMoved
    | LostAck => do! _ <- mod_lake (insertDecodedSteady now (backfillMode cfg) d); fail_with ErrTransient
    | _ => fail_with ErrTransient
    end))).
  { apply keeps_settling, keeps_call_bind. intros [] ?; try apply keeps_fail; [|done].
    apply keeps_insert_mark, insert_adds. }
  unfold writeWindow. destruct (b_signals d), (b_events d); first [apply keeps_ret|exact H].
Qed.

Lemma keeps_cursor : keeps cursor.
Proof.
  apply keeps_bind; [apply keeps_query|]. intros [n|]; [apply keeps_ret|].
  apply keeps_bind; [|intros _; apply keeps_ret]. apply keeps_exec. intros l. by destruct (lk_cursor l).
Qed.

Lemma keeps_landed to : keeps (landed_or_fail to).
Proof.
  apply keeps_try; [apply keeps_bind; [apply keeps_cursor|intros; apply keeps_ret]|].
  intros [[]|]; first [apply keeps_ret|apply keeps_fail].
Qed.

Lemma keeps_commit cfg now d from to : keeps (commit cfg now d from to).
Proof.
  unfold commit. apply keeps_settling, keeps_call_bind. intros x Hx. apply keeps_get_lake. intros l.
  assert (Hmark : forall m : M unit, keeps m -> keeps (do! _ <- m; mod_mat (markDirtyFromBatch cfg d)))
    by (intros m Hm; apply keeps_bind; [exact Hm|intros _; apply keeps_mark]).
  destruct x; [| | | |done]; try destruct (negb _); try (apply Hmark; first [apply keeps_fail|apply keeps_landed]).
  apply keeps_insert_mark. intros l'. rewrite cas_events. apply insert_adds.
Qed.

(** *** The rest of a pass *)

Ltac keep :=
  repeat first
    [ apply keeps_ret | apply keeps_fail | apply keeps_cursor | apply keeps_query
    | apply keeps_get_lake; intros ? | apply keeps_get_mat; intros ?
    | apply keeps_call_bind; intros [] ?; [..|done]
    | apply keeps_mod_lake; intros ?; first [done|apply cas_events]
    | apply keeps_mod_mat; intros ?; done
    | apply keeps_bind; [|intros ?]
    | apply keeps_try; [|intros ?] ].

Lemma keeps_reportProgress id : keeps (reportProgress id).
Proof. unfold reportProgress. keep. Qed.

Lemma keeps_attempt now id : keeps (attempt_report now id).
Proof.
  unfold attempt_report. apply keeps_bind; [keep|intros _]. apply keeps_bind; [apply keeps_reportProgress|].
  intros []; keep.
Qed.

Lemma keeps_reportNow now id : keeps (reportProgressNow now id).
Proof.
  unfold reportProgressNow. keep. destruct (id =? _); [|apply keeps_attempt]. destruct (recently _ _ _); [keep|].
  apply keeps_bind; [keep|intros _]. apply keeps_bind; [apply keeps_reportProgress|intros _; keep].
Qed.

Lemma keeps_maybeReport now id : keeps (maybeReportProgress now id).
Proof.
  unfold maybeReportProgress. keep. destruct (id =? _); [keep|]. destruct (recently _ _ _); [keep|apply keeps_attempt].
Qed.

Lemma keeps_advance from to : keeps (advanceCursor from to).
Proof. unfold advanceCursor. keep. destruct (cas_hits from _); keep. Qed.

Lemma keeps_reset from to : keeps (resetCursor from to).
Proof. apply keeps_exec, cas_events. Qed.

Lemma keeps_recover now cur : keeps (maybeRecoverExpired now cur).
Proof.
  unfold maybeRecoverExpired. apply keeps_try; [keep|]. intros [old|]; [|keep]. destruct (old <=? cur + 1); [keep|].
  apply keeps_bind; [apply keeps_reset|intros _]. apply keeps_bind; [apply keeps_reportNow|intros _; keep].
Qed.

Section decode.
Context {A : AEAD} (blobs : option (string -> result s3_error s3_object)) (blobCipher : option Blobcrypt.Key).
Context (dec : Z -> list RawEvent -> decodedBatch) (cfg : config) (now : Z).

Lemma keeps_readDelta from to after_ limit : keeps (readDeltaWindow blobs blobCipher from to after_ limit).
Proof.
  unfold readDeltaWindow. apply keeps_call_bind. intros [] ?; try apply keeps_fail.
  apply keeps_get_lake. intros l. destruct (_ <? _); [keep|]. destruct (resolveBlobs _ _ _); keep.
Qed.

Lemma keeps_nextWindow fuel from to : forall after_ win c wb,
  keeps (nextWindow blobs blobCipher dec cfg now fuel from to after_ win c wb).
Proof.
  induction fuel as [|fuel IH]; intros after_ win c wb; cbn [nextWindow]; [keep|].
  destruct (_ && _); [keep|]. apply keeps_bind; [apply keeps_readDelta|]. intros [[evs last_] got].
  destruct (got =? 0); [keep|]. destruct (_ || _); [keep|apply IH].
Qed.

Lemma keeps_span fuel from to : forall after_ pending total,
  keeps (span_loop blobs blobCipher dec cfg now fuel from to after_ pending total).
Proof.
  induction fuel as [|fuel IH]; intros after_ pending total; cbn [span_loop]; [keep|].
  apply keeps_bind; [apply keeps_nextWindow|]. intros [[win c] after']. destruct (rawRows c =? 0).
  - destruct pending as [d|]; [|keep]. apply keeps_bind; [apply keeps_commit|intros _; keep].
  - apply keeps_bind; [|intros _; apply IH]. destruct pending; [apply keeps_writeWindow|keep].
Qed.

Lemma keeps_processChunk fuel cur head : keeps (processChunk blobs blobCipher dec cfg now fuel cur head).
Proof.
  unfold processChunk. apply keeps_try; [apply keeps_span|]. intros [res|[]].
  - destruct (0 <? rawRows res); [apply keeps_bind; [apply keeps_maybeReport|intros _; keep]|].
    destruct (head <=? _); [apply keeps_bind; [apply keeps_reportNow|intros _; keep]|].
    apply keeps_try; [apply keeps_advance|]. intros [[]|[]]; keep.
  - apply keeps_bind; [apply keeps_recover|]. intros [n|]; keep.
  - keep.
  - keep.
Qed.

Lemma keeps_RunOnce fuel chunks : keeps (RunOnce blobs blobCipher dec cfg now fuel chunks).
Proof.
  unfold RunOnce. apply keeps_bind; [keep|]. intros [] ; [|keep]. cbn [negb].
  apply keeps_bind; [keep|]. intros cur. apply keeps_bind; [keep|]. intros head_.
  destruct (head_ <=? cur); [apply keeps_bind; [apply keeps_reportNow|intros _; keep]|].
  revert cur. induction chunks as [|n IH]; intros cur; cbn [chunk_loop]; [keep|].
  apply keeps_bind; [apply keeps_processChunk|]. intros [[p c] []]; [keep|apply IH].
Qed.

Lemma keeps_Backfill from to : keeps (BackfillTimeRange blobs blobCipher dec now from to).
Proof.
  unfold BackfillTimeRange. destruct (negb _); [keep|]. apply keeps_bind.
  - unfold readRawByTime. apply keeps_call_bind. intros [] ?; try apply keeps_fail.
    apply keeps_get_lake. intros l. destruct (negb _); [keep|]. destruct (resolveBlobs _ _ _); keep.
  - intros [|ev evs]; [keep|]. apply keeps_bind; [|intros _; keep]. unfold backfillWrite.
    apply keeps_settling, keeps_call_bind. intros [] ?; try apply keeps_fail; [|done].
    set (d := dec now (ev :: evs)). intros w [Hf Ht]. destruct (backfill_adds d (w_lake w)) as (new & E & Hn).
    cbn. split; [done|]. unfold world_tracked. cbn [w_lake w_mat]. rewrite E.
    by apply more_tracked.
Qed.
End decode.
End passes.

(** ** What the rollup answers *)

Lemma subject_events_where events s : subject_events events s = event_qualify (List.filter (subject_where s) events).
Proof.
  unfold subject_events, LakeEventsDeduped, event_qualify. rewrite <- qualify_filter, list_filter_andb; [done|].
  intros a b _ _ [= -> _ _ _]. done.
Qed.

Section summary.
Context (events : list EventRow) (s : string).

Notation d := (subject_events events s).

Definition named_row (n : string) : EventLatestRow := event_rollup_row d (s, n).

Lemma subject_keys : event_keys d ≡ₚ map (pair s) (event_names d).
Proof.
  apply NoDup_Permutation.
  - apply NoDup_remove_dups.
  - apply NoDup_fmap_2; [intros a b [= ?]; done|apply event_names_NoDup].
  - intros [s' n]. unfold event_keys. rewrite elem_of_remove_dups, !list_elem_of_fmap. split.
    + intros (r & [= -> ->] & Hr). destruct (elem_of_subject_events _ _ _ Hr) as [_ Hs]. exists (er_Name r).
      split; [by rewrite Hs|]. apply elem_of_event_names. by exists r.
    + intros (m & [= -> ->] & Hm). apply elem_of_event_names in Hm as (r & Hr & <-). exists r. split; [|done].
      by destruct (elem_of_subject_events _ _ _ Hr) as [_ ->].
Qed.

Lemma summaries_are_scan : map scan_summary (order_by el_name sleb (select_of s events)) = event_summaries d.
Proof.
  unfold select_of, eventRollupSelectSQL. rewrite <- subject_events_where.
  assert (Hperm : map (event_rollup_row d) (event_keys d) ≡ₚ map named_row (event_names d)).
  { rewrite subject_keys, map_map. done. }
  assert (Hnames : map el_name (map named_row (event_names d)) = event_names d).
  { rewrite map_map. apply map_id. }
  assert (Hn : NoDup (map el_name (map (event_rollup_row d) (event_keys d)))).
  { rewrite (Permutation_map el_name Hperm), Hnames. apply event_names_NoDup. }
  rewrite (order_by_perm_ext el_name sleb sleb_total sleb_trans sleb_antisym _ (map named_row (event_names d)) Hn Hperm).
  rewrite order_by_id.
  - rewrite map_map. apply List.map_ext. intros n. unfold scan_summary, named_row, event_rollup_row, summarize. cbn.
    replace (event_group (s, n) d) with (events_named n d); [done|]. unfold event_group, events_named. cbn.
    apply filter_ext_elem. intros r Hr. destruct (elem_of_subject_events _ _ _ Hr) as [_ ->]. by rewrite String.eqb_refl.
  - apply SSorted_map. apply event_names_sorted.
Qed.

(** An exact subject is answered as by the scan, rows or no rows. *)
Lemma exact_serves t ready check_error : exact t events s ->
  (GetEventSummaries ready check_error None None events (Some t) s).1 = getEventSummariesLake events None s.
Proof.
  intros Hx. unfold GetEventSummaries. cbn [fst]. destruct (eventsRollupAvailable _ _ _); [|done].
  unfold getEventSummariesRollup, Events.query. fold (rows_of t s). rewrite Hx, summaries_are_scan. cbn [result_bind].
  destruct (is_empty (event_summaries d)) eqn:E; [|done]. done.
Qed.
End summary.

(** ** A flush in which nothing fails *)

Definition no_fault (w : fproc) : Prop := fp_future w = [].
Definition calm_ok {A} (m : F A) : Prop := triple no_fault m (fun r w => no_fault w /\ exists a, r = Ok a).

Lemma calm_bind {A B} (m : F A) (k : A -> F B) : calm_ok m -> (forall a, calm_ok (k a)) -> calm_ok (bind m k).
Proof.
  intros Hm Hk. eapply triple_bind; [exact Hm|by intros e w [_ [a ?]]|]. intros a w [Hw _]. by apply Hk.
Qed.

Lemma calm_next {B} (k : fate -> F B) : calm_ok (k Fine) -> calm_ok (bind next_fate k).
Proof. intros Hk w Hw. unfold bind, next_fate. rewrite Hw. by apply Hk. Qed.

Lemma calm_ret {A} (a : A) : calm_ok (ret a).
Proof. intros w Hw. split; [done|]. by exists a. Qed.

Lemma calm_check : calm_ok check_ctx.
Proof. apply calm_next, calm_ret. Qed.

Lemma calm_recompute del where_ : calm_ok (recompute_tx del where_).
Proof. apply calm_next. intros w Hw. split; [exact Hw|]. by exists tt. Qed.

Lemma calm_set f : calm_ok (set_mat f).
Proof. intros w Hw. split; [exact Hw|]. by exists tt. Qed.

Lemma calm_chunks b cs : calm_ok (flush_chunks b cs).
Proof.
  induction cs as [|c cs IH]; [apply calm_ret|]. cbn [flush_chunks].
  apply calm_bind; [apply calm_check|intros _]. apply calm_bind; [apply calm_recompute|intros _].
  apply calm_bind; [apply calm_set|intros _; exact IH].
Qed.

Lemma calm_flush : calm_ok FlushEventRollup.
Proof.
  unfold FlushEventRollup. intros w Hw. unfold bind at 1, EventRollup.get_mat. cbv beta iota. revert w Hw.
  assert (Hall : forall m, calm_ok (if eventRollupFullRebuild m then do! _ <- RecomputeEventRollup; set_mat (set_event_marks ∅ false)
    else flush_buckets (elements (dirtyEventSubjects m)) (buckets_of (elements (dirtyEventSubjects m))))).
  { intros m. destruct (eventRollupFullRebuild m).
    - apply calm_bind; [|intros _; apply calm_set]. unfold RecomputeEventRollup.
      induction bucket_list as [|b bs IH]; [apply calm_ret|]. cbn [recompute_buckets].
      apply calm_bind; [apply calm_check|intros _]. apply calm_bind; [apply calm_recompute|intros _; exact IH].
    - generalize (buckets_of (elements (dirtyEventSubjects m))). induction l as [|b bs IH]; [apply calm_ret|].
      cbn [flush_buckets]. apply calm_bind; [apply calm_chunks|intros _; exact IH]. }
  intros w Hw. exact (Hall (fp_mat w) w Hw).
Qed.

(** ** Runs *)

Record sys := mkSys { sy_lake : lake; sy_latest : list EventLatestRow; sy_mat : mat }.

Definition sy_events (s : sys) : list EventRow := lk_events (sy_lake s).
Definition sy_world (s : sys) (fut : list event) : world := mkWorld (sy_lake s) (sy_mat s) fut.
Definition sy_flush (s : sys) (fut : list fate) : fproc := mkFproc (sy_events s) (sy_latest s) (sy_mat s) fut.
Definition after_world (s : sys) (w : world) : sys := mkSys (w_lake w) (sy_latest s) (w_mat w).
Definition after_flush (s : sys) (w : fproc) : sys := mkSys (sy_lake s) (fp_latest w) (fp_mat w).
Definition restart (s : sys) : sys := mkSys (sy_lake s) (sy_latest s) (boot (sy_events s) (sy_latest s)).

(** Nothing is marked and no rebuild is due. *)
Definition unmarked_all (s : sys) : Prop :=
  dirtyEventSubjects (sy_mat s) = ∅ /\ eventRollupFullRebuild (sy_mat s) = false.

Definition answer (s : sys) (ready : bool) (subject : string) : result string (list EventSummary) :=
  (GetEventSummaries ready None None None (sy_events s) (Some (sy_latest s)) subject).1.
Definition scan (s : sys) (subject : string) : result string (list EventSummary) :=
  getEventSummariesLake (sy_events s) None subject.

Section runs.
Context {A : AEAD} (blobs : option (string -> result s3_error s3_object)) (blobCipher : option Blobcrypt.Key).
Context (dec : Z -> list RawEvent -> decodedBatch).

(** A restart of the runs comes when nothing is marked, or before the rollup has any row. *)
Inductive sys_step : sys -> sys -> Prop :=
| step_pass s cfg now fuel chunks fut : Forall tame fut ->
    sys_step s (after_world s (RunOnce blobs blobCipher dec cfg now fuel chunks (sy_world s fut)).2)
| step_backfill s now from to fut : Forall tame fut ->
    sys_step s (after_world s (BackfillTimeRange blobs blobCipher dec now from to (sy_world s fut)).2)
| step_flush s fut : sys_step s (after_flush s (FlushEventRollup (sy_flush s fut)).2)
| step_restart s : sy_latest s = [] \/ unmarked_all s -> sys_step s (restart s).

Definition sys_inv (s : sys) : Prop := world_tracked (sy_latest s) (sy_lake s) (sy_mat s).

Lemma rows_of_nil s events : is_empty events = true -> exact [] events s.
Proof. destruct events; [done|done]. Qed.

Lemma restart_inv s : sy_latest s = [] \/ unmarked_all s -> sys_inv s -> sys_inv (restart s).
Proof.
  unfold sys_inv, world_tracked, restart, boot, sy_events. cbn. intros [E|[Hd Hf]] Hi.
  - rewrite E. unfold eventsPending. cbn. destruct (is_empty (lk_events (sy_lake s))) eqn:Ee; [right|by left].
    intros x _. by apply rows_of_nil.
  - destruct Hi as [Hi|Hi]; [congruence|]. right. intros x _. apply Hi. rewrite Hd. set_solver.
Qed.

Lemma sys_step_tracked s s' : sys_step s s' -> sys_inv s -> sys_inv s'.
Proof.
  destruct 1 as [s cfg now fuel chunks fut Hf|s now from to fut Hf|s fut|s Hr]; intros Hi.
  - by apply (keeps_RunOnce (sy_latest s) blobs blobCipher dec cfg now fuel chunks (sy_world s fut)).
  - by apply (keeps_Backfill (sy_latest s) blobs blobCipher dec now from to (sy_world s fut)).
  - pose proof (FlushEventRollup_spec (sy_events s) (sy_flush s fut)) as H. destruct H as [[He Ht] _]; [by split|].
    done.
  - by apply restart_inv.
Qed.

Definition sys_start (s : sys) : Prop :=
  sy_latest s = [] /\ sy_mat s = boot (sy_events s) [] \/
  unmarked_all s /\ forall subject, exact (sy_latest s) (sy_events s) subject.

Lemma start_inv s : sys_start s -> sys_inv s.
Proof.
  intros [[E Em]|[_ Hx]]; [|by right].
  unfold sys_inv, world_tracked. rewrite E, Em. unfold boot, eventsPending. cbn.
  destruct (is_empty (sy_events s)) eqn:Ee; [right|by left]. intros x _. by apply rows_of_nil.
Qed.

Lemma run_inv s0 s : rtc sys_step s0 s -> sys_inv s0 -> sys_inv s.
Proof. induction 1 as [s|s1 s2 s3 Hst _ IH]; intros Hi; [done|]. by apply IH, (sys_step_tracked s1). Qed.

(** C9. The event rollup answers what a scan answers. The run starts with the rollup
    empty at boot, or exact with nothing marked; it takes, in any order, decode passes and
    backfills ([tame]: a call may fail or conflict but none takes effect while it reports
    failure, and only this process writes lake.events: no retention meanwhile), flushes
    whatever befalls their transactions, unacknowledged commits included, and restarts,
    but only when nothing is marked and no rebuild is due or while the rollup table has
    no rows (a restart between a pass and its flush breaks it: [event_rollup_gaps]). Then
    the summaries of every subject that is not marked are those of a scan of lake.events,
    once no rebuild is due; a flush always keeps this so, one that returns makes it so
    for every subject, and one in which nothing fails returns. *)
Theorem event_rollup_exact s0 s :
  sys_start s0 -> rtc sys_step s0 s ->
  (eventRollupFullRebuild (sy_mat s) = false ->
   forall ready subject, subject ∉ dirtyEventSubjects (sy_mat s) -> answer s ready subject = scan s subject) /\
  (forall fut, (FlushEventRollup (sy_flush s fut)).1 = Ok tt ->
   forall ready subject, answer (after_flush s (FlushEventRollup (sy_flush s fut)).2) ready subject = scan s subject) /\
  (FlushEventRollup (sy_flush s [])).1 = Ok tt.
Proof.
  intros H0 Hrun. pose proof (run_inv s0 s Hrun (start_inv s0 H0)) as Hi. split; [|split].
  - intros Hf ready subject Hs. apply exact_serves. destruct Hi as [Hi|Hi]; [congruence|by apply Hi].
  - intros fut Hok ready subject.
    pose proof (FlushEventRollup_spec (sy_events s) (sy_flush s fut)) as H. destruct H as [[He Ht] H]; [by split|].
    rewrite Hok in H. destruct H as [Hf Hm]. apply exact_serves. destruct Ht as [Ht|Ht]; [congruence|].
    apply Ht. rewrite Hm. set_solver.
  - destruct (calm_flush (sy_flush s []) eq_refl) as [_ [[] H]]. exact H.
Qed.
End runs.

(** ** Runs that lose a mark *)

(** A decoder that makes one event row of each raw event. *)
Definition braking_row (e : RawEvent) : EventRow :=
  let h := re_Header e in
  mkEventRow (ce_Subject h) (HashBucket (ce_Subject h)) (ce_Source h) (ce_Producer h) (ce_ID h) (ce_Type h)
    (ce_DataVersion h) "behavior.harshBraking" (ce_Time h) 0 "" [].

Definition braking_dec (_ : Z) (evs : list RawEvent) : decodedBatch :=
  mkBatch [] (map braking_row evs) 0 (Z.of_nat (length evs)) 0.

Definition braking (snap seconds : Z) (id : string) : Ingest.rawRow :=
  Ingest.mkRawRow snap (mkRawEvent (mkHeader "did:v" (seconds * Second) "dimo.events" id "src" "prod" "1.0") [1] "") "".

(** One event decoded and rolled up, one still to decode. *)
Definition braking_events : list EventRow := [braking_row (rw_ev (braking 1 10 "e1"))].
Definition braking_lake : lake :=
  mkLake true [braking 1 10 "e1"; braking 2 20 "e2"] 2 1 [] braking_events (Some 1) None.

#[local] Instance runs_aead : AEAD := toy_aead.

Definition braking_pass (s : sys) (fut : list event) : result pass_error Z * sys :=
  let r := RunOnce None None braking_dec default_config (100 * Second) 20 20 (sy_world s fut) in
  (r.1, after_world s r.2).

Definition one_event : EventSummary := mkEventSummary "behavior.harshBraking" 1 (10 * Second) (10 * Second).
Definition two_events : EventSummary := mkEventSummary "behavior.harshBraking" 2 (10 * Second) (20 * Second).


(** *** A materializer with nothing to decode *)


Section idle.
Context (events : list EventRow) (c : Z).










End idle.












(** ** A run: a rebuild at boot, and then a pass *)

Definition fresh_sys : sys := mkSys braking_lake [] (boot braking_events []).
Definition rebuilt_sys : sys := after_flush fresh_sys (FlushEventRollup (sy_flush fresh_sys [])).2.
Definition passed_sys : sys := (braking_pass rebuilt_sys []).2.

Example event_rollup_exact_witness :
  rtc (sys_step None None braking_dec) fresh_sys passed_sys /\
  answer passed_sys true "did:v" = Ok [one_event] /\
  answer passed_sys true "did:other" = scan passed_sys "did:other" /\
  answer (after_flush passed_sys (FlushEventRollup (sy_flush passed_sys [])).2) true "did:v" = scan passed_sys "did:v" /\
  scan passed_sys "did:v" = Ok [two_events].
Proof.
  assert (Hrun : rtc (sys_step None None braking_dec) fresh_sys passed_sys).
  { eapply rtc_l; [apply step_flush|]. eapply rtc_l; [|apply rtc_refl]. by apply (step_pass None None braking_dec rebuilt_sys). }
  destruct (event_rollup_exact None None braking_dec fresh_sys passed_sys) as (H1 & H2 & H3); [by left|exact Hrun|].
  split; [exact Hrun|]. split; [vm_compute; reflexivity|]. split; [|split; [|vm_compute; reflexivity]].
  - apply H1; [vm_compute; reflexivity|]. apply (bool_decide_unpack _). vm_compute. exact I.
  - rewrite (H2 [] H3 true). vm_compute. reflexivity.
Defined.
