(* ===== verification/Retention.v ===== *)
(** * internal/materializer/ducklake.go: PruneDecoded

    The row-level retention of the decoded tables: rows older than the cutoff are
    deleted from lake.signals and lake.events, and then the rollup rows whose base
    rows are all gone. *)

From S2P Require Import Prelude Model SegRepo Validate SignalsRepo Decode Ingest Sql LakeSource LakeLatest RawEvents Rollup Aggregations AggSpec Events EventRollup EventRuns.

#[local] Set Default Proof Using "Type*".

Record tables := mkTables {
  tb_signals : list SignalRow;
  tb_events : list EventRow;
  tb_latest : list LatestRow;
  tb_events_latest : list EventLatestRow;
  tb_future : list fate;
}.

(** An error comes with the number of rows removed so far. *)
Definition R (A : Type) : Type := prog tables (Z * string) A.

(** [ExecContext] of one DELETE: the rows it removes, and the tables after it. *)
Definition delete_stmt (total : Z) (failure : string) (del : tables -> tables * Z) : R Z := fun w =>
  let '(x, w) := match tb_future w with
                 | [] => (Fine, w)
                 | f :: rest => (f, mkTables (tb_signals w) (tb_events w) (tb_latest w) (tb_events_latest w) rest)
                 end in
  let '(w', n) := del w in
  match x with
  | Fine => (Ok n, w')
  | LostAck => (Err (total, failure), w')
  | _ => (Err (total, failure), w)
  end.

Definition deleted {A} (keep : A -> bool) (l : list A) : Z :=
  Z.of_nat (length l) - Z.of_nat (length (List.filter keep l)).

Definition recent_signal (cutoff : Z) (r : SignalRow) : bool := negb (sr_Timestamp r <? make_timestamp cutoff).
Definition recent_event (cutoff : Z) (r : EventRow) : bool := negb (er_Timestamp r <? make_timestamp cutoff).

Definition prune_signals (cutoff : Z) (w : tables) : tables * Z :=
  (mkTables (List.filter (recent_signal cutoff) (tb_signals w)) (tb_events w) (tb_latest w) (tb_events_latest w)
     (tb_future w), deleted (recent_signal cutoff) (tb_signals w)).

Definition prune_events (cutoff : Z) (w : tables) : tables * Z :=
  (mkTables (tb_signals w) (List.filter (recent_event cutoff) (tb_events w)) (tb_latest w) (tb_events_latest w)
     (tb_future w), deleted (recent_event cutoff) (tb_events w)).

(** Kept: seen at or after the cutoff, or some base row exists. *)
Definition based_signal (cutoff : Z) (signals : list SignalRow) (sl : LatestRow) : bool :=
  negb (lr_last_seen sl <? make_timestamp cutoff) ||
  existsb (fun s => (sr_SubjectBucket s =? lr_subject_bucket sl) && String.eqb (sr_Subject s) (lr_subject sl) &&
                    String.eqb (sr_Name s) (lr_name sl)) signals.

Definition based_event (cutoff : Z) (events : list EventRow) (el : EventLatestRow) : bool :=
  negb (el_last_seen el <? make_timestamp cutoff) ||
  existsb (fun e => (er_SubjectBucket e =? el_subject_bucket el) && String.eqb (er_Subject e) (el_subject el) &&
                    String.eqb (er_Name e) (el_name el)) events.

Definition prune_orphans (cutoff : Z) (w : tables) : tables * Z :=
  (mkTables (tb_signals w) (tb_events w) (List.filter (based_signal cutoff (tb_signals w)) (tb_latest w))
     (tb_events_latest w) (tb_future w), 0).

Definition prune_event_orphans (cutoff : Z) (w : tables) : tables * Z :=
  (mkTables (tb_signals w) (tb_events w) (tb_latest w)
     (List.filter (based_event cutoff (tb_events w)) (tb_events_latest w)) (tb_future w), 0).

Definition PruneDecoded (now retention : Z) : R Z :=
  if retention <=? 0 then ret 0
  else
    let cutoff := UnixMicro (time_add now (- retention)) in
    do! n1 <- delete_stmt 0 "pruning lake.signals" (prune_signals cutoff);
    do! n2 <- delete_stmt n1 "pruning lake.events" (prune_events cutoff);
    let total := n1 + n2 in
    do! _ <- delete_stmt total "pruning orphaned rollup rows" (prune_orphans cutoff);
    do! _ <- delete_stmt total "pruning orphaned event rollup rows" (prune_event_orphans cutoff);
    ret total.

(** ** What a prune removes *)

(** An error leaves a prefix of the statements done, the last one perhaps. *)
Inductive pruned (cutoff : Z) (w : tables) : tables -> Prop :=
| pruned_0 f : pruned cutoff w (mkTables (tb_signals w) (tb_events w) (tb_latest w) (tb_events_latest w) f)
| pruned_1 f : pruned cutoff w (mkTables (List.filter (recent_signal cutoff) (tb_signals w)) (tb_events w)
                                  (tb_latest w) (tb_events_latest w) f)
| pruned_2 f : pruned cutoff w (mkTables (List.filter (recent_signal cutoff) (tb_signals w))
                                  (List.filter (recent_event cutoff) (tb_events w)) (tb_latest w) (tb_events_latest w) f)
| pruned_3 f : pruned cutoff w (mkTables (List.filter (recent_signal cutoff) (tb_signals w))
                                  (List.filter (recent_event cutoff) (tb_events w))
                                  (List.filter (based_signal cutoff (List.filter (recent_signal cutoff) (tb_signals w)))
                                     (tb_latest w)) (tb_events_latest w) f)
| pruned_4 f : pruned cutoff w (mkTables (List.filter (recent_signal cutoff) (tb_signals w))
                                  (List.filter (recent_event cutoff) (tb_events w))
                                  (List.filter (based_signal cutoff (List.filter (recent_signal cutoff) (tb_signals w)))
                                     (tb_latest w))
                                  (List.filter (based_event cutoff (List.filter (recent_event cutoff) (tb_events w)))
                                     (tb_events_latest w)) f).

Lemma delete_stmt_spec (A B : list fate -> tables) n total failure del :
  (forall f f', mkTables (tb_signals (A f)) (tb_events (A f)) (tb_latest (A f)) (tb_events_latest (A f)) f' = A f') ->
  (forall f, del (A f) = (B f, n)) ->
  triple (fun w => exists f, w = A f) (delete_stmt total failure del)
    (fun r w => match r with
       | Ok m => m = n /\ exists f, w = B f
       | Err _ => (exists f, w = A f) \/ exists f, w = B f
       end).
Proof.
  intros HA HB w [f ->]. unfold delete_stmt. destruct (tb_future (A f)) as [|x rest].
  - rewrite HB. cbn. split; [done|by exists f].
  - rewrite HA, HB. destruct x; cbn; eauto.
Qed.

Lemma triple_pure_pre {W E A} (P : Prop) (Q : W -> Prop) (c : prog W E A) S :
  (P -> triple Q c S) -> triple (fun w => P /\ Q w) c S.
Proof. intros H w [HP HQ]. exact (H HP w HQ). Qed.

(** An exact rollup row seen at or after the cutoff has a base row there. *)
Lemma exact_row_based t events s row cutoff : exact t events s -> row ∈ rows_of t s ->
  make_timestamp cutoff <= el_last_seen row ->
  exists e, e ∈ events /\ er_SubjectBucket e = HashBucket s /\ er_Subject e = s /\ er_Name e = el_name row /\
            recent_event cutoff e = true.
Proof.
  intros Hx Hr Hc. rewrite Hx in Hr. unfold select_of, eventRollupSelectSQL in Hr.
  set (d := event_qualify _) in Hr. apply list_elem_of_fmap in Hr as (k & -> & Hk).
  unfold event_rollup_row in *. cbn [el_last_seen el_name] in *.
  destruct (sql_max er_Timestamp (event_group k d)) as [m|] eqn:Em.
  - apply sql_max_spec in Em as ((e & He & <-) & _). apply elem_of_list_filter in He as [He Hn].
    apply andb_true_iff in Hn as [Hs%String.eqb_eq Hn%String.eqb_eq].
    apply qualify_incl, elem_of_list_filter in He as [He Hw]. unfold subject_where in Hw.
    apply andb_true_iff in Hw as [Hb%Z.eqb_eq Hs'%String.eqb_eq].
    exists e. unfold recent_event. cbn in Hc. split; [done|]. split; [done|]. split; [done|]. split; [done|].
    apply negb_true_iff, Z.ltb_ge. exact Hc.
  - apply sql_max_none in Em. destruct (event_group_head k d Hk) as (x & g & Eg & _). congruence.
Qed.

(** Every row of a subject has a surviving row of the same identity. *)
Lemma where_winner s events e : e ∈ events -> subject_where s e = true ->
  exists x, x ∈ event_qualify (List.filter (subject_where s) events) /\ event_ident x = event_ident e.
Proof.
  intros He Hs.
  destruct (qualify_winner event_ident smaller_event smaller_event_irrefl) with
    (l := List.filter (subject_where s) events) (r := e) as (x & Hw & Hi & _).
  - intros a b. apply sltb_asym.
  - intros a b c. apply sltb_negtrans.
  - by apply elem_of_list_filter.
  - by exists x.
Qed.

(** The four statements in order: a failure leaves a prefix of them, success all four. *)
Lemma prune_triple now retention w : 0 < retention ->
  let cutoff := UnixMicro (time_add now (- retention)) in
  let S1 := List.filter (recent_signal cutoff) (tb_signals w) in
  let E1 := List.filter (recent_event cutoff) (tb_events w) in
  triple (fun x => exists f, x = mkTables (tb_signals w) (tb_events w) (tb_latest w) (tb_events_latest w) f)
    (PruneDecoded now retention)
    (fun r x => pruned cutoff w x /\
       match r with
       | Ok n => n = deleted (recent_signal cutoff) (tb_signals w) + deleted (recent_event cutoff) (tb_events w) /\
                 exists f, x = mkTables S1 E1 (List.filter (based_signal cutoff S1) (tb_latest w))
                                 (List.filter (based_event cutoff E1) (tb_events_latest w)) f
       | Err _ => True
       end).
Proof.
  intros Hret cutoff S1 E1.
  set (t0 f := mkTables (tb_signals w) (tb_events w) (tb_latest w) (tb_events_latest w) f).
  set (t1 f := mkTables S1 (tb_events w) (tb_latest w) (tb_events_latest w) f).
  set (t2 f := mkTables S1 E1 (tb_latest w) (tb_events_latest w) f).
  set (t3 f := mkTables S1 E1 (List.filter (based_signal cutoff S1) (tb_latest w)) (tb_events_latest w) f).
  set (t4 f := mkTables S1 E1 (List.filter (based_signal cutoff S1) (tb_latest w))
                 (List.filter (based_event cutoff E1) (tb_events_latest w)) f).
  assert (Hp : forall f, pruned cutoff w (t0 f) /\ pruned cutoff w (t1 f) /\ pruned cutoff w (t2 f) /\
                         pruned cutoff w (t3 f) /\ pruned cutoff w (t4 f)) by (intros f; repeat split; constructor).
  assert (Hfail : forall (a b : list fate -> tables) x, (forall f, pruned cutoff w (a f)) -> (forall f, pruned cutoff w (b f)) ->
    (exists f, x = a f) \/ (exists f, x = b f) -> pruned cutoff w x /\ True)
    by (intros a b x Ha Hb [[f ->]|[f ->]]; split; auto).
  unfold PruneDecoded. destruct (Z.leb_spec retention 0) as [|_]; [lia|].
  change (UnixMicro (time_add now (- retention))) with cutoff. cbv zeta.
  eapply triple_bind; [apply (delete_stmt_spec t0 t1 (deleted (recent_signal cutoff) (tb_signals w))); intros; reflexivity
                      |intros e x; apply Hfail; apply Hp|].
  intros m1. apply triple_pure_pre. intros ->.
  eapply triple_bind; [apply (delete_stmt_spec t1 t2 (deleted (recent_event cutoff) (tb_events w))); intros; reflexivity
                      |intros e x; apply Hfail; apply Hp|].
  intros m2. apply triple_pure_pre. intros ->.
  eapply triple_bind; [apply (delete_stmt_spec t2 t3 0); intros; reflexivity|intros e x; apply Hfail; apply Hp|].
  intros m3. apply triple_pure_pre. intros _.
  eapply triple_bind; [apply (delete_stmt_spec t3 t4 0); intros; reflexivity|intros e x; apply Hfail; apply Hp|].
  intros m4. apply triple_ret. intros x [_ [f ->]]. split; [apply Hp|]. split; [done|]. by exists f.
Qed.

(** A rollup row the orphan sweep keeps has a base row among the recent ones. *)
Lemma kept_row_has_event cutoff t events s row : exact t events s ->
  row ∈ rows_of t s -> based_event cutoff (List.filter (recent_event cutoff) events) row = true ->
  exists e, e ∈ List.filter (recent_event cutoff) events /\ subject_where s e = true /\ er_Name e = el_name row.
Proof.
  intros Hx Hin Hbase. pose proof (proj1 (elem_of_list_filter _ _ _) Hin) as [_ [Es Eb]%of_subject_spec].
  unfold based_event in Hbase. apply orb_true_iff in Hbase as [Hb|Hb].
  - apply negb_true_iff, Z.ltb_ge in Hb.
    destruct (exact_row_based _ _ _ _ _ Hx Hin Hb) as (e & H1 & H2 & H3 & H4 & H5). exists e.
    split; [by apply elem_of_list_filter|]. split; [|done].
    unfold subject_where. by rewrite H2, H3, Z.eqb_refl, String.eqb_refl.
  - apply existsb_exists in Hb as (e & He & Hm). exists e. rewrite !andb_true_iff, Z.eqb_eq, !String.eqb_eq in Hm.
    destruct Hm as [[H1 H2] H3]. split; [by apply list_elem_of_In|]. split; [|done].
    unfold subject_where. by rewrite H1, H2, Es, Eb, Z.eqb_refl, String.eqb_refl.
Qed.

(** The rollup row of a recent event's name is one the orphan sweep keeps. *)
Lemma event_has_kept_row cutoff t events s e : exact t events s ->
  e ∈ List.filter (recent_event cutoff) events -> subject_where s e = true ->
  exists row, row ∈ rows_of t s /\ el_name row = er_Name e /\
              based_event cutoff (List.filter (recent_event cutoff) events) row = true.
Proof.
  intros Hx He Hw. pose proof (proj1 (elem_of_list_filter _ _ _) He) as [He0 _].
  destruct (where_winner s events e He0 Hw) as (x & Hxin & Hi). injection Hi as Ei1 _ Ei3 _.
  unfold subject_where in Hw. apply andb_true_iff in Hw as [Hb%Z.eqb_eq Hs%String.eqb_eq].
  set (d := event_qualify (List.filter (subject_where s) events)) in *.
  assert (Hk : (er_Subject x, er_Name x) ∈ event_keys d)
    by (unfold event_keys; rewrite elem_of_remove_dups; apply list_elem_of_fmap; by exists x).
  assert (Hrow : event_rollup_row d (er_Subject x, er_Name x) ∈ rows_of t s).
  { rewrite Hx. unfold select_of, eventRollupSelectSQL. by apply list_elem_of_fmap_2. }
  exists (event_rollup_row d (er_Subject x, er_Name x)). split; [exact Hrow|]. split; [done|].
  apply elem_of_list_filter in Hrow as [_ [Es Eb]%of_subject_spec].
  unfold based_event. apply orb_true_iff. right.
  apply existsb_exists. exists e. split; [by apply list_elem_of_In|].
  rewrite Es, Eb. cbn [el_name event_rollup_row snd]. rewrite Hb, Hs, Ei3, Z.eqb_refl, !String.eqb_refl. done.
Qed.

(** After the sweep the rollup of a subject names what its recent events name. *)
Lemma kept_names cutoff t events s name : exact t events s ->
  (exists row, row ∈ rows_of (List.filter (based_event cutoff (List.filter (recent_event cutoff) events)) t) s /\
               el_name row = name) <->
  name ∈ event_names (subject_events (List.filter (recent_event cutoff) events) s).
Proof.
  intros Hx. rewrite elem_of_event_names. rewrite subject_events_where. split.
  - intros (row & Hrow & <-). apply elem_of_list_filter in Hrow as [Hrow Hs].
    apply elem_of_list_filter in Hrow as [Hrow Hbase].
    destruct (kept_row_has_event cutoff t events s row Hx) as (e & He & Hw & Hn); [by apply elem_of_list_filter|done|].
    destruct (where_winner s _ e He Hw) as (x & Hxin & Hi).
    exists x. split; [exact Hxin|]. injection Hi as _ _ En _. congruence.
  - intros (e & He & <-). apply qualify_incl, elem_of_list_filter in He as [He Hw].
    destruct (event_has_kept_row cutoff t events s e Hx He Hw) as (row & Hrow & Hn & Hb).
    exists row. split; [|exact Hn]. apply elem_of_list_filter in Hrow as [Hrow Hs].
    apply elem_of_list_filter. split; [|exact Hs]. by apply elem_of_list_filter.
Qed.

(** C26. Retention. For a positive retention, a prune that returns has removed from
    the decoded tables exactly the rows older than the cutoff and counts them; one
    that fails has done a prefix of its four statements. Where the event rollup was
    exact, the names it serves for a subject after the prune are the names a scan
    serves: no row without events is left, and none with events is lost. *)
Theorem prune_decoded_spec now retention w : 0 < retention ->
  let cutoff := UnixMicro (time_add now (- retention)) in
  let '(r, w') := PruneDecoded now retention w in
  pruned cutoff w w' /\
  forall n, r = Ok n ->
    tb_signals w' = List.filter (recent_signal cutoff) (tb_signals w) /\
    tb_events w' = List.filter (recent_event cutoff) (tb_events w) /\
    n = deleted (recent_signal cutoff) (tb_signals w) + deleted (recent_event cutoff) (tb_events w) /\
    forall s, exact (tb_events_latest w) (tb_events w) s ->
    forall name, (exists row, row ∈ rows_of (tb_events_latest w') s /\ el_name row = name) <->
                 name ∈ event_names (subject_events (tb_events w') s).
Proof.
  intros Hret cutoff. pose proof (prune_triple now retention w Hret w) as H. cbv zeta in H.
  change (UnixMicro (time_add now (- retention))) with cutoff in H.
  destruct (PruneDecoded now retention w) as [r w'] eqn:E. cbn [fst snd] in H.
  destruct H as [Hp Hr]; [exists (tb_future w); by destruct w|]. split; [exact Hp|]. intros n ->.
  destruct Hr as [-> [f ->]]. split; [done|]. split; [done|]. split; [done|]. intros s Hx name.
  by apply kept_names.
Qed.

(** A dormant name goes with its rows; a name that is still reported stays. *)
Example prune_decoded_spec_witness :
  let events := [demo_event "behavior.harshBraking" "a" 10; demo_event "behavior.speeding" "d" 80] in
  let w := mkTables [] events [] (select_of "did:v" events) [] in
  0 < 50 * Second /\
  fst (PruneDecoded (100 * Second) (50 * Second) w) = Ok 1 /\
  forall row, row ∈ rows_of (tb_events_latest (snd (PruneDecoded (100 * Second) (50 * Second) w))) "did:v" ->
    el_name row = "behavior.speeding"%string.
Proof.
  intros events w. split; [done|].
  pose proof (prune_decoded_spec (100 * Second) (50 * Second) w eq_refl) as H. cbv zeta in H.
  destruct (PruneDecoded (100 * Second) (50 * Second) w) as [r w'] eqn:E. cbn [fst snd].
  assert (Er : r = Ok 1) by (change r with (fst (r, w')); rewrite <- E; vm_compute; reflexivity).
  split; [exact Er|]. intros row Hr. destruct H as [_ H].
  destruct (H 1 Er) as (_ & He & _ & Hn). specialize (Hn "did:v").
  assert (Hx : exact (tb_events_latest w) (tb_events w) "did:v") by (vm_compute; reflexivity).
  pose proof (proj1 (Hn Hx (el_name row)) (ex_intro _ row (conj Hr eq_refl))) as Hin. rewrite He in Hin.
  vm_compute in Hin. by apply list_elem_of_singleton in Hin.
Defined.
