(* ===== verification/Poison.v ===== *)
(** * internal/service/duck/poison.go: recovery of the query pool

    Every pooled connection reports the outcome of its queries to one
    [poisonRecovery]. An aborted catalog session burns the idle pool; an aborted
    session that was created after the burn ends the process. The observations of
    concurrent queries are serialized by the mutex: a run is a list of them in the
    order they take it. *)

From S2P Require Import Prelude.

(** ** Classification *)

(** [strings.Contains]. *)
Fixpoint Contains (s sub : string) : bool :=
  String.prefix sub s || match s with String _ rest => Contains rest sub | EmptyString => false end.

Definition isDatabaseInvalidated (err : option string) : bool :=
  match err with Some msg => Contains msg "database has been invalidated" | None => false end.

Definition isAbortedSession (err : option string) : bool :=
  match err with Some msg => Contains msg "transaction is aborted" | None => false end.

(** ** The recovery *)

Record poisonRecovery := mkRecovery { lastRecycle : Z; armed : bool }.

Definition newPoisonRecovery : poisonRecovery := mkRecovery zero_time false.

(** What an observation does to the process. *)
Inductive reaction := Unmoved | Recycled | FatalInvalidated | FatalSurvived.

Definition fatal (x : reaction) : bool := match x with FatalInvalidated | FatalSurvived => true | _ => false end.

Definition noteHealthy (p : poisonRecovery) (born : Z) : poisonRecovery :=
  if armed p && after born (lastRecycle p) then mkRecovery (lastRecycle p) false else p.

(** One query outcome of a connection created at [born], at the instant [now]. *)
Definition observe (p : poisonRecovery) (err : option string) (born now : Z) : poisonRecovery * reaction :=
  match err with
  | None => (noteHealthy p born, Unmoved)
  | Some _ =>
      if isDatabaseInvalidated err then (p, FatalInvalidated)
      else if negb (isAbortedSession err) then (p, Unmoved)
      else if armed p && after born (lastRecycle p) then (p, FatalSurvived)
      else (mkRecovery now true, Recycled)
  end.

(** [recoveringConnector.Connect]: an error at connect time; the process ends when
    the bootstrap meets a dead instance. *)
Definition Connect (err : option string) : reaction :=
  if isDatabaseInvalidated err then FatalInvalidated else Unmoved.

(** ** Runs *)

Record observation := mkObs { ob_err : option string; ob_born : Z; ob_now : Z }.

(** The reactions, up to the one that ends the process. *)
Fixpoint run (p : poisonRecovery) (l : list observation) : list reaction :=
  match l with
  | [] => []
  | o :: rest =>
      let '(p', x) := observe p (ob_err o) (ob_born o) (ob_now o) in
      x :: if fatal x then [] else run p' rest
  end.

Definition state_after (p : poisonRecovery) (l : list observation) : poisonRecovery :=
  fold_left (fun p o => (observe p (ob_err o) (ob_born o) (ob_now o)).1) l p.

(** ** When the process is ended *)

Definition aborted (o : observation) : bool := isAbortedSession (ob_err o) && negb (isDatabaseInvalidated (ob_err o)).
Definition healthy (o : observation) : bool := match ob_err o with None => true | Some _ => false end.

(** The pool was last burned at [t], and no session created since has succeeded. *)
Definition unhealed (l : list observation) (t : Z) : Prop :=
  exists l1 r l2, l = l1 ++ r :: l2 /\ aborted r = true /\ ob_now r = t /\
    Forall (fun x => aborted x = false /\ (healthy x = true -> ob_born x <= t)) l2.

Lemma unhealed_snoc l o t : unhealed (l ++ [o]) t <->
  (aborted o = true /\ ob_now o = t) \/
  (aborted o = false /\ (healthy o = true -> ob_born o <= t) /\ unhealed l t).
Proof.
  split.
  - intros (l1 & r & l2 & E & Hr & Ht & Hl). destruct l2 as [|x l2 _] using rev_ind.
    + apply app_inj_tail in E as [_ ->]. by left.
    + rewrite app_comm_cons, app_assoc in E. apply app_inj_tail in E as [-> ->].
      apply Forall_app in Hl as [Hl Hx]. apply Forall_cons in Hx as [[Ha Hh] _]. right. split; [done|]. split; [done|].
      by exists l1, r, l2.
  - intros [[Ha Ht]|(Ha & Hh & l1 & r & l2 & -> & Hr & Ht & Hl)].
    + exists l, o, []. by repeat split.
    + exists l1, r, (l2 ++ [o]). split; [by rewrite <- app_assoc|]. split; [done|]. split; [done|].
      apply Forall_app. split; [done|]. by apply Forall_cons.
Qed.

Lemma unhealed_nil t : ~ unhealed [] t.
Proof. intros (l1 & r & l2 & E & _). by destruct l1. Qed.

Definition survived (p : poisonRecovery) (l : list observation) : Prop := existsb fatal (run p l) = false.

Lemma run_snoc p l o : survived p l ->
  run p (l ++ [o]) = run p l ++ [(observe (state_after p l) (ob_err o) (ob_born o) (ob_now o)).2].
Proof.
  revert p. induction l as [|x l IH]; intros p Hs; cbn [app run state_after fold_left].
  { destruct (observe _ _ _ _) as [p' y]. by destruct (fatal y). }
  unfold survived in Hs. cbn [run] in Hs.
  destruct (observe p (ob_err x) (ob_born x) (ob_now x)) as [p' y]. cbn [fst]. destruct (fatal y) eqn:Ef; cbn [existsb app] in *.
  - by rewrite Ef in Hs.
  - f_equal. apply IH. unfold survived. by rewrite Ef in Hs.
Qed.

Lemma survived_snoc p l o : survived p (l ++ [o]) <->
  survived p l /\ fatal (observe (state_after p l) (ob_err o) (ob_born o) (ob_now o)).2 = false.
Proof.
  assert (Hpre : survived p (l ++ [o]) -> survived p l).
  { revert p. induction l as [|x l IH]; intros p; [done|]. unfold survived. cbn [app run].
    destruct (observe _ _ _ _) as [p' y]. destruct (fatal y) eqn:Ef; cbn [existsb]; rewrite Ef; [done|]. apply IH. }
  split.
  - intros H. pose proof (Hpre H) as Hl. split; [done|]. unfold survived in H. rewrite run_snoc in H by done.
    rewrite existsb_app in H. apply orb_false_iff in H as [_ H]. cbn in H. by rewrite orb_false_r in H.
  - intros [Hl Hf]. unfold survived. rewrite run_snoc, existsb_app, Hl by done. cbn. by rewrite Hf.
Qed.

Lemma recovery_snoc p l o : state_after p (l ++ [o]) = (observe (state_after p l) (ob_err o) (ob_born o) (ob_now o)).1.
Proof. unfold state_after. by rewrite fold_left_app. Qed.

(** The state holds the last burn exactly while nothing has healed it. *)
Lemma state_unhealed l t : survived newPoisonRecovery l ->
  armed (state_after newPoisonRecovery l) = true /\ lastRecycle (state_after newPoisonRecovery l) = t <-> unhealed l t.
Proof.
  revert t. induction l as [|o l IH] using rev_ind; intros t.
  { intros _. split; [by intros [H _]|]. by intros ?%unhealed_nil. }
  intros [Hl Hf]%survived_snoc. specialize (fun t => IH t Hl). rewrite recovery_snoc, unhealed_snoc, <- IH. clear IH.
  destruct (state_after newPoisonRecovery l) as [last arm]. unfold observe in *. unfold aborted, healthy.
  cbn [armed lastRecycle] in *. destruct (ob_err o) as [msg|] eqn:Eo.
  - destruct (isDatabaseInvalidated (Some msg)); [done|]. cbn [negb andb]. rewrite andb_true_r.
    destruct (isAbortedSession (Some msg)); cbn [negb andb] in *.
    + destruct (arm && after (ob_born o) last); [done|]. cbn. naive_solver.
    + cbn [fst armed lastRecycle]. naive_solver.
  - unfold noteHealthy, after. cbn. destruct arm; cbn; [|naive_solver].
    destruct (Z.ltb_spec last (ob_born o)); cbn; split; [|intros [[? _]|(_ & H1 & _ & <-)]| |];
      [by intros [? _]|done|specialize (H1 eq_refl); lia|..].
    + intros [_ <-]. right. split; [done|]. split; [lia|done].
    + intros [[? _]|(_ & _ & _ & <-)]; done.
Qed.

(** C14. The pool's process is ended for an aborted session exactly when recycling
    has been seen not to help. Whatever queries finish in whatever order, a pool that
    has survived so far ends on the next outcome for that reason if and only if the
    outcome is an aborted session created after the last burn of the idle pool, and no
    session created after that burn has succeeded in between; an invalidated instance
    ends it at once, and nothing else does. A straggler on an older session, or a
    collision after the pool has healed, never ends it. *)
Theorem recovery_exact l o :
  survived newPoisonRecovery l ->
  let x := last (run newPoisonRecovery (l ++ [o])) in
  (x = Some FatalSurvived <-> aborted o = true /\ exists t, unhealed l t /\ t < ob_born o) /\
  (x = Some FatalInvalidated <-> isDatabaseInvalidated (ob_err o) = true) /\
  (x = Some Recycled <-> aborted o = true /\ forall t, unhealed l t -> ob_born o <= t).
Proof.
  intros Hs. cbv zeta. rewrite run_snoc, last_snoc by done. pose proof (fun t => state_unhealed l t Hs) as Hu.
  setoid_rewrite <- Hu. clear Hu Hs. destruct (state_after newPoisonRecovery l) as [lr arm].
  unfold observe, aborted. cbn [armed lastRecycle]. destruct (ob_err o) as [msg|] eqn:Eo.
  2:{ cbn. naive_solver. }
  destruct (isDatabaseInvalidated (Some msg)) eqn:Ei.
  { rewrite andb_false_r. cbn. naive_solver. }
  rewrite andb_true_r. destruct (isAbortedSession (Some msg)); cbn [negb].
  2:{ cbn. naive_solver. }
  unfold after. destruct arm; cbn [andb snd].
  2:{ split_and!; split; try done; [by intros (_ & ? & [? _] & _)|]. intros _. split; [done|]. by intros t [? _]. }
  destruct (Z.ltb_spec lr (ob_born o)); cbn [snd]; split_and!; split; try done.
  - intros _. split; [done|]. by exists lr.
  - intros [_ Hall]. specialize (Hall lr (conj eq_refl eq_refl)). lia.
  - intros (_ & t & [_ <-] & Ht). lia.
  - intros _. split; [done|]. by intros t [_ <-].
Qed.

Definition abort_message : string := "TransactionContext Error: Current transaction is aborted (please ROLLBACK)".

(** The first burn does not help; a session created after it that fails ends the
    process, the straggler in between does not. *)
Example recovery_exact_witness :
  let l := [mkObs (Some abort_message) 0 10; mkObs (Some abort_message) 5 20; mkObs None 15 21] in
  survived newPoisonRecovery l /\
  last (run newPoisonRecovery (l ++ [mkObs (Some abort_message) 25 30])) = Some FatalSurvived.
Proof.
  intros l. assert (Hs : survived newPoisonRecovery l) by (vm_compute; reflexivity). split; [exact Hs|].
  apply (recovery_exact l (mkObs (Some abort_message) 25 30) Hs). split; [vm_compute; reflexivity|].
  exists 20. split; [|done]. exists [mkObs (Some abort_message) 0 10], (mkObs (Some abort_message) 5 20), [mkObs None 15 21].
  split; [done|]. split; [vm_compute; reflexivity|]. split; [done|].
  apply Forall_cons. split; [|by apply Forall_nil]. split; [vm_compute; reflexivity|]. cbn. lia.
Defined.

(** ** A dead instance under concurrent queries *)

(** [n] sessions, two alive at any time: session [i] is created at [10 i - 15] and
    found aborted at [10 i]. *)
Definition overlapping (i : nat) : observation :=
  mkObs (Some abort_message) (10 * Z.of_nat i - 15) (10 * Z.of_nat i).

Lemma overlapping_run n i p : (armed p = true -> ob_born (overlapping i) <= lastRecycle p) ->
  run p (map overlapping (seq i n)) = repeat Recycled n.
Proof.
  revert i p. induction n as [|n IH]; intros i p Hp; [done|]. cbn [seq map run repeat].
  assert (E : observe p (ob_err (overlapping i)) (ob_born (overlapping i)) (ob_now (overlapping i)) =
              (mkRecovery (ob_now (overlapping i)) true, Recycled)).
  { unfold observe. change (ob_err (overlapping i)) with (Some abort_message).
    replace (isDatabaseInvalidated (Some abort_message)) with false by (vm_compute; reflexivity).
    replace (isAbortedSession (Some abort_message)) with true by (vm_compute; reflexivity). cbn [negb].
    destruct (armed p); [|done]. cbn [andb]. unfold after. destruct (Z.ltb_spec (lastRecycle p) (ob_born (overlapping i))); [|done].
    specialize (Hp eq_refl). lia. }
  rewrite E. cbn [fatal]. f_equal. apply IH. intros _. cbn [lastRecycle overlapping ob_born ob_now]. lia.
Qed.

(** C35. Concurrent failures put the end off for ever. A straggler moves the instant
    of the last burn, so two queries in flight are stragglers to one another: in an
    instance where no session works, for every [n] there is a run of [n] aborted
    sessions, each of them (but the first two) created after an earlier burn that did
    not help it, in which the pool only burns and the process is never ended. With
    one query at a time the second aborted session ends it. *)
Theorem recovery_livelock n :
  let l := map overlapping (seq 0 n) in
  Forall (fun o => aborted o = true /\ ob_born o < ob_now o) l /\
  (forall i o, l !! (2 + i)%nat = Some o -> exists r, l !! i = Some r /\ ob_now r < ob_born o) /\
  run newPoisonRecovery l = repeat Recycled n /\
  (forall b0 n0 b1 n1, n0 < b1 ->
     run newPoisonRecovery [mkObs (Some abort_message) b0 n0; mkObs (Some abort_message) b1 n1] = [Recycled; FatalSurvived]).
Proof.
  assert (Hl : forall i o, map overlapping (seq 0 n) !! i = Some o -> o = overlapping i /\ (i < n)%nat).
  { intros i o H. rewrite list_lookup_fmap in H. apply fmap_Some in H as (j & Hj & ->). apply lookup_seq in Hj as [-> ?]. done. }
  cbv zeta. split_and!.
  - apply Forall_forall. intros o (i & -> & _)%list_elem_of_fmap. split; [vm_compute; reflexivity|]. cbn. lia.
  - intros i o [-> Hi]%Hl. exists (overlapping i). split; [|cbn; lia].
    rewrite list_lookup_fmap, lookup_seq_lt by lia. done.
  - apply overlapping_run. by intros ?.
  - intros b0 n0 b1 n1 H. cbn [run ob_err ob_born ob_now]. unfold observe.
    replace (isDatabaseInvalidated (Some abort_message)) with false by (vm_compute; reflexivity).
    replace (isAbortedSession (Some abort_message)) with true by (vm_compute; reflexivity).
    cbn [negb newPoisonRecovery armed andb fatal lastRecycle]. unfold after. apply Z.ltb_lt in H. by rewrite H.
Qed.
