(* ===== verification/RunLoop.v ===== *)
(** * internal/materializer/materializer.go: the decode loop

    [Run] polls the lake until its context is cancelled or it returns an error, on
    which the process restarts. A round runs one decode pass ([Ingest.v]) and the
    maintenance that is due. What the pass returns, the clock and the context are
    the environment's: a round takes them as a record. *)

From S2P Require Import Prelude Poison.

(** ** Config *)

Record Config := mkConfig {
  PollInterval : Z;
  Workers : Z;
  DecodedRetention : Z;
  BackfillMode : bool;
  RollupInterval : Z;
  RawTypesInterval : Z;
}.

Definition defaultPollInterval : Z := 15 * Second.
Definition defaultRawTypesInterval : Z := 15 * Minute.

Definition or_default (x d : Z) : Z := if x <=? 0 then d else x.

Definition withDefaults (gomaxprocs : Z) (c : Config) : Config :=
  let poll := or_default (PollInterval c) defaultPollInterval in
  mkConfig poll (or_default (Workers c) gomaxprocs) (DecodedRetention c) (BackfillMode c)
    (or_default (RollupInterval c) poll) (or_default (RawTypesInterval c) defaultRawTypesInterval).

(** ** failureTracker *)

Definition materializerMaxFailureWindow : Z := Hour.

(** [first], the zero time when no streak is running; the window is the constant. *)
Definition record (first : Z) (ok : bool) (now : Z) : Z * bool :=
  if ok then (zero_time, false)
  else if is_zero first then (now, false)
  else (first, materializerMaxFailureWindow <=? time_sub now first).

(** ** The loop *)

Record state := mkState {
  first : Z;
  triedSessionRecycle : bool;
  lastPrune : Z;
  lastRollup : Z;
  lastRawTypes : Z;
}.

Definition start (now : Z) : state := mkState zero_time false now now zero_time.

(** What a round meets: the result of the pass (the rows it processed), whether the
    context is cancelled when the pass fails and when the loop waits, and the clock at
    each of its reads. *)
Record round := mkRound {
  ro_result : result string Z;
  ro_cancelled : bool;
  ro_done : bool;
  ro_record : Z;
  ro_flush : Z;
  ro_prune : Z;
  ro_raw : Z;
}.

Inductive action := Recycle | Flush | Daily | Prune (retention : Z) | RawTypes.

Inductive stop := Cancelled | Invalidated | FailingTooLong | PoisonSurvived.

Inductive outcome := Continues | Stops (s : stop).

Definition pruneInterval : Z := Hour.

(** [maybe*]: at most once per interval. *)
Definition due (now last interval : Z) : bool := interval <=? time_sub now last.

Definition maybeFlushRollup (c : Config) (now : Z) (s : state) : state * list action :=
  if due now (lastRollup s) (RollupInterval c)
  then (mkState (first s) (triedSessionRecycle s) (lastPrune s) now (lastRawTypes s), [Flush]) else (s, []).

Definition maybePrune (c : Config) (now : Z) (s : state) : state * list action :=
  if (0 <? DecodedRetention c) && due now (lastPrune s) pruneInterval
  then (mkState (first s) (triedSessionRecycle s) now (lastRollup s) (lastRawTypes s), [Prune (DecodedRetention c)]) else (s, []).

Definition maybeRefreshRawTypes (c : Config) (now : Z) (s : state) : state * list action :=
  if due now (lastRawTypes s) (RawTypesInterval c)
  then (mkState (first s) (triedSessionRecycle s) (lastPrune s) (lastRollup s) now, [RawTypes]) else (s, []).

(** [recoverPoisonedSession]: the error is that of an aborted session. *)
Definition poisoned (msg : string) : bool :=
  Contains msg "transaction is aborted" || Contains msg "Current transaction is aborted".

Definition set_streak (f : Z) (tried : bool) (s : state) : state :=
  mkState f tried (lastPrune s) (lastRollup s) (lastRawTypes s).

(** The prune and the raw types refresh, at the end of every round. *)
Definition maintain (c : Config) (r : round) (s : state) : state * list action :=
  let '(s, a1) := maybePrune c (ro_prune r) s in
  let '(s, a2) := maybeRefreshRawTypes c (ro_raw r) s in
  (s, a1 ++ a2).

(** The wait for the ticker. *)
Definition wait (r : round) : outcome := if ro_done r then Stops Cancelled else Continues.

Definition failed_pass (c : Config) (r : round) (msg : string) (s : state) : state * list action * outcome :=
  if ro_cancelled r then (s, [], Stops Cancelled)
  else if isDatabaseInvalidated (Some msg) then (s, [], Stops Invalidated)
  else
    let '(f, tripped) := record (first s) false (ro_record r) in
    let s := set_streak f (triedSessionRecycle s) s in
    if tripped then (s, [], Stops FailingTooLong)
    else if poisoned msg && triedSessionRecycle s then (s, [Recycle], Stops PoisonSurvived)
    else
      let s := set_streak f (poisoned msg || triedSessionRecycle s) s in
      let '(s, a) := maintain c r s in
      (s, (if poisoned msg then [Recycle] else []) ++ a, wait r).

Definition good_pass (c : Config) (r : round) (processed : Z) (s : state) : state * list action * outcome :=
  let '(f, _) := record (first s) true (ro_record r) in
  let s := set_streak f false s in
  if 0 <? processed then
    let '(s, a) := if BackfillMode c then (s, []) else maybeFlushRollup c (ro_flush r) s in
    let '(s, b) := maintain c r s in
    (s, a ++ b, Continues)
  else
    let '(s, a) := maybeFlushRollup c (ro_flush r) s in
    let '(s, b) := maintain c r s in
    (s, a ++ [Daily] ++ b, wait r).

Definition step (c : Config) (s : state) (r : round) : state * list action * outcome :=
  match ro_result r with
  | Ok processed => good_pass c r processed s
  | Err msg => failed_pass c r msg s
  end.

(** The rounds until the loop returns. *)
Fixpoint Run (c : Config) (s : state) (l : list round) : list (list action * outcome) :=
  match l with
  | [] => []
  | r :: rest =>
      let '(s, a, o) := step c s r in
      (a, o) :: match o with Continues => Run c s rest | Stops _ => [] end
  end.

Definition state_after (c : Config) (s : state) (l : list round) : state :=
  fold_left (fun s r => (step c s r).1.1) l s.

(** ** What ends the loop *)

Definition message (r : round) : option string := match ro_result r with Err msg => Some msg | Ok _ => None end.
Definition poisoned_round (r : round) : bool := match message r with Some msg => poisoned msg | None => false end.

(** The failed rounds since the last success. *)
Definition streak (l : list round) : list round :=
  fold_left (fun acc r => match message r with Some _ => acc ++ [r] | None => [] end) l [].

Definition running (c : Config) (s : state) (l : list round) : Prop := Forall (fun x => x.2 = Continues) (Run c s l).

Lemma streak_snoc l r : streak (l ++ [r]) = match message r with Some _ => streak l ++ [r] | None => [] end.
Proof. unfold streak. by rewrite fold_left_app. Qed.

Lemma streak_head l r rest : streak l = r :: rest -> r ∈ l.
Proof.
  revert r rest. induction l as [|x l IH] using rev_ind; intros r rest; [done|]. rewrite streak_snoc.
  destruct (message x); [|done]. intros E. apply elem_of_app. destruct (streak l) as [|y ys]; cbn in E.
  - injection E as -> _. right. by left.
  - injection E as -> _. left. by eapply IH.
Qed.

Lemma state_snoc c s l r : state_after c s (l ++ [r]) = (step c (state_after c s l) r).1.1.
Proof. unfold state_after. by rewrite fold_left_app. Qed.

Lemma Run_snoc c s l r : running c s l ->
  Run c s (l ++ [r]) = Run c s l ++ [((step c (state_after c s l) r).1.2, (step c (state_after c s l) r).2)].
Proof.
  revert s. induction l as [|x l IH]; intros s Hr; cbn [app Run state_after fold_left].
  { destruct (step c s r) as [[s' a] o]. by destruct o. }
  unfold running in Hr. cbn [Run] in Hr. destruct (step c s x) as [[s' a] o]. cbn [fst] in *.
  apply Forall_cons in Hr as [Eo Hr]. cbn in Eo. subst o. cbn [app]. f_equal. by apply IH.
Qed.

Lemma running_snoc c s l r : running c s (l ++ [r]) -> running c s l /\ (step c (state_after c s l) r).2 = Continues.
Proof.
  assert (Hpre : running c s (l ++ [r]) -> running c s l).
  { revert s. induction l as [|x l IH]; intros s; [by intros _; apply Forall_nil|]. unfold running. cbn [app Run].
    destruct (step c s x) as [[s' a] o]. intros [Eo H]%Forall_cons. cbn in Eo. subst o. apply Forall_cons. split; [done|]. by apply IH. }
  intros H. pose proof (Hpre H) as Hl. split; [done|]. unfold running in H. rewrite Run_snoc in H by done.
  apply Forall_app in H as [_ H]. by apply Forall_cons in H as [? _].
Qed.

Lemma maintain_streak c r s : first (maintain c r s).1 = first s /\ triedSessionRecycle (maintain c r s).1 = triedSessionRecycle s.
Proof. unfold maintain, maybePrune, maybeRefreshRawTypes. destruct (_ && _); cbn; by destruct (due _ _ _). Qed.

Lemma flush_streak c t s : first (maybeFlushRollup c t s).1 = first s /\ triedSessionRecycle (maybeFlushRollup c t s).1 = triedSessionRecycle s.
Proof. unfold maybeFlushRollup. by destruct (due _ _ _). Qed.

Lemma good_streak c r n s : first (good_pass c r n s).1.1 = zero_time /\ triedSessionRecycle (good_pass c r n s).1.1 = false.
Proof.
  unfold good_pass. cbn [record]. set (s0 := set_streak zero_time false s).
  destruct (0 <? n).
  - destruct (BackfillMode c).
    + pose proof (maintain_streak c r s0) as H. by destruct (maintain c r s0).
    + pose proof (flush_streak c (ro_flush r) s0) as Hf. destruct (maybeFlushRollup _ _ s0) as [s1 a]. cbn [fst] in Hf.
      pose proof (maintain_streak c r s1) as H. destruct (maintain c r s1). cbn [fst] in *. destruct H as [-> ->]. exact Hf.
  - pose proof (flush_streak c (ro_flush r) s0) as Hf. destruct (maybeFlushRollup _ _ s0) as [s1 a]. cbn [fst] in Hf.
    pose proof (maintain_streak c r s1) as H. destruct (maintain c r s1). cbn [fst] in *. destruct H as [-> ->]. exact Hf.
Qed.

(** A failed round that does not stop records the failure and the recycle. *)
Lemma failed_streak c r msg s : (failed_pass c r msg s).2 = Continues ->
  first (failed_pass c r msg s).1.1 = (record (first s) false (ro_record r)).1 /\
  triedSessionRecycle (failed_pass c r msg s).1.1 = poisoned msg || triedSessionRecycle s.
Proof.
  unfold failed_pass. destruct (ro_cancelled r); [done|]. destruct (isDatabaseInvalidated _); [done|].
  destruct (record (first s) false (ro_record r)) as [f tripped]. destruct tripped; [done|].
  cbn [set_streak triedSessionRecycle]. destruct (poisoned msg && triedSessionRecycle s); [done|].
  match goal with |- context [maintain c r ?s'] => pose proof (maintain_streak c r s') as H; destruct (maintain c r s') end.
  cbn [fst snd] in *. intros _. exact H.
Qed.

(** The two flags are what the streak says. *)
Lemma state_streak c now l : Forall (fun r => is_zero (ro_record r) = false) l -> running c (start now) l ->
  let s := state_after c (start now) l in
  first s = match streak l with [] => zero_time | r :: _ => ro_record r end /\
  triedSessionRecycle s = existsb poisoned_round (streak l).
Proof.
  induction l as [|r l IH] using rev_ind; intros Hz Hr; [done|].
  apply Forall_app in Hz as [Hz [Hzr _]%Forall_cons]. apply running_snoc in Hr as [Hr Eo].
  destruct (IH Hz Hr) as [E1 E2]. clear IH. cbv zeta in *. rewrite state_snoc, streak_snoc.
  unfold step, message in *. destruct (ro_result r) as [n|msg] eqn:Er; [apply good_streak|].
  destruct (failed_streak _ _ _ _ Eo) as [-> ->]. rewrite E1, E2, existsb_app. split.
  - unfold record. destruct (streak l) as [|r0 rest] eqn:Es; [done|]. cbn [app].
    destruct (is_zero (ro_record r0)) eqn:E0; [|done].
    rewrite Forall_forall in Hz. by rewrite (Hz r0 (streak_head _ _ _ Es)) in E0.
  - cbn [existsb]. replace (poisoned_round r) with (poisoned msg) by (unfold poisoned_round, message; by rewrite Er).
    rewrite orb_false_r. apply orb_comm.
Qed.

(** The streak of failures up to this one has lasted the window. *)
Definition too_long (l : list round) (r : round) : Prop :=
  exists r0, head (streak l) = Some r0 /\ materializerMaxFailureWindow <= time_sub (ro_record r) (ro_record r0).

Definition failed_with (r : round) (msg : string) : Prop :=
  ro_result r = Err msg /\ ro_cancelled r = false /\ isDatabaseInvalidated (Some msg) = false.

(** What a round that does not stop has done: each maintenance step exactly when it
    is due, in a drain as well as when caught up. *)
Definition on_schedule (c : Config) (s : state) (r : round) (a : list action) : Prop :=
  (Prune (DecodedRetention c) ∈ a <-> 0 < DecodedRetention c /\ pruneInterval <= time_sub (ro_prune r) (lastPrune s)) /\
  (RawTypes ∈ a <-> RawTypesInterval c <= time_sub (ro_raw r) (lastRawTypes s)) /\
  (Daily ∈ a <-> exists n, ro_result r = Ok n /\ n <= 0) /\
  (Flush ∈ a <-> RollupInterval c <= time_sub (ro_flush r) (lastRollup s) /\
                 exists n, ro_result r = Ok n /\ (n <= 0 \/ BackfillMode c = false)).

Lemma maintain_actions c r s x :
  x ∈ (maintain c r s).2 <->
  (x = Prune (DecodedRetention c) /\ 0 < DecodedRetention c /\ pruneInterval <= time_sub (ro_prune r) (lastPrune s)) \/
  (x = RawTypes /\ RawTypesInterval c <= time_sub (ro_raw r) (lastRawTypes s)).
Proof.
  unfold maintain, maybePrune, maybeRefreshRawTypes, due.
  destruct (Z.ltb_spec 0 (DecodedRetention c)), (Z.leb_spec pruneInterval (time_sub (ro_prune r) (lastPrune s)));
    cbn; destruct (Z.leb_spec (RawTypesInterval c) (time_sub (ro_raw r) (lastRawTypes s))); cbn;
    rewrite ?elem_of_cons, ?elem_of_nil; intuition (try lia; try done).
Qed.

Lemma maintain_set_streak c r f t s : (maintain c r (set_streak f t s)).2 = (maintain c r s).2.
Proof. unfold maintain, maybePrune, maybeRefreshRawTypes. cbn. destruct (_ && _); cbn; by destruct (due _ _ _). Qed.

Lemma flush_maintain c t r s : (maintain c r (maybeFlushRollup c t s).1).2 = (maintain c r s).2.
Proof.
  unfold maybeFlushRollup. destruct (due t _ _); [|done].
  unfold maintain, maybePrune, maybeRefreshRawTypes. cbn. destruct (_ && _); cbn; by destruct (due _ _ _).
Qed.

Lemma flush_actions c t s x : x ∈ (maybeFlushRollup c t s).2 <-> x = Flush /\ RollupInterval c <= time_sub t (lastRollup s).
Proof.
  unfold maybeFlushRollup, due. destruct (Z.leb_spec (RollupInterval c) (time_sub t (lastRollup s))); cbn;
    rewrite ?elem_of_cons, ?elem_of_nil; intuition (try lia; try done).
Qed.

Lemma step_on_schedule c s r : (step c s r).2 = Continues -> on_schedule c s r (step c s r).1.2.
Proof.
  intros Hc. unfold on_schedule, step in *. destruct (ro_result r) as [n|msg].
  - unfold good_pass. cbn [record]. set (s0 := set_streak zero_time false s).
    assert (Hm : forall x, x ∈ (maintain c r s0).2 <-> _) by (intros x; unfold s0; rewrite maintain_set_streak; apply maintain_actions).
    assert (Hf : forall x, x ∈ (maybeFlushRollup c (ro_flush r) s0).2 <->
      x = Flush /\ RollupInterval c <= time_sub (ro_flush r) (lastRollup s)) by (intros x; exact (flush_actions c (ro_flush r) s0 x)).
    pose proof (flush_maintain c (ro_flush r) r s0) as Hfm.
    destruct (Z.ltb_spec 0 n) as [Hn|Hn]; [destruct (BackfillMode c)|].
    + destruct (maintain c r s0) as [s1 b]. cbn [fst snd app] in *. rewrite !Hm. split_and!; split; naive_solver lia.
    + destruct (maybeFlushRollup c (ro_flush r) s0) as [s1 a]. cbn [fst] in Hfm. rewrite <- Hfm in Hm.
      destruct (maintain c r s1) as [s2 b]. cbn [fst snd] in *. rewrite !elem_of_app, !Hm, !Hf. split_and!; split; naive_solver lia.
    + destruct (maybeFlushRollup c (ro_flush r) s0) as [s1 a]. cbn [fst] in Hfm. rewrite <- Hfm in Hm.
      destruct (maintain c r s1) as [s2 b]. cbn [fst snd] in *. rewrite !elem_of_app, !list_elem_of_singleton, !Hm, !Hf.
      split_and!; split; naive_solver lia.
  - unfold failed_pass in *. destruct (ro_cancelled r); [done|]. destruct (isDatabaseInvalidated _); [done|].
    destruct (record _ _ _) as [f []]; [done|]. cbn [set_streak triedSessionRecycle] in *.
    destruct (poisoned msg && triedSessionRecycle s); [done|].
    match goal with |- context [maintain c r ?s'] => assert (Hm : forall x, x ∈ (maintain c r s').2 <-> _)
      by (intros x; change s' with (set_streak f (poisoned msg || triedSessionRecycle s) s); rewrite maintain_set_streak; apply maintain_actions);
      destruct (maintain c r s') as [s1 b] end.
    cbn [fst snd] in *.
    assert (Hb : forall x, x ∈ (if poisoned msg then [Recycle] else []) ++ b <-> (poisoned msg = true /\ x = Recycle) \/ x ∈ b).
    { intros x. rewrite elem_of_app. destruct (poisoned msg); rewrite ?list_elem_of_singleton, ?elem_of_nil; naive_solver. }
    rewrite !Hb, !Hm. split_and!; split; naive_solver.
Qed.

Lemma good_outcome c r n s : (good_pass c r n s).2 = if 0 <? n then Continues else wait r.
Proof.
  unfold good_pass. cbn [record]. destruct (0 <? n).
  - destruct (BackfillMode c); [|destruct (maybeFlushRollup _ _ _) as [s1 a]]; by destruct (maintain _ _ _).
  - destruct (maybeFlushRollup _ _ _) as [s1 a]. by destruct (maintain _ _ _).
Qed.

Lemma failed_outcome c r msg s : (failed_pass c r msg s).2 =
  if ro_cancelled r then Stops Cancelled
  else if isDatabaseInvalidated (Some msg) then Stops Invalidated
  else if (record (first s) false (ro_record r)).2 then Stops FailingTooLong
  else if poisoned msg && triedSessionRecycle s then Stops PoisonSurvived else wait r.
Proof.
  unfold failed_pass. destruct (ro_cancelled r); [done|]. destruct (isDatabaseInvalidated _); [done|].
  destruct (record _ _ _) as [f []]; [done|]. cbn [set_streak triedSessionRecycle snd].
  destruct (poisoned msg && triedSessionRecycle s); [done|]. by destruct (maintain _ _ _).
Qed.

Lemma err_exists {A} (msg : string) (P : string -> Prop) :
  (exists m, @Err string A msg = Err m /\ P m) <-> P msg.
Proof. split; [by intros (m & [= <-] & H)|intros ?; by exists msg]. Qed.

Lemma err_exists' {A} (msg : string) (P Q : string -> Prop) :
  (exists m, (@Err string A msg = Err m /\ P m) /\ Q m) <-> P msg /\ Q msg.
Proof. split; [by intros (m & ([= <-] & H) & ?)|intros [? ?]; by exists msg]. Qed.

(** C13. The decode loop gives up exactly when it should, and its upkeep is never
    starved. After any rounds it has survived, the next round ends it with an error if
    and only if the pass failed because the embedded database is invalidated, or every
    pass since some failure at least an hour ago has failed, or the pass failed on a
    poisoned session after an earlier one in the same unbroken streak of failures was
    recycled; so an outage ends in a restart within the window, and an isolated
    failure never does. It returns without an error only when it is cancelled. A round
    it survives prunes and refreshes whenever that is due, be it draining, caught up or
    failing, and flushes the rollups and refreshes the daily rollup after a good pass
    on the terms of [on_schedule]. *)
Theorem loop_contract c now l r :
  Forall (fun r => is_zero (ro_record r) = false) l ->
  running c (start now) l ->
  let s := state_after c (start now) l in
  let o := last (map snd (Run c (start now) (l ++ [r]))) in
  (o = Some (Stops Invalidated) <->
     exists msg, ro_result r = Err msg /\ ro_cancelled r = false /\ isDatabaseInvalidated (Some msg) = true) /\
  (o = Some (Stops FailingTooLong) <-> (exists msg, failed_with r msg) /\ too_long l r) /\
  (o = Some (Stops PoisonSurvived) <->
     ~ too_long l r /\ exists msg, failed_with r msg /\ poisoned msg = true /\
       exists x, x ∈ streak l /\ poisoned_round x = true) /\
  (o = Some (Stops Cancelled) -> ro_cancelled r = true \/ ro_done r = true) /\
  (o = Some Continues -> on_schedule c s r (step c s r).1.2).
Proof.
  intros Hz Hr s o. unfold o. rewrite Run_snoc, map_app by done. cbn [map snd]. rewrite last_snoc. fold s. clear o.
  destruct (state_streak c now l Hz Hr) as [E1 E2]. fold s in E1, E2.
  assert (Hp : (exists x, x ∈ streak l /\ poisoned_round x = true) <-> triedSessionRecycle s = true).
  { rewrite E2, existsb_exists. by setoid_rewrite list_elem_of_In. }
  assert (Hlong : too_long l r <-> (record (first s) false (ro_record r)).2 = true).
  { rewrite E1. unfold too_long, record. destruct (streak l) as [|r0 rest] eqn:Es; cbn [head].
    - split; [by intros (x & [=] & _)|done].
    - assert (E0 : is_zero (ro_record r0) = false).
      { rewrite Forall_forall in Hz. by apply Hz, (streak_head _ _ rest). }
      rewrite E0. cbn [snd]. rewrite Z.leb_le. split; [by intros (x & [= <-] & H)|intros H; by exists r0]. }
  setoid_rewrite Hp. rewrite Hlong. clear Hp Hlong E1 E2 Hz Hr. split_and!; [| | | |intros [= Hc]; by apply step_on_schedule].
  all: unfold failed_with, step; destruct (ro_result r) as [n|msg]; [rewrite good_outcome|rewrite failed_outcome].
  1, 3, 5, 7: unfold wait; repeat case_match; naive_solver.
  all: rewrite ?err_exists, ?err_exists'; unfold wait;
    destruct (ro_cancelled r), (isDatabaseInvalidated (Some msg)), ((record (first s) false (ro_record r)).2),
      (poisoned msg), (triedSessionRecycle s), (ro_done r); cbn [andb]; intuition congruence.
Qed.

Definition demo_round (result : result string Z) (minutes : Z) : round :=
  let t := minutes * Minute in mkRound result false false t t t t.

(** Retention is on; a poisoned session, another error, and poison again. *)
Example loop_contract_witness :
  let c := mkConfig (15 * Second) 4 (24 * Hour) false Minute (15 * Minute) in
  let l := [demo_round (Ok 7) 90; demo_round (Err abort_message) 91; demo_round (Err "timeout") 92] in
  running c (start 0) l /\
  last (map snd (Run c (start 0) (l ++ [demo_round (Err abort_message) 93]))) = Some (Stops PoisonSurvived) /\
  on_schedule c (start 0) (demo_round (Ok 7) 90) [Flush; Prune (24 * Hour); RawTypes].
Proof.
  intros c l.
  assert (Hr : running c (start 0) l) by (apply (bool_decide_unpack _) || (repeat (apply Forall_cons; split; [vm_compute; reflexivity|]); by apply Forall_nil)).
  split; [exact Hr|]. split.
  - apply (loop_contract c 0 l (demo_round (Err abort_message) 93)); [|exact Hr|].
    + repeat (apply Forall_cons; split; [vm_compute; reflexivity|]). by apply Forall_nil.
    + split; [intros (r0 & E & H); vm_compute in E; injection E as <-; vm_compute in H; by apply H|].
      exists abort_message. split; [by split_and!; vm_compute|]. split; [vm_compute; reflexivity|].
      exists (demo_round (Err abort_message) 91). split; [left|vm_compute; reflexivity].
  - apply (loop_contract c 0 [] (demo_round (Ok 7) 90)); [by apply Forall_nil|by apply Forall_nil|vm_compute; reflexivity].
Defined.
