(* ===== verification/TypeRollup.v ===== *)
(** * The summary of a subject's event types (lake_fetch.go, raw_types.go)

    The rollup lake.raw_types_latest is rebuilt from lake.raw_events and serves
    the filters it can answer; the others, and an empty answer, scan. Right after
    a rebuild both routes give one answer. *)

From S2P Require Import Prelude Decode Blobcrypt Sql RawEvents LakeFetch.

(** ** Filters on the columns of the partition *)

Lemma servable_where {L : CloudEventLib} f r : typeSummaryRollupServable f = true ->
  whereClauseQ f r = subject_cond f (rr_subject r) && addIn (Types f) (rr_type r) && addNotIn (TypesNotIn f) (rr_type r).
Proof.
  unfold typeSummaryRollupServable, whereClauseQ, addIn, addNotIn, addIn_null, addNotIn_null. intros H.
  rewrite !andb_true_iff in H. destruct_and! H.
  repeat match goal with E : is_empty _ = true |- _ => rewrite E; clear E end.
  repeat match goal with E : is_zero _ = true |- _ => rewrite E; clear E end.
  cbn [orb]. by rewrite !andb_true_r.
Qed.

Lemma deduped_cond raw (c : RawRow -> bool) :
  (forall a b, row_identity a = row_identity b -> c a = c b) ->
  deduped_events raw c = List.filter c (deduped_events raw (fun _ => true)).
Proof.
  intros Hc. unfold deduped_events, rawEventDedupQualify. rewrite <- qualify_filter by (intros; by apply Hc).
  f_equal. rewrite list_filter_andb. apply List.filter_ext. intros r. by destruct (c r), (voidingClause raw r).
Qed.

Lemma identity_columns a b : row_identity a = row_identity b ->
  rr_subject a = rr_subject b /\ rr_type a = rr_type b.
Proof. unfold row_identity, header_key, columns. cbn. intros H. by injection H. Qed.

(** ** Groups of a table *)

Section groups.
Context {A K : Type} `{!EqDecision K} (g : A -> K).

Definition group (k : K) (l : list A) : list A := List.filter (fun a => bool_decide (g a = k)) l.

Lemma elem_of_group k l a : a ∈ group k l <-> a ∈ l /\ g a = k.
Proof. unfold group. by rewrite elem_of_list_filter, bool_decide_eq_true. Qed.

(** The sizes of groups add up to the rows they cover. *)
Lemma group_sizes l ks : NoDup ks ->
  foldr (fun k n => Z.of_nat (length (group k l)) + n) 0 ks =
  Z.of_nat (length (List.filter (fun a => bool_decide (g a ∈ ks)) l)).
Proof.
  induction 1 as [|k ks Hk Hnd IH]; cbn [foldr].
  { by rewrite list_filter_none. }
  rewrite IH, <- Nat2Z.inj_add, <- length_app. f_equal. apply Permutation_length.
  clear IH. induction l as [|a l IHl]; [done|]. unfold group in *. cbn [List.filter].
  destruct (decide (g a = k)) as [E|E].
  - rewrite (bool_decide_true (g a = k)) by done.
    rewrite (bool_decide_false (g a ∈ ks)) by congruence.
    rewrite (bool_decide_true (g a ∈ k :: ks)) by (rewrite E; left).
    cbn [app]. by constructor.
  - rewrite (bool_decide_false (g a = k)) by done.
    destruct (decide (g a ∈ ks)) as [E'|E'].
    + rewrite (bool_decide_true (g a ∈ ks)), (bool_decide_true (g a ∈ k :: ks)) by (done || by right).
      rewrite <- Permutation_middle. by constructor.
    + rewrite (bool_decide_false (g a ∈ ks)), (bool_decide_false (g a ∈ k :: ks)); [done| |done].
      by intros [?|?]%elem_of_cons.
Qed.
End groups.

Lemma omap_cons_eq {A B} (h : A -> option B) a (l : list A) :
  omap h (a :: l) = match h a with Some b => b :: omap h l | None => omap h l end.
Proof. done. Qed.

Lemma foldr_omap {A B} (h : A -> option B) (w : B -> Z) (v : A -> Z) l :
  (forall a, a ∈ l -> exists b, h a = Some b /\ w b = v a) ->
  foldr (fun b n => w b + n) 0 (omap h l) = foldr (fun a n => v a + n) 0 l.
Proof.
  induction l as [|a l IH]; intros H; [done|]. rewrite omap_cons_eq.
  destruct (H a (list_elem_of_here _ _)) as (b & -> & E). cbn [foldr]. rewrite E. rewrite IH; [done|].
  intros x Hx. apply H. by right.
Qed.

(** A condition on the rows of a view, as a condition on their keys. *)
Lemma filter_omap {A B} (h : A -> option B) (c : B -> bool) (c' : A -> bool) l :
  (forall a b, h a = Some b -> c b = c' a) ->
  List.filter c (omap h l) = omap h (List.filter c' l).
Proof.
  intros H. induction l as [|a l IH]; [done|]. rewrite omap_cons_eq. cbn [List.filter].
  destruct (h a) as [b|] eqn:E.
  - cbn [List.filter]. rewrite (H a b E). destruct (c' a); rewrite IH; [|done].
    by rewrite omap_cons_eq, E.
  - rewrite IH. destruct (c' a); [|done]. by rewrite omap_cons_eq, E.
Qed.

(** ** The rows of a rebuilt rollup *)

Section rollup.
Context (raw : list RawRow).
Let D := deduped_events raw (fun _ => true).
Let pair_of (r : RawRow) : string * string := (rr_subject r, rr_type r).

Lemma of_subject_type_group s t l : of_subject_type s t l = group pair_of (s, t) l.
Proof.
  apply List.filter_ext. intros r. unfold pair_of.
  destruct (String.eqb_spec (rr_subject r) s), (String.eqb_spec (rr_type r) t); symmetry;
    (apply bool_decide_true || apply bool_decide_false); cbn; congruence.
Qed.

(** The row of a pair that occurs. *)
Lemma type_row_some st : (exists r, r ∈ D /\ pair_of r = st) ->
  exists m x, type_row D st = Some (mkTypeRow st.1 st.2 (Z.of_nat (length (group pair_of st D))) m x) /\
    sql_min rr_time (group pair_of st D) = Some m /\ sql_max rr_time (group pair_of st D) = Some x.
Proof.
  intros (r & Hr & Hst). unfold type_row. destruct st as [s t]. cbn [fst snd].
  rewrite of_subject_type_group.
  assert (Hne : group pair_of (s, t) D <> []).
  { intros E. assert (H : r ∈ group pair_of (s, t) D) by by apply elem_of_group.
    rewrite E in H. by apply elem_of_nil in H. }
  destruct (sql_min rr_time _) as [m|] eqn:Em; [|by apply sql_min_none in Em].
  destruct (sql_max rr_time _) as [x|] eqn:Ex; [|by apply sql_max_none in Ex].
  by exists m, x.
Qed.

Lemma type_row_pair st row : type_row D st = Some row -> tr_subject row = st.1 /\ tr_type row = st.2.
Proof.
  unfold type_row. cbv zeta. repeat case_match; try discriminate. by intros [= <-].
Qed.

Definition pairs : list (string * string) := remove_dups (map pair_of D).

Lemma elem_of_pairs st : st ∈ pairs <-> exists r, r ∈ D /\ pair_of r = st.
Proof.
  unfold pairs. rewrite elem_of_remove_dups, list_elem_of_fmap. split; intros (r & H1 & H2); by exists r.
Qed.

(** The condition of a filter on the two columns, of a pair, of a row of either
    table. *)
Context (f : RawFilter).
Definition pair_cond (st : string * string) : bool :=
  subject_cond f st.1 && addIn (Types f) st.2 && addNotIn (TypesNotIn f) st.2.

Definition chosen (t : string) : list (string * string) :=
  List.filter (fun st => String.eqb st.2 t) (List.filter pair_cond pairs).

Lemma elem_of_chosen t st : st ∈ chosen t <-> (exists r, r ∈ D /\ pair_of r = st) /\ pair_cond st = true /\ st.2 = t.
Proof.
  unfold chosen. rewrite !elem_of_list_filter, elem_of_pairs, String.eqb_eq. tauto.
Qed.

Lemma chosen_NoDup t : NoDup (chosen t).
Proof.
  assert (H : forall (p : string * string -> bool) l, NoDup l -> NoDup (List.filter p l)).
  { intros p l. induction 1 as [|a l Ha Hl IH]; cbn [List.filter]; [constructor|].
    destruct (p a); [|done]. constructor; [|done]. by rewrite elem_of_list_filter; intros [? _]. }
  apply H, H, NoDup_remove_dups.
Qed.

(** The rows of the rollup a filter and a type leave. *)
Lemma rollup_rows_of t :
  List.filter (fun r => String.eqb (tr_type r) t)
    (List.filter (rollup_cond f) (RawTypesRollupSelect raw)) = omap (type_row D) (chosen t).
Proof.
  change (RawTypesRollupSelect raw) with (omap (type_row D) pairs).
  rewrite (filter_omap _ _ pair_cond), (filter_omap _ _ (fun st => String.eqb st.2 t)); [done|..];
    intros st row [Hs Ht]%type_row_pair; unfold rollup_cond, pair_cond; by rewrite ?Hs, Ht.
Qed.

(** The rows of the events they stand for. *)
Definition kept_events (t : string) : list RawRow :=
  of_type t (List.filter (fun r => pair_cond (pair_of r)) D).

Lemma elem_of_kept_events t r : r ∈ kept_events t <-> r ∈ D /\ pair_cond (pair_of r) = true /\ rr_type r = t.
Proof. unfold kept_events, of_type. rewrite !elem_of_list_filter, String.eqb_eq. tauto. Qed.

Lemma kept_events_chosen t : kept_events t = List.filter (fun r => bool_decide (pair_of r ∈ chosen t)) D.
Proof.
  unfold kept_events, of_type. rewrite list_filter_andb. apply filter_ext_in. intros r Hr.
  destruct (decide (pair_of r ∈ chosen t)) as [H|H].
  - rewrite bool_decide_true by done. apply elem_of_chosen in H as (_ & Hc & <-).
    rewrite Hc. cbn. by rewrite String.eqb_refl.
  - rewrite bool_decide_false by done. apply not_true_iff_false. intros [H1 H2]%andb_true_iff.
    apply H, elem_of_chosen. split; [by exists r; split; [apply list_elem_of_In|]|].
    split; [|by apply String.eqb_eq]; done.
Qed.

(** A chosen pair's row, and the events it stands for. *)
Lemma chosen_row t st : st ∈ chosen t ->
  exists m x, type_row D st = Some (mkTypeRow st.1 st.2 (Z.of_nat (length (group pair_of st D))) m x) /\
    (exists r, r ∈ kept_events t /\ rr_time r = m) /\ (exists r, r ∈ kept_events t /\ rr_time r = x) /\
    forall r, r ∈ kept_events t -> pair_of r = st -> m <= rr_time r <= x.
Proof.
  intros (Hin & Hc & Ht)%elem_of_chosen. destruct (type_row_some st Hin) as (m & x & E & Em & Ex).
  assert (Hk : forall r, r ∈ group pair_of st D -> r ∈ kept_events t).
  { intros r [Hr <-]%elem_of_group. by apply elem_of_kept_events. }
  apply sql_min_spec in Em as [(a & Ha & Eam) Hm]. apply sql_max_spec in Ex as [(b & Hb & Ebx) Hx].
  exists m, x. split; [exact E|]. split; [exists a; auto|]. split; [exists b; auto|].
  intros r (Hr & _ & _)%elem_of_kept_events Hp.
  assert (Hg : r ∈ group pair_of st D) by by apply elem_of_group. split; [by apply Hm|by apply Hx].
Qed.

Lemma kept_event_row t r : r ∈ kept_events t -> pair_of r ∈ chosen t.
Proof. intros (Hr & Hc & Ht)%elem_of_kept_events. apply elem_of_chosen. split; [by exists r|done]. Qed.

Lemma rollup_min t :
  sql_min tr_first_seen (omap (type_row D) (chosen t)) = sql_min rr_time (kept_events t).
Proof.
  destruct (sql_min rr_time (kept_events t)) as [m|] eqn:Em.
  - apply sql_min_spec in Em as [(a & Ha & <-) Hm]. apply sql_min_unique.
    + destruct (chosen_row t _ (kept_event_row t a Ha)) as (m & x & E & (b & Hb & <-) & _ & Hbd).
      eexists. split; [apply list_elem_of_omap; exists (pair_of a); split; [by apply kept_event_row|exact E]|].
      cbn. apply Z.le_antisymm; [by apply Hbd|by apply Hm].
    + intros row (st & Hst & E)%list_elem_of_omap.
      destruct (chosen_row t st Hst) as (m & x & E' & (b & Hb & <-) & _). rewrite E in E'.
      injection E' as ->. by apply Hm.
  - apply sql_min_none in Em. destruct (chosen t) as [|st l] eqn:Ec; [done|]. exfalso.
    destruct (chosen_row t st) as (m & x & _ & (b & Hb & _) & _); [rewrite Ec; left|].
    rewrite Em in Hb. by apply elem_of_nil in Hb.
Qed.

Lemma rollup_max t :
  sql_max tr_last_seen (omap (type_row D) (chosen t)) = sql_max rr_time (kept_events t).
Proof.
  destruct (sql_max rr_time (kept_events t)) as [m|] eqn:Em.
  - apply sql_max_spec in Em as [(a & Ha & <-) Hm]. apply sql_max_unique.
    + destruct (chosen_row t _ (kept_event_row t a Ha)) as (m & x & E & _ & (b & Hb & <-) & Hbd).
      eexists. split; [apply list_elem_of_omap; exists (pair_of a); split; [by apply kept_event_row|exact E]|].
      cbn. apply Z.le_antisymm; [by apply Hm|by apply Hbd].
    + intros row (st & Hst & E)%list_elem_of_omap.
      destruct (chosen_row t st Hst) as (m & x & E' & _ & (b & Hb & <-) & _). rewrite E in E'.
      injection E' as ->. by apply Hm.
  - apply sql_max_none in Em. destruct (chosen t) as [|st l] eqn:Ec; [done|]. exfalso.
    destruct (chosen_row t st) as (m & x & _ & (b & Hb & _) & _); [rewrite Ec; left|].
    rewrite Em in Hb. by apply elem_of_nil in Hb.
Qed.

Lemma rollup_count t :
  foldr (fun r n => tr_count r + n) 0 (omap (type_row D) (chosen t)) = Z.of_nat (length (kept_events t)).
Proof.
  rewrite (foldr_omap _ _ (fun st => Z.of_nat (length (group pair_of st D)))).
  - rewrite group_sizes by apply chosen_NoDup. by rewrite kept_events_chosen.
  - intros st Hst. destruct (chosen_row t st Hst) as (m & x & E & _). by eexists.
Qed.

Lemma rollup_summary_exact t :
  rollup_summary (List.filter (rollup_cond f) (RawTypesRollupSelect raw)) t =
  type_summary (List.filter (fun r => pair_cond (pair_of r)) D) t.
Proof.
  unfold rollup_summary, type_summary. rewrite rollup_rows_of. fold (kept_events t).
  by rewrite rollup_min, rollup_max, rollup_count.
Qed.

Lemma rollup_types :
  distinct_types (map tr_type (List.filter (rollup_cond f) (RawTypesRollupSelect raw))) =
  distinct_types (map rr_type (List.filter (fun r => pair_cond (pair_of r)) D)).
Proof.
  unfold distinct_types. apply order_by_perm_ext.
  - exact sleb_total.
  - exact sleb_trans.
  - exact sleb_antisym.
  - rewrite map_id. apply NoDup_remove_dups.
  - apply NoDup_Permutation; [apply NoDup_remove_dups..|]. intros t.
    rewrite !elem_of_remove_dups, !list_elem_of_fmap. split.
    + intros (row & -> & [Hrow Hc]%elem_of_list_filter).
      apply list_elem_of_omap in Hrow as (st & Hst & [Hs Ht]%type_row_pair).
      apply elem_of_pairs in Hst as (r & Hr & <-). exists r. split; [done|].
      apply elem_of_list_filter. split; [done|]. unfold rollup_cond in Hc. by rewrite Hs, Ht in Hc.
    + intros (r & -> & [Hr Hc]%elem_of_list_filter).
      assert (Hk : r ∈ kept_events (rr_type r)) by by apply elem_of_kept_events.
      destruct (chosen_row _ _ (kept_event_row _ r Hk)) as (m & x & E & _).
      eexists. split; [|apply elem_of_list_filter; split;
        [apply list_elem_of_omap; exists (pair_of r); split; [apply elem_of_pairs; by exists r|exact E]|exact Hc]].
      done.
Qed.
End rollup.

(** ** The two routes *)

Lemma omap_ext_eq {A B} (h k : A -> option B) (l : list A) : (forall a, h a = k a) -> omap h l = omap k l.
Proof. intros H. induction l as [|a l IH]; [done|]. by rewrite !omap_cons_eq, H, IH. Qed.

Lemma rollup_is_scan {L : CloudEventLib} raw f : typeSummaryRollupServable f = true ->
  let rows := List.filter (rollup_cond f) (RawTypesRollupSelect raw) in
  let deduped := deduped_events raw (whereClauseQ f) in
  omap (rollup_summary rows) (distinct_types (map tr_type rows)) =
  omap (type_summary deduped) (distinct_types (map rr_type deduped)).
Proof.
  intros Hf. cbv zeta. rewrite (deduped_cond raw (whereClauseQ f)).
  - rewrite (List.filter_ext _ _ (fun r => servable_where f r Hf)).
    rewrite (rollup_types raw f). apply omap_ext_eq. intros t. apply rollup_summary_exact.
  - intros a b Hid. destruct (identity_columns a b Hid) as [Hs Ht].
    by rewrite !servable_where, Hs, Ht by done.
Qed.

(** C11. Once [RecomputeRawTypesRollup] has rebuilt lake.raw_types_latest,
    [GetCloudEventTypeSummariesAdvanced] answers every filter as the live scan of
    lake.raw_events does, whichever route it takes: served by the rollup, falling
    back on an empty rollup answer, or scanning because the table was not known to
    exist or the filter names a column the rollup lacks. Counts are of distinct,
    unvoided events; a filter with an Or clause fails on either route. *)
Theorem type_rollup_exact {L : CloudEventLib} lk lk' check_fails ready opts :
  RecomputeRawTypesRollup (Ok true) None lk = (Ok tt, lk') ->
  (forall f, lk_fails lk "fetchTypeSummary" f = None /\ lk_fails lk "fetchTypeSummaryRollup" f = None) ->
  (GetCloudEventTypeSummariesAdvanced check_fails ready lk' opts).1 =
  result_bind (filterFromAdvanced opts) (getTypeSummariesScan lk).
Proof.
  unfold RecomputeRawTypesRollup. destruct (lk_raw_types lk); [|discriminate]. intros [= <-] Hok.
  unfold GetCloudEventTypeSummariesAdvanced. destruct (filterFromAdvanced opts) as [f|e]; [|done].
  cbn [result_bind]. destruct (typeSummaryRollupServable f) eqn:Hf; [|done].
  destruct (rawTypesRollupAvailable _ _ _) as [[] ready']; [|done].
  unfold getTypeSummariesRollup, getTypeSummariesScan. cbn [lk_raw_events lk_raw_types lk_fails].
  destruct (Hok f) as [-> ->]. rewrite (rollup_is_scan (lk_raw_events lk) f Hf).
  by destruct (omap _ _).
Qed.

Example type_rollup_exact_witness :
  (GetCloudEventTypeSummariesAdvanced false false
     (RecomputeRawTypesRollup (Ok true) None (demo_fetch_lake demo_events)).2 (Some (options_for "did:a"))).1 =
  Ok [mkTypeSummary "dimo.fingerprint" 1 (1000 * Second) (1000 * Second);
      mkTypeSummary "dimo.status" 2 (1000 * Second) (3000 * Second)].
Proof.
  rewrite (type_rollup_exact (demo_fetch_lake demo_events) _ false false (Some (options_for "did:a"))).
  - vm_compute. reflexivity.
  - reflexivity.
  - intros f. split; reflexivity.
Defined.
