(* ===== verification/PayloadBudget.v ===== *)
(** * Payloads resolved concurrently (ListCloudEventsFromIndexes, lake_fetch.go)

    One goroutine per event, at most [indexBlobConcurrency] at a time, under a
    shared byte counter. A step relation interleaves them in every way: what is
    held stays bounded, the call ends, and its outcome does not depend on the
    schedule. *)

From S2P Require Import Prelude Coordinates Blobcrypt Decode Blobs RawEvents LakeFetch.

(** ** The errgroup *)

(** Where a goroutine is: not launched, before the budget check, resolving, and
    the ways it returned. [Over] counted its payload past the budget. *)
Inductive task :=
  | Queued
  | Started
  | Resolving
  | Done (raw : FetchedEvent)
  | Over (raw : FetchedEvent)
  | Failed.

Record group_state := mkGroup {
  g_tasks : list task;
  (** [payloadBytes] *)
  g_bytes : Z;
  (** the first error the group recorded *)
  g_err : option fetch_error;
}.

Definition running (t : task) : Z := match t with Started | Resolving => 1 | _ => 0 end.
Definition resolving (t : task) : Z := match t with Resolving => 1 | _ => 0 end.
Definition counted (t : task) : Z := match t with Done raw | Over raw => payload_bytes raw | _ => 0 end.
(** The steps a task still has to take. *)
Definition left_of (t : task) : Z := match t with Queued => 3 | Started => 2 | Resolving => 1 | _ => 0 end.

Definition total (w : task -> Z) (l : list task) : Z := fold_right (fun t n => w t + n) 0 l.

Definition first_error (o : option fetch_error) (e : fetch_error) : option fetch_error :=
  match o with Some e' => Some e' | None => Some e end.

Section group.
Context {L : CloudEventLib} {A : AEAD} (getter : bool) (blobCipher : option Blobcrypt.Key).
Context (lk : Lake) (evs : list StoredEvent).

Definition resolved (i : nat) (r : result fetch_error FetchedEvent) : Prop :=
  exists ev, evs !! i = Some ev /\ resolvePayload getter blobCipher lk ev = r.

Inductive group_step : group_state -> group_state -> Prop :=
  (** [g.Go] blocks while the group is full and launches in order. *)
  | step_launch i l b e :
      l !! i = Some Queued -> (forall j, (j < i)%nat -> l !! j <> Some Queued) ->
      total running l < Z.of_nat indexBlobConcurrency ->
      group_step (mkGroup l b e) (mkGroup (<[i := Started]> l) b e)
  | step_over_before i l b e :
      l !! i = Some Started -> maxListPayloadBytes < b ->
      group_step (mkGroup l b e) (mkGroup (<[i := Failed]> l) b (first_error e EPayloadBudgetExceeded))
  | step_check i l b e :
      l !! i = Some Started -> b <= maxListPayloadBytes ->
      group_step (mkGroup l b e) (mkGroup (<[i := Resolving]> l) b e)
  | step_done i raw l b e :
      l !! i = Some Resolving -> resolved i (Ok raw) -> b + payload_bytes raw <= maxListPayloadBytes ->
      group_step (mkGroup l b e) (mkGroup (<[i := Done raw]> l) (b + payload_bytes raw) e)
  | step_over i raw l b e :
      l !! i = Some Resolving -> resolved i (Ok raw) -> maxListPayloadBytes < b + payload_bytes raw ->
      group_step (mkGroup l b e)
        (mkGroup (<[i := Over raw]> l) (b + payload_bytes raw) (first_error e EPayloadBudgetExceeded))
  | step_failed i err l b e :
      l !! i = Some Resolving -> resolved i (Err err) ->
      group_step (mkGroup l b e) (mkGroup (<[i := Failed]> l) b (first_error e err))
  (** The context is cancelled once an error is recorded. *)
  | step_cancelled i l b e err :
      l !! i = Some Resolving -> e = Some err ->
      group_step (mkGroup l b e) (mkGroup (<[i := Failed]> l) b e).

Definition group_init : group_state := mkGroup (replicate (length evs) Queued) 0 None.

(** Every goroutine has returned: [g.Wait] does. *)
Definition returned (s : group_state) : Prop := total left_of (g_tasks s) = 0.

Definition done_events (l : list task) : list FetchedEvent :=
  omap (fun t => match t with Done raw => Some raw | _ => None end) l.

Definition outcome (s : group_state) : result fetch_error (list FetchedEvent) :=
  match g_err s with Some e => Err e | None => Ok (done_events (g_tasks s)) end.

(** ** Sums over the tasks *)

Lemma total_cons w t l : total w (t :: l) = w t + total w l.
Proof. done. Qed.

Lemma total_insert w l i t t' : l !! i = Some t -> total w (<[i := t']> l) = total w l - w t + w t'.
Proof.
  revert i. induction l as [|x l IH]; intros i H; [done|]. destruct i as [|i]; cbn in *.
  - injection H as ->. lia.
  - change (w x + total w (<[i := t']> l) = w x + total w l - w t + w t'). rewrite (IH i H). lia.
Qed.

Lemma total_nonneg w l : (forall t, 0 <= w t) -> 0 <= total w l.
Proof. intros H. induction l as [|x l IH]; [done|]. rewrite !total_cons. specialize (H x). lia. Qed.

Lemma total_le w w' l : (forall t, w t <= w' t) -> total w l <= total w' l.
Proof. intros H. induction l as [|x l IH]; [done|]. rewrite !total_cons. specialize (H x). lia. Qed.

Lemma total_replicate w n t : total w (replicate n t) = Z.of_nat n * w t.
Proof. induction n as [|n IH]; [done|]. cbn [replicate total fold_right]. fold (total w (replicate n t)). rewrite IH. lia. Qed.

Lemma total_zero w l : (forall t, 0 <= w t) -> total w l = 0 -> Forall (fun t => w t = 0) l.
Proof.
  intros Hw. induction l as [|x l IH]; [constructor|]. rewrite total_cons. intros H.
  pose proof (Hw x). pose proof (total_nonneg w l Hw). constructor; [lia|]. apply IH. lia.
Qed.

Lemma total_positive w l : 0 < total w l -> exists i t, l !! i = Some t /\ 0 < w t.
Proof.
  induction l as [|x l IH]; [done|]. rewrite total_cons. intros H. destruct (Z.lt_ge_cases 0 (w x)) as [Hx|Hx].
  - by exists 0%nat, x.
  - destruct IH as (i & t & Hi & Ht); [lia|]. by exists (S i), t.
Qed.

Lemma payload_bytes_nonneg raw : 0 <= payload_bytes raw.
Proof. unfold payload_bytes. lia. Qed.

Lemma counted_nonneg t : 0 <= counted t.
Proof. destruct t; cbn; try lia; apply payload_bytes_nonneg. Qed.

Lemma left_nonneg t : 0 <= left_of t.
Proof. destruct t; cbn; lia. Qed.

(** ** The invariant *)

Definition payload_of (t : task) : option FetchedEvent :=
  match t with Done raw | Over raw => Some raw | _ => None end.

Definition clean (t : task) : bool := match t with Over _ | Failed => false | _ => true end.

Record group_inv (s : group_state) : Prop := {
  gi_length : length (g_tasks s) = length evs;
  gi_running : total running (g_tasks s) <= Z.of_nat indexBlobConcurrency;
  gi_bytes : g_bytes s = total counted (g_tasks s);
  gi_payload i t raw : g_tasks s !! i = Some t -> payload_of t = Some raw -> resolved i (Ok raw);
  gi_clean : g_err s = None ->
    g_bytes s <= maxListPayloadBytes /\ (forall i t, g_tasks s !! i = Some t -> clean t = true);
  gi_error e : g_err s = Some e ->
    e = EPayloadBudgetExceeded /\ maxListPayloadBytes < g_bytes s \/ exists i, resolved i (Err e);
}.

Lemma group_init_inv : group_inv group_init.
Proof.
  unfold group_init. split; cbn [g_tasks g_bytes g_err].
  - apply length_replicate.
  - rewrite total_replicate. cbn. lia.
  - rewrite total_replicate. cbn. lia.
  - intros i t raw [-> _]%lookup_replicate. done.
  - intros _. split; [by compute|]. by intros i t [-> _]%lookup_replicate.
  - done.
Qed.

(** What changing one task keeps. *)
Lemma insert_tasks_inv l b e i t t' b' e' :
  group_inv (mkGroup l b e) -> l !! i = Some t -> running t' <= running t \/ total running l < 8 /\ running t' <= 1 ->
  payload_of t = None -> b' = b + counted t' ->
  (forall raw, payload_of t' = Some raw -> resolved i (Ok raw)) ->
  (e' = None -> e = None /\ b' <= maxListPayloadBytes /\ clean t' = true) ->
  (forall x, e' = Some x -> e = Some x \/
     (x = EPayloadBudgetExceeded /\ maxListPayloadBytes < b' \/ exists j, resolved j (Err x))) ->
  group_inv (mkGroup (<[i := t']> l) b' e').
Proof.
  intros [H1 H2 H3 H4 H5 H6] Hi Hr Hp -> Hpay Hnone Hsome. cbn [g_tasks g_bytes g_err] in *.
  assert (Hc : counted t = 0) by (destruct t; done).
  assert (Hr0 : 0 <= running t) by (destruct t; cbn; lia).
  split; cbn [g_tasks g_bytes g_err].
  - by rewrite length_insert.
  - rewrite (total_insert running l i t t' Hi). change (Z.of_nat indexBlobConcurrency) with 8 in *. lia.
  - rewrite (total_insert counted l i t t' Hi). lia.
  - intros j u raw [(<- & <- & _)|(Hne & Hj)]%list_lookup_insert_Some Hu; [by apply Hpay|by eapply H4].
  - intros He. destruct (Hnone He) as (-> & Hb & Hcl). split; [done|]. destruct (H5 eq_refl) as [_ Hcl'].
    intros j u [(_ & <- & _)|(_ & Hj)]%list_lookup_insert_Some; [done|by eapply Hcl'].
  - intros x Hx. destruct (Hsome x Hx) as [->|?]; [|done]. destruct (H6 x eq_refl) as [[-> Hb]|?]; [|by right].
    left. split; [done|]. pose proof (counted_nonneg t'). lia.
Qed.

Lemma first_error_none o e : first_error o e <> None.
Proof. by destruct o. Qed.

Lemma first_error_some o e x : first_error o e = Some x -> o = Some x \/ x = e.
Proof. destruct o; intros [= <-]; auto. Qed.

Lemma group_step_inv s s' : group_step s s' -> group_inv s -> group_inv s'.
Proof.
  intros Hstep Hinv. pose proof (gi_clean _ Hinv) as Hcl.
  inversion Hstep; subst; cbn [g_tasks g_bytes g_err] in *;
    (eapply insert_tasks_inv; [exact Hinv|eassumption|..]; cbn [running payload_of counted clean]); try done;
    try lia; try (by left; lia);
    try (by intros ->; destruct (Hcl eq_refl));
    try (by intros ?%first_error_none);
    try (by intros x ?; left);
    try (by intros x [?| ->]%first_error_some; [by left|right; left; split; [done|lia]]);
    try (by intros ? [= <-]).
  - right. change (Z.of_nat indexBlobConcurrency) with 8 in *. lia.
  - intros x [?| ->]%first_error_some; [by left|right; right; by eexists].
Qed.

Lemma group_reachable_inv s : rtc group_step group_init s -> group_inv s.
Proof. intros H. eapply rtc_ind_r; [exact group_init_inv| |exact H]. intros. by eapply group_step_inv. Qed.

(** ** Memory *)

Definition held_inv (M : Z) (s : group_state) : Prop :=
  g_bytes s + M * total resolving (g_tasks s) <= maxListPayloadBytes + Z.of_nat indexBlobConcurrency * M.

Lemma held_step M s s' : 0 <= M -> (forall i raw, resolved i (Ok raw) -> payload_bytes raw <= M) ->
  group_step s s' -> group_inv s -> held_inv M s -> held_inv M s'.
Proof.
  unfold held_inv. intros HM Hpay Hstep Hinv Hs. pose proof (gi_running _ Hinv) as Hrun.
  pose proof (total_le resolving running) as Hle.
  inversion Hstep as [i l b e Hi ? ?|i l b e Hi ?|i l b e Hi ?|i raw l b e Hi Hr ?|i raw l b e Hi Hr ?|i err l b e Hi Hr
    |i l b e err Hi ?]; subst; cbn [g_tasks g_bytes] in *;
    rewrite (total_insert resolving l i _ _ Hi); cbn [resolving]; try specialize (Hpay i raw Hr); try nia.
  (* a task starts resolving: the counter is within the budget and one more runs *)
  specialize (Hle l ltac:(intros []; cbn; lia)). change (Z.of_nat indexBlobConcurrency) with 8 in *.
  assert (Hlt : total resolving l < total running l).
  { clear -Hi. revert i Hi. induction l as [|t l IH]; intros i Hi; [done|]. rewrite !total_cons.
    pose proof (total_le resolving running l ltac:(intros []; cbn; lia)).
    destruct i as [|i]; cbn in Hi; [injection Hi as ->; cbn [resolving running]; lia|].
    specialize (IH i Hi). destruct t; cbn [resolving running]; lia. }
  nia.
Qed.

(** ** The outcome *)

Definition payloads (out : list FetchedEvent) : Z := fold_right (fun raw n => payload_bytes raw + n) 0 out.

Lemma payloads_cons raw out : payloads (raw :: out) = payload_bytes raw + payloads out.
Proof. done. Qed.

Lemma payloads_nonneg out : 0 <= payloads out.
Proof. induction out as [|raw out IH]; [done|]. rewrite payloads_cons. pose proof (payload_bytes_nonneg raw). lia. Qed.

Definition resolves (ev : StoredEvent) (raw : FetchedEvent) : Prop :=
  resolvePayload getter blobCipher lk ev = Ok raw.

Lemma resolves_fun l o1 o2 : Forall2 resolves l o1 -> Forall2 resolves l o2 -> o1 = o2.
Proof.
  unfold resolves. intros H. revert o2. induction H as [|ev raw l o Hr _ IH]; intros o2 H2; inversion H2; subst; [done|].
  f_equal; [congruence|by apply IH].
Qed.

(** The sequential schedule returns exactly when everything resolves in budget. *)
Lemma resolve_seq_sound l b out : b <= maxListPayloadBytes ->
  resolve_seq getter blobCipher lk b l = Ok out ->
  Forall2 resolves l out /\ b + payloads out <= maxListPayloadBytes.
Proof.
  revert b out. induction l as [|ev l IH]; intros b out Hb; cbn [resolve_seq].
  { intros [= <-]. split; [constructor|cbn; lia]. }
  destruct (Z.ltb_spec maxListPayloadBytes b) as [?|_]; [done|].
  destruct (resolvePayload getter blobCipher lk ev) as [raw|e] eqn:E; cbn [result_bind]; [|done].
  destruct (Z.ltb_spec maxListPayloadBytes (b + payload_bytes raw)) as [?|Hle]; [done|].
  destruct (resolve_seq getter blobCipher lk (b + payload_bytes raw) l) as [out'|e'] eqn:Es; cbn [result_bind]; [|done].
  intros [= <-]. destruct (IH _ _ Hle Es) as [H1 H2]. rewrite payloads_cons. split; [by constructor|lia].
Qed.

Lemma resolve_seq_complete l b out : Forall2 resolves l out -> b + payloads out <= maxListPayloadBytes ->
  resolve_seq getter blobCipher lk b l = Ok out.
Proof.
  intros H. revert b. induction H as [|ev raw l out Hr _ IH]; intros b Hb; [done|]. cbn [resolve_seq].
  rewrite payloads_cons in Hb. pose proof (payload_bytes_nonneg raw). pose proof (payloads_nonneg out).
  destruct (Z.ltb_spec maxListPayloadBytes b) as [?|_]; [lia|]. unfold resolves in Hr. rewrite Hr. cbn [result_bind].
  destruct (Z.ltb_spec maxListPayloadBytes (b + payload_bytes raw)) as [?|_]; [lia|].
  by rewrite IH by lia.
Qed.

(** What a task may have counted is bounded by the payloads there are. *)
Lemma counted_bound es out l : Forall2 resolves es out -> length l = length es ->
  (forall i t raw ev, l !! i = Some t -> payload_of t = Some raw -> es !! i = Some ev -> resolves ev raw) ->
  total counted l <= payloads out.
Proof.
  intros H. revert l. induction H as [|ev raw es out Hr _ IH]; intros [|t l] Hlen Hl; try done.
  rewrite total_cons, payloads_cons.
  assert (total counted l <= payloads out).
  { apply IH; [by injection Hlen|]. intros i t' raw' ev' Hi. by apply (Hl (S i)). }
  assert (counted t <= payload_bytes raw); [|lia]. pose proof (payload_bytes_nonneg raw).
  destruct t; cbn [counted]; try lia; pose proof (Hl 0%nat _ _ ev eq_refl eq_refl eq_refl) as Hr';
    unfold resolves in *; rewrite Hr in Hr'; injection Hr' as <-; lia.
Qed.

Lemma inv_counted s out : group_inv s -> Forall2 resolves evs out -> g_bytes s <= payloads out.
Proof.
  intros [H1 _ H3 H4 _ _] Hr. rewrite H3. eapply counted_bound; [exact Hr|done|].
  intros i t raw ev Ht Hp He. destruct (H4 i t raw Ht Hp) as (ev' & He' & Hres). congruence.
Qed.

(** When everything resolves in budget no step records an error. *)
Lemma group_step_ok s s' out : Forall2 resolves evs out -> payloads out <= maxListPayloadBytes ->
  group_step s s' -> group_inv s -> g_err s = None -> g_err s' = None.
Proof.
  intros Hr Hb Hstep Hinv He. pose proof (inv_counted _ _ (group_step_inv _ _ Hstep Hinv) Hr) as Hc'.
  pose proof (inv_counted _ _ Hinv Hr) as Hc.
  inversion Hstep as [|? ? ? ? ? Hb1| | |? ? ? ? ? ? ? Hb1|i err l b e Hi (ev & Hev & Herr)|]; subst; cbn [g_err g_bytes] in *; try done; try lia.
  exfalso. destruct (Forall2_lookup_l _ _ _ _ _ Hr Hev) as (raw & _ & Hraw). unfold resolves in Hraw. congruence.
Qed.

Lemma group_run_ok s out : Forall2 resolves evs out -> payloads out <= maxListPayloadBytes ->
  rtc group_step group_init s -> g_err s = None.
Proof.
  intros Hr Hb H. cut (group_inv s /\ g_err s = None); [by intros [_ ?]|]. revert s H.
  apply (rtc_ind_r (fun s => group_inv s /\ g_err s = None)); [split; [exact group_init_inv|done]|].
  intros x y _ Hxy [Hi He]. split; [by eapply group_step_inv|by eapply group_step_ok].
Qed.

(** A returned group without an error holds every payload, in order. *)
Lemma returned_ok s : group_inv s -> returned s -> g_err s = None ->
  Forall2 resolves evs (done_events (g_tasks s)) /\ payloads (done_events (g_tasks s)) <= maxListPayloadBytes.
Proof.
  intros Hinv Hret He. destruct (gi_clean _ Hinv He) as [Hb Hcl].
  pose proof (total_zero left_of _ left_nonneg Hret) as Hleft.
  assert (Hdone : forall i t, g_tasks s !! i = Some t -> exists raw, t = Done raw /\ resolved i (Ok raw)).
  { intros i t Ht. rewrite Forall_lookup in Hleft. specialize (Hleft i t Ht). specialize (Hcl i t Ht).
    destruct t as [| | |raw| |]; try done. exists raw. split; [done|]. by eapply (gi_payload _ Hinv). }
  pose proof (gi_bytes _ Hinv) as Hby. pose proof (gi_length _ Hinv) as Hlen. rewrite Hby in Hb. clear -Hdone Hb Hlen.
  assert (H : forall es l, length l = length es ->
    (forall i t, l !! i = Some t -> exists raw, t = Done raw /\ exists ev, es !! i = Some ev /\ resolves ev raw) ->
    Forall2 resolves es (done_events l) /\ payloads (done_events l) = total counted l).
  { clear. induction es as [|ev es IH]; intros [|t l] Hlen Hd; [split; [constructor|done]|done..|].
    destruct (Hd 0%nat t eq_refl) as (raw & -> & ev' & [= <-] & Hr).
    destruct (IH l (eq_add_S _ _ Hlen) (fun i t Ht => Hd (S i) t Ht)) as [H1 H2].
    split; [by constructor|]. rewrite total_cons, <- H2. done. }
  destruct (H evs (g_tasks s) Hlen Hdone) as [H1 H2]. split; [exact H1|]. by rewrite H2.
Qed.

(** ** Progress *)

Lemma step_left s s' : group_step s s' -> total left_of (g_tasks s') < total left_of (g_tasks s).
Proof. intros []; cbn [g_tasks]; (erewrite (total_insert left_of) by eassumption); cbn [left_of]; lia. Qed.

Lemma first_queued (l : list task) : (exists i, l !! i = Some Queued) ->
  exists i, l !! i = Some Queued /\ forall j, (j < i)%nat -> l !! j <> Some Queued.
Proof.
  induction l as [|t l IH]; intros [i Hi]; [done|].
  assert (Ht : t = Queued \/ t <> Queued) by (destruct t; auto). destruct Ht as [->|Hne].
  - exists 0%nat. split; [done|]. lia.
  - destruct i as [|i]; [by injection Hi|]. destruct IH as (j & Hj & Hfirst); [by exists i|].
    exists (S j). split; [done|]. intros [|k] Hk; [cbn; congruence|]. apply Hfirst. lia.
Qed.

Lemma group_progress s : group_inv s -> 0 < total left_of (g_tasks s) -> exists s', group_step s s'.
Proof.
  destruct s as [l b e]. intros Hinv Hl. cbn [g_tasks] in *.
  destruct (Z.lt_ge_cases 0 (total running l)) as [Hr|Hr].
  - destruct (total_positive _ _ Hr) as (i & t & Hi & Ht). destruct t; cbn in Ht; try lia.
    + destruct (Z.lt_ge_cases maxListPayloadBytes b); eexists; [by eapply step_over_before|by eapply step_check].
    + destruct (lookup_lt_is_Some_2 evs i) as [ev Hev].
      { rewrite <- (gi_length _ Hinv). cbn. by eapply lookup_lt_Some. }
      destruct (resolvePayload getter blobCipher lk ev) as [raw|err] eqn:E.
      * destruct (Z.le_gt_cases (b + payload_bytes raw) maxListPayloadBytes); eexists;
          [eapply step_done|eapply step_over]; try done; by exists ev.
      * eexists. eapply step_failed; [exact Hi|by exists ev].
  - destruct (total_positive _ _ Hl) as (i & t & Hi & Ht).
    assert (t = Queued) as ->.
    { pose proof (total_zero running l ltac:(intros []; cbn; lia)) as Hz.
      assert (total running l = 0) as H0 by (pose proof (total_nonneg running l ltac:(intros []; cbn; lia)); lia).
      specialize (Hz H0). rewrite Forall_lookup in Hz. specialize (Hz i t Hi). by destruct t. }
    destruct (first_queued l) as (j & Hj & Hfirst); [by exists i|].
    eexists. eapply step_launch; [exact Hj|exact Hfirst|]. change (Z.of_nat indexBlobConcurrency) with 8. lia.
Qed.

Lemma run_length n s s' : nsteps group_step n s s' ->
  Z.of_nat n + total left_of (g_tasks s') <= total left_of (g_tasks s).
Proof.
  induction 1 as [s|n x y z Hxy _ IH]; [lia|]. pose proof (step_left _ _ Hxy). lia.
Qed.

Lemma group_run_held M s : 0 <= M -> (forall i raw, resolved i (Ok raw) -> payload_bytes raw <= M) ->
  rtc group_step group_init s -> held_inv M s.
Proof.
  intros HM Hpay H. cut (group_inv s /\ held_inv M s); [by intros [_ ?]|]. revert s H.
  apply (rtc_ind_r (fun s => group_inv s /\ held_inv M s)).
  - split; [exact group_init_inv|]. unfold held_inv, group_init. cbn [g_bytes g_tasks].
    rewrite total_replicate. cbn [resolving]. unfold maxListPayloadBytes. lia.
  - intros x y _ Hxy [Hi He]. split; [by eapply group_step_inv|by eapply held_step].
Qed.

(** C27. Whatever the interleaving of the goroutines that resolve a list's payloads,
    at most eight run at a time, and the bytes counted so far together with one
    largest payload for each download in flight stay within the 256 MiB budget
    plus eight largest payloads. *)
Theorem payload_memory_bound M s :
  0 <= M -> (forall i raw, resolved i (Ok raw) -> payload_bytes raw <= M) ->
  rtc group_step group_init s ->
  total running (g_tasks s) <= Z.of_nat indexBlobConcurrency /\
  g_bytes s + M * total resolving (g_tasks s) <= maxListPayloadBytes + Z.of_nat indexBlobConcurrency * M.
Proof.
  intros HM Hpay H. split; [by apply gi_running, group_reachable_inv|by apply group_run_held].
Qed.

(** C17. The concurrent resolution always ends, after at most three steps per
    event, in a state where every goroutine has returned; and then its outcome is
    that of resolving the events one after the other whenever either succeeds: the
    events with their payloads in the order asked for, exactly when every payload
    resolves and together they fit the budget. An error is the budget's or that of
    some event's payload, never the cancellation of a sibling. *)
Theorem payloads_any_schedule s n :
  nsteps group_step n group_init s ->
  Z.of_nat n <= 3 * Z.of_nat (length evs) /\
  (returned s \/ exists s', group_step s s') /\
  (returned s -> forall out, outcome s = Ok out <-> resolve_seq getter blobCipher lk 0 evs = Ok out) /\
  (forall e, outcome s = Err e -> e = EPayloadBudgetExceeded \/ exists i, resolved i (Err e)).
Proof.
  intros Hn. pose proof (run_length _ _ _ Hn) as Hlen.
  assert (Hrun : rtc group_step group_init s) by by eapply rtc_nsteps_2.
  pose proof (group_reachable_inv _ Hrun) as Hinv.
  pose proof (total_nonneg left_of (g_tasks s) left_nonneg) as Hnn.
  split_and!.
  - unfold group_init in Hlen. cbn [g_tasks] in Hlen. rewrite total_replicate in Hlen. cbn [left_of] in Hlen. lia.
  - destruct (Z.eq_dec (total left_of (g_tasks s)) 0) as [?|?]; [by left|right]. apply group_progress; [done|lia].
  - intros Hret out. unfold outcome. split.
    + destruct (g_err s) eqn:He; [done|]. intros [= <-].
      destruct (returned_ok _ Hinv Hret He) as [H1 H2]. apply resolve_seq_complete; [done|lia].
    + intros Hok. apply resolve_seq_sound in Hok as [H1 H2]; [|done].
      pose proof (group_run_ok s out H1 ltac:(lia) Hrun) as He. rewrite He. f_equal.
      destruct (returned_ok _ Hinv Hret He) as [H1' _]. by eapply resolves_fun.
  - intros e. unfold outcome. destruct (g_err s) as [e'|] eqn:He; [|done]. intros [= <-].
    destruct (gi_error _ Hinv _ He) as [[-> _]|?]; [by left|by right].
Qed.
End group.

(** ** Two inline events *)

Definition inline_events : list StoredEvent :=
  map scanStoredEvent [demo_event "did:a" 0 "t" "e1" "11" None; demo_event "did:a" 0 "t" "e2" "222" None].

Definition inline_raw : FetchedEvent :=
  mkFetched (se_Header (scanStoredEvent (demo_event "did:a" 0 "t" "e1" "11" None))) [49; 49] "".

(** The first is done, the second in flight. *)
Definition one_done : group_state := mkGroup [Done inline_raw; Resolving] (0 + payload_bytes inline_raw) None.

Lemma one_done_run : nsteps (group_step (A := toy_aead) true None (demo_fetch_lake []) inline_events) 5
  (group_init inline_events) one_done.
Proof.
  eapply nsteps_l; [apply (step_launch _ _ _ _ 0); [reflexivity|lia|reflexivity]|].
  eapply nsteps_l; [apply (step_launch _ _ _ _ 1); [reflexivity|intros [|j] Hj; [done|lia]|reflexivity]|].
  eapply nsteps_l; [apply (step_check _ _ _ _ 1); [reflexivity|by compute]|].
  eapply nsteps_l; [apply (step_check _ _ _ _ 0); [reflexivity|by compute]|].
  eapply nsteps_l; [|constructor].
  apply (step_done (A := toy_aead) true None (demo_fetch_lake []) inline_events 0 inline_raw [Resolving; Resolving] 0 None).
  - reflexivity.
  - eexists. split; reflexivity.
  - by compute.
Qed.

Lemma inline_small i raw :
  resolved (A := toy_aead) true None (demo_fetch_lake []) inline_events i (Ok raw) -> payload_bytes raw <= 3.
Proof. intros (ev & Hi & Hr). destruct i as [|[|i]]; [injection Hi as <-; by injection Hr as <-..|done]. Qed.

Example payload_memory_bound_witness :
  total running (g_tasks one_done) <= Z.of_nat indexBlobConcurrency /\
  g_bytes one_done + 3 * total resolving (g_tasks one_done) <=
    maxListPayloadBytes + Z.of_nat indexBlobConcurrency * 3.
Proof.
  apply (payload_memory_bound (A := toy_aead) true None (demo_fetch_lake []) inline_events 3 one_done).
  - lia.
  - exact inline_small.
  - eapply rtc_nsteps_2. exact one_done_run.
Defined.

Example payloads_any_schedule_witness :
  5 <= 3 * 2 /\
  (returned one_done \/
   exists s', group_step (A := toy_aead) true None (demo_fetch_lake []) inline_events one_done s').
Proof.
  pose proof (payloads_any_schedule (A := toy_aead) true None (demo_fetch_lake []) inline_events one_done 5
    one_done_run) as (H1 & H2 & _). split; [exact H1|exact H2].
Defined.
