(* ===== verification/FetchLookup.v ===== *)
(** * Looking events up by index (lake_fetch.go)

    [GetCloudEventFromIndex] reads the rows of one (subject, id);
    [ListCloudEventsFromIndexes] reads those of a whole list, grouped by subject
    and in batches of ids, and finds each index's row in what came back. Both are
    reduced to the newest-first list of visible rows. *)

From S2P Require Import Prelude Coordinates Blobcrypt Decode Blobs Sql RawEvents LakeFetch PayloadBudget.

(** ** The order of a search *)

Lemma key_ltb_irrefl a : key_ltb a a = false.
Proof. destruct a as [[t i] y]. cbn. rewrite Z.ltb_irrefl, !sltb_irrefl, andb_false_r. by rewrite andb_false_r. Qed.

Lemma key_ltb_true a b : key_ltb a b = true <->
  a.1.1 < b.1.1 \/ a.1.1 = b.1.1 /\ (String.ltb a.1.2 b.1.2 = true \/ a.1.2 = b.1.2 /\ String.ltb a.2 b.2 = true).
Proof.
  destruct a as [[t1 i1] y1], b as [[t2 i2] y2]. cbn.
  rewrite !orb_true_iff, !andb_true_iff, orb_true_iff, andb_true_iff, String.eqb_eq, Z.ltb_lt, Z.eqb_eq. done.
Qed.

Lemma key_ltb_total a b : key_ltb a b = true \/ a = b \/ key_ltb b a = true.
Proof.
  rewrite !key_ltb_true. destruct a as [[t1 i1] y1], b as [[t2 i2] y2]. cbn.
  destruct (Z.lt_total t1 t2) as [?|[->|?]]; [by left; left| |by right; right; left].
  destruct (sltb_total i1 i2) as [?|[->|?]]; [by left; right; eauto| |by right; right; right; eauto].
  destruct (sltb_total y1 y2) as [?|[->|?]]; [by left; right; eauto|by right; left|by right; right; right; eauto].
Qed.

Lemma key_ltb_trans a b c : key_ltb a b = true -> key_ltb b c = true -> key_ltb a c = true.
Proof.
  rewrite !key_ltb_true. intros [H1|[E1 [H1|[F1 H1]]]] [H2|[E2 [H2|[F2 H2]]]];
    try (left; lia); right; (split; [lia|]).
  - left. by eapply sltb_trans.
  - left. by rewrite <- F2.
  - left. by rewrite F1.
  - right. split; [congruence|]. by eapply sltb_trans.
Qed.

Lemma key_ltb_asym a b : key_ltb a b = true -> key_ltb b a = false.
Proof.
  intros H. apply not_true_iff_false. intros H'. pose proof (key_ltb_trans _ _ _ H H') as H''.
  by rewrite key_ltb_irrefl in H''.
Qed.

Lemma key_leb_total asc a b : key_leb asc a b = true \/ key_leb asc b a = true.
Proof.
  unfold key_leb. destruct (key_ltb_total a b) as [H|[->|H]].
  - rewrite (key_ltb_asym _ _ H). destruct asc; auto.
  - rewrite key_ltb_irrefl. destruct asc; auto.
  - rewrite (key_ltb_asym _ _ H). destruct asc; auto.
Qed.

Lemma key_leb_antisym asc a b : key_leb asc a b = true -> key_leb asc b a = true -> a = b.
Proof.
  unfold key_leb. intros H1 H2. destruct (key_ltb_total a b) as [H|[H|H]]; [|done|];
    destruct asc; by rewrite H in *.
Qed.

Lemma key_leb_trans asc a b c : key_leb asc a b = true -> key_leb asc b c = true -> key_leb asc a c = true.
Proof.
  intros H1 H2. destruct (key_leb_total asc a c) as [H|H]; [done|].
  assert (Hx : forall x y z, key_ltb x y = false -> key_ltb y z = false -> key_ltb x z = false).
  { intros x y z Hx Hy. apply not_true_iff_false. intros Hz.
    destruct (key_ltb_total y x) as [Hc|[->|Hc]]; [|congruence|congruence].
    by rewrite (key_ltb_trans _ _ _ Hc Hz) in Hy. }
  unfold key_leb in *. destruct asc; apply negb_true_iff; apply negb_true_iff in H1, H2.
  - by apply (Hx c b a).
  - by apply (Hx a b c).
Qed.

(** ** The visible rows, newest first *)

Definition visible_newest (raw : list RawRow) : list RawRow :=
  order_by sort_key (key_leb false) (rawEventDedupQualify (List.filter (voidingClause raw) raw)).

Definition row_pair (r : RawRow) : string * string := (rr_subject r, rr_id r).

(** The rows one (subject, id) expands to. *)
Definition expansion (raw : list RawRow) (p : string * string) : list RawRow :=
  List.filter (fun r => bool_decide (row_pair r = p)) (visible_newest raw).

Lemma visible_NoDup raw : NoDup (map row_identity (visible_newest raw)).
Proof.
  unfold visible_newest. rewrite order_by_perm. apply qualify_NoDup.
Qed.

Lemma visible_inj raw x y :
  x ∈ visible_newest raw -> y ∈ visible_newest raw -> row_identity x = row_identity y -> x = y.
Proof.
  unfold visible_newest. rewrite !order_by_perm. apply qualify_inj.
Qed.

Lemma identity_pair a b : row_identity a = row_identity b -> row_pair a = row_pair b.
Proof. unfold row_identity, header_key, columns, row_pair. cbn. congruence. Qed.

Lemma by_id_rows {L : CloudEventLib} raw s ids : s <> ""%string -> ids <> [] ->
  matching_rows raw (by_id_filter s ids) =
  List.filter (fun r => String.eqb (rr_subject r) s && mem (rr_id r) ids) (visible_newest raw).
Proof.
  intros Hs Hids. unfold matching_rows, visible_newest.
  rewrite <- order_by_filter by (apply key_leb_total || apply key_leb_trans || apply key_leb_antisym).
  f_equal. unfold rawEventDedupQualify. rewrite <- qualify_filter.
  - rewrite list_filter_andb. f_equal. apply List.filter_ext. intros r. cbn [ExcludeVoided by_id_filter negb orb].
    rewrite andb_comm. f_equal. unfold whereClauseQ, subject_cond, by_id_filter. cbn -[mem].
    destruct ids; [done|]. unfold addIn. cbn -[mem]. apply String.eqb_neq in Hs. rewrite Hs.
    cbn -[mem]. by rewrite !andb_true_r.
  - intros a b _ _ H. apply identity_pair in H. unfold row_pair in H. by injection H as -> ->.
Qed.

(** ** Finding a row *)

Lemma find_map {A B} (h : A -> B) (c : B -> bool) l :
  List.find c (map h l) = h <$> List.find (fun a => c (h a)) l.
Proof. induction l as [|a l IH]; [done|]. cbn. by destruct (c (h a)). Qed.

Lemma find_ext_in {A} (c c' : A -> bool) l : (forall a, a ∈ l -> c a = c' a) -> List.find c l = List.find c' l.
Proof.
  induction l as [|a l IH]; intros H; [done|]. cbn. rewrite (H a) by left.
  destruct (c' a); [done|]. apply IH. intros x Hx. apply H. by right.
Qed.

Lemma find_filter {A} (c d : A -> bool) l : List.find c (List.filter d l) = List.find (fun a => d a && c a) l.
Proof. induction l as [|a l IH]; [done|]. cbn. destruct (d a); cbn; [|done]. by rewrite IH. Qed.

Lemma find_head {A} (c : A -> bool) l : head (List.filter c l) = List.find c l.
Proof. induction l as [|a l IH]; [done|]. cbn. by destruct (c a). Qed.

Lemma find_none_intro {A} (c : A -> bool) l : (forall a, a ∈ l -> c a = false) -> List.find c l = None.
Proof.
  induction l as [|a l IH]; intros H; [done|]. cbn. rewrite (H a) by left.
  apply IH. intros x Hx. apply H. by right.
Qed.

Lemma filter_orb_length {A} (c d : A -> bool) l :
  (length (List.filter (fun a => c a || d a) l) <= length (List.filter c l) + length (List.filter d l))%nat.
Proof. induction l as [|a l IH]; [done|]. cbn. destruct (c a), (d a); cbn [orb length]; lia. Qed.

Lemma cut_nonempty {A} n fuel (l b : list A) : (0 < n)%nat -> b ∈ cut fuel n l -> b <> [].
Proof.
  intros Hn. revert l. induction fuel as [|fuel IH]; intros l; [by intros ?%elem_of_nil|].
  destruct l as [|x l]; [by intros ?%elem_of_nil|]. cbn [cut]. intros [->|H]%elem_of_cons; [|by eapply IH].
  destruct n; [lia|done].
Qed.

Lemma cut_incl {A} n fuel (l b : list A) x : b ∈ cut fuel n l -> x ∈ b -> x ∈ l.
Proof.
  revert l. induction fuel as [|fuel IH]; intros l; [by intros ?%elem_of_nil|].
  destruct l as [|y l]; [by intros ?%elem_of_nil|]. cbn [cut]. intros [->|H]%elem_of_cons Hx.
  - rewrite <- (take_drop n (y :: l)). apply elem_of_app. by left.
  - rewrite <- (take_drop n (y :: l)). apply elem_of_app. right. by eapply IH.
Qed.

Lemma mapM_cons_eq {A B} (f : A -> option B) a (l : list A) :
  mapM f (a :: l) =
  match f a with Some b => match mapM f l with Some k => Some (b :: k) | None => None end | None => None end.
Proof. done. Qed.

Lemma mapM_ext_in {A B} (f g : A -> option B) l : (forall a, a ∈ l -> f a = g a) -> mapM f l = mapM g l.
Proof.
  induction l as [|a l IH]; intros H; [done|]. rewrite !mapM_cons_eq, (H a) by left. rewrite IH; [done|].
  intros x Hx. apply H. by right.
Qed.

Lemma Forall2_lookup_l_elem {A B} (R : A -> B -> Prop) l k a : Forall2 R l k -> a ∈ l -> exists b, b ∈ k /\ R a b.
Proof.
  induction 1 as [|x y l k Hxy _ IH]; [by intros ?%elem_of_nil|].
  intros [->|H]%elem_of_cons; [exists y; split; [left|done]|].
  destruct (IH H) as (b & Hb & HR). exists b. split; [by right|done].
Qed.

(** At most one row matches: it is found under either condition. *)
Lemma find_orb {A} (c d1 d2 : A -> bool) l :
  (forall a b, a ∈ l -> b ∈ l -> c a = true -> c b = true -> a = b) ->
  List.find (fun a => (d1 a || d2 a) && c a) l =
  match List.find (fun a => d2 a && c a) l with Some a => Some a | None => List.find (fun a => d1 a && c a) l end.
Proof.
  induction l as [|a l IH]; intros Huniq; [done|]. cbn.
  destruct (c a) eqn:Ec; cycle 1.
  { rewrite !andb_false_r. apply IH. intros x y Hx Hy. apply Huniq; by right. }
  rewrite !andb_true_r. destruct (d2 a) eqn:E2; [by rewrite orb_true_r|]. rewrite orb_false_r.
  assert (Hnone : forall d, (forall b, b ∈ l -> c b = true -> d b = false) -> List.find (fun b => d b && c b) l = None).
  { intros d Hd. apply find_none_intro. intros b Hb.
    destruct (c b) eqn:Eb; [|apply andb_false_r]. by rewrite Hd. }
  assert (Hl : forall b, b ∈ l -> c b = true -> a = b) by (intros b Hb Hcb; apply Huniq; [left|by right|done..]).
  destruct (d1 a) eqn:E1.
  - rewrite Hnone; [done|]. intros b Hb Hcb. by rewrite <- (Hl b Hb Hcb).
  - rewrite !Hnone; [done|..]; intros b Hb Hcb; rewrite <- (Hl b Hb Hcb); by rewrite ?E1, ?E2.
Qed.

Section lookup.
Context {L : CloudEventLib} {W : CloudEventLaws L} {A : AEAD}.
Context (now : Z) (lk : Lake).
Context (no_fail : forall op f, lk_fails lk op f = None).
#[local] Set Default Proof Using "Type*".

Let V := visible_newest (lk_raw_events lk).

Definition with_name (k : string) (r : RawRow) : bool := String.eqb (Key (columns r)) k.

Lemma with_name_inj k x y : x ∈ V -> y ∈ V -> with_name k x = true -> with_name k y = true -> x = y.
Proof using W.
  unfold with_name. intros Hx Hy <-%String.eqb_eq Hk%String.eqb_eq. eapply visible_inj; [exact Hx|exact Hy|].
  symmetry. by apply key_identity.
Qed.

(** What the maps hold once the rows of the pairs [P] have been read. *)
Definition rows_read (P : string * string -> bool) (m : fetched_rows) : Prop :=
  (forall k, m.1 !! k = scanStoredEvent <$> List.find (fun r => P (row_pair r) && with_name k r) V) /\
  (forall p, m.2 !! p = scanStoredEvent <$> List.find (fun r => P (row_pair r) && bool_decide (row_pair r = p)) V).

Lemma rows_read_empty : rows_read (fun _ => false) (∅, ∅).
Proof using.
  assert (H : forall (c : RawRow -> bool) l, List.find (fun r => false && c r) l = None).
  { intros c l. by induction l. }
  split; intros k; rewrite H; apply lookup_empty.
Qed.

Lemma add_rows_found rows m k : NoDup (map (fun r => Key (columns r)) rows) ->
  (fold_left add_row (map scanStoredEvent rows) m).1 !! k =
  match List.find (with_name k) rows with Some r => Some (scanStoredEvent r) | None => m.1 !! k end.
Proof using W.
  revert m. induction rows as [|r rows IH]; intros m Hnd; [done|]. cbn [map fold_left].
  inversion Hnd as [|? ? Hr Hnd']; subst. rewrite IH by done. cbn [List.find]. unfold with_name at 2.
  unfold add_row. cbn [fst]. rewrite scan_key. destruct (String.eqb_spec (Key (columns r)) k) as [<-|Hne].
  - destruct (List.find _ rows) as [q|] eqn:E; [|apply lookup_insert_eq].
    apply List.find_some in E as [Hq Hk]. exfalso. apply Hr. unfold with_name in Hk.
    apply String.eqb_eq in Hk. rewrite <- Hk. apply (list_elem_of_fmap_2 (fun r => Key (columns r))).
    by apply list_elem_of_In.
  - by rewrite lookup_insert_ne.
Qed.

Lemma se_pair_scan r : se_pair (scanStoredEvent r) = row_pair r.
Proof using W. unfold se_pair. by rewrite scan_columns. Qed.

Lemma add_rows_pair rows m p :
  (fold_left add_row (map scanStoredEvent rows) m).2 !! p =
  match m.2 !! p with
  | Some e => Some e
  | None => scanStoredEvent <$> List.find (fun r => bool_decide (row_pair r = p)) rows
  end.
Proof using W.
  revert m. induction rows as [|r rows IH]; intros m; [cbn; by destruct (m.2 !! p)|]. cbn [map fold_left].
  rewrite IH. cbn [List.find]. unfold add_row. cbn [snd]. rewrite se_pair_scan.
  destruct (decide (row_pair r = p)) as [<-|Hne].
  - rewrite bool_decide_true by done. cbn. destruct (m.2 !! row_pair r) eqn:E; [by rewrite E|].
    by rewrite lookup_insert_eq.
  - rewrite bool_decide_false by done.
    destruct (m.2 !! row_pair r); [done|]. by rewrite lookup_insert_ne by done.
Qed.

(** *** One query *)

Definition in_batch (s : string) (ids : list string) (p : string * string) : bool :=
  String.eqb p.1 s && mem p.2 ids.

Definition within_budget (s : string) (ids : list string) : Prop :=
  forall i, i ∈ ids -> (length (expansion (lk_raw_events lk) (s, i)) <= 8)%nat.

Lemma batch_size s ids : within_budget s ids ->
  (length (List.filter (fun r => in_batch s ids (row_pair r)) V) <= length ids * 8)%nat.
Proof using.
  induction ids as [|i ids IH]; intros Hb.
  { rewrite list_filter_none; [done|]. intros r _. unfold in_batch. apply andb_false_r. }
  assert (H1 := Hb i (list_elem_of_here _ _)). specialize (IH ltac:(intros j Hj; apply Hb; by right)).
  rewrite (List.filter_ext _ (fun r => bool_decide (row_pair r = (s, i)) || in_batch s ids (row_pair r))).
  { pose proof (filter_orb_length (fun r => bool_decide (row_pair r = (s, i)))
      (fun r => in_batch s ids (row_pair r)) V). unfold expansion in H1. fold V in H1. cbn [length]. lia. }
  intros r. unfold in_batch, mem. cbn [existsb]. unfold row_pair. cbn [fst snd].
  destruct (String.eqb_spec (rr_subject r) s) as [Es|Es], (String.eqb_spec (rr_id r) i) as [Ei|Ei];
    cbn [andb orb]; case_bool_decide; cbn [orb]; congruence.
Qed.

Lemma by_id_query s ids limit op : s <> ""%string -> ids <> [] ->
  (length (List.filter (fun r => in_batch s ids (row_pair r)) V) <= Z.to_nat limit)%nat ->
  queryLakeRaw now lk (by_id_filter s ids) limit op =
  Ok (map scanStoredEvent (List.filter (fun r => in_batch s ids (row_pair r)) V)).
Proof using no_fail.
  intros Hs Hids Hlen. unfold queryLakeRaw, queryLakeRawCols.
  replace (default_window now (by_id_filter s ids)) with (by_id_filter s ids) by
    (destruct ids; [done|]; unfold default_window; cbn; by rewrite andb_false_r).
  rewrite no_fail, by_id_rows by done. do 2 f_equal. apply take_ge. exact Hlen.
Qed.

(** *** The maps after the batches *)

Lemma rows_read_ext P Q m : (forall p, P p = Q p) -> rows_read P m -> rows_read Q m.
Proof using.
  intros H [H1 H2]. split; intros k; rewrite ?H1, ?H2; f_equal; apply find_ext_in; intros r _; by rewrite H.
Qed.

Lemma names_NoDup (c : RawRow -> bool) : NoDup (map (fun r => Key (columns r)) (List.filter c V)).
Proof using W.
  assert (Hnd : NoDup (map row_identity (List.filter c V))).
  { pose proof (visible_NoDup (lk_raw_events lk)) as H. fold V in H. revert H. generalize V as l.
    induction l as [|r l IH]; cbn [map List.filter]; [done|]. inversion 1; subst.
    destruct (c r); [|by apply IH]. cbn [map]. constructor; [|by apply IH].
    intros (q & E & Hq)%list_elem_of_fmap. apply H2. rewrite E. apply list_elem_of_fmap_2.
    by apply elem_of_list_filter in Hq as [Hq _]. }
  revert Hnd. generalize (List.filter c V) as l. induction l as [|r l IH]; cbn [map]; [constructor|].
  inversion 1; subst. constructor; [|by apply IH]. intros (q & E & Hq)%list_elem_of_fmap. apply H1.
  apply key_identity in E. change (header_key (columns q)) with (row_identity q) in E. rewrite E.
  by apply list_elem_of_fmap_2.
Qed.

Lemma rows_read_batch P s ids m : rows_read P m ->
  rows_read (fun p => P p || in_batch s ids p)
    (fold_left add_row (map scanStoredEvent (List.filter (fun r => in_batch s ids (row_pair r)) V)) m).
Proof using W.
  intros [H1 H2]. split; intros k.
  - rewrite add_rows_found by apply names_NoDup. rewrite find_filter, H1.
    rewrite find_orb; [by destruct (List.find _ V)|]. intros a b. by apply with_name_inj.
  - rewrite add_rows_pair, H2, find_filter.
    transitivity (scanStoredEvent <$> List.find (fun r => (in_batch s ids k || P k) && bool_decide (row_pair r = k)) V).
    + rewrite (find_ext_in (fun r => P (row_pair r) && _) (fun r => P k && bool_decide (row_pair r = k))),
        (find_ext_in (fun r => in_batch s ids (row_pair r) && _) (fun r => in_batch s ids k && bool_decide (row_pair r = k)));
        [|intros r _; case_bool_decide as E; [by rewrite E|by rewrite !andb_false_r]..].
      destruct (P k); cbn [andb orb].
      * rewrite orb_true_r. cbn [andb]. destruct (List.find _ V) eqn:E; [done|].
        destruct (in_batch s ids k); cbn [andb]; [by rewrite E|by rewrite find_none_intro].
      * rewrite find_none_intro by done. cbn. by rewrite orb_false_r.
    + f_equal. apply find_ext_in. intros r _. case_bool_decide as E; [by rewrite E, orb_comm|by rewrite !andb_false_r].
Qed.

Lemma batch_loop_reads s batches P m : s <> ""%string ->
  Forall (fun b => b <> [] /\ within_budget s b) batches -> rows_read P m ->
  exists m', batch_loop now lk s batches m = Ok m' /\
             rows_read (fun p => P p || in_batch s (concat batches) p) m'.
Proof using no_fail W.
  intros Hs Hb. revert P m. induction Hb as [|b batches [Hne Hbud] _ IH]; intros P m Hm.
  { exists m. split; [done|]. eapply rows_read_ext; [|exact Hm]. intros p.
    cbn. unfold in_batch. cbn. by rewrite andb_false_r, orb_false_r. }
  cbn [batch_loop]. rewrite by_id_query; [|done..|].
  2: { pose proof (batch_size s b Hbud). unfold idRowExpansion. lia. }
  cbn [result_bind]. destruct (IH _ _ (rows_read_batch P s b m Hm)) as (m' & E & Hm'). exists m'.
  split; [exact E|]. eapply rows_read_ext; [|exact Hm']. intros p. unfold in_batch, mem. cbn [concat].
  rewrite existsb_app. destruct (P p), (String.eqb p.1 s); cbn; done.
Qed.

Definition ids_of (m : gmap string (list string)) (s : string) : list string := from_option id [] (m !! s).

Lemma subjects_loop_reads ids subjects P m :
  Forall (fun s => s <> ""%string /\ within_budget s (ids_of ids s)) subjects -> rows_read P m ->
  exists m', subjects_loop now lk ids subjects m = Ok m' /\
             rows_read (fun p => P p || existsb (fun s => in_batch s (ids_of ids s) p) subjects) m'.
Proof using no_fail W.
  intros Hb. revert P m. induction Hb as [|s subjects [Hs Hbud] _ IH]; intros P m Hm.
  { exists m. split; [done|]. eapply rows_read_ext; [|exact Hm]. intros p. cbn. by rewrite orb_false_r. }
  cbn [subjects_loop]. fold (ids_of ids s).
  destruct (batch_loop_reads s (id_batches (ids_of ids s)) P m Hs) as (m1 & -> & H1); [|done|].
  { apply Forall_forall. intros b Hbin. unfold id_batches in Hbin. split.
    - eapply cut_nonempty, Hbin. by compute; lia.
    - intros i Hi. apply Hbud. eapply cut_incl; [exact Hbin|exact Hi]. }
  unfold id_batches in H1. rewrite concat_cut in H1 by ((by compute; lia) || done).
  cbn [result_bind]. destruct (IH _ _ H1) as (m' & E & Hm'). exists m'. split; [exact E|].
  eapply rows_read_ext; [|exact Hm']. intros p. cbn [existsb]. by rewrite orb_assoc.
Qed.

(** *** The ids of each subject *)

Lemma group_loop_ids indexes requested m :
  (forall s i, i ∈ ids_of m s <-> (s, i) ∈ requested) ->
  forall s i, i ∈ ids_of (group_loop requested m indexes) s <->
    (s, i) ∈ requested \/ (s, i) ∈ map index_pair indexes.
Proof using.
  revert requested m. induction indexes as [|ix indexes IH]; intros requested m Hm s i; cbn [group_loop map].
  { rewrite Hm, elem_of_nil. tauto. }
  rewrite elem_of_cons. case_bool_decide as Hin.
  { rewrite IH by done. split; [tauto|]. intros [?|[E|?]]; [by left|left; by rewrite E|by right]. }
  rewrite IH; [rewrite elem_of_union, elem_of_singleton; tauto|].
  intros s' i'. unfold ids_of. destruct (index_pair ix) as [s0 i0]. cbn [fst snd].
  rewrite elem_of_union, elem_of_singleton. destruct (decide (s0 = s')) as [<-|Hne].
  - rewrite lookup_insert_eq. cbn. rewrite elem_of_app, list_elem_of_singleton.
    fold (ids_of m s0). rewrite Hm. split; [intros [?| ->]; auto|intros [[= ->]|?]; auto].
  - rewrite lookup_insert_ne by done. fold (ids_of m s'). rewrite Hm. split; [auto|intros [[= -> ->]|?]; done].
Qed.

Lemma group_ids_spec indexes s i : i ∈ ids_of (group_ids indexes) s <-> (s, i) ∈ map index_pair indexes.
Proof using.
  unfold group_ids. rewrite group_loop_ids.
  - rewrite elem_of_empty. tauto.
  - intros s' i'. unfold ids_of. rewrite lookup_empty. cbn. rewrite elem_of_nil, elem_of_empty. tauto.
Qed.

Lemma group_loop_nonempty indexes requested m :
  (forall s l, m !! s = Some l -> l <> []) ->
  forall s l, group_loop requested m indexes !! s = Some l -> l <> [].
Proof using.
  revert requested m. induction indexes as [|ix indexes IH]; intros requested m Hm s l; cbn [group_loop]; [apply Hm|].
  case_bool_decide; [by apply IH|]. apply IH. intros s' l'. destruct (decide ((index_pair ix).1 = s')) as [<-|Hne].
  - rewrite lookup_insert_eq. intros [= <-] [_ E]%app_eq_nil. done.
  - rewrite lookup_insert_ne by done. apply Hm.
Qed.

Lemma group_ids_nonempty indexes s : s ∈ dom (group_ids indexes) -> ids_of (group_ids indexes) s <> [].
Proof using.
  intros [l Hl]%elem_of_dom. unfold ids_of. rewrite Hl. cbn. revert Hl.
  apply (group_loop_nonempty indexes ∅ ∅). intros s' l'. by rewrite lookup_empty.
Qed.

(** *** Every index finds its row *)

Definition found_for (m : fetched_rows) (ix : Index) : option StoredEvent :=
  match m.1 !! index_key ix with Some ev => Some ev | None => m.2 !! index_pair ix end.

Lemma order_matched_found m indexes :
  order_matched m indexes =
  match mapM (found_for m) indexes with Some evs => Ok evs | None => Err EEventNotFound end.
Proof using.
  induction indexes as [|ix indexes IH]; [done|]. rewrite mapM_cons_eq. cbn [order_matched].
  rewrite IH. change (found_for m ix) with
    (match m.1 !! index_key ix with Some ev => Some ev | None => m.2 !! index_pair ix end).
  destruct (m.1 !! index_key ix); [|destruct (m.2 !! index_pair ix); [|done]];
    by destruct (mapM (found_for m) indexes).
Qed.

Lemma found_is_pick P m ix : rows_read P m -> P (index_pair ix) = true ->
  found_for m ix = pick_event (index_key ix) (map scanStoredEvent (expansion (lk_raw_events lk) (index_pair ix))).
Proof using W.
  intros [H1 H2] HP. unfold found_for, pick_event, expansion. fold V.
  rewrite H1, H2, find_map, find_filter.
  rewrite (find_ext_in (fun r => P (row_pair r) && with_name (index_key ix) r)
    (fun r => bool_decide (row_pair r = index_pair ix) && String.eqb (se_key (scanStoredEvent r)) (index_key ix))).
  - destruct (List.find _ V) as [r|]; [done|]. cbn.
    transitivity (scanStoredEvent <$> head (List.filter (fun r => bool_decide (row_pair r = index_pair ix)) V)).
    + rewrite find_head. f_equal. apply find_ext_in. intros r _.
      case_bool_decide as E; [by rewrite E, HP|by rewrite andb_false_r].
    + by destruct (List.filter _ V).
  - intros r _. rewrite scan_key. unfold with_name.
    destruct (String.eqb_spec (Key (columns r)) (index_key ix)) as [E|E]; [|by rewrite !andb_false_r].
    assert (Ep : row_pair r = index_pair ix).
    { unfold index_key in E. apply key_identity in E. unfold row_identity, header_key, columns in E. cbn in E.
      unfold row_pair, index_pair, index_subject, index_id. congruence. }
    by rewrite Ep, HP, bool_decide_true.
Qed.

Lemma find_event_is_pick ix : index_subject ix <> ""%string ->
  (length (expansion (lk_raw_events lk) (index_pair ix)) <= 8)%nat ->
  find_event now lk ix =
  match pick_event (index_key ix) (map scanStoredEvent (expansion (lk_raw_events lk) (index_pair ix))) with
  | Some ev => Ok ev
  | None => Err EEventNotFound
  end.
Proof using no_fail.
  intros Hs Hlen. unfold find_event.
  assert (E : List.filter (fun r => in_batch (index_subject ix) [index_id ix] (row_pair r)) V =
              expansion (lk_raw_events lk) (index_pair ix)).
  { unfold expansion. fold V. apply List.filter_ext. intros r. unfold in_batch, index_pair, row_pair, mem.
    cbn [fst snd existsb]. rewrite orb_false_r.
    destruct (String.eqb_spec (rr_subject r) (index_subject ix)), (String.eqb_spec (rr_id r) (index_id ix));
      cbn [andb]; case_bool_decide; congruence. }
  rewrite by_id_query, E; [|done..|by rewrite E]. cbn [result_bind].
  by destruct (pick_event _ _).
Qed.

(** [mapM] of a lookup that may fail in one way. *)
Definition find_each (indexes : list Index) : result fetch_error (list StoredEvent) :=
  fold_right (fun ix rest => let* ev := find_event now lk ix in let* evs := rest in Ok (ev :: evs)) (Ok []) indexes.

Lemma find_each_picks indexes :
  Forall (fun ix => index_subject ix <> ""%string /\
                    (length (expansion (lk_raw_events lk) (index_pair ix)) <= 8)%nat) indexes ->
  find_each indexes =
  match mapM (fun ix => pick_event (index_key ix)
                (map scanStoredEvent (expansion (lk_raw_events lk) (index_pair ix)))) indexes with
  | Some evs => Ok evs
  | None => Err EEventNotFound
  end.
Proof using no_fail.
  induction 1 as [|ix indexes [Hs Hl] _ IH]; [done|]. rewrite mapM_cons_eq. cbn [find_each fold_right].
  fold (find_each indexes). rewrite find_event_is_pick, IH by done.
  destruct (pick_event _ _); cbn; [|done]. by destruct (mapM _ indexes).
Qed.

Lemma find_events_each subjects indexes :
  subjects ≡ₚ elements (dom (group_ids indexes)) ->
  Forall (fun ix => index_subject ix <> ""%string /\
                    (length (expansion (lk_raw_events lk) (index_pair ix)) <= 8)%nat) indexes ->
  find_events now lk subjects indexes = find_each indexes.
Proof using no_fail W.
  intros Hsub Hix. rewrite find_each_picks by done. unfold find_events.
  assert (Hin : forall s i, i ∈ ids_of (group_ids indexes) s -> exists ix, ix ∈ indexes /\ index_pair ix = (s, i)).
  { intros s i Hi%group_ids_spec. apply list_elem_of_fmap in Hi as (ix & E & Hi). by exists ix. }
  rewrite Forall_forall in Hix.
  destruct (subjects_loop_reads (group_ids indexes) subjects (fun _ => false) (∅, ∅)) as (m & -> & Hm);
    [|exact rows_read_empty|].
  { apply Forall_forall. intros s Hs. rewrite Hsub, elem_of_elements in Hs. split.
    - destruct (ids_of (group_ids indexes) s) as [|i l] eqn:E.
      + by destruct (group_ids_nonempty indexes s Hs).
      + destruct (Hin s i) as (ix & Hx & Ep); [rewrite E; left|]. destruct (Hix ix Hx) as [Hne _].
        unfold index_pair in Ep. injection Ep as <- _. done.
    - intros i Hi. destruct (Hin s i Hi) as (ix & Hx & <-). by destruct (Hix ix Hx). }
  cbn [result_bind]. rewrite order_matched_found.
  assert (E : mapM (found_for m) indexes = mapM (fun ix => pick_event (index_key ix)
                (map scanStoredEvent (expansion (lk_raw_events lk) (index_pair ix)))) indexes); [|by rewrite E].
  apply mapM_ext_in. intros ix Hx. eapply found_is_pick; [exact Hm|]. cbn.
  assert (Hi : index_id ix ∈ ids_of (group_ids indexes) (index_subject ix)).
  { apply group_ids_spec. apply (list_elem_of_fmap_2 index_pair). done. }
  apply existsb_exists. exists (index_subject ix). split.
  - apply list_elem_of_In. rewrite Hsub, elem_of_elements. apply elem_of_dom.
    unfold ids_of in Hi. destruct (group_ids indexes !! index_subject ix); [by eexists|by apply elem_of_nil in Hi].
  - unfold in_batch, index_pair. cbn. rewrite String.eqb_refl. by apply mem_true.
Qed.

(** ** What an index denotes *)

(** The visible row of the index's subject and id that carries its whole identity,
    or, when none does, the newest one. *)
Definition denotes (ix : Index) (ev : StoredEvent) : Prop :=
  exists r, r ∈ V /\ ev = scanStoredEvent r /\ row_pair r = index_pair ix /\
    (row_identity r = header_key (hd (ix_Header ix)) \/
     (forall q, q ∈ V -> row_identity q <> header_key (hd (ix_Header ix))) /\
     forall q, q ∈ V -> row_pair q = index_pair ix -> key_leb false (sort_key r) (sort_key q) = true).

Lemma visible_sorted : StronglySorted (fun a b => key_leb false (sort_key a) (sort_key b) = true) V.
Proof using. exact (order_by_sorted sort_key (key_leb false) (key_leb_total false) (key_leb_trans false) _). Qed.

Lemma elem_of_expansion p r : r ∈ expansion (lk_raw_events lk) p <-> r ∈ V /\ row_pair r = p.
Proof using. unfold expansion. fold V. by rewrite elem_of_list_filter, bool_decide_eq_true. Qed.

Lemma pick_denotes ix ev :
  pick_event (index_key ix) (map scanStoredEvent (expansion (lk_raw_events lk) (index_pair ix))) = Some ev ->
  denotes ix ev.
Proof using W.
  unfold pick_event. rewrite find_map. destruct (List.find _ _) as [r|] eqn:E.
  - intros [= <-]. apply List.find_some in E as [Hr%list_elem_of_In Hk]. apply elem_of_expansion in Hr as [Hr Hp].
    exists r. split_and!; [done..|]. left. rewrite scan_key in Hk. apply String.eqb_eq in Hk. by apply key_identity.
  - cbn. intros Hh. destruct (expansion _ _) as [|r l] eqn:El; [done|]. injection Hh as <-.
    assert (Hr : r ∈ expansion (lk_raw_events lk) (index_pair ix)) by (rewrite El; left).
    apply elem_of_expansion in Hr as [Hr Hp]. exists r. split_and!; [done..|]. right. split.
    + intros q Hq Hid. assert (Hqe : q ∈ r :: l).
      { rewrite <- El. apply elem_of_expansion. split; [done|].
        unfold row_identity, header_key, columns in Hid. cbn in Hid. unfold row_pair, index_pair, index_subject, index_id. congruence. }
      apply list_elem_of_In in Hqe. pose proof (List.find_none _ _ E q Hqe) as Hf. cbn beta in Hf.
      rewrite scan_key in Hf. apply String.eqb_neq in Hf. apply Hf. by apply key_identity.
    + intros q Hq Hqp. assert (Hqe : q ∈ r :: l) by (rewrite <- El; by apply elem_of_expansion).
      assert (Hs : StronglySorted (fun a b => key_leb false (sort_key a) (sort_key b) = true) (r :: l)).
      { rewrite <- El. apply list_filter_sorted, visible_sorted. }
      inversion Hs as [|? ? _ Hall]; subst. rewrite Forall_forall in Hall.
      apply elem_of_cons in Hqe as [->|Hql]; [|by apply Hall].
      destruct (key_leb_total false (sort_key r) (sort_key r)); done.
Qed.

Lemma pick_none k evs : pick_event k evs = None <-> evs = [].
Proof using.
  unfold pick_event. split; [|by intros ->]. destruct evs as [|e evs]; [done|].
  destruct (List.find _ _); done.
Qed.

(** One request per index. *)
Definition fetch_each (getter : bool) (blobCipher : option Blobcrypt.Key) (indexes : list Index)
  : result fetch_error (list FetchedEvent) :=
  fold_right (fun ix rest => let* raw := GetCloudEventFromIndex getter blobCipher now lk ix in
                             let* out := rest in Ok (raw :: out)) (Ok []) indexes.

Definition all_resolve (getter : bool) (blobCipher : option Blobcrypt.Key) : list StoredEvent -> list FetchedEvent -> Prop :=
  Forall2 (fun ev raw => resolvePayload getter blobCipher lk ev = Ok raw).

Lemma fetch_each_sound getter blobCipher indexes out : fetch_each getter blobCipher indexes = Ok out ->
  exists evs, find_each indexes = Ok evs /\ all_resolve getter blobCipher evs out.
Proof using.
  revert out. induction indexes as [|ix indexes IH]; intros out; cbn [fetch_each find_each fold_right].
  { intros [= <-]. exists []. split; [done|constructor]. }
  fold (fetch_each getter blobCipher indexes) (find_each indexes). unfold GetCloudEventFromIndex.
  destruct (find_event now lk ix) as [ev|e]; cbn [result_bind]; [|done].
  destruct (resolvePayload getter blobCipher lk ev) as [raw|e] eqn:Er; cbn [result_bind]; [|done].
  destruct (fetch_each getter blobCipher indexes) as [o|e]; cbn [result_bind]; [|done].
  intros [= <-]. destruct (IH o eq_refl) as (evs & -> & Ho). exists (ev :: evs). split; [done|by constructor].
Qed.

Lemma fetch_each_complete getter blobCipher indexes evs out : find_each indexes = Ok evs ->
  all_resolve getter blobCipher evs out -> fetch_each getter blobCipher indexes = Ok out.
Proof using.
  revert evs out. induction indexes as [|ix indexes IH]; intros evs out; cbn [fetch_each find_each fold_right].
  { intros [= <-] H. by inversion H. }
  fold (fetch_each getter blobCipher indexes) (find_each indexes). unfold GetCloudEventFromIndex.
  destruct (find_event now lk ix) as [ev|e]; cbn [result_bind]; [|done].
  destruct (find_each indexes) as [evs'|e]; cbn [result_bind]; [|done].
  intros [= <-] H. inversion H as [|? raw ? o Hr Ho]; subst. by rewrite Hr, (IH evs' o eq_refl Ho).
Qed.
End lookup.

Section batch.
Context {L : CloudEventLib} {W : CloudEventLaws L} {A : AEAD}.
Context (getter : bool) (blobCipher : option Blobcrypt.Key) (now : Z) (lk : Lake).

(** C6. As long as no requested (subject, id) expands to more than the eight rows
    budgeted for it, fetching a list of indexes, grouped by subject in whatever
    order the map is ranged over and in batches of 125 ids, returns what one
    [GetCloudEventFromIndex] per index returns, in the order asked for, when that
    fits the payload budget. The row of each index is the visible one with its
    whole identity, else the newest of its subject and id; the list is not found
    exactly when some index has no visible row at all. *)
Theorem batch_is_lookup subjects indexes :
  (forall op f, lk_fails lk op f = None) ->
  subjects ≡ₚ elements (dom (group_ids indexes)) ->
  Forall (fun ix => index_subject ix <> ""%string /\
            Z.of_nat (length (expansion (lk_raw_events lk) (index_pair ix))) <= idRowExpansion) indexes ->
  (forall out,
     ListCloudEventsFromIndexes getter blobCipher now lk subjects indexes = Ok out <->
     fetch_each now lk getter blobCipher indexes = Ok out /\ payloads out <= maxListPayloadBytes) /\
  (forall evs, find_events now lk subjects indexes = Ok evs -> Forall2 (denotes lk) indexes evs) /\
  (forall e, find_events now lk subjects indexes = Err e <->
     e = EEventNotFound /\ Exists (fun ix => expansion (lk_raw_events lk) (index_pair ix) = []) indexes).
Proof.
  intros Hok Hsub Hix.
  assert (Hix' : Forall (fun ix => index_subject ix <> ""%string /\
            (length (expansion (lk_raw_events lk) (index_pair ix)) <= 8)%nat) indexes).
  { eapply Forall_impl; [exact Hix|]. intros ix [Hs Hl]. split; [done|]. unfold idRowExpansion in Hl. lia. }
  pose proof (find_events_each now lk Hok subjects indexes Hsub Hix') as E.
  pose proof (find_each_picks now lk Hok indexes Hix') as P. split_and!.
  - intros out. unfold ListCloudEventsFromIndexes. rewrite E.
    destruct indexes as [|ix rest]; [split; [intros [= <-]; by split|by intros [[= <-] _]]|].
    cbn [is_empty]. split.
    + destruct (find_each now lk _) as [evs|] eqn:Ef; [|done]. cbn [result_bind]. intros Hr.
      apply resolve_seq_sound in Hr as [H1 H2]; [|done]. split; [|lia].
      by eapply fetch_each_complete.
    + intros [H1 H2]. apply fetch_each_sound in H1 as (evs & -> & Hr). cbn [result_bind].
      apply resolve_seq_complete; [exact Hr|lia].
  - rewrite E, P. intros evs. destruct (mapM _ _) as [l|] eqn:Em; [|done]. intros [= <-].
    eapply Forall2_impl; [by apply mapM_Some_1|]. intros ix ev. by apply pick_denotes.
  - rewrite E, P. intros e. destruct (mapM _ _) as [l|] eqn:Em.
    + split; [done|]. intros [_ (ix & Hin & Hnone)%Exists_exists]. exfalso.
      apply mapM_Some_1 in Em. destruct (Forall2_lookup_l_elem _ _ _ _ Em Hin) as (ev & _ & Hev).
      by rewrite Hnone in Hev.
    + split; [|by intros [-> _]]. intros [= <-]. split; [done|]. apply mapM_None_1 in Em.
      eapply Exists_impl; [exact Em|]. intros ix Hn%pick_none. by apply map_eq_nil in Hn.
Qed.
End batch.

(** The fingerprint and the status of one upload, and an index with a partial
    header, which gets the newest row of its id. *)
Definition index_of (r : RawRow) : Index := toIndex (scanStoredEvent (index_columns r)).

Definition partial_index : Index :=
  mkIndex (mkFullHeader (mkHeader "did:a" zero_time "" "e1" "" "" "") "" "" "" "" "" None []) "k".

Definition demo_indexes : list Index :=
  [index_of (demo_event "did:a" (1000 * Second) "dimo.fingerprint" "e1" "" None);
   index_of (demo_event "did:a" (1000 * Second) "dimo.status" "e1" "" None); partial_index].

Definition demo_fetched : list FetchedEvent :=
  map (fun r => toRawEvent (scanStoredEvent r))
    [demo_event "did:a" (1000 * Second) "dimo.fingerprint" "e1" "222" None;
     demo_event "did:a" (1000 * Second) "dimo.status" "e1" "11" None;
     demo_event "did:a" (1000 * Second) "dimo.status" "e1" "11" None].

Example batch_is_lookup_witness :
  ListCloudEventsFromIndexes (A := toy_aead) true None 0 (demo_fetch_lake demo_events) ["did:a"%string] demo_indexes =
  Ok demo_fetched.
Proof.
  apply (proj1 (batch_is_lookup (A := toy_aead) true None 0 (demo_fetch_lake demo_events) ["did:a"%string] demo_indexes
    (fun _ _ => eq_refl) ltac:(vm_compute; reflexivity)
    ltac:(repeat constructor; (discriminate || (vm_compute; discriminate))))).
  split; [vm_compute; reflexivity|vm_compute; discriminate].
Defined.
