(* ===== verification/Auth.v ===== *)
(** * internal/auth, internal/identity and the authorization of reads

    Token claims and the GraphQL directives (directives.go), the interceptor of
    the gRPC fetch service (grpc.go), the device-to-vehicle link
    (identity.go), and the two checks that decide whose cloud events a request
    reads: internal/fetch/rpc/authz.go and internal/graph/auth_helpers.go. *)

From S2P Require Import Prelude RawEvents LakeFetch.

(** ** Claims *)

(** The fields of [tokenclaims.Token] that dq reads. *)
Record DQClaim := mkClaim { Asset : string; Permissions : list string }.

(** The permission names of package tokenclaims. *)
Class TokenClaims := {
  PermissionGetNonLocationHistory : string;
  PermissionExecuteCommands : string;
  PermissionGetCurrentLocation : string;
  PermissionGetLocationHistory : string;
  PermissionGetVINCredential : string;
  PermissionGetApproximateLocation : string;
  PermissionGetRawData : string;
}.

(** A context: the claim a handler finds under each of the two keys. *)
Record Ctx := mkCtx { ctx_DQClaim : option DQClaim; ctx_Claims : option DQClaim }.

Definition background : Ctx := mkCtx None None.

Inductive auth_error :=
  | ErrJWTMissing
  | ENoFieldContext
  | ENoArgument (name : string)
  | EArgumentType (name : string)
  | EDIDMismatch
  | EMissingPrivilege (priv : string)
  | ERequiresOneOf (privs : list string)
  | EResolver (msg : string).

Definition getDQClaim (ctx : Ctx) : result auth_error DQClaim :=
  match ctx_DQClaim ctx with Some claim => Ok claim | None => Err ErrJWTMissing end.

(** ** The directives *)

(** An argument of the field: a string, or a value of another type. *)
Inductive arg_value := ArgString (s : string) | ArgOther.

Definition didArg : string := "subject".

Definition getArg (args : option (gmap string arg_value)) (name : string) : result auth_error string :=
  match args with
  | None => Err ENoFieldContext
  | Some m =>
      match m !! name with
      | None => Err (ENoArgument name)
      | Some (ArgString s) => Ok s
      | Some ArgOther => Err (EArgumentType name)
      end
  end.

Definition NewVehicleTokenCheck {R} (ctx : Ctx) (args : option (gmap string arg_value))
    (next : result auth_error R) : result auth_error R :=
  let* requestedDID := getArg args didArg in
  let* claim := getDQClaim ctx in
  if negb (String.eqb (Asset claim) requestedDID) then Err EDIDMismatch else next.

Fixpoint all_loop (perms requiredPrivs : list string) : result auth_error unit :=
  match requiredPrivs with
  | [] => Ok tt
  | priv :: rest => if negb (mem priv perms) then Err (EMissingPrivilege priv) else all_loop perms rest
  end.

Definition AllOfPrivilegeCheck {R} (ctx : Ctx) (next : result auth_error R) (requiredPrivs : list string)
  : result auth_error R :=
  let* claim := getDQClaim ctx in
  let* _ := all_loop (Permissions claim) requiredPrivs in next.

Definition OneOfPrivilegeCheck {R} (ctx : Ctx) (next : result auth_error R) (requiredPrivs : list string)
  : result auth_error R :=
  let* claim := getDQClaim ctx in
  if existsb (fun priv => mem priv (Permissions claim)) requiredPrivs then next
  else Err (ERequiresOneOf requiredPrivs).

(** ** jwt.go *)

(** What the JWT middleware left in the request's context. *)
Inductive validated_claims :=
  | NoClaims
  | ClaimsWithoutCustom
  | ClaimsOfOtherType
  | ClaimsDQ (claim : DQClaim).

(** The context [next] runs with; [None]: answered with an error instead. *)
Definition AddClaimHandler (claims : validated_claims) : option Ctx :=
  match claims with
  | NoClaims | ClaimsWithoutCustom => Some background
  | ClaimsOfOtherType => None
  | ClaimsDQ c => Some (mkCtx (Some c) (Some c))
  end.

(** ** grpc.go *)

Module codes.
Inductive code := InvalidArgument | Unauthenticated | PermissionDenied | NotFound | ResourceExhausted | Internal.
End codes.

(** A gRPC status; [st_Err] is the error its message renders. *)
Record status := mkStatus { st_Code : codes.code; st_Msg : string; st_Err : option fetch_error }.

Definition status_error (c : codes.code) (msg : string) : status := mkStatus c msg None.
Definition status_errorf (c : codes.code) (msg : string) (e : fetch_error) : status := mkStatus c msg (Some e).

Definition lower (c : Ascii.ascii) : Ascii.ascii :=
  let n := Ascii.nat_of_ascii c in
  if (65 <=? n)%nat && (n <=? 90)%nat then Ascii.ascii_of_nat (n + 32) else c.

Fixpoint lower_string (s : string) : string :=
  match s with EmptyString => EmptyString | String c s' => String (lower c) (lower_string s') end.

(** [strings.EqualFold(s, t)] for a [t] of ASCII letters other than k and s, the
    only ones with a fold outside ASCII. *)
Definition EqualFold (s t : string) : bool := String.eqb (lower_string s) (lower_string t).

(** Metadata values are printable ASCII: of the white space that
    [strings.TrimSpace] removes they can hold the ASCII kind. *)
Definition is_space (c : Ascii.ascii) : bool :=
  let n := Ascii.nat_of_ascii c in (n =? 32)%nat || ((9 <=? n)%nat && (n <=? 13)%nat).

Fixpoint trim_left (l : list Ascii.ascii) : list Ascii.ascii :=
  match l with c :: l' => if is_space c then trim_left l' else l | [] => [] end.

Definition TrimSpace (s : string) : string :=
  String.string_of_list_ascii (rev (trim_left (rev (trim_left (String.list_ascii_of_string s))))).

(** [vals]: the values of the authorization header, [None] without metadata. *)
Definition bearerFromMetadata (vals : option (list string)) : string :=
  match vals with
  | None | Some [] => ""
  | Some (tok :: _) =>
      if (7 <=? String.length tok)%nat && EqualFold (String.substring 0 7 tok) "bearer "
      then TrimSpace (String.substring 7 (String.length tok - 7) tok)
      else tok
  end.

Definition grpcHasRawDataAccess {T : TokenClaims} (perms : list string) : bool :=
  if mem PermissionGetRawData perms then true
  else mem PermissionGetLocationHistory perms && mem PermissionGetNonLocationHistory perms.

(** [ValidateToken]: an error, or the validated claims. *)
Definition NewGRPCFetchAuthInterceptor {T : TokenClaims} (ValidateToken : string -> result string validated_claims)
    (require_ : bool) {Resp} (handler : Ctx -> result status Resp) (ctx : Ctx) (vals : option (list string))
  : result status Resp :=
  let raw := bearerFromMetadata vals in
  if String.eqb raw "" then
    if require_ then Err (status_error codes.Unauthenticated "missing bearer token") else handler ctx
  else
    match ValidateToken raw with
    | Err _ => Err (status_error codes.Unauthenticated "invalid token")
    | Ok (ClaimsDQ dq) =>
        if negb (grpcHasRawDataAccess (Permissions dq))
        then Err (status_error codes.PermissionDenied "token lacks raw-data permission")
        else handler (mkCtx (Some dq) (ctx_Claims ctx))
    | Ok _ => Err (status_error codes.Unauthenticated "invalid token claims")
    end.

(** ** identity.go *)

(** The decoded response: per field, the vehicle's DID unless a level is null. *)
Record deviceResponse := mkDeviceResponse {
  dr_Data : gmap string (option string);
  dr_Errors : list string;
}.

Inductive identity_error := EQueryIdentity (msg : string) | ErrDeviceNotFound (msg : string).

Definition linked_field (resp : deviceResponse) (field : string) : option string :=
  match dr_Data resp !! field with
  | Some (Some did) => if String.eqb did "" then None else Some did
  | _ => None
  end.

Definition GetLinkedDIDForDevice (doQuery : string -> result string deviceResponse) (deviceDID : string)
  : result identity_error string :=
  match doQuery deviceDID with
  | Err msg => Err (EQueryIdentity msg)
  | Ok resp =>
      match linked_field resp "aftermarketDevice" with
      | Some did => Ok did
      | None =>
          match linked_field resp "syntheticDevice" with
          | Some did => Ok did
          | None => Err (ErrDeviceNotFound (from_option id "not found as aftermarket or synthetic device"%string
                                              (head (dr_Errors resp))))
          end
      end
  end.

(** ** Whose events may be read *)

(** [cloudevent.DecodeERC721DID] and [String] of the result. *)
Class DIDLib := { DecodeERC721DID : string -> option string }.

(** A rendered DID has its scheme and decodes to itself. *)
Class DIDLaws (D : DIDLib) : Prop := {
  decoded_nonempty s d : DecodeERC721DID s = Some d -> d <> ""%string;
  decoded_again s d : DecodeERC721DID s = Some d -> DecodeERC721DID d = Some d;
}.

Section authorize.
Context {D : DIDLib} {T : TokenClaims}.
(** The identity client, [nil] when not configured. *)
Context (identityClient : option (string -> result identity_error string)).

(** authz.go *)
Definition authorizeSubject (ctx : Ctx) (requestedSubject : string) : result status string :=
  match ctx_DQClaim ctx with
  | None => Err (status_error codes.Unauthenticated "no token claims")
  | Some claim =>
      if String.eqb requestedSubject "" then Err (status_error codes.PermissionDenied "subject is required")
      else
        let tokenSubject := Asset claim in
        if String.eqb requestedSubject tokenSubject then Ok requestedSubject
        else match DecodeERC721DID requestedSubject with
        | None => Err (status_error codes.PermissionDenied "no access to subject")
        | Some parsed =>
            match identityClient with
            | None => Err (status_error codes.PermissionDenied "no access to subject")
            | Some client =>
                match client parsed with
                | Err _ => Err (status_error codes.PermissionDenied "no access to subject")
                | Ok linked =>
                    if negb (String.eqb linked tokenSubject)
                    then Err (status_error codes.PermissionDenied "no access to subject")
                    else Ok parsed
                end
            end
        end
  end.

Fixpoint authorize_all (ctx : Ctx) (subjects : list string) : result status (list string) :=
  match subjects with
  | [] => Ok []
  | subj :: rest =>
      let* a := authorizeSubject ctx subj in
      let* authorized := authorize_all ctx rest in Ok (a :: authorized)
  end.

Definition set_Subject (o : AdvancedSearchOptions) (s : StringFilterOption) : AdvancedSearchOptions :=
  mkAdvanced (Some s) (ao_Type o) (ao_Source o) (ao_Producer o) (ao_Id o) (ao_DataVersion o) (ao_Extras o)
    (ao_Tags o) (ao_After o) (ao_Before o) (ao_TimestampAsc o).

(** The options as they are left for the search. *)
Definition authorizeAdvancedOpts (ctx : Ctx) (opts : option AdvancedSearchOptions)
  : result status AdvancedSearchOptions :=
  match opts with
  | None => Err (status_error codes.PermissionDenied "subject is required")
  | Some o =>
      let in_ := from_option sf_In [] (ao_Subject o) in
      if is_empty in_ then Err (status_error codes.PermissionDenied "subject is required")
      else
        let* authorized := authorize_all ctx in_ in
        Ok (set_Subject o (mkStringFilter authorized [] []))
  end.

Definition pin_Subject (o : SearchOptions) (s : string) : SearchOptions :=
  mkSearch (Some s) (so_Type o) (so_Source o) (so_Producer o) (so_Id o) (so_DataVersion o) (so_Extras o)
    (so_After o) (so_Before o) (so_TimestampAsc o).

Definition authorizeOpts (ctx : Ctx) (opts : option SearchOptions) : result status SearchOptions :=
  match opts with
  | None => Err (status_error codes.PermissionDenied "subject is required")
  | Some o =>
      let* authorized := authorizeSubject ctx (from_option id ""%string (so_Subject o)) in
      Ok (pin_Subject o authorized)
  end.

(** auth_helpers.go *)
Definition errNoTokenClaims : string := "unauthorized: no token claims".
Definition errNoPermission : string :=
  "unauthorized: token does not have required permission for this operation".
Definition errNoAccessToSubject : string := "unauthorized: token does not have access to this subject".

Definition hasRawDataAccess (perms : list string) : bool :=
  let hasGetRawData := mem PermissionGetRawData perms in
  let hasAllTimeData := mem PermissionGetLocationHistory perms && mem PermissionGetNonLocationHistory perms in
  hasGetRawData || hasAllTimeData.

Definition requireRawDataToken (ctx : Ctx) : result string DQClaim :=
  match ctx_Claims ctx with
  | None => Err errNoTokenClaims
  | Some tok => if negb (hasRawDataAccess (Permissions tok)) then Err errNoPermission else Ok tok
  end.

Definition ensureRequestedDIDLinkedToPermissionedSubject (requestedDID tokenSubjectDID : string)
  : result string string :=
  if String.eqb requestedDID tokenSubjectDID then Ok requestedDID
  else match DecodeERC721DID requestedDID with
  | None => Err errNoAccessToSubject
  | Some parsed =>
      match identityClient with
      | None => Err errNoAccessToSubject
      | Some client =>
          match client parsed with
          | Err _ => Err errNoAccessToSubject
          | Ok linkedDID =>
              if negb (String.eqb linkedDID tokenSubjectDID) then Err errNoAccessToSubject else Ok parsed
          end
      end
  end.

(** ** Permitted subjects *)

(** The identity service links the device of this name to the vehicle. *)
Definition linked_to (vehicle device : string) : bool :=
  match identityClient with
  | Some client => match client device with Ok v => String.eqb v vehicle | Err _ => false end
  | None => false
  end.

(** The token's vehicle, or a device linked to it, under the name given or the
    DID it decodes to. *)
Definition permitted (claim : DQClaim) (s : string) : bool :=
  negb (String.eqb s "") &&
  (String.eqb s (Asset claim) || linked_to (Asset claim) s ||
   match DecodeERC721DID s with Some d => linked_to (Asset claim) d | None => false end).

(** What a context's token permits: nothing without one. *)
Definition permits (ctx : Ctx) (s : string) : bool :=
  match ctx_DQClaim ctx with Some claim => permitted claim s | None => false end.

Lemma authorizeSubject_permitted {W : DIDLaws D} ctx s s' : authorizeSubject ctx s = Ok s' ->
  permits ctx s = true /\ permits ctx s' = true.
Proof.
  unfold authorizeSubject, permits, permitted. destruct (ctx_DQClaim ctx) as [claim|]; [|done].
  destruct (String.eqb s "") eqn:E0; [done|]. cbn [negb andb].
  destruct (String.eqb s (Asset claim)) eqn:Ea.
  { intros [= <-]. by rewrite E0, Ea. }
  destruct (DecodeERC721DID s) as [d|] eqn:Ed; [|done].
  unfold linked_to. destruct identityClient as [client|]; [|done].
  destruct (client d) as [v|] eqn:Ec; [|done]. destruct (String.eqb v (Asset claim)) eqn:Ev; [|done].
  intros [= <-]. rewrite Ec, Ev, !orb_true_r. split; [done|].
  pose proof (decoded_nonempty s d Ed) as Hne. apply String.eqb_neq in Hne. by rewrite Hne.
Qed.

(** The two checks agree on a subject that is named. *)
Lemma checks_agree ctx claim s : ctx_DQClaim ctx = Some claim -> s <> ""%string ->
  authorizeSubject ctx s =
  match ensureRequestedDIDLinkedToPermissionedSubject s (Asset claim) with
  | Ok s' => Ok s'
  | Err _ => Err (status_error codes.PermissionDenied "no access to subject")
  end.
Proof.
  intros Hc Hs%String.eqb_neq. unfold authorizeSubject, ensureRequestedDIDLinkedToPermissionedSubject.
  rewrite Hc, Hs. destruct (String.eqb s (Asset claim)); [done|].
  destruct (DecodeERC721DID s); [|done]. destruct identityClient as [client|]; [|done].
  destruct (client _) as [v|]; [|done]. by destruct (negb (String.eqb v (Asset claim))).
Qed.

(** What an authorization returns is authorized as it is. *)
Definition authorized (ctx : Ctx) (s : string) : bool :=
  match authorizeSubject ctx s with Ok s' => String.eqb s' s | Err _ => false end.

Lemma authorizeSubject_again {W : DIDLaws D} ctx s s' : authorizeSubject ctx s = Ok s' -> authorized ctx s' = true.
Proof.
  unfold authorized, authorizeSubject. destruct (ctx_DQClaim ctx) as [claim|]; [|done].
  destruct (String.eqb s "") eqn:E0; [done|]. destruct (String.eqb s (Asset claim)) eqn:Ea.
  { intros [= <-]. by rewrite E0, Ea, String.eqb_refl. }
  destruct (DecodeERC721DID s) as [d|] eqn:Ed; [|done]. destruct identityClient as [client|]; [|done].
  destruct (client d) as [v|] eqn:Ec; [|done]. destruct (String.eqb v (Asset claim)) eqn:Ev; [|done].
  intros [= <-]. rewrite (proj2 (String.eqb_neq d "") (decoded_nonempty s d Ed)).
  destruct (String.eqb d (Asset claim)); [apply String.eqb_refl|].
  rewrite (decoded_again s d Ed), Ec, Ev. apply String.eqb_refl.
Qed.

(** The options an authorization leaves name subjects it returned only. *)
Section returned.
Context (ctx : Ctx) (P : string -> bool).
Context (HP : forall s s', authorizeSubject ctx s = Ok s' -> P s' = true).

Lemma authorize_all_returns l l' : authorize_all ctx l = Ok l' ->
  length l' = length l /\ Forall (fun s => P s = true) l'.
Proof using HP.
  revert l'. induction l as [|s l IH]; intros l'; cbn [authorize_all]; [by intros [= <-]|].
  destruct (authorizeSubject ctx s) as [a|] eqn:Ea; cbn [result_bind]; [|done].
  destruct (authorize_all ctx l) as [r|]; cbn [result_bind]; [|done]. intros [= <-].
  destruct (IH r eq_refl) as [Hl Hf]. cbn [length]. split; [by rewrite Hl|]. constructor; [|done]. by eapply HP.
Qed.

Lemma authorizeAdvancedOpts_scoped opts o : authorizeAdvancedOpts ctx opts = Ok o ->
  exists l, ao_Subject o = Some (mkStringFilter l [] []) /\ l <> [] /\ Forall (fun s => P s = true) l.
Proof using HP.
  unfold authorizeAdvancedOpts. destruct opts as [o'|]; [|done].
  destruct (from_option sf_In [] (ao_Subject o')) as [|s l] eqn:El; [done|]. cbn [is_empty].
  destruct (authorize_all ctx (s :: l)) as [r|] eqn:Er; [|done]. cbn [result_bind]. intros [= <-].
  apply authorize_all_returns in Er as [Hl Hf]. exists r. split; [done|]. split; [by destruct r|done].
Qed.

Lemma authorizeOpts_scoped opts o : authorizeOpts ctx opts = Ok o ->
  exists s, so_Subject o = Some s /\ P s = true.
Proof using HP.
  unfold authorizeOpts. destruct opts as [o'|]; [|done].
  destruct (authorizeSubject ctx _) as [a|] eqn:Ea; [|done]. cbn [result_bind]. intros [= <-].
  exists a. split; [done|]. by eapply HP.
Qed.
End returned.
End authorize.
