(* ===== verification/FetchScope.v ===== *)
(** * pkg/eventrepo/service.go: the fetch surface and what scopes it

    [EventService] is the interface the gRPC server and the GraphQL resolvers
    read through. [ScopedEventService] states what they rely on: what a call
    returns depends on the events of the subjects it names alone.
    [LakeEventService] implements both. *)

From S2P Require Import Prelude Coordinates Blobcrypt Decode Blobs Sql RawEvents LakeFetch.

(** ** The interface *)

(** [World] is what the service reads. *)
Class EventService := {
  World : Type;
  es_GetLatestIndex : World -> option SearchOptions -> result fetch_error Index;
  es_GetLatestIndexAdvanced : World -> option AdvancedSearchOptions -> result fetch_error Index;
  es_ListIndexes : World -> Z -> option SearchOptions -> result fetch_error (list Index);
  es_ListIndexesAdvanced : World -> Z -> option AdvancedSearchOptions -> result fetch_error (list Index);
  es_TypeSummaries : World -> option AdvancedSearchOptions -> result fetch_error (list CloudEventTypeSummary);
  es_GetCloudEventFromIndex : World -> Index -> result fetch_error FetchedEvent;
  es_ListCloudEventsFromIndexes : World -> list Index -> result fetch_error (list FetchedEvent);
  es_PresignBlobURL : World -> string -> result fetch_error string;
  es_BlobsMaybeSealed : bool;
}.

(** Options that name subjects of [P], and at least one. *)
Definition scoped_advanced (P : string -> bool) (o : option AdvancedSearchOptions) : Prop :=
  exists a l, o = Some a /\ ao_Subject a = Some (mkStringFilter l [] []) /\ l <> [] /\
              Forall (fun s => P s = true) l.

Definition scoped_search (P : string -> bool) (o : option SearchOptions) : Prop :=
  exists a s, o = Some a /\ so_Subject a = Some s /\ P s = true.

Definition scoped_index (P : string -> bool) (ix : Index) : Prop :=
  P (index_subject ix) = true /\ index_subject ix <> ""%string.

(** Worlds that agree on the events of the subjects of [P] give one answer, and
    an index a search returns is of a subject the search named. *)
Class ScopedEventService (E : EventService) := {
  agree : (string -> bool) -> World -> World -> Prop;
  scope_latest_advanced P w1 w2 o : agree P w1 w2 -> scoped_advanced P o ->
    es_GetLatestIndexAdvanced w1 o = es_GetLatestIndexAdvanced w2 o;
  scope_list_advanced P w1 w2 n o : agree P w1 w2 -> scoped_advanced P o ->
    es_ListIndexesAdvanced w1 n o = es_ListIndexesAdvanced w2 n o;
  scope_summaries P w1 w2 o : agree P w1 w2 -> scoped_advanced P o ->
    es_TypeSummaries w1 o = es_TypeSummaries w2 o;
  scope_latest P w1 w2 o : agree P w1 w2 -> scoped_search P o -> es_GetLatestIndex w1 o = es_GetLatestIndex w2 o;
  scope_list P w1 w2 n o : agree P w1 w2 -> scoped_search P o -> es_ListIndexes w1 n o = es_ListIndexes w2 n o;
  scope_get P w1 w2 ix : agree P w1 w2 -> scoped_index P ix ->
    es_GetCloudEventFromIndex w1 ix = es_GetCloudEventFromIndex w2 ix;
  scope_get_all P w1 w2 l : agree P w1 w2 -> Forall (scoped_index P) l ->
    es_ListCloudEventsFromIndexes w1 l = es_ListCloudEventsFromIndexes w2 l;
  scope_presign P w1 w2 key : agree P w1 w2 -> es_PresignBlobURL w1 key = es_PresignBlobURL w2 key;
  scoped_latest_advanced P w o ix : scoped_advanced P o -> es_GetLatestIndexAdvanced w o = Ok ix ->
    P (index_subject ix) = true;
  scoped_list_advanced P w n o l : scoped_advanced P o -> es_ListIndexesAdvanced w n o = Ok l ->
    Forall (fun ix => P (index_subject ix) = true) l;
  scoped_latest P w o ix : scoped_search P o -> es_GetLatestIndex w o = Ok ix -> P (index_subject ix) = true;
  scoped_list P w n o l : scoped_search P o -> es_ListIndexes w n o = Ok l ->
    Forall (fun ix => P (index_subject ix) = true) l;
  (** Of an index, the columns of the header are read; a page has a bound. *)
  columns_suffice w l l' : Forall2 (fun a b => hd (ix_Header a) = hd (ix_Header b)) l l' ->
    es_ListCloudEventsFromIndexes w l = es_ListCloudEventsFromIndexes w l';
  list_advanced_bounded w n o l : es_ListIndexesAdvanced w n o = Ok l -> Z.of_nat (length l) <= maxLakeQueryLimit;
  list_bounded w n o l : es_ListIndexes w n o = Ok l -> Z.of_nat (length l) <= maxLakeQueryLimit;
  fetched_length w l out : es_ListCloudEventsFromIndexes w l = Ok out -> length out = length l;
}.

(** ** The lake's service *)

Record lake_world := mkWorld {
  lw_now : Z;
  lw_lake : Lake;
  (** [rawTypesRollupReady], and whether the metadata query fails. *)
  lw_ready : bool;
  lw_check_fails : bool;
}.

Section lake.
Context {L : CloudEventLib} {W : CloudEventLaws L} {A : AEAD}.
Context (getter : bool) (blobCipher : option Blobcrypt.Key) (bucket : string).
Context (presigner : option (string -> string -> result string string)).
(** The order in which a map of ids per subject is ranged over. *)
Context (range_order : gmap string (list string) -> list string).

#[export] Instance LakeEventService : EventService := {|
  World := lake_world;
  es_GetLatestIndex w := GetLatestIndex (lw_now w) (lw_lake w);
  es_GetLatestIndexAdvanced w := GetLatestIndexAdvanced (lw_now w) (lw_lake w);
  es_ListIndexes w := ListIndexes (lw_now w) (lw_lake w);
  es_ListIndexesAdvanced w := ListIndexesAdvanced (lw_now w) (lw_lake w);
  es_TypeSummaries w o := (GetCloudEventTypeSummariesAdvanced (lw_check_fails w) (lw_ready w) (lw_lake w) o).1;
  es_GetCloudEventFromIndex w := GetCloudEventFromIndex getter blobCipher (lw_now w) (lw_lake w);
  es_ListCloudEventsFromIndexes w l :=
    ListCloudEventsFromIndexes getter blobCipher (lw_now w) (lw_lake w) (range_order (group_ids l)) l;
  es_PresignBlobURL _ := PresignBlobURL presigner bucket;
  es_BlobsMaybeSealed := BlobsMaybeSealed blobCipher;
|}.

(** The events and summary rows of the subjects of [P], and what is no event. *)
Record lake_agree (P : string -> bool) (w1 w2 : lake_world) : Prop := {
  la_now : lw_now w1 = lw_now w2;
  la_ready : lw_ready w1 = lw_ready w2;
  la_check : lw_check_fails w1 = lw_check_fails w2;
  la_rows : of_subjects P (lk_raw_events (lw_lake w1)) = of_subjects P (lk_raw_events (lw_lake w2));
  la_types : List.filter (fun r => P (tr_subject r)) <$> lk_raw_types (lw_lake w1) =
             List.filter (fun r => P (tr_subject r)) <$> lk_raw_types (lw_lake w2);
  la_fails op f : lk_fails (lw_lake w1) op f = lk_fails (lw_lake w2) op f;
  la_objects key : lk_objects (lw_lake w1) key = lk_objects (lw_lake w2) key;
}.

(** *** Filters *)

(** A filter that reaches subjects of [P] only. *)
Definition within (P : string -> bool) (f : RawFilter) : Prop :=
  forall s, subject_cond f s = true -> P s = true.

Lemma filter_of_subjects P (c : RawRow -> bool) l :
  (forall r, c r = true -> P (rr_subject r) = true) -> List.filter c l = List.filter c (of_subjects P l).
Proof.
  intros H. unfold of_subjects. rewrite list_filter_andb. apply List.filter_ext. intros r.
  specialize (H r). destruct (c r); [by rewrite H|by rewrite andb_false_r].
Qed.

(** What a statement over raw_events selects. *)
Lemma selected_agree P l1 l2 (c : RawRow -> bool) (v : bool) : of_subjects P l1 = of_subjects P l2 ->
  (forall r, c r = true -> P (rr_subject r) = true) ->
  List.filter (fun r => c r && (v || voidingClause l1 r)) l1 = List.filter (fun r => c r && (v || voidingClause l2 r)) l2.
Proof.
  intros H Hc.
  assert (Hx : forall l, List.filter (fun r => c r && (v || voidingClause l r)) l =
                         List.filter (fun r => c r && (v || voidingClause (of_subjects P l) r)) (of_subjects P l)).
  { intros l. rewrite (filter_of_subjects P) by (intros r [Hr _]%andb_true_iff; by apply Hc).
    apply filter_ext_in. intros r Hr. apply filter_In in Hr as [_ Hr]. by rewrite <- voidingClause_local. }
  rewrite (Hx l1), (Hx l2). by rewrite H.
Qed.

Lemma matching_rows_agree P l1 l2 f : of_subjects P l1 = of_subjects P l2 -> within P f ->
  matching_rows l1 f = matching_rows l2 f.
Proof.
  intros H Hf. unfold matching_rows. do 2 f_equal. apply (selected_agree P); [done|].
  intros r Hr. by apply Hf, whereClauseQ_subject.
Qed.

Lemma query_agree P w1 w2 f limit cols op : lake_agree P w1 w2 -> within P f ->
  default_window (lw_now w1) f = f ->
  queryLakeRawCols (lw_now w1) (lw_lake w1) f limit cols op =
  queryLakeRawCols (lw_now w2) (lw_lake w2) f limit cols op.
Proof.
  intros H Hf Hw. unfold queryLakeRawCols. rewrite <- (la_now _ _ _ H), Hw, (la_fails _ _ _ H).
  by rewrite (matching_rows_agree P _ _ f (la_rows _ _ _ H) Hf).
Qed.

(** The events a query returns match its condition on the subject. *)
Lemma query_subjects now lk f limit cols op evs :
  (forall r, columns (cols r) = columns r) -> default_window now f = f ->
  queryLakeRawCols now lk f limit cols op = Ok evs ->
  Forall (fun e => subject_cond f (ce_Subject (hd (se_Header e))) = true) evs.
Proof.
  intros Hc Hw. unfold queryLakeRawCols. rewrite Hw. destruct (lk_fails lk op f); [done|]. intros [= <-].
  apply Forall_forall. intros e (r & -> & Hr)%list_elem_of_fmap. rewrite scan_columns, Hc. cbn.
  apply subseteq_take in Hr. unfold matching_rows in Hr. rewrite order_by_perm in Hr.
  apply qualify_incl, elem_of_list_filter in Hr as [_ [Hr _]%andb_true_iff]. by apply whereClauseQ_subject.
Qed.

(** *** Searches *)

Definition names_subjects (l : list string) (f : RawFilter) : Prop := Subjects f = l /\ l <> [].

Lemma filter_names a l f : ao_Subject a = Some (mkStringFilter l [] []) -> l <> [] ->
  filterFromAdvanced (Some a) = Ok f -> names_subjects l f.
Proof.
  intros Ha Hl. unfold filterFromAdvanced. rewrite Ha. cbn [applyString sf_Or is_empty negb sf_In sf_NotIn result_bind].
  destruct (applyString (ao_Type a)); cbn [result_bind]; [|done].
  destruct (applyString (ao_Source a)); cbn [result_bind]; [|done].
  destruct (applyString (ao_Producer a)); cbn [result_bind]; [|done].
  destruct (applyString (ao_Id a)); cbn [result_bind]; [|done].
  destruct (applyString (ao_DataVersion a)); cbn [result_bind]; [|done].
  destruct (applyString (ao_Extras a)); cbn [result_bind]; [|done].
  destruct (applyTags (ao_Tags a)); cbn [result_bind]; [|done]. by intros [= <-].
Qed.

Lemma names_within P l f : names_subjects l f -> Forall (fun s => P s = true) l -> within P f.
Proof.
  intros [Hs Hl] HP s. unfold subject_cond. rewrite Hs. destruct l as [|x l]; [done|]. cbn [is_empty negb].
  unfold addIn. cbn [is_empty orb]. intros Hm%mem_true. rewrite Forall_forall in HP. by apply HP.
Qed.

Lemma names_window l f now : names_subjects l f -> default_window now f = f.
Proof.
  intros [Hs Hl]. unfold default_window. rewrite Hs. destruct l; [done|]. cbn [is_empty].
  by rewrite !andb_false_r.
Qed.

Lemma names_newest l f : names_subjects l f -> names_subjects l (newest_first f).
Proof. done. Qed.

(** The options of a scoped search, as a filter. *)
Lemma scoped_filter P o f : scoped_advanced P o -> filterFromAdvanced o = Ok f ->
  exists l, names_subjects l f /\ Forall (fun s => P s = true) l.
Proof.
  intros (a & l & -> & Ha & Hl & HP) Hf. exists l. split; [by eapply filter_names|done].
Qed.

Lemma scoped_toAdvanced P o : scoped_search P o -> scoped_advanced P (toAdvanced o).
Proof.
  intros (a & s & -> & Hs & HP). eexists _, [s]. split; [done|]. cbn. rewrite Hs. cbn.
  split_and!; [done..|]. by constructor.
Qed.

Lemma list_agree P w1 w2 n o : lake_agree P w1 w2 -> scoped_advanced P o ->
  ListIndexesAdvanced (lw_now w1) (lw_lake w1) n o = ListIndexesAdvanced (lw_now w2) (lw_lake w2) n o.
Proof.
  intros H Ho. unfold ListIndexesAdvanced. destruct (filterFromAdvanced o) as [f|] eqn:Ef; [|done]. cbn [result_bind].
  destruct (scoped_filter P o f Ho Ef) as (l & Hn & HP).
  by rewrite (query_agree P w1 w2) by (done || by eapply names_within || by eapply names_window).
Qed.

Lemma latest_agree P w1 w2 o : lake_agree P w1 w2 -> scoped_advanced P o ->
  GetLatestIndexAdvanced (lw_now w1) (lw_lake w1) o = GetLatestIndexAdvanced (lw_now w2) (lw_lake w2) o.
Proof.
  intros H Ho. unfold GetLatestIndexAdvanced. destruct (filterFromAdvanced o) as [f|] eqn:Ef; [|done]. cbn [result_bind].
  destruct (scoped_filter P o f Ho Ef) as (l & Hn%names_newest & HP).
  by rewrite (query_agree P w1 w2) by (done || by eapply names_within || by eapply names_window).
Qed.

Lemma index_columns_columns r : columns (index_columns r) = columns r.
Proof. done. Qed.

Lemma search_subjects P now lk f limit op l evs : names_subjects l f -> Forall (fun s => P s = true) l ->
  queryLakeRawCols now lk f limit index_columns op = Ok evs ->
  Forall (fun ix => P (index_subject ix) = true) (map toIndex evs).
Proof.
  intros Hn HP Hq. apply query_subjects in Hq; [|exact index_columns_columns|by eapply names_window].
  rewrite Forall_fmap. eapply Forall_impl; [exact Hq|]. intros e. by apply (names_within P l f Hn HP).
Qed.

Lemma list_scoped P w n o ixs : scoped_advanced P o ->
  ListIndexesAdvanced (lw_now w) (lw_lake w) n o = Ok ixs -> Forall (fun ix => P (index_subject ix) = true) ixs.
Proof.
  intros Ho. unfold ListIndexesAdvanced. destruct (filterFromAdvanced o) as [f|] eqn:Ef; [|done]. cbn [result_bind].
  destruct (scoped_filter P o f Ho Ef) as (l & Hn & HP).
  destruct (queryLakeRawCols _ _ _ _ _ _) as [evs|] eqn:Eq; [|done]. intros [= <-]. by eapply search_subjects.
Qed.

Lemma latest_scoped P w o ix : scoped_advanced P o ->
  GetLatestIndexAdvanced (lw_now w) (lw_lake w) o = Ok ix -> P (index_subject ix) = true.
Proof.
  intros Ho. unfold GetLatestIndexAdvanced. destruct (filterFromAdvanced o) as [f|] eqn:Ef; [|done]. cbn [result_bind].
  destruct (scoped_filter P o f Ho Ef) as (l & Hn%names_newest & HP).
  destruct (queryLakeRawCols _ _ _ _ _ _) as [evs|] eqn:Eq; [|done]. destruct evs as [|ev evs]; [done|]. intros [= <-].
  assert (Hall : Forall (fun ix => P (index_subject ix) = true) (map toIndex (ev :: evs))) by by eapply search_subjects.
  by inversion Hall.
Qed.

(** *** Lookups by index *)

Lemma by_id_within P s ids : P s = true -> s <> ""%string -> within P (by_id_filter s ids).
Proof.
  intros HP Hs q. unfold subject_cond, by_id_filter. cbn [Subjects Subject is_empty negb].
  apply String.eqb_neq in Hs. rewrite Hs. cbn [negb]. by intros ->%String.eqb_eq.
Qed.

Lemma by_id_window s ids now : s <> ""%string -> default_window now (by_id_filter s ids) = by_id_filter s ids.
Proof.
  intros Hs%String.eqb_neq. unfold default_window, by_id_filter. cbn [After Before IDs Subject Subjects].
  by rewrite Hs, andb_false_r.
Qed.

Lemma resolve_agree P w1 w2 ev : lake_agree P w1 w2 ->
  resolvePayload getter blobCipher (lw_lake w1) ev = resolvePayload getter blobCipher (lw_lake w2) ev.
Proof.
  intros H. unfold resolvePayload, DownloadObject, downloadS3Object. by rewrite (la_objects _ _ _ H).
Qed.

Lemma by_id_agree P w1 w2 s ids limit op : lake_agree P w1 w2 -> P s = true -> s <> ""%string ->
  queryLakeRaw (lw_now w1) (lw_lake w1) (by_id_filter s ids) limit op =
  queryLakeRaw (lw_now w2) (lw_lake w2) (by_id_filter s ids) limit op.
Proof.
  intros H HP Hs. unfold queryLakeRaw. apply (query_agree P); [done|by apply by_id_within|by apply by_id_window].
Qed.

Lemma get_agree P w1 w2 ix : lake_agree P w1 w2 -> scoped_index P ix ->
  GetCloudEventFromIndex getter blobCipher (lw_now w1) (lw_lake w1) ix =
  GetCloudEventFromIndex getter blobCipher (lw_now w2) (lw_lake w2) ix.
Proof.
  intros H [HP Hs]. unfold GetCloudEventFromIndex, find_event. rewrite (by_id_agree P w1 w2) by done.
  destruct (queryLakeRaw _ _ _ _ _) as [evs|]; [|done]. cbn [result_bind].
  destruct (pick_event _ _) as [ev|]; [|done]. cbn [result_bind]. by apply (resolve_agree P).
Qed.

Lemma batch_agree P w1 w2 s batches m : lake_agree P w1 w2 -> P s = true -> s <> ""%string ->
  batch_loop (lw_now w1) (lw_lake w1) s batches m = batch_loop (lw_now w2) (lw_lake w2) s batches m.
Proof.
  intros H HP Hs. revert m. induction batches as [|b batches IH]; intros m; [done|]. cbn [batch_loop].
  rewrite (by_id_agree P w1 w2) by done. by destruct (queryLakeRaw _ _ _ _ _); cbn [result_bind].
Qed.

(** Only subjects with ids are read: the others have no batch. *)
Lemma subjects_agree P w1 w2 ids subjects m : lake_agree P w1 w2 ->
  (forall s l, ids !! s = Some l -> P s = true /\ s <> ""%string) ->
  subjects_loop (lw_now w1) (lw_lake w1) ids subjects m = subjects_loop (lw_now w2) (lw_lake w2) ids subjects m.
Proof.
  intros H Hids. revert m. induction subjects as [|s subjects IH]; intros m; [done|]. cbn [subjects_loop].
  destruct (ids !! s) as [l|] eqn:E; cbn [from_option id].
  - destruct (Hids s l E) as [HP Hs]. rewrite (batch_agree P w1 w2) by done.
    by destruct (batch_loop _ _ _ _ _); cbn [result_bind].
  - apply IH.
Qed.

Lemma group_loop_dom indexes requested m s l (Q : string -> Prop) :
  (forall s l, m !! s = Some l -> Q s) -> Forall (fun ix => Q (index_subject ix)) indexes ->
  group_loop requested m indexes !! s = Some l -> Q s.
Proof.
  intros Hm Hix. revert requested m Hm. induction Hix as [|ix indexes Hq _ IH]; intros requested m Hm; cbn [group_loop].
  { apply Hm. }
  case_bool_decide; [by apply IH|]. apply IH. intros s' l'.
  destruct (decide ((index_pair ix).1 = s')) as [<-|Hne].
  - done.
  - rewrite lookup_insert_ne by done. apply Hm.
Qed.

Lemma resolve_seq_agree P w1 w2 b evs : lake_agree P w1 w2 ->
  resolve_seq getter blobCipher (lw_lake w1) b evs = resolve_seq getter blobCipher (lw_lake w2) b evs.
Proof.
  intros H. revert b. induction evs as [|ev evs IH]; intros b; [done|]. cbn [resolve_seq].
  rewrite (resolve_agree P w1 w2 ev H). destruct (resolvePayload _ _ _ _); cbn [result_bind]; [|done].
  by rewrite IH.
Qed.

Lemma get_all_agree P w1 w2 l : lake_agree P w1 w2 -> Forall (scoped_index P) l ->
  ListCloudEventsFromIndexes getter blobCipher (lw_now w1) (lw_lake w1) (range_order (group_ids l)) l =
  ListCloudEventsFromIndexes getter blobCipher (lw_now w2) (lw_lake w2) (range_order (group_ids l)) l.
Proof.
  intros H Hl. unfold ListCloudEventsFromIndexes, find_events. destruct (is_empty l); [done|].
  rewrite (subjects_agree P w1 w2); [|done|].
  - destruct (subjects_loop _ _ _ _ _) as [m|]; [|done]. cbn [result_bind].
    destruct (order_matched m l); [|done]. cbn [result_bind]. by apply (resolve_seq_agree P).
  - intros s ids. apply (group_loop_dom l ∅ ∅ s ids (fun s => P s = true /\ s <> ""%string)); [|exact Hl].
    intros s' l'. by rewrite lookup_empty.
Qed.

(** *** Summaries *)

Lemma deduped_agree P l1 l2 f : of_subjects P l1 = of_subjects P l2 -> within P f ->
  deduped_events l1 (whereClauseQ f) = deduped_events l2 (whereClauseQ f).
Proof.
  intros H Hf. unfold deduped_events. f_equal. apply (selected_agree P _ _ (whereClauseQ f) false); [done|].
  intros r Hr. by apply Hf, whereClauseQ_subject.
Qed.

Lemma rollup_cond_agree P f l1 l2 : within P f ->
  List.filter (fun r => P (tr_subject r)) l1 = List.filter (fun r => P (tr_subject r)) l2 ->
  List.filter (rollup_cond f) l1 = List.filter (rollup_cond f) l2.
Proof.
  intros Hf H.
  assert (Hx : forall l, List.filter (rollup_cond f) l = List.filter (rollup_cond f) (List.filter (fun r => P (tr_subject r)) l)).
  { intros l. rewrite list_filter_andb. apply List.filter_ext. intros r. destruct (rollup_cond f r) eqn:E; [|by rewrite andb_false_r].
    unfold rollup_cond in E. apply andb_true_iff in E as [[E _]%andb_true_iff _]. by rewrite (Hf _ E). }
  rewrite (Hx l1), (Hx l2). by rewrite H.
Qed.

Lemma summaries_agree P w1 w2 o : lake_agree P w1 w2 -> scoped_advanced P o ->
  (GetCloudEventTypeSummariesAdvanced (lw_check_fails w1) (lw_ready w1) (lw_lake w1) o).1 =
  (GetCloudEventTypeSummariesAdvanced (lw_check_fails w2) (lw_ready w2) (lw_lake w2) o).1.
Proof.
  intros H Ho. unfold GetCloudEventTypeSummariesAdvanced. destruct (filterFromAdvanced o) as [f|] eqn:Ef; [|done].
  destruct (scoped_filter P o f Ho Ef) as (l & Hn & HP). pose proof (names_within P l f Hn HP) as Hf.
  assert (Hscan : getTypeSummariesScan (lw_lake w1) f = getTypeSummariesScan (lw_lake w2) f).
  { unfold getTypeSummariesScan. by rewrite (la_fails _ _ _ H), (deduped_agree P _ _ f (la_rows _ _ _ H) Hf). }
  rewrite Hscan. destruct (typeSummaryRollupServable f); [|done].
  pose proof (la_types _ _ _ H) as Ht.
  assert (Hav : rawTypesRollupAvailable (lw_check_fails w1) (lw_ready w1) (lw_lake w1) =
                rawTypesRollupAvailable (lw_check_fails w2) (lw_ready w2) (lw_lake w2)).
  { unfold rawTypesRollupAvailable. rewrite (la_ready _ _ _ H), (la_check _ _ _ H).
    by destruct (lk_raw_types (lw_lake w1)), (lk_raw_types (lw_lake w2)). }
  assert (Hroll : getTypeSummariesRollup (lw_lake w1) f = getTypeSummariesRollup (lw_lake w2) f).
  { unfold getTypeSummariesRollup. rewrite (la_fails _ _ _ H). destruct (lk_fails _ _ _); [done|].
    destruct (lk_raw_types (lw_lake w1)) as [t1|], (lk_raw_types (lw_lake w2)) as [t2|]; try done.
    cbn in Ht. injection Ht as Ht. by rewrite (rollup_cond_agree P f t1 t2 Hf Ht). }
  rewrite Hav, Hroll. destruct (rawTypesRollupAvailable _ _ _) as [[] r]; [|done].
  destruct (getTypeSummariesRollup _ _) as [[|x out]|]; done.
Qed.

(** *** Indexes by their columns *)

Definition same_columns (a b : Index) : Prop := hd (ix_Header a) = hd (ix_Header b).

Lemma group_loop_columns l l' requested m : Forall2 same_columns l l' ->
  group_loop requested m l = group_loop requested m l'.
Proof.
  intros H. revert requested m. induction H as [|a b l l' Hab _ IH]; intros requested m; [done|].
  cbn [group_loop]. assert (Hp : index_pair a = index_pair b).
  { unfold index_pair, index_subject, index_id. unfold same_columns in Hab. by rewrite Hab. }
  rewrite Hp. case_bool_decide; apply IH.
Qed.

Lemma order_matched_columns m l l' : Forall2 same_columns l l' -> order_matched m l = order_matched m l'.
Proof.
  induction 1 as [|a b l l' Hab _ IH]; [done|]. cbn [order_matched].
  unfold index_key, index_pair, index_subject, index_id. unfold same_columns in Hab. by rewrite Hab, IH.
Qed.

Lemma get_all_columns now lk l l' : Forall2 same_columns l l' ->
  ListCloudEventsFromIndexes getter blobCipher now lk (range_order (group_ids l)) l =
  ListCloudEventsFromIndexes getter blobCipher now lk (range_order (group_ids l')) l'.
Proof.
  intros H. unfold ListCloudEventsFromIndexes, find_events.
  assert (Hg : group_ids l = group_ids l') by by apply group_loop_columns. rewrite Hg.
  replace (is_empty l') with (is_empty l) by by destruct H. destruct (is_empty l); [done|].
  destruct (subjects_loop _ _ _ _ _) as [m|]; [|done]. cbn [result_bind]. by rewrite (order_matched_columns m l l' H).
Qed.

Lemma clamp_limit_bounds n : 1 <= clamp_limit n <= maxLakeQueryLimit.
Proof. unfold clamp_limit, maxLakeQueryLimit. destruct (Z.leb_spec n 0), (Z.ltb_spec 1000 n), (Z.ltb_spec 1000 1); lia. Qed.

Lemma page_bounded now lk n o l : ListIndexesAdvanced now lk n o = Ok l -> Z.of_nat (length l) <= maxLakeQueryLimit.
Proof.
  unfold ListIndexesAdvanced. destruct (filterFromAdvanced o) as [f|]; [|done]. cbn [result_bind].
  unfold queryLakeRawCols. destruct (lk_fails _ _ _); [done|]. cbn [result_bind]. intros [= <-].
  rewrite !length_map, length_take. pose proof (clamp_limit_bounds n). lia.
Qed.

Lemma order_matched_length m l evs : order_matched m l = Ok evs -> length evs = length l.
Proof.
  revert evs. induction l as [|ix l IH]; intros evs; cbn [order_matched]; [by intros [= <-]|].
  destruct (m.1 !! _); [|destruct (m.2 !! _); [|done]];
    (destruct (order_matched m l) as [r|]; [|done]; intros [= <-]; cbn [length]; by rewrite (IH r)).
Qed.

Lemma resolve_seq_length lk b evs out : resolve_seq getter blobCipher lk b evs = Ok out -> length out = length evs.
Proof.
  revert b out. induction evs as [|ev evs IH]; intros b out; cbn [resolve_seq]; [by intros [= <-]|].
  destruct (_ <? _); [done|]. destruct (resolvePayload _ _ _ _) as [raw|]; [|done]. cbn [result_bind].
  destruct (_ <? _); [done|]. destruct (resolve_seq _ _ _ _ _) as [r|] eqn:E; [|done].
  intros [= <-]. cbn [length]. by rewrite (IH _ _ E).
Qed.

Lemma get_all_length now lk subjects l out :
  ListCloudEventsFromIndexes getter blobCipher now lk subjects l = Ok out -> length out = length l.
Proof.
  unfold ListCloudEventsFromIndexes, find_events. destruct (is_empty l) eqn:E.
  { destruct l; [|done]. by intros [= <-]. }
  destruct (subjects_loop _ _ _ _ _) as [m|]; [|done]. cbn [result_bind].
  destruct (order_matched m l) as [evs|] eqn:Eo; [|done]. cbn [result_bind].
  intros Hr%resolve_seq_length. by rewrite Hr, (order_matched_length _ _ _ Eo).
Qed.

#[export] Instance LakeEventService_scoped : ScopedEventService LakeEventService.
Proof.
  refine {| agree := lake_agree |}.
  - intros P w1 w2 o. apply latest_agree.
  - intros P w1 w2 n o. apply list_agree.
  - intros P w1 w2 o. apply summaries_agree.
  - intros P w1 w2 o H Ho. cbn. unfold GetLatestIndex. apply (latest_agree P); [done|by apply scoped_toAdvanced].
  - intros P w1 w2 n o H Ho. cbn. unfold ListIndexes. apply (list_agree P); [done|by apply scoped_toAdvanced].
  - intros P w1 w2 ix. apply get_agree.
  - intros P w1 w2 l. apply get_all_agree.
  - done.
  - intros P w o ix. apply latest_scoped.
  - intros P w n o l. apply list_scoped.
  - intros P w o ix Ho. cbn. unfold GetLatestIndex. apply (latest_scoped P). by apply scoped_toAdvanced.
  - intros P w n o l Ho. cbn. unfold ListIndexes. apply (list_scoped P). by apply scoped_toAdvanced.
  - intros w l l'. apply get_all_columns.
  - intros w n o l. apply page_bounded.
  - intros w n o l. apply page_bounded.
  - intros w l out. apply get_all_length.
Defined.
End lake.
