(* ===== verification/FetchRpc.v ===== *)
(** * internal/fetch/rpc and pkg/grpc/common.go: the fetch service

    The five RPCs over an [EventService], behind the authorization of the request
    and the interceptor of the port. Proved against the interface: what a caller
    learns depends on the events of the subjects its token permits. *)

From S2P Require Import Prelude Coordinates Blobcrypt Decode Blobs Sql RawEvents LakeFetch FetchScope Auth.

(** ** common.go *)

(** The messages CloudEventHeader, CloudEventIndex and CloudEvent. *)
Record ProtoHeader := mkProtoHeader {
  ph_Id : string; ph_Source : string; ph_Producer : string; ph_SpecVersion : string; ph_Subject : string;
  ph_Time : option Z; ph_Type : string; ph_DataContentType : string; ph_DataSchema : string;
  ph_DataVersion : string; ph_Extras : gmap string (list Z); ph_Signature : string;
  ph_RawEventId : string; ph_Tags : list string;
}.

Record ProtoIndex := mkProtoIndex { pi_Header : option ProtoHeader; pi_Data : option string }.

Record ProtoEvent := mkProtoEvent { pe_Header : option ProtoHeader; pe_Data : list Z; pe_DataBase64 : string }.

(** Package fetch passes an empty list to no service. *)
Definition fetch_ListCloudEventsFromIndexes {E : EventService} (w : World) (indexKeys : list Index)
  : result fetch_error (list FetchedEvent) :=
  if is_empty indexKeys then Ok [] else es_ListCloudEventsFromIndexes w indexKeys.

Section proto.
Context {L : CloudEventLib}.

Definition CloudEventHeaderToProto (event : Header) : ProtoHeader :=
  let h := hd event in
  mkProtoHeader (ce_ID h) (ce_Source h) (ce_Producer h) (hd_SpecVersion event) (ce_Subject h)
    (Some (ce_Time h)) (ce_Type h) (hd_DataContentType event) (hd_DataSchema event) (ce_DataVersion h)
    (omap json_Marshal (from_option id ∅ (hd_Extras event))) (hd_Signature event) (hd_RawEventID event)
    (hd_Tags event).

Definition extra_value (v : list Z) : any :=
  match json_Unmarshal v with Some j => AnyJSON j | None => AnyBytes v end.

(** A nil message gives the zero header; a nil time is the Unix epoch. *)
Definition AsCloudEventHeader (c : option ProtoHeader) : Header :=
  match c with
  | None => mkFullHeader zero_header "" "" "" "" "" None []
  | Some c =>
      mkFullHeader
        (mkHeader (ph_Subject c) (from_option id 0 (ph_Time c)) (ph_Type c) (ph_Id c) (ph_Source c)
           (ph_Producer c) (ph_DataVersion c))
        (ph_SpecVersion c) (ph_DataContentType c) (ph_DataSchema c) (ph_Signature c) (ph_RawEventId c)
        (Some (extra_value <$> ph_Extras c)) (ph_Tags c)
  end.

Definition CloudEventToProto (event : FetchedEvent) : ProtoEvent :=
  mkProtoEvent (Some (CloudEventHeaderToProto (fe_Header event))) (fe_Data event) (fe_DataBase64 event).

Definition AsRawCloudEvent (c : ProtoEvent) : FetchedEvent :=
  mkFetched (AsCloudEventHeader (pe_Header c)) (pe_Data c) (pe_DataBase64 c).

Definition index_to_proto (ix : Index) : ProtoIndex :=
  mkProtoIndex (Some (CloudEventHeaderToProto (ix_Header ix))) (Some (ix_Key ix)).

Lemma header_columns_roundtrip h : hd (AsCloudEventHeader (Some (CloudEventHeaderToProto h))) = hd h.
Proof. by destruct h as [[]]. Qed.
End proto.

(** ** rpc.go *)

Definition maxIndexKeysPerRequest : Z := 1000.

(** [strings.Contains(key, "..")]. *)
Fixpoint contains_dots (key : string) : bool :=
  match key with
  | EmptyString => false
  | String c rest => String.prefix ".." key || contains_dots rest
  end.

Definition validObjectKey (key : string) : bool := negb (String.eqb key "") && negb (contains_dots key).

(** GetLatestIndexRequest, ListIndexesRequest, ListCloudEventsRequest and
    GetLatestCloudEventRequest. *)
Record SearchRequest := mkRequest {
  rq_Limit : Z;
  rq_Options : option SearchOptions;
  rq_AdvancedOptions : option AdvancedSearchOptions;
}.

Definition IsErrNoRows (e : fetch_error) : bool := match e with EEventNotFound => true | _ => false end.
Definition IsBudgetExceeded (e : fetch_error) : bool :=
  match e with EPayloadBudgetExceeded => true | _ => false end.
(** [errors.As(err, &types.NoSuchKey{})]. *)
Definition AsNoSuchKey (e : fetch_error) : bool :=
  match e with EFetchBlob _ (EGet NoSuchKey) => true | _ => false end.

Section server.
Context {L : CloudEventLib} {E : EventService} {D : DIDLib} {T : TokenClaims}.
Context (identityClient : option (string -> result identity_error string)).

Definition no_rows_status (notFound failed : string) (e : fetch_error) : status :=
  if IsErrNoRows e then status_errorf codes.NotFound notFound e else status_errorf codes.Internal failed e.

Definition latest_index (w : World) (ctx : Ctx) (req : SearchRequest) : result status (result fetch_error Index) :=
  match rq_AdvancedOptions req with
  | Some o =>
      let* o' := authorizeAdvancedOpts identityClient ctx (Some o) in Ok (es_GetLatestIndexAdvanced w (Some o'))
  | None =>
      let* o' := authorizeOpts identityClient ctx (rq_Options req) in Ok (es_GetLatestIndex w (Some o'))
  end.

Definition list_indexes (w : World) (ctx : Ctx) (req : SearchRequest)
  : result status (result fetch_error (list Index)) :=
  match rq_AdvancedOptions req with
  | Some o =>
      let* o' := authorizeAdvancedOpts identityClient ctx (Some o) in
      Ok (es_ListIndexesAdvanced w (rq_Limit req) (Some o'))
  | None =>
      let* o' := authorizeOpts identityClient ctx (rq_Options req) in
      Ok (es_ListIndexes w (rq_Limit req) (Some o'))
  end.

Definition rpc_GetLatestIndex (w : World) (ctx : Ctx) (req : SearchRequest) : result status ProtoIndex :=
  let* index := latest_index w ctx req in
  match index with
  | Err e => Err (no_rows_status "no index key Found" "failed to get latest index" e)
  | Ok index => Ok (index_to_proto index)
  end.

Definition rpc_ListIndexes (w : World) (ctx : Ctx) (req : SearchRequest) : result status (list ProtoIndex) :=
  let* indexObjs := list_indexes w ctx req in
  match indexObjs with
  | Err e => Err (no_rows_status "no index key Found" "failed to get index keys" e)
  | Ok l => if is_empty l then Err (status_error codes.NotFound "no index keys found")
            else Ok (map index_to_proto l)
  end.

Definition rpc_ListCloudEvents (w : World) (ctx : Ctx) (req : SearchRequest) : result status (list ProtoEvent) :=
  let* metaList := list_indexes w ctx req in
  match metaList with
  | Err e => Err (no_rows_status "no index keys Found" "failed to get index keys" e)
  | Ok l =>
      if is_empty l then Err (status_error codes.NotFound "no index keys found")
      else match fetch_ListCloudEventsFromIndexes w l with
      | Err e => if IsBudgetExceeded e then Err (status_errorf codes.ResourceExhausted "" e)
                 else Err (status_errorf codes.Internal "failed to get objects" e)
      | Ok data => Ok (map CloudEventToProto data)
      end
  end.

Definition rpc_GetLatestCloudEvent (w : World) (ctx : Ctx) (req : SearchRequest) : result status ProtoEvent :=
  let* metadata := latest_index w ctx req in
  match metadata with
  | Err e => Err (no_rows_status "no index key Found" "failed to get latest index" e)
  | Ok index =>
      match es_GetCloudEventFromIndex w index with
      | Err e => Err (status_errorf codes.Internal "failed to get latest object" e)
      | Ok data => Ok (CloudEventToProto data)
      end
  end.

(** The indexes of the request, validated and authorized one by one. *)
Fixpoint index_loop (ctx : Ctx) (l : list ProtoIndex) : result status (list Index) :=
  match l with
  | [] => Ok []
  | index :: rest =>
      let key := from_option id ""%string (pi_Data index) in
      if negb (validObjectKey key) then Err (status_error codes.InvalidArgument "invalid index key")
      else
        let* _ := authorizeSubject identityClient ctx (from_option ph_Subject ""%string (pi_Header index)) in
        let* events := index_loop ctx rest in
        Ok (mkIndex (AsCloudEventHeader (pi_Header index)) key :: events)
  end.

Definition rpc_ListCloudEventsFromIndex (w : World) (ctx : Ctx) (protoIndexList : list ProtoIndex)
  : result status (list ProtoEvent) :=
  if maxIndexKeysPerRequest <? Z.of_nat (length protoIndexList)
  then Err (status_error codes.InvalidArgument "too many indexes")
  else
    let* events := index_loop ctx protoIndexList in
    match fetch_ListCloudEventsFromIndexes w events with
    | Err e => if AsNoSuchKey e then Err (status_errorf codes.NotFound "no objects found" e)
               else Err (status_errorf codes.Internal "failed to get objects" e)
    | Ok data => Ok (map CloudEventToProto data)
    end.

(** ** The port *)

Inductive rpc_request :=
  | GetLatestIndexRequest (r : SearchRequest)
  | ListIndexesRequest (r : SearchRequest)
  | ListCloudEventsRequest (r : SearchRequest)
  | GetLatestCloudEventRequest (r : SearchRequest)
  | ListCloudEventsFromKeysRequest (indexes : list ProtoIndex).

Inductive rpc_response :=
  | IndexResponse (i : ProtoIndex)
  | IndexesResponse (l : list ProtoIndex)
  | EventsResponse (l : list ProtoEvent)
  | EventResponse (e : ProtoEvent).

Definition respond {A} (f : A -> rpc_response) (r : result status A) : result status rpc_response :=
  match r with Ok a => Ok (f a) | Err e => Err e end.

Definition handle (w : World) (ctx : Ctx) (req : rpc_request) : result status rpc_response :=
  match req with
  | GetLatestIndexRequest r => respond IndexResponse (rpc_GetLatestIndex w ctx r)
  | ListIndexesRequest r => respond IndexesResponse (rpc_ListIndexes w ctx r)
  | ListCloudEventsRequest r => respond EventsResponse (rpc_ListCloudEvents w ctx r)
  | GetLatestCloudEventRequest r => respond EventResponse (rpc_GetLatestCloudEvent w ctx r)
  | ListCloudEventsFromKeysRequest l => respond EventsResponse (rpc_ListCloudEventsFromIndex w ctx l)
  end.

(** The auth part of the interceptor chain (internal/app/app.go): without an
    issuer there is no interceptor. *)
Definition serve (issuer : option (string -> result string validated_claims)) (require_ : bool)
    (vals : option (list string)) (w : World) (req : rpc_request) : result status rpc_response :=
  match issuer with
  | Some ValidateToken =>
      NewGRPCFetchAuthInterceptor ValidateToken require_ (fun ctx => handle w ctx req) background vals
  | None => handle w background req
  end.
End server.

(** ** What a caller learns *)

(** The context a request's handler runs with. *)
Definition token_ctx (issuer : option (string -> result string validated_claims)) (vals : option (list string)) : Ctx :=
  match issuer with
  | Some ValidateToken =>
      if String.eqb (bearerFromMetadata vals) "" then background
      else match ValidateToken (bearerFromMetadata vals) with
           | Ok (ClaimsDQ dq) => mkCtx (Some dq) None
           | _ => background
           end
  | None => background
  end.

Section scope.
Context {L : CloudEventLib} {E : EventService} {S : ScopedEventService E}.
Context {D : DIDLib} {DW : DIDLaws D} {T : TokenClaims}.
Context (identityClient : option (string -> result identity_error string)).
#[local] Set Default Proof Using "Type*".

Lemma permits_nonempty ctx s : permits identityClient ctx s = true -> s <> ""%string.
Proof.
  unfold permits, permitted. destruct (ctx_DQClaim ctx); [|done]. by intros [H%negb_true_iff%String.eqb_neq _]%andb_true_iff.
Qed.

Lemma permits_scoped ctx ix : permits identityClient ctx (index_subject ix) = true ->
  scoped_index (permits identityClient ctx) ix.
Proof. intros H. split; [done|by eapply permits_nonempty]. Qed.

Section searches.
Context (ctx : Ctx) (P : string -> bool).
Context (HP : forall s s', authorizeSubject identityClient ctx s = Ok s' -> P s' = true).

Lemma advanced_scoped o o' : authorizeAdvancedOpts identityClient ctx o = Ok o' -> scoped_advanced P (Some o').
Proof using HP.
  intros H. destruct (authorizeAdvancedOpts_scoped _ ctx P HP o o' H) as (l & Hl & Hne & Hp). by exists o', l.
Qed.

Lemma search_scoped o o' : authorizeOpts identityClient ctx o = Ok o' -> scoped_search P (Some o').
Proof using HP. intros H. destruct (authorizeOpts_scoped _ ctx P HP o o' H) as (s & Hs & Hp). by exists o', s. Qed.

Lemma latest_index_agree w1 w2 req : agree P w1 w2 ->
  latest_index identityClient w1 ctx req = latest_index identityClient w2 ctx req.
Proof using HP.
  intros H. unfold latest_index. destruct (rq_AdvancedOptions req) as [o|].
  - destruct (authorizeAdvancedOpts _ _ _) as [o'|] eqn:Eo; [|done]. cbn [result_bind]. f_equal.
    eapply scope_latest_advanced; [exact H|by eapply advanced_scoped].
  - destruct (authorizeOpts _ _ _) as [o'|] eqn:Eo; [|done]. cbn [result_bind]. f_equal.
    eapply scope_latest; [exact H|by eapply search_scoped].
Qed.

Lemma latest_index_scoped w req ix : latest_index identityClient w ctx req = Ok (Ok ix) -> P (index_subject ix) = true.
Proof using HP S.
  unfold latest_index. destruct (rq_AdvancedOptions req) as [o|].
  - destruct (authorizeAdvancedOpts _ _ _) as [o'|] eqn:Eo; [|done]. cbn [result_bind]. intros [= Hx].
    eapply scoped_latest_advanced; [by eapply advanced_scoped|exact Hx].
  - destruct (authorizeOpts _ _ _) as [o'|] eqn:Eo; [|done]. cbn [result_bind]. intros [= Hx].
    eapply scoped_latest; [by eapply search_scoped|exact Hx].
Qed.

Lemma list_indexes_agree w1 w2 req : agree P w1 w2 ->
  list_indexes identityClient w1 ctx req = list_indexes identityClient w2 ctx req.
Proof using HP.
  intros H. unfold list_indexes. destruct (rq_AdvancedOptions req) as [o|].
  - destruct (authorizeAdvancedOpts _ _ _) as [o'|] eqn:Eo; [|done]. cbn [result_bind]. f_equal.
    eapply scope_list_advanced; [exact H|by eapply advanced_scoped].
  - destruct (authorizeOpts _ _ _) as [o'|] eqn:Eo; [|done]. cbn [result_bind]. f_equal.
    eapply scope_list; [exact H|by eapply search_scoped].
Qed.

Lemma list_indexes_scoped w req l : list_indexes identityClient w ctx req = Ok (Ok l) ->
  Z.of_nat (length l) <= maxLakeQueryLimit /\ Forall (fun ix => P (index_subject ix) = true) l.
Proof using HP S.
  unfold list_indexes. destruct (rq_AdvancedOptions req) as [o|].
  - destruct (authorizeAdvancedOpts _ _ _) as [o'|] eqn:Eo; [|done]. cbn [result_bind]. intros [= Hx].
    split; [by eapply list_advanced_bounded|]. eapply scoped_list_advanced; [by eapply advanced_scoped|exact Hx].
  - destruct (authorizeOpts _ _ _) as [o'|] eqn:Eo; [|done]. cbn [result_bind]. intros [= Hx].
    split; [by eapply list_bounded|]. eapply scoped_list; [by eapply search_scoped|exact Hx].
Qed.
End searches.

Lemma permits_returned ctx s s' : authorizeSubject identityClient ctx s = Ok s' -> permits identityClient ctx s' = true.
Proof using DW. intros H. by destruct (authorizeSubject_permitted _ _ _ _ H). Qed.

Lemma permits_all ctx l : Forall (fun ix => permits identityClient ctx (index_subject ix) = true) l ->
  Forall (scoped_index (permits identityClient ctx)) l.
Proof. intros H. eapply Forall_impl; [exact H|]. intros ix. apply permits_scoped. Qed.

Lemma fetch_agree ctx w1 w2 l : agree (permits identityClient ctx) w1 w2 ->
  Forall (scoped_index (permits identityClient ctx)) l ->
  fetch_ListCloudEventsFromIndexes w1 l = fetch_ListCloudEventsFromIndexes w2 l.
Proof.
  intros H Hl. unfold fetch_ListCloudEventsFromIndexes. destruct (is_empty l); [done|]. by eapply scope_get_all.
Qed.

Lemma header_subject h : ce_Subject (hd (AsCloudEventHeader h)) = from_option ph_Subject ""%string h.
Proof using. by destruct h. Qed.

Lemma index_loop_scoped ctx l events : index_loop identityClient ctx l = Ok events ->
  Forall (scoped_index (permits identityClient ctx)) events.
Proof.
  revert events. induction l as [|ix l IH]; intros events; cbn [index_loop]; [by intros [= <-]|].
  destruct (negb (validObjectKey _)); [done|].
  destruct (authorizeSubject _ _ _) as [a|] eqn:Ea; [|done]. cbn [result_bind].
  destruct (index_loop identityClient ctx l) as [r|]; [|done]. cbn [result_bind]. intros [= <-].
  constructor; [|by apply IH]. apply permits_scoped. unfold index_subject. cbn [ix_Header].
  rewrite header_subject. by destruct (authorizeSubject_permitted _ _ _ _ Ea).
Qed.

Lemma handle_agree ctx w1 w2 req : agree (permits identityClient ctx) w1 w2 ->
  handle identityClient w1 ctx req = handle identityClient w2 ctx req.
Proof.
  intros H. pose proof (permits_returned ctx) as HP. destruct req as [r|r|r|r|l]; cbn [handle]; f_equal.
  - unfold rpc_GetLatestIndex. by rewrite (latest_index_agree ctx _ HP w1 w2).
  - unfold rpc_ListIndexes. by rewrite (list_indexes_agree ctx _ HP w1 w2).
  - unfold rpc_ListCloudEvents. rewrite (list_indexes_agree ctx _ HP w1 w2) by done.
    destruct (list_indexes _ _ _ _) as [[l|]|] eqn:El; [|done..]. cbn [result_bind].
    destruct (is_empty l); [done|]. destruct (list_indexes_scoped ctx _ HP _ _ _ El) as [_ Hl%permits_all].
    by rewrite (fetch_agree ctx w1 w2).
  - unfold rpc_GetLatestCloudEvent. rewrite (latest_index_agree ctx _ HP w1 w2) by done.
    destruct (latest_index _ _ _ _) as [[ix|]|] eqn:Ei; [|done..]. cbn [result_bind].
    rewrite (scope_get (permits identityClient ctx) w1 w2); [done|done|].
    apply permits_scoped. by eapply latest_index_scoped.
  - unfold rpc_ListCloudEventsFromIndex. destruct (_ <? _); [done|].
    destruct (index_loop _ _ _) as [events|] eqn:Ee; [|done]. cbn [result_bind].
    by rewrite (fetch_agree ctx w1 w2) by (done || by eapply index_loop_scoped).
Qed.

(** C5. Non-interference of the fetch port: whatever the request, the answer of
    the server to a token depends only on the cloud events of the token's own
    vehicle and of devices the identity service links to it. Two stores that
    agree on those, and differ arbitrarily on every other subject's events,
    produce one response, errors included; a request without a valid token
    learns nothing of any subject. *)
Theorem rpc_noninterference issuer require_ vals w1 w2 req :
  agree (permits identityClient (token_ctx issuer vals)) w1 w2 ->
  serve identityClient issuer require_ vals w1 req = serve identityClient issuer require_ vals w2 req.
Proof.
  unfold serve, token_ctx. destruct issuer as [ValidateToken|]; [|apply handle_agree].
  unfold NewGRPCFetchAuthInterceptor. destruct (String.eqb _ "").
  { destruct require_; [done|apply handle_agree]. }
  destruct (ValidateToken _) as [[| | |dq]|]; try done. destruct (grpcHasRawDataAccess _); [|done].
  apply handle_agree.
Qed.

(** ** No answer without a token *)

Lemma handle_needs_claim w ctx req resp : ctx_DQClaim ctx = None ->
  handle identityClient w ctx req = Ok resp -> req = ListCloudEventsFromKeysRequest [] /\ resp = EventsResponse [].
Proof using.
  intros Hc.
  assert (Hs : forall s, exists st, authorizeSubject identityClient ctx s = Err st).
  { intros s. unfold authorizeSubject. rewrite Hc. by eexists. }
  assert (Ha : forall o, exists st, authorizeAdvancedOpts identityClient ctx o = Err st).
  { intros [o|]; cbn; [|by eexists]. destruct (from_option sf_In [] (ao_Subject o)) as [|s l]; cbn; [by eexists|].
    destruct (Hs s) as [st ->]. by eexists. }
  assert (Ho : forall o, exists st, authorizeOpts identityClient ctx o = Err st).
  { intros [o|]; cbn; [|by eexists]. edestruct Hs as [st ->]. by eexists. }
  assert (Hl : forall r, exists st, latest_index identityClient w ctx r = Err st).
  { intros r. unfold latest_index. destruct (rq_AdvancedOptions r); [edestruct Ha as [st ->]|edestruct Ho as [st ->]]; by eexists. }
  assert (Hi : forall r, exists st, list_indexes identityClient w ctx r = Err st).
  { intros r. unfold list_indexes. destruct (rq_AdvancedOptions r); [edestruct Ha as [st ->]|edestruct Ho as [st ->]]; by eexists. }
  destruct req as [r|r|r|r|l]; cbn [handle].
  - unfold rpc_GetLatestIndex. by destruct (Hl r) as [st ->].
  - unfold rpc_ListIndexes. by destruct (Hi r) as [st ->].
  - unfold rpc_ListCloudEvents. by destruct (Hi r) as [st ->].
  - unfold rpc_GetLatestCloudEvent. by destruct (Hl r) as [st ->].
  - unfold rpc_ListCloudEventsFromIndex. destruct (_ <? _); [done|]. destruct l as [|ix l].
    + cbn. by intros [= <-].
    + cbn [index_loop]. destruct (negb (validObjectKey _)); [done|]. edestruct Hs as [st ->]. done.
Qed.

(** C30. The port fails closed, whether or not FETCH_GRPC_REQUIRE_JWT is set and
    even with no issuer configured: a response comes only to a bearer token that
    validates to dq's claims with raw-data access, or is the empty answer to an
    empty list of indexes. *)
Theorem fetch_port_fails_closed issuer require_ vals w req resp :
  serve identityClient issuer require_ vals w req = Ok resp ->
  (req = ListCloudEventsFromKeysRequest [] /\ resp = EventsResponse []) \/
  exists ValidateToken claim,
    issuer = Some ValidateToken /\ bearerFromMetadata vals <> ""%string /\
    ValidateToken (bearerFromMetadata vals) = Ok (ClaimsDQ claim) /\
    (PermissionGetRawData ∈ Permissions claim \/
     PermissionGetLocationHistory ∈ Permissions claim /\ PermissionGetNonLocationHistory ∈ Permissions claim).
Proof using.
  unfold serve. destruct issuer as [ValidateToken|]; [|intros H; left; exact (handle_needs_claim w background req resp eq_refl H)].
  unfold NewGRPCFetchAuthInterceptor. destruct (String.eqb_spec (bearerFromMetadata vals) "") as [Er|Er].
  { destruct require_; [done|]. intros H. left. exact (handle_needs_claim w background req resp eq_refl H). }
  destruct (ValidateToken _) as [[| | |dq]|] eqn:Ev; try done.
  destruct (grpcHasRawDataAccess (Permissions dq)) eqn:Ea; [|done]. intros _. right.
  exists ValidateToken, dq. split_and!; [done..|]. revert Ea. unfold grpcHasRawDataAccess.
  destruct (mem PermissionGetRawData (Permissions dq)) eqn:Em; [intros _; left; by apply mem_true|].
  intros [H1 H2]%andb_true_iff. right. split; by apply mem_true.
Qed.

(** ** A page of indexes, read back *)

Definition rebuilt (ix : Index) : Index :=
  mkIndex (AsCloudEventHeader (Some (CloudEventHeaderToProto (ix_Header ix)))) (ix_Key ix).

Lemma index_loop_page ctx l :
  Forall (fun ix => validObjectKey (ix_Key ix) = true) l ->
  Forall (fun ix => authorized identityClient ctx (index_subject ix) = true) l ->
  index_loop identityClient ctx (map index_to_proto l) = Ok (map rebuilt l).
Proof using.
  induction l as [|ix l IH]; intros Hk Ha; [done|]. inversion Hk as [|? ? Hk1 Hk2]; inversion Ha as [|? ? Ha1 Ha2]; subst.
  cbn [map index_loop index_to_proto pi_Data pi_Header from_option id]. unfold id. rewrite Hk1. cbn [negb].
  change (ph_Subject (CloudEventHeaderToProto (ix_Header ix))) with (index_subject ix).
  unfold authorized in Ha1. destruct (authorizeSubject _ _ _); [|done]. cbn [result_bind]. by rewrite IH.
Qed.

(** C16. Round trip of a page: the indexes [ListIndexes] returned, sent back
    through the wire messages to [ListCloudEventsFromIndex] by the same caller,
    give exactly the events [ListCloudEvents] returns for the search. A page
    never exceeds the bound on the keys of one request, its subjects are
    authorized again, and of each header the conversions keep what the lookup
    reads; the keys must be ones the server accepts. *)
Theorem page_roundtrip w ctx req page events :
  rpc_ListIndexes identityClient w ctx req = Ok page ->
  Forall (fun p => validObjectKey (from_option id ""%string (pi_Data p)) = true) page ->
  rpc_ListCloudEventsFromIndex identityClient w ctx page = Ok events <->
  rpc_ListCloudEvents identityClient w ctx req = Ok events.
Proof.
  unfold rpc_ListIndexes, rpc_ListCloudEvents.
  destruct (list_indexes identityClient w ctx req) as [[l|e]|st] eqn:El; [|done..]. cbn [result_bind].
  destruct (is_empty l) eqn:Ee; [done|]. intros [= <-] Hk.
  destruct (list_indexes_scoped ctx (authorized identityClient ctx) (fun s s' => authorizeSubject_again _ _ _ _) _ _ _ El)
    as [Hlen Ha].
  assert (Hk' : Forall (fun ix => validObjectKey (ix_Key ix) = true) l).
  { revert Hk. clear. induction l as [|ix l IH]; intros Hk; constructor; inversion Hk; subst; [done|by apply IH]. }
  unfold rpc_ListCloudEventsFromIndex. rewrite length_map.
  destruct (Z.ltb_spec maxIndexKeysPerRequest (Z.of_nat (length l))) as [Hlt|_].
  { unfold maxIndexKeysPerRequest, maxLakeQueryLimit in *. lia. }
  rewrite index_loop_page by done. cbn [result_bind]. unfold fetch_ListCloudEventsFromIndexes.
  replace (is_empty (map rebuilt l)) with false by by destruct l. rewrite Ee.
  rewrite (columns_suffice w (map rebuilt l) l).
  - destruct (es_ListCloudEventsFromIndexes w l); [done|]. by destruct (AsNoSuchKey _), (IsBudgetExceeded _).
  - clear. induction l as [|ix l IH]; constructor; [|done]. apply header_columns_roundtrip.
Qed.
End scope.

(** ** Failures of a lookup by index *)

Section failures.
Context {L : CloudEventLib} {A : AEAD} (getter : bool) (blobCipher : option Blobcrypt.Key).
Context (presigner : option (string -> string -> result string string)) (bucket : string).
Context (range_order : gmap string (list string) -> list string).
Context {D : DIDLib} {T : TokenClaims} (identityClient : option (string -> result identity_error string)).
#[local] Existing Instance LakeEventService.

Lemma resolve_no_such_key lk ev e : resolvePayload getter blobCipher lk ev = Err e -> AsNoSuchKey e = false.
Proof.
  unfold resolvePayload. destruct (_ || _); [done|]. destruct (negb (HasBlobPrefix _)); [done|].
  destruct (negb getter); [by intros [= <-]|].
  destruct (DownloadObject _ _) as [data|b]; cycle 1.
  { destruct (IsObjectNotFound b) eqn:Eb; [done|]. intros [= <-]. cbn. by destruct b as [[]| | | | | |]. }
  destruct blobCipher; [|done]. destruct (Open _ _ _); [done|]. by intros [= <-].
Qed.

Lemma fetch_no_such_key now lk subjects l e :
  ListCloudEventsFromIndexes getter blobCipher now lk subjects l = Err e -> AsNoSuchKey e = false.
Proof.
  assert (Hq : forall s ids limit op e, queryLakeRaw now lk (by_id_filter s ids) limit op = Err e -> AsNoSuchKey e = false).
  { intros s ids limit op e'. unfold queryLakeRaw, queryLakeRawCols. destruct (lk_fails _ _ _); [by intros [= <-]|done]. }
  assert (Hb : forall s bs m e, batch_loop now lk s bs m = Err e -> AsNoSuchKey e = false).
  { intros s bs. induction bs as [|b bs IH]; intros m e'; [done|]. cbn [batch_loop].
    destruct (queryLakeRaw _ _ _ _ _) eqn:Eq; cbn [result_bind]; [apply IH|]. intros [= <-]. by eapply Hq. }
  assert (Hs : forall ids ss m e, subjects_loop now lk ids ss m = Err e -> AsNoSuchKey e = false).
  { intros ids ss. induction ss as [|s ss IH]; intros m e'; [done|]. cbn [subjects_loop].
    destruct (batch_loop _ _ _ _ _) eqn:Eq; cbn [result_bind]; [apply IH|]. intros [= <-]. by eapply Hb. }
  assert (Ho : forall m ixs e, order_matched m ixs = Err e -> AsNoSuchKey e = false).
  { intros m ixs. induction ixs as [|ix ixs IH]; intros e'; [done|]. cbn [order_matched].
    destruct (m.1 !! _); [|destruct (m.2 !! _); [|by intros [= <-]]];
      (destruct (order_matched m ixs) eqn:Eq; cbn [result_bind]; [done|]; intros [= <-]; by apply IH). }
  assert (Hr : forall b evs e, resolve_seq getter blobCipher lk b evs = Err e -> AsNoSuchKey e = false).
  { intros b evs. revert b. induction evs as [|ev evs IH]; intros b e'; [done|]. cbn [resolve_seq].
    destruct (_ <? _); [by intros [= <-]|].
    destruct (resolvePayload _ _ _ _) eqn:Er; cbn [result_bind]; [|intros [= <-]; by eapply resolve_no_such_key].
    destruct (_ <? _); [by intros [= <-]|]. destruct (resolve_seq _ _ _ _ _) eqn:Es; cbn [result_bind]; [done|].
    intros [= <-]. by eapply IH. }
  unfold ListCloudEventsFromIndexes, find_events. destruct (is_empty l); [done|].
  destruct (subjects_loop _ _ _ _ _) eqn:E1; cbn [result_bind]; [|intros [= <-]; by eapply Hs].
  destruct (order_matched _ _) eqn:E2; cbn [result_bind]; [apply Hr|]. intros [= <-]. by eapply Ho.
Qed.

(** Over the lake, [ListCloudEventsFromIndex] reports every failure of the
    lookup itself as Internal: an index with no event is not NotFound (only a
    missing object would be, and the lake serves that as an empty payload), and a
    list over the payload budget is not ResourceExhausted, as it is for
    [ListCloudEvents]. *)
Theorem from_index_failures_internal (w : lake_world) ctx l events e :
  let E := LakeEventService getter blobCipher bucket presigner range_order in
  Z.of_nat (length l) <= maxIndexKeysPerRequest ->
  index_loop identityClient ctx l = Ok events ->
  fetch_ListCloudEventsFromIndexes (E := E) w events = Err e ->
  rpc_ListCloudEventsFromIndex (E := E) identityClient w ctx l =
    Err (status_errorf codes.Internal "failed to get objects" e).
Proof.
  cbv zeta. intros Hl He Hf. unfold rpc_ListCloudEventsFromIndex.
  destruct (Z.ltb_spec maxIndexKeysPerRequest (Z.of_nat (length l))); [lia|]. rewrite He. cbn [result_bind].
  rewrite Hf. unfold fetch_ListCloudEventsFromIndexes in Hf. destruct (is_empty events); [done|].
  cbn [es_ListCloudEventsFromIndexes LakeEventService] in Hf.
  by rewrite (fetch_no_such_key _ _ _ _ _ Hf).
Qed.
End failures.

(** ** A token, a device and two lakes *)

Definition demo_did : DIDLib := {|
  DecodeERC721DID s := if String.prefix "did:" s then Some s else None |}.

Lemma demo_did_laws : DIDLaws demo_did.
Proof.
  split; cbn; intros s d; destruct (String.prefix "did:" s) eqn:E; try done; intros [= <-]; [|by rewrite E].
  intros ->. done.
Qed.

Definition demo_claims_lib : TokenClaims := {|
  PermissionGetNonLocationHistory := "nonlocation"; PermissionExecuteCommands := "commands";
  PermissionGetCurrentLocation := "location"; PermissionGetLocationHistory := "alltime";
  PermissionGetVINCredential := "vin"; PermissionGetApproximateLocation := "approximate";
  PermissionGetRawData := "raw" |}.

(** A token for vehicle did:a, to which device did:d is linked. *)
Definition demo_identity : option (string -> result identity_error string) :=
  Some (fun d => if String.eqb d "did:d" then Ok "did:a"%string else Err (ErrDeviceNotFound "")).

Definition demo_validate (raw : string) : result string validated_claims :=
  if String.eqb raw "tok" then Ok (ClaimsDQ (mkClaim "did:a" ["raw"%string])) else Err "bad"%string.

Definition demo_service : EventService :=
  LakeEventService (L := demo_lib) (A := toy_aead) true None "bucket" None (fun m => elements (dom m)).

Definition demo_world (rows : list RawRow) : lake_world := mkWorld 0 (demo_fetch_lake rows) false false.

(** Another subject's events differ, and void one another. *)
Definition other_events : list RawRow :=
  [demo_event "did:b" 0 "dimo.status" "e9" "9" None; demo_event "did:b" 0 "dimo.tombstone" "t9" "" (Some "e1"%string)]
  ++ take 6 demo_events.

Definition search_for (s : string) : SearchRequest := mkRequest 10 None (Some (options_for s)).

Lemma demo_agree : lake_agree (permits (D := demo_did) demo_identity (token_ctx (Some demo_validate) (Some ["Bearer tok"%string])))
  (demo_world demo_events) (demo_world other_events).
Proof. split; try reflexivity; by vm_compute. Qed.

Example rpc_noninterference_witness :
  demo_events <> other_events /\
  serve (E := demo_service) (D := demo_did) (T := demo_claims_lib) demo_identity (Some demo_validate) true
    (Some ["Bearer tok"%string]) (demo_world demo_events) (ListCloudEventsRequest (search_for "did:a")) =
  serve (E := demo_service) (D := demo_did) (T := demo_claims_lib) demo_identity (Some demo_validate) true
    (Some ["Bearer tok"%string]) (demo_world other_events) (ListCloudEventsRequest (search_for "did:a")).
Proof.
  split; [discriminate|].
  apply (rpc_noninterference (E := demo_service)
    (S := LakeEventService_scoped (L := demo_lib) (W := demo_lib_laws) (A := toy_aead) true None "bucket" None (fun m => elements (dom m)))
    (D := demo_did) (DW := demo_did_laws) (T := demo_claims_lib) demo_identity (Some demo_validate) true).
  exact demo_agree.
Defined.

Example fetch_port_fails_closed_witness :
  exists resp,
    serve (E := demo_service) (D := demo_did) (T := demo_claims_lib) demo_identity (Some demo_validate) false
      (Some ["bearer tok"%string]) (demo_world demo_events) (ListIndexesRequest (search_for "did:a")) = Ok resp /\
    exists claim, demo_validate (bearerFromMetadata (Some ["bearer tok"%string])) = Ok (ClaimsDQ claim).
Proof.
  eexists. split; [vm_compute; reflexivity|].
  edestruct (fetch_port_fails_closed (E := demo_service) (D := demo_did) (T := demo_claims_lib) demo_identity
    (Some demo_validate) false (Some ["bearer tok"%string]) (demo_world demo_events)
    (ListIndexesRequest (search_for "did:a"))) as [[H _]|(V & claim & [= <-] & _ & H & _)]; [vm_compute; reflexivity|done|].
  exists claim. exact H.
Defined.

(** The context of the demo token. *)
Definition demo_ctx : Ctx := mkCtx (Some (mkClaim "did:a" ["raw"%string])) None.

Definition demo_page : list ProtoIndex :=
  match rpc_ListIndexes (E := demo_service) (D := demo_did) demo_identity (demo_world demo_events) demo_ctx
          (search_for "did:a") with Ok p => p | Err _ => [] end.

Example page_roundtrip_witness :
  length demo_page = 3%nat /\
  exists events,
    rpc_ListCloudEventsFromIndex (E := demo_service) (D := demo_did) demo_identity (demo_world demo_events) demo_ctx
      demo_page = Ok events /\ map pe_Data events = map bytes_of ["4"; "11"; "222"]%string.
Proof.
  split; [vm_compute; reflexivity|]. eexists. split.
  - apply (page_roundtrip (E := demo_service)
      (S := LakeEventService_scoped (L := demo_lib) (W := demo_lib_laws) (A := toy_aead) true None "bucket" None (fun m => elements (dom m)))
      (D := demo_did) (DW := demo_did_laws) demo_identity (demo_world demo_events) demo_ctx (search_for "did:a") demo_page).
    + vm_compute. reflexivity.
    + apply Forall_forall. intros p Hp%list_elem_of_In. revert p Hp.
      apply (proj1 (forallb_forall (fun p => validObjectKey (from_option id ""%string (pi_Data p))) demo_page)).
      vm_compute. reflexivity.
    + vm_compute. reflexivity.
  - vm_compute. reflexivity.
Defined.

(** An index of an event the lake does not hold. *)
Definition absent_index : ProtoIndex :=
  mkProtoIndex (Some (mkProtoHeader "gone" "" "" "" "did:a" None "" "" "" "" ∅ "" "" [])) (Some "k"%string).

Example from_index_failures_internal_witness :
  rpc_ListCloudEventsFromIndex (E := demo_service) (D := demo_did) demo_identity (demo_world demo_events) demo_ctx
    [absent_index] = Err (status_errorf codes.Internal "failed to get objects" EEventNotFound).
Proof.
  apply (from_index_failures_internal (L := demo_lib) (A := toy_aead) true None None "bucket" (fun m => elements (dom m))
    (D := demo_did) demo_identity (demo_world demo_events) demo_ctx [absent_index]
    [mkIndex (AsCloudEventHeader (pi_Header absent_index)) "k"] EEventNotFound).
  - by compute.
  - vm_compute. reflexivity.
  - vm_compute. reflexivity.
Defined.
