(* ===== verification/Graph.v ===== *)
(** * internal/graph: resolvers that decide what a caller sees

    Cloud events by subject (cloud_events.resolvers.go, convert.go), and the
    privilege gates on signal names, counts and values (privilege_filter.go,
    base.resolvers.go). The other resolvers only hand their arguments to the
    repository. *)

From S2P Require Import Prelude Model SegUtil Source SegRepo Validate Coordinates Blobcrypt Decode Blobs SignalsRepo Sql RawEvents LakeFetch FetchScope Auth FetchRpc.

(** ** convert.go *)

Record CloudEventFilter := mkCloudEventFilter {
  cf_Type : option string;
  cf_Types : list string;
  cf_ID : option string;
  cf_Dataversion : option string;
  cf_Source : option string;
  cf_Producer : option string;
  cf_Before : option Z;
  cf_After : option Z;
}.

Definition filterToAdvancedSearchOptions (filter : option CloudEventFilter) (subject : string)
  : AdvancedSearchOptions :=
  let only v := mkStringFilter [v] [] [] in
  match filter with
  | None => mkAdvanced (Some (only subject)) None None None None None None None None None None
  | Some f =>
      let allTypes := option_list (cf_Type f) ++ cf_Types f in
      mkAdvanced (Some (only subject))
        (if is_empty allTypes then None else Some (mkStringFilter allTypes [] []))
        (only <$> cf_Source f) (only <$> cf_Producer f) (only <$> cf_ID f) (only <$> cf_Dataversion f)
        None None (cf_After f) (cf_Before f) None
  end.

Definition defaultLimit : Z := 10.

Definition resolveLimit (limit : option Z) : Z :=
  match limit with Some n => if 0 <? n then n else defaultLimit | None => defaultLimit end.

(** ** cloud_events.resolvers.go *)

Record CloudEventWrapper := mkWrapper { cw_Raw : FetchedEvent; cw_DataURL : option string }.

Inductive graph_error := GAuth (msg : string) | GService (e : fetch_error).

Definition lift {A} (r : result fetch_error A) : result graph_error A :=
  match r with Ok a => Ok a | Err e => Err (GService e) end.

Definition header_only (h : Header) : FetchedEvent := mkFetched h [] "".

Section resolvers.
Context {E : EventService} {D : DIDLib} {T : TokenClaims}.
Context (identityClient : option (string -> result identity_error string)).

Definition requireSubjectOptsByDID (ctx : Ctx) (requestedDID : string) (filter : option CloudEventFilter)
  : result graph_error AdvancedSearchOptions :=
  match requireRawDataToken ctx with
  | Err msg => Err (GAuth msg)
  | Ok token =>
      match ensureRequestedDIDLinkedToPermissionedSubject identityClient requestedDID (Asset token) with
      | Err msg => Err (GAuth msg)
      | Ok searchSubject => Ok (filterToAdvancedSearchOptions filter searchSubject)
      end
  end.

(** Whether the payload is served as a URL. *)
Definition presigned (key : string) : bool := HasBlobPrefix key && negb es_BlobsMaybeSealed.

(** [fetchData]: the selection asks for data or dataBase64. *)
Definition LatestCloudEvent (w : World) (ctx : Ctx) (fetchData : bool) (subject : string)
    (filter : option CloudEventFilter) : result graph_error CloudEventWrapper :=
  let* opts := requireSubjectOptsByDID ctx subject filter in
  let* idx := lift (es_GetLatestIndexAdvanced w (Some opts)) in
  let hdr := ix_Header idx in
  if presigned (ix_Key idx) then
    let* url := lift (es_PresignBlobURL w (ix_Key idx)) in
    Ok (mkWrapper (header_only hdr) (Some url))
  else if negb fetchData then Ok (mkWrapper (header_only hdr) None)
  else
    let* ce := lift (es_GetCloudEventFromIndex w idx) in Ok (mkWrapper ce None).

(** The loop over the indexes: the slots it fills, [None] for the events that are
    fetched afterwards, and those. *)
Fixpoint wrap_loop (w : World) (fetchData : bool) (list_ : list Index)
  : result graph_error (list (option CloudEventWrapper) * list Index) :=
  match list_ with
  | [] => Ok ([], [])
  | idx :: rest =>
      let hdr := ix_Header idx in
      if presigned (ix_Key idx) then
        let* url := lift (es_PresignBlobURL w (ix_Key idx)) in
        let* r := wrap_loop w fetchData rest in
        Ok (Some (mkWrapper (header_only hdr) (Some url)) :: r.1, r.2)
      else if fetchData then
        let* r := wrap_loop w fetchData rest in Ok (None :: r.1, idx :: r.2)
      else
        let* r := wrap_loop w fetchData rest in Ok (Some (mkWrapper (header_only hdr) None) :: r.1, r.2)
  end.

(** [out[nonBlobPos[j]]] for each event fetched. *)
Fixpoint fill (out : list (option CloudEventWrapper)) (events : list FetchedEvent) : list (option CloudEventWrapper) :=
  match out, events with
  | None :: rest, ev :: evs => Some (mkWrapper ev None) :: fill rest evs
  | slot :: rest, _ => slot :: fill rest events
  | [], _ => []
  end.

Definition CloudEvents (w : World) (ctx : Ctx) (fetchData : bool) (subject : string) (limit : option Z)
    (filter : option CloudEventFilter) : result graph_error (list (option CloudEventWrapper)) :=
  let* opts := requireSubjectOptsByDID ctx subject filter in
  match es_ListIndexesAdvanced w (resolveLimit limit) (Some opts) with
  | Err e => if IsErrNoRows e then Ok [] else Err (GService e)
  | Ok list_ =>
      let* r := wrap_loop w fetchData list_ in
      if is_empty r.2 then Ok r.1
      else
        let* events := lift (fetch_ListCloudEventsFromIndexes w r.2) in Ok (fill r.1 events)
  end.

(** [int(s.Count)]. *)
Definition AvailableCloudEventTypes (w : World) (ctx : Ctx) (subject : string) (filter : option CloudEventFilter)
  : result graph_error (list CloudEventTypeSummary) :=
  let* opts := requireSubjectOptsByDID ctx subject filter in
  let* summaries := lift (es_TypeSummaries w (Some opts)) in
  Ok (map (fun s => mkTypeSummary (ts_Type s) (wrap64 (ts_Count s)) (ts_FirstSeen s) (ts_LastSeen s)) summaries).

(** The fields of one event. *)
Definition resolve_Header (obj : option CloudEventWrapper) : option Header := (fun o => fe_Header (cw_Raw o)) <$> obj.

Definition resolve_Data (obj : option CloudEventWrapper) : option (list Z) :=
  match obj with
  | Some o => if is_empty (fe_Data (cw_Raw o)) then None else Some (fe_Data (cw_Raw o))
  | None => None
  end.

Definition resolve_DataBase64 (obj : option CloudEventWrapper) : option string :=
  match obj with
  | Some o => if String.eqb (fe_DataBase64 (cw_Raw o)) "" then None else Some (fe_DataBase64 (cw_Raw o))
  | None => None
  end.
End resolvers.

(** ** privilege_filter.go *)

Section privileges.
Context {T : TokenClaims}.

(** [Repository.RequiredPrivileges]: the map built from the definitions file. *)
Context (signalPrivileges : gmap string (list string)).

Definition RequiredPrivileges (signalName : string) : option (list string) := signalPrivileges !! signalName.

Definition privilegeEnumToPermission : gmap string string :=
  list_to_map
    [ ("VEHICLE_NON_LOCATION_DATA", PermissionGetNonLocationHistory);
      ("VEHICLE_COMMANDS", PermissionExecuteCommands);
      ("VEHICLE_CURRENT_LOCATION", PermissionGetCurrentLocation);
      ("VEHICLE_ALL_TIME_LOCATION", PermissionGetLocationHistory);
      ("VEHICLE_VIN_CREDENTIAL", PermissionGetVINCredential);
      ("VEHICLE_APPROXIMATE_LOCATION", PermissionGetApproximateLocation);
      ("VEHICLE_RAW_DATA", PermissionGetRawData) ]%string.

Fixpoint privileges_loop (required permissions : list string) : bool :=
  match required with
  | [] => true
  | priv :: rest =>
      match privilegeEnumToPermission !! priv with
      | None => false
      | Some perm => if negb (mem perm permissions) then false else privileges_loop rest permissions
      end
  end.

Definition hasPrivilegesForSignal (name : string) (permissions : list string) : bool :=
  if String.eqb name ApproximateCoordinatesField then
    mem PermissionGetApproximateLocation permissions || mem PermissionGetLocationHistory permissions
  else match RequiredPrivileges name with
  | None => false
  | Some required => privileges_loop required permissions
  end.

(** [permissionsFromCtx]. *)
Definition permissionsFromCtx (ctx : Ctx) : list string :=
  match ctx_Claims ctx with Some tok => Permissions tok | None => [] end.

(** ** base.resolvers.go *)

Definition visible_name (ctx : Ctx) (name : string) : bool := hasPrivilegesForSignal name (permissionsFromCtx ctx).


Definition resolve_DataSummary {sb : SignalBackend} (now : Z) (ctx : Ctx) (subject : string)
    (filter_ : option SignalFilter) : result api_error DataSummary :=
  let* summary := GetDataSummary now subject filter_ in
  let names := List.filter (visible_name ctx) (ds_AvailableSignals summary) in
  let sds := List.filter (fun s => visible_name ctx (sds_Name s)) (ds_SignalDataSummary summary) in
  let total := fold_left (fun n s => addU64 n (sds_NumberOfSignals s)) sds 0 in
  Ok (mkDataSummary total (ds_FirstSeen summary) (ds_LastSeen summary) names sds (ds_EventDataSummary summary)).
End privileges.

Section snapshot.
Context {T : TokenClaims} {Cell : Type}.
Context (LatLngToCell : float64 -> float64 -> Z -> option Cell) (CellToLatLng : Cell -> option (float64 * float64)).
Context (signalPrivileges : gmap string (list string)).


(** [alias]: the field's alias in the request. *)
Definition resolve_CurrentLocationApproximateCoordinates (obj : SignalAggregations) (alias : string) : option Location :=
  vl ← ValueLocations obj !! alias;
  '(lat, lng) ← GetApproximateLoc LatLngToCell CellToLatLng (vl_Latitude vl) (vl_Longitude vl);
  Some (mkLocation lat lng (vl_HDOP vl)).
End snapshot.

(** ** What the cloud event resolvers reveal *)

Section graph_scope.
Context {E : EventService} {S : ScopedEventService E} {D : DIDLib} {DW : DIDLaws D} {T : TokenClaims}.
Context (identityClient : option (string -> result identity_error string)).

(** What the token of a GraphQL request permits. *)
Definition graph_permits (ctx : Ctx) (s : string) : bool :=
  match ctx_Claims ctx with Some claim => permitted identityClient claim s | None => false end.

Lemma require_scoped ctx subject filter opts :
  (forall claim, ctx_Claims ctx = Some claim -> Asset claim <> ""%string) ->
  requireSubjectOptsByDID identityClient ctx subject filter = Ok opts ->
  scoped_advanced (graph_permits ctx) (Some opts).
Proof.
  intros Hne. unfold requireSubjectOptsByDID, requireRawDataToken, graph_permits.
  destruct (ctx_Claims ctx) as [claim|] eqn:Ec; [|done]. destruct (negb _); [done|].
  destruct (ensureRequestedDIDLinkedToPermissionedSubject _ _ _) as [s|] eqn:Es; [|done]. intros [= <-].
  assert (Hp : permitted identityClient claim s = true).
  { destruct (decide (subject = ""%string)) as [->|Hs].
    - revert Es. unfold ensureRequestedDIDLinkedToPermissionedSubject.
      destruct (String.eqb_spec "" (Asset claim)) as [Ha|_]; [by destruct (Hne claim eq_refl)|].
      destruct (DecodeERC721DID "") as [d|] eqn:Ed; [|done]. unfold permitted, linked_to.
      destruct identityClient as [client|]; [|done]. destruct (client d) as [v|] eqn:Ev; [|done].
      destruct (String.eqb v (Asset claim)) eqn:Ea; [|done]. intros [= <-].
      rewrite Ev, Ea, orb_true_r. by rewrite (proj2 (String.eqb_neq d "") (decoded_nonempty _ d Ed)).
    - pose proof (checks_agree identityClient (mkCtx (Some claim) None) claim subject eq_refl Hs) as Hx.
      rewrite Es in Hx. by destruct (authorizeSubject_permitted _ _ _ _ Hx). }
  eexists _, [s]. split; [done|]. split_and!; [by destruct filter|done|by constructor].
Qed.

Lemma graph_scoped_index ctx ix : graph_permits ctx (index_subject ix) = true -> scoped_index (graph_permits ctx) ix.
Proof.
  intros H. split; [done|]. revert H. unfold graph_permits. destruct (ctx_Claims ctx); [|done].
  unfold permitted. by intros [H%negb_true_iff%String.eqb_neq _]%andb_true_iff.
Qed.

Lemma wrap_loop_agree P w1 w2 fetchData l : agree P w1 w2 -> wrap_loop w1 fetchData l = wrap_loop w2 fetchData l.
Proof.
  intros H. induction l as [|ix l IH]; [done|]. cbn [wrap_loop].
  by rewrite (scope_presign P w1 w2 _ H), IH.
Qed.

Lemma wrap_loop_pending P w fetchData l r : wrap_loop w fetchData l = Ok r ->
  Forall (scoped_index P) l -> Forall (scoped_index P) r.2.
Proof.
  revert r. induction l as [|ix l IH]; intros r; cbn [wrap_loop]; [by intros [= <-]|].
  intros Hr Hl. inversion Hl as [|? ? H1 H2]; subst. revert Hr. destruct (presigned _).
  - destruct (lift _); [|done]. cbn [result_bind]. destruct (wrap_loop w fetchData l) as [q|] eqn:Eq; [|done].
    intros [= <-]. by apply (IH q).
  - destruct fetchData; (destruct (wrap_loop w _ l) as [q|] eqn:Eq; [|done]; intros [= <-]).
    + constructor; [done|by apply (IH q)].
    + by apply (IH q).
Qed.

(** C23. The cloud event resolvers of the GraphQL surface reveal to a token only
    events of its vehicle and of devices linked to it: over two stores that agree
    on those, the latest event, every page of events and the summary of types are
    the same, presigned URLs, payloads and errors included. *)
Theorem graph_noninterference ctx w1 w2 fetchData subject limit filter :
  (forall claim, ctx_Claims ctx = Some claim -> Asset claim <> ""%string) ->
  agree (graph_permits ctx) w1 w2 ->
  LatestCloudEvent identityClient w1 ctx fetchData subject filter =
    LatestCloudEvent identityClient w2 ctx fetchData subject filter /\
  CloudEvents identityClient w1 ctx fetchData subject limit filter =
    CloudEvents identityClient w2 ctx fetchData subject limit filter /\
  AvailableCloudEventTypes identityClient w1 ctx subject filter =
    AvailableCloudEventTypes identityClient w2 ctx subject filter.
Proof.
  intros Hne H. unfold LatestCloudEvent, CloudEvents, AvailableCloudEventTypes.
  destruct (requireSubjectOptsByDID _ _ _ _) as [opts|] eqn:Eo; [|done]. cbn [result_bind].
  pose proof (require_scoped _ _ _ _ Hne Eo) as Ho.
  rewrite (scope_latest_advanced _ w1 w2 _ H Ho), (scope_list_advanced _ w1 w2 _ _ H Ho), (scope_summaries _ w1 w2 _ H Ho).
  split_and!; [| |done].
  - destruct (es_GetLatestIndexAdvanced w2 _) as [ix|] eqn:Ei; [|done]. cbn [lift result_bind].
    rewrite (scope_presign _ w1 w2 _ H), (scope_get _ w1 w2 ix H); [done|].
    apply graph_scoped_index. by eapply scoped_latest_advanced.
  - destruct (es_ListIndexesAdvanced w2 _ _) as [l|] eqn:El; [|done].
    rewrite (wrap_loop_agree _ w1 w2 _ _ H). destruct (wrap_loop w2 _ l) as [r|] eqn:Er; [|done]. cbn [result_bind].
    unfold fetch_ListCloudEventsFromIndexes. destruct (is_empty r.2); [done|].
    rewrite (scope_get_all _ w1 w2 r.2 H); [done|]. eapply wrap_loop_pending; [exact Er|].
    eapply Forall_impl; [by eapply scoped_list_advanced|]. intros ix. apply graph_scoped_index.
Qed.
End graph_scope.

(** ** What the privilege gates reveal *)

Section gates.
Context {T : TokenClaims} (signalPrivileges : gmap string (list string)) (ctx : Ctx).


















End gates.

Lemma fold_ranges_bounds {A} (f g : A -> Z) r l :
  (fold_ranges f g r l).1 <= r.1 /\ r.2 <= (fold_ranges f g r l).2 /\
  forall x, x ∈ l -> (fold_ranges f g r l).1 <= f x /\ g x <= (fold_ranges f g r l).2.
Proof.
  revert r. induction l as [|a l IH]; intros r; [split; [done|split; [done|by intros x ?%elem_of_nil]]|].
  change (fold_ranges f g r (a :: l)) with (fold_ranges f g (foldTimeRange r.1 r.2 (f a) (g a)) l).
  destruct (IH (foldTimeRange r.1 r.2 (f a) (g a))) as (H1 & H2 & H3).
  unfold foldTimeRange, before, after in *. cbn [fst snd] in *.
  destruct (Z.ltb_spec (f a) r.1), (Z.ltb_spec r.2 (g a)); split_and!; try lia;
    intros x [->|Hx]%elem_of_cons; try lia; by apply H3.
Qed.

(** C37. The gate does not cover the extent of a summary: the first and last time
    [DataSummary] reports range over every signal of the subject, so they bound the
    times of a signal the token has no privilege for, which the gated list of
    ranges conceals. *)
Theorem summary_extent_ungated {T : TokenClaims} signalPrivileges ctx (sb : SignalBackend) now subject filter_ l ds :
  sb_GetSignalSummaries subject filter_ = Ok l ->
  resolve_DataSummary signalPrivileges now ctx subject filter_ = Ok ds ->
  forall s, s ∈ l ->
    ds_FirstSeen ds <= sds_FirstSeen s /\ sds_LastSeen s <= ds_LastSeen ds /\
    (visible_name signalPrivileges ctx (sds_Name s) = false -> s ∉ ds_SignalDataSummary ds).
Proof.
  unfold resolve_DataSummary, GetDataSummary. intros -> Hds s Hs. cbn [map_err result_bind] in Hds.
  destruct (sb_GetEventSummaries subject) as [ev|]; [|done]. cbn [map_err result_bind] in Hds.
  injection Hds as <-. cbn [ds_FirstSeen ds_LastSeen ds_SignalDataSummary].
  destruct (fold_ranges_bounds sds_FirstSeen sds_LastSeen (now, year1900) l) as (_ & _ & H3).
  destruct (fold_ranges_bounds es_FirstSeen es_LastSeen (fold_ranges sds_FirstSeen sds_LastSeen (now, year1900) l) ev)
    as (H1 & H2 & _).
  destruct (H3 s Hs). split_and!; [lia|lia|]. intros Hv Hin. apply elem_of_list_filter in Hin as [_ Hin].
  by rewrite Hv in Hin.
Qed.

(** ** At a token without location privileges *)

Definition demo_privileges : gmap string (list string) :=
  list_to_map [("speed", ["VEHICLE_NON_LOCATION_DATA"]); ("coordinates", ["VEHICLE_ALL_TIME_LOCATION"])]%string.

Definition speed_ctx : Ctx := mkCtx None (Some (mkClaim "did:a" ["nonlocation"%string])).

Definition summaries_backend (l : list SignalDataSummary) : SignalBackend := {|
  sb_GetAggregatedSignals _ _ := Ok [];
  sb_GetAvailableSignals _ _ := Ok (map sds_Name l);
  sb_GetAllLatestSignals _ _ := Ok [];
  sb_GetLatestSignals _ _ := Ok [];
  sb_GetSignalSummaries _ _ := Ok l;
  sb_GetEventSummaries _ := Ok [];
  sb_GetEvents _ _ _ _ := Ok [];
|}.

Definition speed_summary : SignalDataSummary := mkSignalDataSummary "speed" 4 (100 * Second) (200 * Second).
Definition location_summary : SignalDataSummary := mkSignalDataSummary "coordinates" 9 (50 * Second) (300 * Second).


Example summary_extent_ungated_witness :
  exists ds,
    resolve_DataSummary (T := demo_claims_lib) demo_privileges
      (sb := summaries_backend [location_summary; speed_summary]) (1000 * Second) speed_ctx "did:a" None = Ok ds /\
    ds_FirstSeen ds <= 50 * Second /\ location_summary ∉ ds_SignalDataSummary ds.
Proof.
  eexists. split; [reflexivity|].
  destruct (summary_extent_ungated (T := demo_claims_lib) demo_privileges speed_ctx
    (summaries_backend [location_summary; speed_summary]) (1000 * Second) "did:a" None
    [location_summary; speed_summary] _ eq_refl eq_refl location_summary (list_elem_of_here _ _)) as (H1 & _ & H3).
  split; [exact H1|apply H3; reflexivity].
Defined.

Definition graph_ctx : Ctx := mkCtx None (Some (mkClaim "did:a" ["raw"%string])).

Example graph_noninterference_witness :
  CloudEvents (E := demo_service) (D := demo_did) (T := demo_claims_lib) demo_identity (demo_world demo_events)
    graph_ctx true "did:a" None None =
  CloudEvents (E := demo_service) (D := demo_did) (T := demo_claims_lib) demo_identity (demo_world other_events)
    graph_ctx true "did:a" None None.
Proof.
  apply (graph_noninterference (E := demo_service)
    (S := LakeEventService_scoped (L := demo_lib) (W := demo_lib_laws) (A := toy_aead) true None "bucket" None (fun m => elements (dom m)))
    (D := demo_did) (DW := demo_did_laws) (T := demo_claims_lib) demo_identity graph_ctx
    (demo_world demo_events) (demo_world other_events) true "did:a" None None).
  - intros claim [= <-]. discriminate.
  - split; try reflexivity; by vm_compute.
Defined.
